(* ===== verification/_CoqProject ===== *)
-Q . S2P
Prelude.v
SmallVector.v
IntrusiveList.v
AATree.v
SortedList.v
Time.v
Hook.v
Fiber.v
Worker.v
Waiter.v
Poller.v
SyncBase.v
Sync.v
Mailbox.v
CApi.v
Shared.v
Async.v
Context.v
ArmContext.v
Perf.v
Coro.v
FsmCompile.v
Fsm.v
Util.v
Init.v
Io.v
