(* ===== verification/Prelude.v ===== *)
(** * Verification of libzth

    libzth is a library of cooperative fibers in C++: a worker runs fibers one
    after the other on one thread, a waiter wakes those whose time has come or
    whose file descriptor is ready, and synchronization primitives block and
    unblock them.  This development models the scheduler, the data structures it is
    built on, and the primitives on top of it, and proves them correct.  This file
    holds what the others share: the monad, the tactics and lemmas, and [Runs], the runs of a
    system that the systems of any number of fibers are; it is the root of the library.

    ** Parts, and how they interact

    - SmallVector.v: [small_vector] of include/libzth/util.h, which keeps a few
      elements in its own buffer; it refines [Vec], a list with a capacity.
    - IntrusiveList.v: [Listable] and [List] of include/libzth/list.h, as nodes with
      [prev] and [next] pointers in a heap, with the iterators.
    - AATree.v, SortedList.v: [SortedList] of list.h.  AATree.v is the AA tree as a
      tree, SortedList.v the same operations on nodes in a heap; they are shown to
      agree, and the tree to be the sorted sequence.
    - Time.v: [TimeInterval] and [Timestamp] of include/libzth/time.h, with machine
      arithmetic, and the replacements of [clock_nanosleep] of src/time.cpp.
    - Hook.v: the [Hook]s of include/libzth/fiber.h.
    - Fiber.v: [Fiber], its states and [Fiber::run], of fiber.h, and [Runnable::run]
      of src/fiber.cpp.
    - Worker.v: [Worker] of include/libzth/worker.h: the two queues, [schedule], and
      what moves fibers between the queues.  Its queues are sequences, as
      IntrusiveList.v justifies; its fibers are those of Fiber.v.
    - Waiter.v: [TimedWaitable], [PolledWaiting], [Waiter] and [PeriodicWakeUp] of
      include/libzth/waiter.h and src/waiter.cpp.  The waiter works on the worker of
      Worker.v; its list is sorted by time, as SortedList.v justifies; the poll
      servers are behind the interface [PollerStore].
    - Poller.v: [PollerServer] with [PollPoller], [PollerClient] and [zth::poll] of
      include/libzth/poller.h and src/poller.cpp.  [poll_store_laws] shows that it is
      an instance of [PollerStore].
    - SyncBase.v: [SynchronizerBase] of include/libzth/sync.h, on the worker and the
      waiter: how a fiber gets into a queue and out of it, also with a time-out.
    - Sync.v: [Mutex], [Semaphore], [Signal], [Optional] and [Future] of sync.h;
      Mailbox.v: [Mailbox] and [Gate].  They work on the queues of SyncBase.v alone,
      and are put into systems of any number of fibers that interleave.
    - CApi.v: the C functions of sync.h.
    - Shared.v: [RefCounted] of include/libzth/util.h, and [SharedPointer] and
      [SharedReference] of sync.h.  The classes of the objects, and which shared pointers
      are members of which object, are an instance of the class [Objects].
    - Async.v: [TypedFiber], [fiber_type], the factories and [joiner] of
      include/libzth/async.h.  Its typed fibers (of Fiber.v) and their futures (of Sync.v)
      are the objects of Shared.v; a joiner waits on a gate of Mailbox.v.
    - Context.v: how include/libzth/context/context.h and src/context.cpp make the stack of
      a context, guard it, and measure how far it is used.  ArmContext.v: the guards on
      bare-metal ARM (context/arch_arm.h), on the registers of include/libzth/regs.h; the
      memory protection unit is behind the interface [Mpu].
    - Perf.v: the performance log of include/libzth/perf.h and src/perf.cpp: the buffer
      of events and the strings they own, the VCD file that is written, back-traces.
      It uses the states of Fiber.v, and the time stamps of Time.v.
    - Coro.v: the tasks and generators of include/libzth/coro.h, as state machines
      that hand a fiber over to each other; results are futures of Sync.v.
    - FsmCompile.v: the descriptions of state machines of include/libzth/fsm14.h, and
      [compile], which turns one into a table.
    - Fsm.v: [BasicFsm] and [Fsm], which execute such a table; they wait on the
      signal of Sync.v.
    - Util.v: [cow_string], [formatv], [str] of integers, [UniqueID] and singletons of
      include/libzth/util.h and src/util.cpp.
    - Init.v: the list of functions of [ZTH_INIT_CALL] and [zth_init] (include/libzth/init.h,
      src/init.cpp).
    - Io.v: [read] and [write] of src/io.cpp, which poll with [zth::poll] of Poller.v.

    ** How the code is modelled

    Code that changes state is a function in the monad [M], whose outcome is a value
    and a new state, or the way the program cannot go on: a failing [zth_assert]
    (in the configuration in which it is enabled, [Config]), a null pointer that is
    followed, an abort.  Pointers are [ptr], objects live in finite maps.  Integers
    are [Z] and wrap around with [u8], [u32], [u64], [s32] and [s64] where the code
    relies on their width.  What the code gets from outside is an argument: readings
    of the clock, results of [context_create], of system calls and of memory
    allocation, callbacks.

    A function that gives up the processor is cut in two where it does so
    ([wait]/[wakeup] of the waiter, [poll_start]/[poll_finish], [block_start]/
    [block_finish]); a loop around a blocking call is modelled by what the fiber does
    from the head of the loop.  Recursion that is not structural has fuel:
    the depth of the AA tree (which is logarithmic in its size), the length of the
    queue for [schedule], the number of waitables that are due for the waiter's loop,
    the number of rows for a step of a state machine, the number of readings of the
    clock until the end for [Fsm::run], the number of steps of coroutines, the level of
    its class for deleting an object and what it owns.
    The theorems say that the fuel that the model gives is enough; where a loop of the
    code does not end, as that of [trylock] with a time that has passed, they say so
    for every fuel.

    ** What is shown

    - C1: the intrusive list is a sequence.  IntrusiveList.v also has its queries,
      editing at an iterator, and what decrementing one does.
    - C2-C4, C11, C21: state machines.  Which descriptions compile, and to
      what; a step takes the first enabled transition, as the description says;
      nothing is read outside of the table; push and pop; running until a time ends.
      Fsm.v also has the time-outs and the inputs.
    - C5, C7: the sorted list is the sorted sequence and a balanced tree; SortedList.v
      also has its queries.
    - C6, C9, C12: coroutines.  Running a task computes what its body says, in which
      awaiting is calling; tasks in any number of fibers that interleave are each
      resumed by one fiber only; iterating over a generator sees its sequence.
    - C8: the sum of two intervals is exact, or saturates when it or an operand counts as
      infinite, which is from half of the largest number of seconds on.
      Time.v also has differences of time stamps, the order, sleeping, and the
      conversions from and to counts.
    - C10: shared pointers.  In every run of a program with them, without cycles and without
      moves from what is deleted by that, an object exists as long as it is used, and no
      longer.
    - C26, C36: asynchronous calls, in every run of any number of fibers, in which a fiber
      that was killed in a joiner is not deleted.  Nothing that was deleted is used; who waits
      for a fiber gets what its function returned; when a joiner goes on, what it joined has
      ended.
    - C13, C25: the performance log.  The buffer never overflows, and every string is
      released once; what is written.  Perf.v also shows that the identifiers of
      variables are different.
    - C16, C23: stacks of contexts: size, guards, failing without a trace (but for [getcontext]), giving back; what
      the watermark tells.  C28: the guard that follows the fiber that runs on ARM.
      Both files also have the limits of that.
    - C14, C15, C17: the lives of fibers that run each other, as an automaton of their states;
      suspending and resuming; and the roll-back when one cannot start.  Fiber.v also has the outcomes of running one, Hook.v the
      order and removal of hooks.
    - C18-C20: [schedule] takes the next fiber that can run, in turn, and deletes the dead
      ones that it meets, each once; what moves
      fibers between the queues keeps the worker well-formed.  Worker.v also says what
      [schedule] does without a fiber to run.
    - C22, C24: the waiter wakes exactly what is due, gives up the processor only when nothing
      waits or is polled, and else sleeps until the first that is not due.
      Waiter.v also has a wait from its start to its end, the grid of periodic wake-ups,
      and the replacement of the poll server.
    - C27: blocking and unblocking: who gets into which queue, and nobody is lost; SyncBase.v also has blocking with a time-out.
    - C29-C35: mutual exclusion; conservation of semaphore units; signals; single
      assignment of a future; the order of values in a mailbox; the opening of a gate.
      These hold in every run of any number of fibers, for every interleaving.
    - C37: what the C functions report; CApi.v also has their handling of handles.
    - C38: the small vector.
    - C39-C40: the poll server; the poll of a client, what it reports, and whom it wakes.

    - Without a number: in Util.v, that a [cow_string] is a string, that [formatv] gives the
      whole text however small its first buffer is, that the digits of large numbers can be
      read again, that unique ids stay unique in every run, and that the instance of a
      singleton exists, also per thread; in Init.v, that functions are executed once and in order; in Io.v, that
      a call that could block is only made after the poller reported the descriptor.

    A number of theorems state where the code does less than one would expect: C3, C8,
    C11, C15, C17, C25, C30-C32, C34, C37, C39 and C40, and the theorems
    on time-outs of a state machine, on moving a shared pointer to itself or from a
    member of its object, on joining a fiber that has ended, on a joiner that is killed, on waiting for a fiber that
    is killed, on blocking with a time-out, on stacks of small and of very large sizes, on
    decrementing an iterator, on counts, on [schedule] without a fiber, on
    replacing the poll server, on hooks, on running a task twice, on the last value and
    the assigned mailbox of a generator, on empty log lines and on deep back-traces, on
    initialization functions that register others, on reading from a pipe that was closed,
    on the text of a unique id that is moved, and on a second singleton.

    ** Not modelled

    Saving and restoring registers, and the ways a context is entered (context/*.h): for
    Fiber.v, creating a context is a parameter, and switching is the outcome of
    [Fiber::run].  Threads, processes and signals of worker.cpp.
    Logging, printing and allocators (util.h, allocator.h), formatting of floating-point
    numbers, and what [vsnprintf] writes.  [main], and the constants of config.h.  The
    [ZmqPoller] and the rest of the ZeroMQ binding.  Floating-point conversions of time.  Of the state machines, the
    output as text, and classes that override [enter], [leave] or [pop].  Of the
    coroutines, their frames in memory, and calls of [run] or [generate] by a coroutine.
    Of the performance log, the load and rate of events, which are in floating point,
    and the names of symbols in a back-trace.  Of the asynchronous calls, the templates
    that derive types, the variants for C++98, names and macros; a call of the function is
    one step, of which the result is given. *)

From stdpp Require Import base gmap list strings.
From Stdlib Require Import ZArith Lia.

(** ** Faults and outcomes

    A run of the code ends normally or in one of the ways the C++ program
    cannot continue: [zth_assert] fired, a null (or dangling) pointer was
    dereferenced, [zth_abort] was called.  [OutOfFuel] is a bound of the model
    only; the theorems show it is not reached. *)
Inductive fault := AssertFailed | NullDeref | Aborted | OutOfFuel.

Inductive outcome (A : Type) :=
| Ok (a : A)
| Fault (f : fault).
Arguments Ok {A} a.
Arguments Fault {A} f.

#[export] Instance fault_eq_dec : EqDecision fault.
Proof. solve_decision. Defined.

(** ** A state monad with faults *)
Definition M (S A : Type) : Type := S → outcome (A * S).

#[export] Instance M_ret (S : Type) : MRet (M S) := λ A a s, Ok (a, s).
#[export] Instance M_bind (S : Type) : MBind (M S) := λ A B f m s,
  match m s with
  | Ok (a, s') => f a s'
  | Fault e => Fault e
  end.

Definition get {S : Type} : M S S := λ s, Ok (s, s).
Definition put {S : Type} (s : S) : M S unit := λ _, Ok (tt, s).
Definition modify {S : Type} (f : S → S) : M S unit := λ s, Ok (tt, f s).
Definition gets {S A : Type} (f : S → A) : M S A := λ s, Ok (f s, s).
Definition fail {S A : Type} (e : fault) : M S A := λ _, Fault e.

(** ** Build configuration (libzth/config.h)

    [EnableAssert] is false in release builds, in which [zth_assert] does
    nothing and the bookkeeping under [if(Config::EnableAssert)] is skipped. *)
Class Config := {
  EnableAssert : bool;
  CheckTimesliceOverrun : bool;
}.

Definition zth_assert `{Config} {S : Type} (b : bool) : M S unit :=
  if EnableAssert && negb b then fail AssertFailed else mret tt.

(** The asserted expression runs code of its own. *)
Definition zth_assert_m `{Config} {S : Type} (m : M S bool) : M S unit :=
  if EnableAssert then m ≫= λ b : bool, zth_assert b else mret tt.

Definition when {S : Type} (b : bool) (m : M S unit) : M S unit :=
  if b then m else mret tt.

(** ** Addresses

    An object's address is a positive number; a pointer is an address or
    [nullptr]. *)
Abbreviation addr := positive.
Abbreviation ptr := (option positive).
Abbreviation nullptr := (@None positive).

Definition ptr_eqb (p q : ptr) : bool := bool_decide (p = q).

(** Unfolding the monad at a concrete state. *)
Lemma bind_Ok {S A B : Type} (m : M S A) (f : A → M S B) (s s' : S) (a : A) :
  m s = Ok (a, s') → (m ≫= f) s = f a s'.
Proof. intros E. unfold mbind, M_bind. by rewrite E. Qed.

Lemma bind_Fault {S A B : Type} (m : M S A) (f : A → M S B) (s : S) e :
  m s = Fault e → (m ≫= f) s = Fault e.
Proof. intros E. unfold mbind, M_bind. by rewrite E. Qed.

Lemma bind_ret {S A B : Type} (a : A) (f : A → M S B) (s : S) :
  (mret a ≫= f) s = f a s.
Proof. done. Qed.

Lemma bind_assoc {S A B C : Type} (m : M S A) (f : A → M S B) (g : B → M S C) (s : S) :
  ((m ≫= f) ≫= g) s = (m ≫= λ x, f x ≫= g) s.
Proof. unfold mbind, M_bind. by destruct (m s) as [[]|]. Qed.

Lemma bind_eq {S B C : Type} (c c' : M S B) (k : B → M S C) s : c s = c' s → (c ≫= k) s = (c' ≫= k) s.
Proof. intros E. unfold mbind, M_bind. by rewrite E. Qed.

(** Three steps at once. *)
Lemma bind_three {S A B C D : Type} (m1 : M S A) (m2 : M S B) (m3 : M S C) (k : M S D) (s s' : S) (c : C) :
  (m1;; m2;; m3) s = Ok (c, s') → (m1;; m2;; m3;; k) s = k s'.
Proof.
  unfold mbind, M_bind. destruct (m1 s) as [[]|]; [|done]. destruct (m2 _) as [[]|]; [|done]. by intros ->.
Qed.

Lemma zth_assert_true `{Config} {S : Type} (b : bool) (s : S) :
  b = true → zth_assert b s = Ok (tt, s).
Proof. intros ->. unfold zth_assert. by rewrite andb_false_r. Qed.

Lemma zth_assert_false `{Config} {S : Type} (b : bool) (s : S) :
  EnableAssert = true → b = false → zth_assert b s = Fault AssertFailed.
Proof. intros A ->. unfold zth_assert. by rewrite A. Qed.

Lemma zth_assert_guard `{Config} {S : Type} (b : bool) (s : S) :
  (EnableAssert = true → b = true) → zth_assert b s = Ok (tt, s).
Proof. intros E. unfold zth_assert. destruct EnableAssert; [by rewrite E | done]. Qed.

Lemma zth_assert_m_true `{Config} {S : Type} (m : M S bool) (s : S) :
  m s = Ok (true, s) → zth_assert_m m s = Ok (tt, s).
Proof.
  intros E. unfold zth_assert_m. destruct EnableAssert; [|done].
  rewrite (bind_Ok _ _ _ _ _ E). by apply zth_assert_true.
Qed.

Lemma ptr_eqb_true (p q : ptr) : ptr_eqb p q = true ↔ p = q.
Proof. apply bool_decide_eq_true. Qed.

Lemma ptr_eqb_refl (p : ptr) : ptr_eqb p p = true.
Proof. by apply ptr_eqb_true. Qed.

Lemma ptr_eqb_false (p q : ptr) : ptr_eqb p q = false ↔ p ≠ q.
Proof. apply bool_decide_eq_false. Qed.

(** ** Automation *)
Create HintDb zth.
#[export] Hint Resolve zth_assert_true zth_assert_guard zth_assert_m_true : zth.

(** ** Lists *)
Lemma NoDup_snoc {A : Type} (l : list A) (e : A) : NoDup l → e ∉ l → NoDup (l ++ [e]).
Proof.
  intros Hl He. apply NoDup_app. split; [done|]. split; [set_solver|apply NoDup_singleton].
Qed.

Lemma NoDup_rot {A : Type} (l1 l2 : list A) : NoDup (l1 ++ l2) → NoDup (l2 ++ l1).
Proof. by rewrite Permutation_app_comm. Qed.

Lemma elem_app_l {A : Type} (x : A) (l1 l2 : list A) : x ∈ l1 → x ∈ l1 ++ l2.
Proof. rewrite elem_of_app. auto. Qed.

Lemma elem_app_r {A : Type} (x : A) (l1 l2 : list A) : x ∈ l2 → x ∈ l1 ++ l2.
Proof. rewrite elem_of_app. auto. Qed.

Lemma elem_here {A : Type} (x : A) (l : list A) : x ∈ x :: l.
Proof. apply list_elem_of_here. Qed.

Lemma elem_further {A : Type} (x y : A) (l : list A) : x ∈ l → x ∈ y :: l.
Proof. apply list_elem_of_further. Qed.

#[export] Hint Resolve elem_app_l elem_app_r elem_here elem_further : zth.

(** The two build configurations of config.h: without and with [NDEBUG]. *)
Definition debug_config : Config := {| EnableAssert := true; CheckTimesliceOverrun := true |}.
Definition release_config : Config := {| EnableAssert := false; CheckTimesliceOverrun := false |}.

(** Removing the one occurrence of [e]. *)
Lemma filter_absent (e : addr) (l : list addr) : e ∉ l → filter (λ x, x ≠ e) l = l.
Proof.
  induction l as [|a l IH]; [done|]. intros He. rewrite filter_cons_True by set_solver.
  f_equal. apply IH. set_solver.
Qed.

Lemma filter_all {A : Type} (Q : A → Prop) `{!∀ x, Decision (Q x)} (l : list A) : (∀ x, x ∈ l → Q x) → filter Q l = l.
Proof.
  induction l as [|x l IH]; intros F; [done|]. rewrite filter_cons_True by auto with zth. by rewrite IH by auto with zth.
Qed.

Lemma filter_none {A : Type} (Q : A → Prop) `{!∀ x, Decision (Q x)} (l : list A) : (∀ x, x ∈ l → ¬ Q x) → filter Q l = [].
Proof.
  induction l as [|x l IH]; intros F; [done|]. rewrite filter_cons_False by auto with zth. apply IH. auto with zth.
Qed.

Lemma NoDup_middle_inv {A : Type} {l1 : list A} {e l2} : NoDup (l1 ++ e :: l2) → e ∉ l1 ++ l2.
Proof. rewrite <-Permutation_middle. by intros [? _]%NoDup_cons. Qed.

Lemma filter_removed (e : addr) l1 l2 :
  NoDup (l1 ++ e :: l2) → filter (λ x, x ≠ e) (l1 ++ e :: l2) = l1 ++ l2.
Proof.
  intros Hnd%NoDup_middle_inv. rewrite filter_app, filter_cons_False by tauto.
  by rewrite !filter_absent by set_solver.
Qed.

Lemma head_elem (l : list addr) a : head l = Some a → a ∈ l.
Proof. destruct l; [done|]. intros [= ->]. set_solver. Qed.

Lemma last_elem (l : list addr) z : last l = Some z → z ∈ l.
Proof. intros (k & ->)%last_Some. set_solver. Qed.

(** ** Runs

    Runs of a labelled system; the labels are what the fibers do, in the order
    in which they get to it. *)
Module Runs.
Section Runs.
Context {S L : Type} (enabled : L → S → bool) (step : L → M S unit).

Fixpoint run (ls : list L) : M S unit :=
  match ls with [] => mret tt | l :: ls => step l;; run ls end.

(** Every step is one that the fibers can take. *)
Fixpoint legal (ls : list L) (s : S) : Prop :=
  match ls with
  | [] => True
  | l :: ls => enabled l s = true ∧ match step l s with Ok (_, s') => legal ls s' | Fault _ => True end
  end.

Fixpoint legalb (ls : list L) (s : S) : bool :=
  match ls with
  | [] => true
  | l :: ls => enabled l s && match step l s with Ok (_, s') => legalb ls s' | Fault _ => true end
  end.

Lemma legalb_legal ls s : legalb ls s = true → legal ls s.
Proof.
  revert s. induction ls as [|l ls IH]; intros s; simpl; [done|]. intros [E Lg]%andb_true_iff. split; [done|].
  destruct (step l s) as [[? s']|]; auto.
Qed.

Lemma run_invariant (Q : L → Prop) (I : S → Prop) ls s :
  (∀ l s, Q l → I s → enabled l s = true → ∃ s', step l s = Ok (tt, s') ∧ I s') →
  I s → Forall Q ls → legal ls s → ∃ s', run ls s = Ok (tt, s') ∧ I s'.
Proof.
  intros P. revert s. induction ls as [|l ls IH]; intros s Hs; simpl; [by exists s|].
  intros [Ql Qs]%Forall_cons [E Lg]. destruct (P l s Ql Hs E) as (s' & R & Hs'). rewrite R in Lg.
  rewrite (bind_Ok _ _ _ _ _ R). by apply IH.
Qed.

Lemma run_always (I : S → Prop) ls s :
  (∀ l s, I s → enabled l s = true → ∃ s', step l s = Ok (tt, s') ∧ I s') →
  I s → legal ls s → ∃ s', run ls s = Ok (tt, s') ∧ I s'.
Proof. intros P Hs. apply (run_invariant (λ _, True)); [eauto|done|by apply Forall_forall]. Qed.
End Runs.
End Runs.

(** ** Machine integers

    Unsigned arithmetic wraps; [u8], [u32] and [u64] cut a result down to the
    width of [uint8_t], [unsigned int] and [size_t]/[uint64_t]; [s64] is the
    signed 64-bit [time_t] and [long]. *)
Definition u8 (z : Z) : Z := z `mod` 2 ^ 8.
Definition u32 (z : Z) : Z := z `mod` 2 ^ 32.
Definition u64 (z : Z) : Z := z `mod` 2 ^ 64.
Definition s32 (z : Z) : Z := (z + 2 ^ 31) `mod` 2 ^ 32 - 2 ^ 31.
Definition s64 (z : Z) : Z := (z + 2 ^ 63) `mod` 2 ^ 64 - 2 ^ 63.

Lemma u8_small z : (0 ≤ z < 256)%Z → u8 z = z.
Proof. intros. unfold u8. apply Z.mod_small. lia. Qed.

Lemma u32_small z : (0 ≤ z < 2 ^ 32)%Z → u32 z = z.
Proof. intros. unfold u32. by apply Z.mod_small. Qed.

Lemma u64_small z : (0 ≤ z < 2 ^ 64)%Z → u64 z = z.
Proof. intros. unfold u64. by apply Z.mod_small. Qed.

Lemma s32_small z : (- 2 ^ 31 ≤ z < 2 ^ 31)%Z → s32 z = z.
Proof. intros. unfold s32. rewrite Z.mod_small; lia. Qed.

Lemma s64_small z : (- 2 ^ 63 ≤ z < 2 ^ 63)%Z → s64 z = z.
Proof. intros. unfold s64. rewrite Z.mod_small; lia. Qed.
