(* ===== verification/SmallVector.v ===== *)
(** * Small vector (libzth/util.h)

    A vector that keeps up to [prealloc] elements in its own buffer, and moves them
    to a [std::vector] in the same buffer when there are more.  It is shown to
    behave as a list with a capacity, [Vec], which is how Poller.v uses it. *)

From stdpp Require Import base list.
From S2P Require Import Prelude.

Set Default Proof Using "Type".

(** ** The interface: a list, and for how many elements there is memory

    [ok] tells whether the allocation that an operation needs, if any, succeeds;
    an operation that may throw [std::bad_alloc] returns [false] when it does. *)

Record Vec {A : Type} := mkVec { contents : list A; cap : nat }.
Arguments Vec : clear implicits.
Arguments mkVec {A}.

(** ** [std::vector], as the standard promises it; how much it grows is up to
    [grow]. *)
Section StdVector.
Context {A : Type} (grow : nat → nat).

Definition vector_reserve (ok : bool) (n : nat) (v : Vec A) : option (Vec A) :=
  if (n <=? cap v)%nat then Some v else if ok then Some (mkVec (contents v) (n `max` grow n)) else None.

Definition vector_push_back (ok : bool) (x : A) (v : Vec A) : option (Vec A) :=
  v ← vector_reserve ok (S (length (contents v))) v; Some (mkVec (contents v ++ [x]) (cap v)).

Definition vector_resize (ok : bool) (n : nat) (x : A) (v : Vec A) : option (Vec A) :=
  v ← vector_reserve ok n v; Some (mkVec (resize n x (contents v)) (cap v)).
End StdVector.

(** ** The small vector *)

(** [sizeof(vector_type)], on the 64-bit platforms. *)
Definition vector_size : nat := 24.

(** The elements for which the buffer has room, of the [Prealloc] ones that are
    asked for; an element has [sizeof] bytes. *)
Definition prealloc_of (Prealloc sizeof : nat) : nat := (Prealloc * sizeof) `max` vector_size / sizeof.

(** What [m_buffer] holds. *)
Inductive buffer (A : Type) := InArray (l : list A) | InVector (v : Vec A).
Arguments InArray {A}.
Arguments InVector {A}.

Record SV {A : Type} := mkSV { m_buffer : buffer A; m_size : nat }.
Arguments SV : clear implicits.
Arguments mkSV {A}.

Section SmallVector.
Context `{Config} {A : Type} (prealloc : nat) (grow : nat → nat).

Abbreviation V := (SV A).

Definition sv_new : V := mkSV (InArray []) 0.

Definition is_small (v : V) : bool := (m_size v <=? prealloc)%nat.

(** The buffer seen as the one or the other. *)
Definition array : M V (list A) :=
  v ← get;
  zth_assert (is_small v);;
  match m_buffer v with InArray l => mret l | InVector _ => fail NullDeref end.
Definition vector : M V (Vec A) :=
  v ← get;
  zth_assert (negb (is_small v));;
  match m_buffer v with InVector w => mret w | InArray _ => fail NullDeref end.
Definition set_array (l : list A) : M V unit := put (mkSV (InArray l) (length l)).
Definition set_vector (w : Vec A) : M V unit := v ← get; put (mkSV (InVector w) (m_size v)).

(** An operation of the vector that may throw. *)
Definition on_vector (op : Vec A → option (Vec A)) : M V bool :=
  w ← vector;
  match op w with Some w => set_vector w;; mret true | None => mret false end.

Definition sv_data : M V (list A) :=
  v ← get; if is_small v then array else w ← vector; mret (contents w).
Definition sv_size : M V nat := v ← get; if is_small v then mret (m_size v) else w ← vector; mret (length (contents w)).
Definition sv_empty : M V bool := v ← get; if is_small v then mret (m_size v =? 0)%nat else w ← vector; mret (length (contents w) =? 0)%nat.
Definition sv_capacity : M V nat := v ← get; if is_small v then mret prealloc else w ← vector; mret (cap w).

(** [operator[]]; the element itself is read or changed by the caller. *)
Definition sv_at (i : nat) : M V A :=
  n ← sv_size;
  zth_assert (i <? n)%nat;;
  l ← sv_data;
  match l !! i with Some x => mret x | None => fail NullDeref end.
Definition sv_set (i : nat) (x : A) : M V unit :=
  sv_at i;;
  v ← get;
  match m_buffer v with
  | InArray l => put (mkSV (InArray (<[i:=x]> l)) (m_size v))
  | InVector w => put (mkSV (InVector (mkVec (<[i:=x]> (contents w)) (cap w))) (m_size v))
  end.
Definition sv_front : M V A := sv_at 0.
Definition sv_back : M V A := e ← sv_empty; zth_assert (negb e);; n ← sv_size; sv_at (n - 1).

(** The elements move one by one into the new vector, for which the memory was
    reserved. *)
Definition make_vector (ok : bool) (new_cap : nat) : M V bool :=
  v ← get;
  if negb (is_small v) then mret true
  else
    match vector_reserve grow ok (new_cap `max` m_size v) (mkVec [] 0) with
    | None => mret false
    | Some w =>
        l ← array;
        match foldl (λ o x, o ≫= vector_push_back grow false x) (Some w) l with
        | None => fail Aborted
        | Some w => put (mkSV (InVector w) (S prealloc));; mret true
        end
    end.

Definition sv_reserve (ok : bool) (new_cap : nat) : M V bool :=
  v ← get;
  if is_small v && (new_cap <=? prealloc)%nat then mret true
  else
    r ← (if is_small v then make_vector ok new_cap else mret true);
    if r : bool then on_vector (vector_reserve grow ok new_cap) else mret false.

Definition sv_push_back (ok : bool) (x : A) : M V bool :=
  n ← sv_size;
  r ← sv_reserve ok (n + 1);
  if r : bool then
    v ← get;
    if (m_size v <? prealloc)%nat then l ← array; set_array (l ++ [x]);; mret true
    else on_vector (vector_push_back grow ok x)
  else mret false.

Definition sv_pop_back : M V unit :=
  e ← sv_empty;
  zth_assert (negb e);;
  v ← get;
  if is_small v then l ← array; set_array (take (length l - 1) l)
  else w ← vector; set_vector (mkVec (take (length (contents w) - 1) (contents w)) (cap w)).

Definition sv_resize (ok : bool) (count : nat) (x : A) : M V bool :=
  v ← get;
  if is_small v then
    l ← array;
    set_array (take count l);;
    if (count <=? prealloc)%nat then
      l ← array; set_array (resize count x l);; mret true
    else
      r ← make_vector ok count;
      if r : bool then on_vector (vector_resize grow ok count x) else mret false
  else on_vector (vector_resize grow ok count x).

(** [clear] and [clear_and_release]: no new elements, so nothing is copied. *)
Definition sv_clear : M V unit :=
  v ← get;
  if is_small v then l ← array; set_array (take 0 l)
  else w ← vector; set_vector (mkVec [] (cap w)).

Definition sv_clear_and_release : M V unit :=
  v ← get;
  if is_small v then l ← array; set_array (take 0 l) else vector;; set_vector (mkVec [] 0).

(** ** What it stands for *)

Definition vec_of (v : V) : Vec A :=
  match m_buffer v with InArray l => mkVec l prealloc | InVector w => w end.

(** [m_size] tells what is in the buffer. *)
Definition wf (v : V) : Prop :=
  match m_buffer v with
  | InArray l => m_size v = length l ∧ (length l ≤ prealloc)%nat
  | InVector w => m_size v = S prealloc ∧ (length (contents w) ≤ cap w)%nat
  end.

Abbreviation elems v := (contents (vec_of v)).

(** An operation that makes the elements [l], and needs room for [need] of them:
    it does so without losing capacity, or throws and changes nothing, which it
    does only when there was no room and no memory. *)
Record grown (ok : bool) (need : nat) (l : list A) (v : V) (b : bool) (v' : V) : Prop := {
  grown_wf : wf v';
  grown_ok : b = true → elems v' = l ∧ (need ≤ cap (vec_of v'))%nat ∧ (cap (vec_of v) ≤ cap (vec_of v'))%nat;
  grown_thrown : b = false → v' = v ∧ ok = false ∧ (cap (vec_of v) < need)%nat
}.

Lemma wf_cases v :
  wf v → (∃ l, v = mkSV (InArray l) (length l) ∧ (length l ≤ prealloc)%nat ∧ is_small v = true) ∨
         (∃ w, v = mkSV (InVector w) (S prealloc) ∧ (length (contents w) ≤ cap w)%nat ∧ is_small v = false).
Proof.
  destruct v as [[l|w] n]; unfold wf, is_small; simpl; intros [-> L]; [left|right]; eexists; split_and!; try done.
  - by apply Nat.leb_le.
  - by apply Nat.leb_gt, Nat.lt_succ_diag_r.
Qed.

Lemma wf_length v : wf v → (length (elems v) ≤ cap (vec_of v))%nat.
Proof. intros [(l & -> & L & _)|(w & -> & L & _)]%wf_cases; done. Qed.

Lemma array_run l : (length l ≤ prealloc)%nat → array (mkSV (InArray l) (length l)) = Ok (l, mkSV (InArray l) (length l)).
Proof. intros L. unfold array. erewrite bind_Ok by reflexivity. erewrite bind_Ok; [done|]. by apply zth_assert_true, Nat.leb_le. Qed.

Lemma vector_run w : vector (mkSV (InVector w) (S prealloc)) = Ok (w, mkSV (InVector w) (S prealloc)).
Proof.
  unfold vector. erewrite bind_Ok by reflexivity. erewrite bind_Ok; [done|].
  apply zth_assert_true, negb_true_iff, Nat.leb_gt, Nat.lt_succ_diag_r.
Qed.

(** Reading through either representation. *)
Lemma either_run {B : Type} (m1 m2 : V → M V B) (g : V → B) v :
  wf v →
  (∀ l, v = mkSV (InArray l) (length l) → (length l ≤ prealloc)%nat → m1 v v = Ok (g v, v)) →
  (∀ w, v = mkSV (InVector w) (S prealloc) → m2 v v = Ok (g v, v)) →
  (v ← get; if is_small v then m1 v else m2 v) v = Ok (g v, v).
Proof.
  intros W H1 H2. erewrite bind_Ok by reflexivity.
  destruct (wf_cases v W) as [(l & E & L & S)|(w & E & L & S)]; rewrite S; eauto.
Qed.

Lemma sv_size_run v : wf v → sv_size v = Ok (length (elems v), v).
Proof.
  intros W. apply (either_run (λ v, mret (m_size v)) (λ _, w ← vector; mret (length (contents w))) (λ v, length (elems v)) v W).
  - by intros l -> L.
  - intros w ->. by rewrite (bind_Ok _ _ _ _ _ (vector_run w)).
Qed.

Lemma sv_empty_run v : wf v → sv_empty v = Ok ((length (elems v) =? 0)%nat, v).
Proof.
  intros W. apply (either_run (λ v, mret (m_size v =? 0)%nat) (λ _, w ← vector; mret (length (contents w) =? 0)%nat)
    (λ v, (length (elems v) =? 0)%nat) v W).
  - by intros l -> L.
  - intros w ->. by rewrite (bind_Ok _ _ _ _ _ (vector_run w)).
Qed.

Lemma sv_data_run v : wf v → sv_data v = Ok (elems v, v).
Proof.
  intros W. apply (either_run (λ _, array) (λ _, w ← vector; mret (contents w)) (λ v, elems v) v W).
  - intros l -> L. by apply array_run.
  - intros w ->. by rewrite (bind_Ok _ _ _ _ _ (vector_run w)).
Qed.

Lemma sv_capacity_run v : wf v → sv_capacity v = Ok (cap (vec_of v), v).
Proof.
  intros W. apply (either_run (λ _, mret prealloc) (λ _, w ← vector; mret (cap w)) (λ v, cap (vec_of v)) v W).
  - by intros l -> L.
  - intros w ->. by rewrite (bind_Ok _ _ _ _ _ (vector_run w)).
Qed.

Lemma sv_at_run v i x : wf v → elems v !! i = Some x → sv_at i v = Ok (x, v).
Proof.
  intros W E. unfold sv_at. rewrite (bind_Ok _ _ _ _ _ (sv_size_run v W)).
  erewrite bind_Ok by (apply zth_assert_true, Nat.ltb_lt; by apply lookup_lt_is_Some_1).
  by rewrite (bind_Ok _ _ _ _ _ (sv_data_run v W)), E.
Qed.

Lemma sv_set_run v i x y :
  wf v → elems v !! i = Some y → ∃ v', sv_set i x v = Ok (tt, v') ∧ wf v' ∧ vec_of v' = mkVec (<[i:=x]> (elems v)) (cap (vec_of v)).
Proof.
  intros W E. unfold sv_set. rewrite (bind_Ok _ _ _ _ _ (sv_at_run v i y W E)). erewrite bind_Ok by reflexivity.
  destruct (wf_cases v W) as [(l & -> & L & S)|(w & -> & L & S)]; simpl.
  - eexists. split; [reflexivity|]. unfold wf. simpl. by rewrite length_insert.
  - eexists. split; [reflexivity|]. unfold wf. simpl. by rewrite length_insert.
Qed.

(** *** Growing *)

Lemma vector_reserve_spec ok n (w : Vec A) :
  match vector_reserve grow ok n w with
  | Some w' => contents w' = contents w ∧ (n ≤ cap w')%nat ∧ (cap w ≤ cap w')%nat
  | None => ok = false ∧ (cap w < n)%nat
  end.
Proof. unfold vector_reserve. destruct (Nat.leb_spec n (cap w)); [done|]. destruct ok; simpl; [split_and!; [done|lia|lia]|done]. Qed.

Lemma moved_in l (w : Vec A) :
  (length (contents w) + length l ≤ cap w)%nat →
  foldl (λ o x, o ≫= vector_push_back grow false x) (Some w) l = Some (mkVec (contents w ++ l) (cap w)).
Proof.
  revert w. induction l as [|x l IH]; intros w L; simpl in *; [rewrite app_nil_r; by destruct w|].
  unfold vector_push_back at 2, vector_reserve. rewrite (proj2 (Nat.leb_le _ _)) by lia. simpl.
  rewrite IH by (simpl; rewrite length_app; simpl; lia). simpl. by rewrite <-(assoc_L (++)).
Qed.

Lemma make_vector_run ok n l :
  (length l ≤ prealloc)%nat →
  let v := mkSV (InArray l) (length l) in
  (∃ w, make_vector ok n v = Ok (true, mkSV (InVector w) (S prealloc)) ∧ contents w = l ∧ (n ≤ cap w)%nat ∧
     (length l ≤ cap w)%nat) ∨
  (make_vector ok n v = Ok (false, v) ∧ ok = false).
Proof.
  intros L v. unfold make_vector. erewrite bind_Ok by reflexivity.
  assert (is_small v = true) as -> by by apply Nat.leb_le. cbn [negb].
  pose proof (vector_reserve_spec ok (n `max` m_size v) (mkVec [] 0)) as R.
  destruct (vector_reserve grow ok _ _) as [w|]; [left|right; by destruct R].
  destruct R as (R1 & R2 & _). simpl in R1, R2. exists (mkVec l (cap w)).
  rewrite (bind_Ok _ _ _ _ _ (array_run l L)), moved_in by (rewrite R1; simpl; lia). rewrite R1. simpl.
  split_and!; [done|done|lia|lia].
Qed.

Lemma on_vector_run op w w' :
  op w = Some w' → on_vector op (mkSV (InVector w) (S prealloc)) = Ok (true, mkSV (InVector w') (S prealloc)).
Proof. intros E. unfold on_vector. by rewrite (bind_Ok _ _ _ _ _ (vector_run w)), E. Qed.

Lemma on_vector_thrown op w :
  op w = None → on_vector op (mkSV (InVector w) (S prealloc)) = Ok (false, mkSV (InVector w) (S prealloc)).
Proof. intros E. unfold on_vector. by rewrite (bind_Ok _ _ _ _ _ (vector_run w)), E. Qed.

Lemma sv_reserve_run ok n v :
  wf v → ∃ b v', sv_reserve ok n v = Ok (b, v') ∧ grown ok n (elems v) v b v'.
Proof.
  intros W. unfold sv_reserve. erewrite bind_Ok by reflexivity.
  destruct (wf_cases v W) as [(l & -> & L & S)|(w & -> & L & S)]; rewrite S; simpl.
  - destruct (Nat.leb_spec n prealloc) as [Le|Gt].
    { eexists _, _. split; [reflexivity|]. constructor; [done|by intros|done]. }
    destruct (make_vector_run ok n l L) as [(w & R & E & Cn & Cl)|[R E]].
    + rewrite (bind_Ok _ _ _ _ _ R). cbn beta iota.
      erewrite on_vector_run by (unfold vector_reserve; by rewrite (proj2 (Nat.leb_le _ _))).
      eexists _, _. split; [reflexivity|]. constructor; [unfold wf; simpl; rewrite E; lia|intros _; unfold vec_of; simpl; split_and!; [done|done|lia]|done].
    + rewrite (bind_Ok _ _ _ _ _ R). eexists _, _. split; [reflexivity|]. by constructor.
  - erewrite bind_Ok by reflexivity. pose proof (vector_reserve_spec ok n w) as R.
    destruct (vector_reserve grow ok n w) as [w'|] eqn:E.
    + rewrite (on_vector_run _ _ _ E). destruct R as (R1 & R2 & R3). eexists _, _. split; [reflexivity|].
      constructor; [unfold wf; simpl; rewrite R1; lia|by intros|done].
    + rewrite (on_vector_thrown _ _ E). eexists _, _. split; [reflexivity|]. by constructor.
Qed.
Lemma sv_push_back_run ok x v :
  wf v → ∃ b v', sv_push_back ok x v = Ok (b, v') ∧ grown ok (S (length (elems v))) (elems v ++ [x]) v b v'.
Proof.
  intros W. unfold sv_push_back. rewrite (bind_Ok _ _ _ _ _ (sv_size_run v W)), Nat.add_1_r.
  destruct (sv_reserve_run ok (S (length (elems v))) v W) as (b & v1 & R & [W1 G1 G2]).
  rewrite (bind_Ok _ _ _ _ _ R). destruct b; [|by eexists _, _].
  destruct (G1 eq_refl) as (E & C & C'). erewrite bind_Ok by reflexivity.
  destruct (wf_cases v1 W1) as [(l & -> & L & S)|(w & -> & L & S)]; unfold vec_of in *; simpl in *.
  - rewrite (proj2 (Nat.ltb_lt _ _)) by (rewrite E; lia). rewrite (bind_Ok _ _ _ _ _ (array_run l L)).
    eexists _, _. split; [reflexivity|]. constructor; [unfold wf; simpl; rewrite length_app, E; simpl; lia| |done].
    intros _. unfold vec_of. simpl. by rewrite E.
  - rewrite (proj2 (Nat.ltb_ge _ _)) by lia.
    erewrite on_vector_run by (unfold vector_push_back, vector_reserve; by rewrite E, (proj2 (Nat.leb_le _ _))).
    eexists _, _. split; [reflexivity|]. constructor; [unfold wf; simpl; rewrite length_app, E; simpl; lia| |done].
    intros _. unfold vec_of. simpl. by rewrite E.
Qed.

Lemma sv_resize_run ok n x v :
  wf v → ∃ b v', sv_resize ok n x v = Ok (b, v') ∧ grown ok n (resize n x (elems v)) v b v'.
Proof.
  intros W. unfold sv_resize. erewrite bind_Ok by reflexivity.
  assert (∀ (w : Vec A), (length (contents w) ≤ cap w)%nat → ∃ b v',
    on_vector (vector_resize grow ok n x) (mkSV (InVector w) (S prealloc)) = Ok (b, v') ∧
    grown ok n (resize n x (contents w)) (mkSV (InVector w) (S prealloc)) b v') as V.
  { intros w L. pose proof (vector_reserve_spec ok n w) as R. destruct (vector_reserve grow ok n w) as [w'|] eqn:E.
    - destruct R as (R1 & R2 & R3).
      erewrite on_vector_run by (unfold vector_resize; by rewrite E). eexists _, _. split; [reflexivity|].
      constructor; [unfold wf; simpl; by rewrite length_resize|intros _; unfold vec_of; simpl; by rewrite R1|done].
    - erewrite on_vector_thrown by (unfold vector_resize; by rewrite E). eexists _, _. split; [reflexivity|]. by constructor. }
  destruct (wf_cases v W) as [(l & -> & L & Sm)|(w & -> & L & Sm)]; rewrite Sm; [|by apply V].
  rewrite (bind_Ok _ _ _ _ _ (array_run l L)). erewrite bind_Ok by reflexivity.
  assert (length (take n l) ≤ prealloc)%nat as L' by (rewrite length_take; lia).
  destruct (Nat.leb_spec n prealloc) as [Le|Gt].
  - rewrite (bind_Ok _ _ _ _ _ (array_run (take n l) L')). eexists _, _. split; [reflexivity|].
    constructor; [unfold wf; simpl; by rewrite length_resize| |done].
    intros _. unfold vec_of. simpl. split_and!; [|done|done].
    destruct (Nat.le_gt_cases n (length l)).
    + by rewrite !resize_le, take_take, Nat.min_id by (rewrite ?length_take; lia).
    + by rewrite (take_ge l) by lia.
  - rewrite take_ge by lia. destruct (make_vector_run ok n l L) as [(w & R & E & Cn & Cl)|[R E]].
    + rewrite (bind_Ok _ _ _ _ _ R). cbn beta iota.
      erewrite on_vector_run by (unfold vector_resize, vector_reserve; by rewrite (proj2 (Nat.leb_le _ _))).
      eexists _, _. split; [reflexivity|]. constructor; [unfold wf; simpl; by rewrite length_resize| |done].
      intros _. unfold vec_of. simpl. rewrite E. split_and!; [done|done|lia].
    + rewrite (bind_Ok _ _ _ _ _ R). eexists _, _. split; [reflexivity|]. by constructor.
Qed.

(** *** Shrinking *)

Lemma sv_pop_back_run v :
  wf v → elems v ≠ [] →
  ∃ v', sv_pop_back v = Ok (tt, v') ∧ wf v' ∧ vec_of v' = mkVec (take (length (elems v) - 1) (elems v)) (cap (vec_of v)).
Proof.
  intros W Hne. unfold sv_pop_back. rewrite (bind_Ok _ _ _ _ _ (sv_empty_run v W)).
  erewrite bind_Ok by (apply zth_assert_true, negb_true_iff, Nat.eqb_neq; by rewrite length_zero_iff_nil).
  erewrite bind_Ok by reflexivity.
  destruct (wf_cases v W) as [(l & -> & L & Sm)|(w & -> & L & Sm)]; rewrite Sm.
  - rewrite (bind_Ok _ _ _ _ _ (array_run l L)). eexists. split; [reflexivity|].
    split; [unfold wf; simpl; rewrite length_take; lia|done].
  - rewrite (bind_Ok _ _ _ _ _ (vector_run w)). eexists. split; [reflexivity|].
    split; [unfold wf; simpl; rewrite length_take; lia|done].
Qed.

Lemma sv_clear_run v :
  wf v → (∃ v', sv_clear v = Ok (tt, v') ∧ wf v' ∧ vec_of v' = mkVec [] (cap (vec_of v))) ∧
         (∃ v', sv_clear_and_release v = Ok (tt, v') ∧ wf v' ∧ elems v' = []).
Proof.
  intros W. unfold sv_clear, sv_clear_and_release.
  destruct (wf_cases v W) as [(l & -> & L & Sm)|(w & -> & L & Sm)]; split; erewrite bind_Ok by reflexivity; rewrite Sm.
  - rewrite (bind_Ok _ _ _ _ _ (array_run l L)). eexists. split; [reflexivity|]. split; [unfold wf; simpl; lia|done].
  - rewrite (bind_Ok _ _ _ _ _ (array_run l L)). eexists. split; [reflexivity|]. split; [unfold wf; simpl; lia|done].
  - rewrite (bind_Ok _ _ _ _ _ (vector_run w)). eexists. split; [reflexivity|]. split; [unfold wf; simpl; lia|done].
  - rewrite (bind_Ok _ _ _ _ _ (vector_run w)). eexists. split; [reflexivity|]. split; [unfold wf; simpl; lia|done].
Qed.
Lemma sv_empty_elems : wf sv_new ∧ elems sv_new = [].
Proof. split; [unfold wf; simpl; lia|done]. Qed.

(** ** Operations on the list *)

Inductive op :=
| Reserve (ok : bool) (n : nat) | PushBack (ok : bool) (x : A) | PopBack | Resize (ok : bool) (n : nat) (x : A)
| Clear | Release | Set_ (i : nat) (x : A).

Definition sv_op (o : op) : M V bool :=
  match o with
  | Reserve ok n => sv_reserve ok n
  | PushBack ok x => sv_push_back ok x
  | PopBack => sv_pop_back;; mret true
  | Resize ok n x => sv_resize ok n x
  | Clear => sv_clear;; mret true
  | Release => sv_clear_and_release;; mret true
  | Set_ i x => sv_set i x;; mret true
  end.

(** [None]: the caller may not do that. *)
Definition effect (o : op) (l : list A) : option (list A) :=
  match o with
  | Reserve _ _ => Some l
  | PushBack _ x => Some (l ++ [x])
  | PopBack => if bool_decide (length l = 0%nat) then None else Some (take (length l - 1) l)
  | Resize _ n x => Some (resize n x l)
  | Clear | Release => Some []
  | Set_ i x => if (i <? length l)%nat then Some (<[i:=x]> l) else None
  end.

(** The room that an operation needs, and whether there is memory for it. *)
Definition needs (o : op) (l : list A) : nat :=
  match o with Reserve _ n | Resize _ n _ => n | PushBack _ _ => S (length l) | _ => 0%nat end.
Definition memory (o : op) : bool :=
  match o with Reserve ok _ | PushBack ok _ | Resize ok _ _ => ok | _ => true end.

Lemma grown_op ok need l v b v' :
  wf v → grown ok need l v b v' →
  wf v' ∧ (if b then elems v' = l else v' = v ∧ ok = false ∧ (cap (vec_of v) < need)%nat).
Proof. intros W [G1 G2 G3]. split; [done|]. destruct b; [by apply G2|by apply G3]. Qed.

Lemma sv_op_run o v :
  wf v →
  match effect o (elems v) with
  | Some l => ∃ b v', sv_op o v = Ok (b, v') ∧ wf v' ∧
      if b then elems v' = l else v' = v ∧ memory o = false ∧ (cap (vec_of v) < needs o (elems v))%nat
  | None => EnableAssert = true → sv_op o v = Fault AssertFailed
  end.
Proof.
  intros W. destruct o as [ok n|ok x| |ok n x| | |i x]; simpl.
  - destruct (sv_reserve_run ok n v W) as (b & v' & R & G). exists b, v'. split; [done|]. by apply (grown_op ok n _ v).
  - destruct (sv_push_back_run ok x v W) as (b & v' & R & G). exists b, v'. split; [done|]. by apply (grown_op ok _ _ v).
  - case_bool_decide as Hl.
    + intros E. unfold sv_pop_back. rewrite (bind_Fault _ _ _ AssertFailed); [done|].
      rewrite (bind_Ok _ _ _ _ _ (sv_empty_run v W)), Hl. erewrite bind_Fault; [done|]. by apply zth_assert_false.
    + destruct (sv_pop_back_run v W) as (v' & R & W' & E); [by intros E; rewrite E in Hl|].
      exists true, v'. rewrite (bind_Ok _ _ _ _ _ R), E. done.
  - destruct (sv_resize_run ok n x v W) as (b & v' & R & G). exists b, v'. split; [done|]. by apply (grown_op ok n _ v).
  - destruct (proj1 (sv_clear_run v W)) as (v' & R & W' & E). exists true, v'. rewrite (bind_Ok _ _ _ _ _ R), E. done.
  - destruct (proj2 (sv_clear_run v W)) as (v' & R & W' & E). exists true, v'. by rewrite (bind_Ok _ _ _ _ _ R).
  - destruct (Nat.ltb_spec i (length (elems v))) as [L|L].
    + destruct (lookup_lt_is_Some_2 _ _ L) as [y E]. destruct (sv_set_run v i x y W E) as (v' & R & W' & E').
      exists true, v'. by rewrite (bind_Ok _ _ _ _ _ R), E'.
    + intros E. unfold sv_set, sv_at. rewrite (bind_Fault _ _ _ AssertFailed); [done|].
      erewrite bind_Fault; [done|]. rewrite (bind_Ok _ _ _ _ _ (sv_size_run v W)).
      erewrite bind_Fault; [done|]. apply zth_assert_false; [done|]. by apply Nat.ltb_ge.
Qed.

(** A sequence of operations; which of them were done. *)
Fixpoint sv_ops (os : list op) : M V (list bool) :=
  match os with [] => mret [] | o :: os => b ← sv_op o; bs ← sv_ops os; mret (b :: bs) end.

Fixpoint effects (os : list op) (bs : list bool) (l : list A) : option (list A) :=
  match os, bs with
  | o :: os, b :: bs => l' ← effect o l; effects os bs (if b then l' else l)
  | _, _ => Some l
  end.

(** Nobody reads or removes what is not there. *)
Fixpoint proper (os : list op) (l : list A) : Prop :=
  match os with
  | [] => True
  | o :: os => match effect o l with Some l' => proper os l' ∧ (memory o = false → proper os l) | None => False end
  end.

Lemma sv_ops_run os v :
  wf v → proper os (elems v) →
  ∃ bs v', sv_ops os v = Ok (bs, v') ∧ wf v' ∧ effects os bs (elems v) = Some (elems v') ∧
    (Forall (λ o, memory o = true) os → bs = replicate (length os) true).
Proof.
  revert v. induction os as [|o os IH]; intros v W P; [by eexists [], v|]. simpl in P |- *.
  pose proof (sv_op_run o v W) as R. destruct (effect o (elems v)) as [l|]; [|done]. destruct P as [P1 P2].
  destruct R as (b & v1 & R & W1 & E). rewrite (bind_Ok _ _ _ _ _ R).
  assert (proper os (elems v1)) as P by (destruct b; [by rewrite E|destruct E as (-> & E & _); auto]).
  destruct (IH v1 W1 P) as (bs & v2 & R2 & W2 & E2 & F2). rewrite (bind_Ok _ _ _ _ _ R2).
  exists (b :: bs), v2. split; [done|]. split; [done|]. split.
  - simpl. destruct b; [by rewrite <-E|destruct E as (-> & _); done].
  - intros [Fo Fs]%Forall_cons. rewrite F2 by done. destruct b; [done|]. destruct E as (_ & E & _). congruence.
Qed.
End SmallVector.

(** ** Properties *)

(** C38: a small vector is a list, of values that are not its own elements.  Every sequence of
    operations on a new one, in which nobody pops or reads what is not there (that asserts),
    does to its elements what it does to a list; an operation that throws, which it does only
    when memory is needed and there is none, changes nothing; and an element is
    pushed without any memory while there are fewer than the capacity, which is at
    least the number asked for, in a buffer that is large enough. *)
Theorem small_vector_refines `{Config} {A : Type} (Prealloc sizeof : nat) (grow : nat → nat) (os : list (op (A := A))) :
  (0 < sizeof)%nat → proper os [] →
  let n := prealloc_of Prealloc sizeof in
  (Prealloc ≤ n ∧ n * sizeof ≤ (Prealloc * sizeof) `max` vector_size)%nat ∧
  ∃ bs v, sv_ops n grow os sv_new = Ok (bs, v) ∧
    let l := contents (vec_of n v) in
    effects os bs [] = Some l ∧ (Forall (λ o, memory o = true) os → bs = replicate (length os) true) ∧
    sv_size n v = Ok (length l, v) ∧ sv_data n v = Ok (l, v) ∧
    (∀ i x, l !! i = Some x → sv_at n i v = Ok (x, v)) ∧
    (∀ c, sv_capacity n v = Ok (c, v) → (is_small n v = true → c = n) ∧
       ((length l < c)%nat → ∀ x, ∃ v', sv_push_back n grow false x v = Ok (true, v') ∧ contents (vec_of n v') = l ++ [x])).
Proof.
  intros Hs P n. split.
  { unfold n, prealloc_of. split; [|rewrite Nat.mul_comm; apply Nat.Div0.mul_div_le].
    apply Nat.div_le_lower_bound; lia. }
  destruct (sv_empty_elems (A := A) n) as [W0 E0]. destruct (sv_ops_run n grow os sv_new W0) as (bs & v & R & W & E & F); [by rewrite E0|].
  exists bs, v. rewrite E0 in E. split; [done|]. split; [done|]. split; [done|].
  split; [by apply sv_size_run|]. split; [by apply sv_data_run|]. split; [intros i x; by apply sv_at_run|].
  intros c Rc. rewrite (sv_capacity_run n v W) in Rc. injection Rc as <-.
  split; [destruct (wf_cases n v W) as [(l & -> & _ & _)|(w & -> & _ & S)]; [done|by rewrite S]|].
  intros L x. destruct (sv_push_back_run n grow false x v W) as (b & v' & Rp & [G1 G2 G3]).
  exists v'. destruct b; [by destruct (G2 eq_refl) as (-> & _)|]. destruct (G3 eq_refl) as (_ & _ & ?). lia.
Qed.

(** *** Witness *)

Lemma small_vector_refines_witness :
  ∃ bs v, sv_ops (H := debug_config) 3 id [PushBack true 1; PushBack true 2; PushBack true 3; PushBack true 4; PushBack false 5;
    Resize false 2 0; PopBack] sv_new = Ok (bs, v) ∧ contents (vec_of 3 v) = [1].
Proof.
  destruct (small_vector_refines (H := debug_config) 1 8 id [PushBack true 1; PushBack true 2; PushBack true 3; PushBack true 4;
    PushBack false 5; Resize false 2 0; PopBack]) as (_ & bs & v & R & E & _); [lia|by vm_compute; intuition discriminate|].
  exists bs, v. split; [exact R|]. vm_compute in R. injection R as <- <-. reflexivity.
Defined.
