(* ===== verification/IntrusiveList.v ===== *)
(** * The intrusive doubly-linked list (libzth/list.h, [List<T>])

    [Listable] nodes live in a heap shared by all lists of the program; a list
    is a head and a tail pointer into that heap, and its nodes form a ring.
    Every operation is the pointer program of the source; the theorems show
    that it implements the corresponding operation on a sequence of addresses
    and leaves every other node of the heap alone. *)

From stdpp Require Import base gmap list.
From S2P Require Import Prelude.

(** ** Data *)

Record Listable := mkListable { prev : ptr; next : ptr; user : Z }.

(** The heap of nodes, and the two fields of the [List] operated on. *)
Record LS := mkLS { nodes : gmap addr Listable; m_head : ptr; m_tail : ptr }.

(** [Iterator<cyclic>]; the flag is passed to the operations that test it. *)
Record Iterator := mkIter { m_start : ptr; m_current : ptr }.

(** ** Memory accesses *)

Definition deref (p : ptr) : M LS addr :=
  match p with Some a => mret a | None => fail NullDeref end.

Definition rd {A : Type} (f : Listable → A) (a : addr) : M LS A := λ s,
  match nodes s !! a with Some n => Ok (f n, s) | None => Fault NullDeref end.

Definition wr (f : Listable → Listable) (a : addr) : M LS unit := λ s,
  match nodes s !! a with
  | Some _ => Ok (tt, mkLS (alter f a (nodes s)) (m_head s) (m_tail s))
  | None => Fault NullDeref
  end.

Definition with_next (p : ptr) (n : Listable) : Listable := mkListable (prev n) p (user n).
Definition with_prev (p : ptr) (n : Listable) : Listable := mkListable p (next n) (user n).
Definition with_user (u : Z) (n : Listable) : Listable := mkListable (prev n) (next n) u.

Definition set_next (a : addr) (p : ptr) : M LS unit := wr (with_next p) a.
Definition set_prev (a : addr) (p : ptr) : M LS unit := wr (with_prev p) a.
Definition set_user (a : addr) (u : Z) : M LS unit := wr (with_user u) a.
Definition set_head (p : ptr) : M LS unit := modify (λ s, mkLS (nodes s) p (m_tail s)).
Definition set_tail (p : ptr) : M LS unit := modify (λ s, mkLS (nodes s) (m_head s) p).

(** ** Iterators *)

Definition atBegin (it : Iterator) : bool :=
  ptr_eqb (m_current it) nullptr && negb (ptr_eqb (m_start it) nullptr).

Definition atEnd (it : Iterator) : bool := ptr_eqb (m_current it) (m_start it).

(** [get] without its assertion, which the callers below have established. *)
Definition iter_get (it : Iterator) : ptr :=
  if atBegin it then m_start it else m_current it.

Definition iter_eqb (l r : Iterator) : bool :=
  if atEnd l then atEnd r
  else if atEnd r then false
  else ptr_eqb (iter_get l) (iter_get r).

Section Operations.
Context `{Config}.

Definition iter_next (cyclic : bool) (it : Iterator) : M LS Iterator :=
  zth_assert ((cyclic || negb (atEnd it)) && negb (ptr_eqb (m_start it) nullptr));;
  a ← deref (if atBegin it then m_start it else m_current it);
  n ← rd next a;
  mret (mkIter (m_start it) n).

Definition iter_prev (cyclic : bool) (it : Iterator) : M LS Iterator :=
  zth_assert ((cyclic || negb (atEnd it)) && negb (ptr_eqb (m_start it) nullptr));;
  c ← deref (m_current it);
  p ← rd prev c;
  mret (mkIter (m_start it) (if ptr_eqb p (m_start it) then nullptr else p)).

(** ** List operations *)

Definition begin : M LS Iterator := gets (λ s, mkIter (m_head s) nullptr).
Definition iend : M LS Iterator := gets (λ s, mkIter (m_head s) (m_head s)).

Definition empty : M LS bool :=
  hd ← gets m_head;
  tl ← gets m_tail;
  zth_assert (negb (ptr_eqb hd nullptr) || ptr_eqb tl nullptr);;
  mret (ptr_eqb hd nullptr).

Definition assert_nonempty : M LS unit := zth_assert_m (b ← empty; mret (negb b)).

Definition front : M LS addr := assert_nonempty;; hd ← gets m_head; deref hd.
Definition back : M LS addr := assert_nonempty;; tl ← gets m_tail; deref tl.

Definition push_back (e : addr) : M LS Iterator :=
  p ← rd prev e; zth_assert (ptr_eqb p nullptr);;
  n ← rd next e; zth_assert (ptr_eqb n nullptr);;
  set_user e 0;;
  tl ← gets m_tail;
  match tl with
  | None =>
      hd ← gets m_head; zth_assert (ptr_eqb hd nullptr);;
      set_next e (Some e);; set_prev e (Some e);;
      set_head (Some e);; set_tail (Some e);;
      begin
  | Some t =>
      tn ← rd next t; set_next e tn;;
      set_prev e (Some t);;
      ep ← rd prev e; ep ← deref ep; set_next ep (Some e);;
      en ← rd next e; en ← deref en; set_prev en (Some e);;
      set_tail (Some e);;
      hd ← gets m_head;
      mret (mkIter hd (Some e))
  end.

Definition push_front (e : addr) : M LS Iterator :=
  p ← rd prev e; zth_assert (ptr_eqb p nullptr);;
  n ← rd next e; zth_assert (ptr_eqb n nullptr);;
  hd ← gets m_head;
  match hd with
  | None =>
      tl ← gets m_tail; zth_assert (ptr_eqb tl nullptr);;
      set_next e (Some e);; set_prev e (Some e);;
      set_head (Some e);; set_tail (Some e)
  | Some h =>
      set_next e (Some h);;
      hp ← rd prev h; set_prev e hp;;
      set_head (Some e);;
      en ← rd next e; en ← deref en; set_prev en (Some e);;
      ep ← rd prev e; ep ← deref ep; set_next ep (Some e)
  end;;
  set_user e 0;;
  hd ← gets m_head;
  mret (mkIter hd (Some e)).

(** Unlinking [e] from between its neighbours: the two assignments
    [e->prev->next = e->next; e->next->prev = e->prev]. *)
Definition unlink (e : addr) : M LS unit :=
  ep ← rd prev e; ep ← deref ep; en ← rd next e; set_next ep en;;
  en ← rd next e; en ← deref en; ep ← rd prev e; set_prev en ep.

Definition detach (e : addr) : M LS unit :=
  when EnableAssert (set_next e nullptr;; set_prev e nullptr).

Definition assert_single (e : addr) : M LS unit :=
  zth_assert_m (p ← rd prev e; n ← rd next e; mret (ptr_eqb p n));;
  zth_assert_m (p ← rd prev e; mret (ptr_eqb p (Some e))).

Definition pop_back : M LS Z :=
  assert_nonempty;;
  tl ← gets m_tail; hd ← gets m_head;
  e ← deref tl;
  (if ptr_eqb tl hd then
     set_head nullptr;; set_tail nullptr;; assert_single e
   else
     p ← rd prev e; set_tail p;; unlink e);;
  detach e;;
  rd user e.

Definition pop_front : M LS Z :=
  assert_nonempty;;
  tl ← gets m_tail; hd ← gets m_head;
  e ← deref hd;
  (if ptr_eqb tl hd then
     set_head nullptr;; set_tail nullptr;; assert_single e
   else
     n ← rd next e; set_head n;; unlink e);;
  detach e;;
  rd user e.

Fixpoint contains_loop (fuel : nat) (e : addr) (it : Iterator) : M LS bool :=
  match fuel with
  | O => fail OutOfFuel
  | S fuel =>
      en ← iend;
      if iter_eqb it en then mret false
      else if ptr_eqb (iter_get it) (Some e) then mret true
      else it' ← iter_next false it; contains_loop fuel e it'
  end.

(** One iteration per node of the heap, and one for the end, are enough. *)
Definition contains (e : addr) : M LS bool :=
  fuel ← gets (λ s, S (size (nodes s)));
  it ← begin; contains_loop fuel e it.

Fixpoint size_loop (fuel : nat) (res : nat) (it : Iterator) : M LS nat :=
  match fuel with
  | O => fail OutOfFuel
  | S fuel =>
      en ← iend;
      if iter_eqb it en then mret res
      else it' ← iter_next false it; size_loop fuel (S res) it'
  end.

Definition list_size : M LS nat :=
  fuel ← gets (λ s, S (size (nodes s)));
  it ← begin; size_loop fuel 0 it.

Definition erase (e : addr) : M LS Z :=
  zth_assert_m (contains e);;
  hd ← gets m_head; tl ← gets m_tail;
  if ptr_eqb hd (Some e) then pop_front
  else if ptr_eqb tl (Some e) then pop_back
  else unlink e;; detach e;; rd user e.

Definition erase_at (pos : Iterator) : M LS Iterator :=
  zth_assert (negb (atEnd pos));;
  e ← deref (iter_get pos);
  tl ← gets m_tail;
  if atBegin pos then erase e;; begin
  else if ptr_eqb (Some e) tl then erase e;; iend
  else
    n ← rd next e;
    erase e;;
    hd ← gets m_head; mret (mkIter hd n).

Definition insert_at (pos : Iterator) (e : addr) : M LS Iterator :=
  if atEnd pos then
    push_back e;; hd ← gets m_head; mret (mkIter hd (Some e))
  else if atBegin pos then push_front e;; begin
  else
    before ← deref (iter_get pos);
    set_next e (Some before);;
    bp ← rd prev before; set_prev e bp;;
    ep ← rd prev e; ep ← deref ep; set_next ep (Some e);;
    set_prev before (Some e);;
    set_user e 0;;
    hd ← gets m_head; mret (mkIter hd (Some e)).

Fixpoint clear_loop (fuel : nat) : M LS unit :=
  match fuel with
  | O => fail OutOfFuel
  | S fuel => b ← empty; if b : bool then mret tt else pop_front;; clear_loop fuel
  end.

Definition clear : M LS unit :=
  if EnableAssert then fuel ← gets (λ s, S (size (nodes s))); clear_loop fuel
  else set_head nullptr;; set_tail nullptr.

Definition rotate (e : addr) : M LS unit :=
  zth_assert_m (contains e);;
  set_head (Some e);;
  p ← rd prev e; set_tail p.

Definition cyclic (start : addr) : M LS Iterator :=
  zth_assert_m (contains start);; mret (mkIter (Some start) nullptr).
End Operations.

(** ** The heap seen through its links *)

Definition nxt (h : gmap addr Listable) (x : addr) : ptr := h !! x ≫= next.
Definition prv (h : gmap addr Listable) (x : addr) : ptr := h !! x ≫= prev.

Lemma rd_next_run s a :
  is_Some (nodes s !! a) → rd next a s = Ok (nxt (nodes s) a, s).
Proof. intros [n Hn]. unfold rd, nxt. by rewrite Hn. Qed.

Lemma rd_prev_run s a :
  is_Some (nodes s !! a) → rd prev a s = Ok (prv (nodes s) a, s).
Proof. intros [n Hn]. unfold rd, prv. by rewrite Hn. Qed.

Lemma rd_user_run s a n :
  nodes s !! a = Some n → rd user a s = Ok (user n, s).
Proof. intros Hn. unfold rd. by rewrite Hn. Qed.

Lemma wr_run f s a :
  is_Some (nodes s !! a) →
  wr f a s = Ok (tt, mkLS (alter f a (nodes s)) (m_head s) (m_tail s)).
Proof. intros [n Hn]. unfold wr. by rewrite Hn. Qed.

Lemma nxt_alter_next h a p x :
  is_Some (h !! a) →
  nxt (alter (with_next p) a h) x = if decide (a = x) then p else nxt h x.
Proof.
  intros [n Hn]. unfold nxt. rewrite lookup_alter.
  case_decide; subst; [by rewrite Hn | done].
Qed.

Lemma prv_alter_prev h a p x :
  is_Some (h !! a) →
  prv (alter (with_prev p) a h) x = if decide (a = x) then p else prv h x.
Proof.
  intros [n Hn]. unfold prv. rewrite lookup_alter.
  case_decide; subst; [by rewrite Hn | done].
Qed.

(** Accessors that only change another field. *)
Lemma nxt_alter_other f h a x :
  (∀ n, next (f n) = next n) → nxt (alter f a h) x = nxt h x.
Proof.
  intros Hf. unfold nxt. rewrite lookup_alter. case_decide; subst; [|done].
  destruct (h !! x); simpl; [by rewrite Hf | done].
Qed.

Lemma prv_alter_other f h a x :
  (∀ n, prev (f n) = prev n) → prv (alter f a h) x = prv h x.
Proof.
  intros Hf. unfold prv. rewrite lookup_alter. case_decide; subst; [|done].
  destruct (h !! x); simpl; [by rewrite Hf | done].
Qed.

(** The payload of a node. *)
Definition usr (h : gmap addr Listable) (x : addr) : option Z := user <$> h !! x.

Lemma usr_alter_other f h a x :
  (∀ n, user (f n) = user n) → usr (alter f a h) x = usr h x.
Proof.
  intros Hf. unfold usr. rewrite lookup_alter. case_decide; subst; [|done].
  destruct (h !! x); simpl; [by rewrite Hf | done].
Qed.

Lemma usr_alter_user h a u : is_Some (h !! a) → usr (alter (with_user u) a h) a = Some u.
Proof. intros [n Hn]. unfold usr. by rewrite lookup_alter_eq, Hn. Qed.

Lemma nxt_is_Some h x y : nxt h x = Some y → is_Some (h !! x).
Proof. unfold nxt. intros (n & Hn & _)%bind_Some. eauto. Qed.

Lemma prv_is_Some h x y : prv h x = Some y → is_Some (h !! x).
Proof. unfold prv. intros (n & Hn & _)%bind_Some. eauto. Qed.

#[export] Hint Resolve nxt_is_Some prv_is_Some : zth.

(** Chains of nodes linked in both directions. *)
Fixpoint chain (h : gmap addr Listable) (l : list addr) : Prop :=
  match l with
  | x :: ((y :: _) as l') => (nxt h x = Some y ∧ prv h y = Some x) ∧ chain h l'
  | _ => True
  end.

Definition ring (h : gmap addr Listable) (l : list addr) : Prop :=
  match l with
  | [] => True
  | a :: l' => chain h (a :: l' ++ [a])
  end.

Lemma chain_app h l1 x l2 :
  chain h (l1 ++ x :: l2) ↔ chain h (l1 ++ [x]) ∧ chain h (x :: l2).
Proof.
  induction l1 as [|a l1 IH]; [simpl; tauto|].
  destruct l1 as [|b l1]; simpl in *; tauto.
Qed.

Lemma chain_frame h h' l :
  (∀ x, x ∈ removelast l → nxt h' x = nxt h x) →
  (∀ x, x ∈ tail l → prv h' x = prv h x) →
  chain h l → chain h' l.
Proof.
  induction l as [|a [|b l] IH]; [done..|]. intros Hn Hp [[E1 E2] Hc]. split.
  - rewrite Hn, Hp; [done | simpl; set_solver..].
  - apply IH; [| |done].
    + intros x Hx. apply Hn. simpl. by apply list_elem_of_further.
    + intros x Hx. apply Hp. simpl in *. by apply list_elem_of_further.
Qed.

Lemma ring_rot h l1 l2 : ring h (l1 ++ l2) → ring h (l2 ++ l1).
Proof.
  destruct l1 as [|a l1]; [by rewrite app_nil_r|].
  destruct l2 as [|b l2]; [by rewrite app_nil_r|].
  simpl. rewrite <-!app_assoc. simpl.
  intros [H1 H2]%(chain_app h (a :: l1) b (l2 ++ [a])).
  by apply (chain_app h (b :: l2) a (l1 ++ [b])).
Qed.

Lemma chain_cons h x y l :
  chain h (x :: y :: l) ↔ (nxt h x = Some y ∧ prv h y = Some x) ∧ chain h (y :: l).
Proof. done. Qed.

Arguments chain : simpl never.

(** Linking [e] in between the last and the first node of a ring. *)
Lemma ring_insert h h' l z a e :
  NoDup l → e ∉ l → head l = Some a → last l = Some z → ring h l →
  (∀ x, nxt h' x = if decide (z = x) then Some e
                   else if decide (e = x) then Some a else nxt h x) →
  (∀ x, prv h' x = if decide (a = x) then Some e
                   else if decide (e = x) then Some z else prv h x) →
  ring h' (l ++ [e]).
Proof.
  intros Hnd He Ha Hz Hr Hn Hp. destruct l as [|a' l]; [done|]. simplify_eq/=.
  rewrite <-app_assoc; simpl. apply last_Some in Hz as [k Hk].
  assert (Hd : a :: l ++ [a] = k ++ z :: [a]).
  { change (a :: l ++ [a]) with ((a :: l) ++ [a]). by rewrite Hk, <-app_assoc. }
  rewrite Hd in Hr. apply chain_app in Hr as [Hr _].
  replace (a :: l ++ [e; a]) with (k ++ z :: [e; a]).
  2:{ change (a :: l ++ [e; a]) with ((a :: l) ++ [e; a]). by rewrite Hk, <-app_assoc. }
  apply chain_app. split.
  - revert Hr. apply chain_frame; intros x Hx.
    + rewrite removelast_last in Hx. rewrite Hk in Hnd.
      apply NoDup_app in Hnd as (_ & Hnd & _). rewrite Hn.
      rewrite !decide_False; [done| |]; intros ->; [|set_solver].
      apply He. rewrite Hk. set_solver.
    + rewrite <-Hk in Hx. apply NoDup_cons in Hnd as [? _]. rewrite Hp.
      rewrite !decide_False; [done|set_solver..].
  - assert (a ∈ a :: l ∧ z ∈ a :: l) as [Hae Hze] by (split; [|rewrite Hk]; set_solver).
    rewrite !chain_cons, !Hn, !Hp, !(decide_True _ _ eq_refl).
    rewrite (decide_False (P := z = e)), (decide_False (P := a = e)) by set_solver.
    repeat split.
Qed.

(** Unlinking the first node of a ring of at least two. *)
Lemma ring_remove h h' e l b z :
  NoDup (e :: l) → head l = Some b → last l = Some z → ring h (e :: l) →
  (∀ x, x ≠ e → nxt h' x = if decide (z = x) then Some b else nxt h x) →
  (∀ x, x ≠ e → prv h' x = if decide (b = x) then Some z else prv h x) →
  ring h' l.
Proof.
  intros [He Hnd]%NoDup_cons Hb Hz Hr Hn Hp. destruct l as [|b' l]; [done|].
  simplify_eq/=. apply last_Some in Hz as [k Hk].
  assert (Hs : chain h (k ++ [z])).
  { apply chain_cons in Hr as [_ Hr].
    change (b :: l ++ [e]) with ((b :: l) ++ [e]) in Hr. rewrite Hk, <-app_assoc in Hr.
    by apply chain_app in Hr as [Hr _]. }
  replace (b :: l ++ [b]) with (k ++ z :: [b]).
  2:{ change (b :: l ++ [b]) with ((b :: l) ++ [b]). by rewrite Hk, <-app_assoc. }
  apply chain_app. split.
  - revert Hs. apply chain_frame; intros x Hx.
    + rewrite removelast_last in Hx. rewrite Hk in Hnd.
      apply NoDup_app in Hnd as (_ & Hnd & _). rewrite Hn.
      * rewrite decide_False; [done|]. set_solver.
      * intros ->. apply He. rewrite Hk. set_solver.
    + rewrite <-Hk in Hx. apply NoDup_cons in Hnd as [? _]. rewrite Hp by set_solver.
      rewrite decide_False; [done|set_solver].
  - assert (z ∈ b :: l) by (rewrite Hk; set_solver).
    rewrite chain_cons, Hn, Hp by set_solver. by rewrite !(decide_True _ _ eq_refl).
Qed.

(** ** Representation of a sequence *)

Definition is_list (s : LS) (l : list addr) : Prop :=
  ring (nodes s) l ∧ NoDup l ∧ m_head s = head l ∧ m_tail s = last l.

(** An element that may be added to a list: it exists, and it is marked as
    being in no list when assertions check that. *)
Definition loose `{Config} (h : gmap addr Listable) (e : addr) : Prop :=
  is_Some (h !! e) ∧ (EnableAssert = true → prv h e = nullptr ∧ nxt h e = nullptr).

(** The heaps agree outside [l]. *)
Definition same_but (h h' : gmap addr Listable) (l : list addr) : Prop :=
  ∀ x, x ∉ l → h' !! x = h !! x.

Lemma same_but_refl h l : same_but h h l.
Proof. done. Qed.

Lemma same_but_trans h1 h2 h3 l1 l2 :
  same_but h1 h2 l1 → same_but h2 h3 l2 → same_but h1 h3 (l1 ++ l2).
Proof. intros H1 H2 x Hx. rewrite H2, H1; [done|set_solver..]. Qed.

Lemma same_but_alter h h' f a l : a ∈ l → same_but h h' l → same_but h (alter f a h') l.
Proof. intros Ha Hs x Hx. rewrite lookup_alter_ne; [by apply Hs|]. intros ->. done. Qed.

Lemma same_but_mono h h' l1 l2 : same_but h h' l1 → l1 ⊆ l2 → same_but h h' l2.
Proof. intros H1 Hl x Hx. apply H1. set_solver. Qed.

Lemma ring_agree h h' l : (∀ x, x ∈ l → h' !! x = h !! x) → ring h l → ring h' l.
Proof.
  intros Hx. destruct l as [|a l]; [done|].
  apply chain_frame; intros x Hi; unfold nxt, prv; rewrite Hx; try done.
  - change (a :: l ++ [a]) with ((a :: l) ++ [a]) in Hi. by rewrite removelast_last in Hi.
  - simpl in Hi. set_solver.
Qed.

Lemma ring_first h a l :
  ring h (a :: l) → nxt h a = head (l ++ [a]) ∧ prv h a = last (a :: l).
Proof.
  intros Hr. split.
  - by destruct l; apply chain_cons in Hr as [[-> _] _].
  - destruct (last (a :: l)) as [z|] eqn:Hz; [|by apply last_None in Hz].
    apply last_Some in Hz as [k Hk]. unfold ring in Hr.
    change (a :: l ++ [a]) with ((a :: l) ++ [a]) in Hr. rewrite Hk, <-app_assoc in Hr.
    apply chain_app in Hr as [_ Hr]. by apply chain_cons in Hr as [[_ ->] _].
Qed.

Lemma ring_lookup h l1 a l2 :
  ring h (l1 ++ a :: l2) → nxt h a = head (l2 ++ l1 ++ [a]) ∧ prv h a = last (a :: l2 ++ l1).
Proof. intros Hr%ring_rot%ring_first. by rewrite <-app_assoc in Hr. Qed.

Lemma ring_exists h l x : ring h l → x ∈ l → is_Some (h !! x).
Proof.
  intros Hr (l1 & l2 & ->)%list_elem_of_split. apply ring_lookup in Hr as [Hn _].
  destruct (head (l2 ++ l1 ++ [x])) eqn:E; [eauto with zth|].
  destruct l2, l1; done.
Qed.

Lemma ring_ends h l a z :
  ring h l → head l = Some a → last l = Some z → nxt h z = Some a ∧ prv h a = Some z.
Proof.
  intros Hr Ha Hz. destruct l as [|a' l]; [done|]. injection Ha as ->. split.
  - apply last_Some in Hz as [k Hk]. rewrite Hk in Hr. apply ring_lookup in Hr as [-> _].
    destruct k; by simplify_eq/=.
  - apply ring_first in Hr as [_ ->]. done.
Qed.

Lemma deref_run {p : ptr} {a : addr} (s : LS) : p = Some a → deref p s = Ok (a, s).
Proof. by intros ->. Qed.

Lemma is_Some_alter (h : gmap addr Listable) (f : Listable → Listable) (a x : addr) :
  is_Some (h !! x) → is_Some (alter f a h !! x).
Proof. by rewrite lookup_alter_is_Some. Qed.

#[export] Hint Resolve head_elem last_elem ring_exists : zth.
#[export] Hint Resolve rd_next_run rd_prev_run rd_user_run wr_run deref_run
  is_Some_alter same_but_refl : zth.

(** A node of an altered heap is present. *)
Ltac present := cbn [nodes]; repeat apply is_Some_alter; eauto with zth.

(** Simplify the links of an altered heap. *)
Ltac links :=
  repeat first
    [ rewrite nxt_alter_next by present
    | rewrite prv_alter_prev by present
    | rewrite nxt_alter_other by done
    | rewrite prv_alter_other by done
    | rewrite decide_True by congruence
    | rewrite decide_False by congruence ].

(** Only nodes of the list have been altered. *)
Ltac frame := cbn [nodes]; repeat (apply same_but_alter; [by eauto with zth|]); apply same_but_refl.

(** The result of a primitive operation. *)
Ltac mprim :=
  first
    [ reflexivity
    | by apply zth_assert_true
    | apply rd_next_run; present
    | apply rd_prev_run; present
    | apply wr_run; present
    | apply deref_run; links; by eauto with zth
    | apply zth_assert_guard; intros ?; apply ptr_eqb_true; links; naive_solver
    | by eauto with zth ].

(** One monadic step of an operation, and as many as possible. *)
Ltac mstep := rewrite ?bind_assoc; (erewrite bind_Ok; [| by mprim]); cbn [nodes m_head m_tail].
Ltac msteps := repeat mstep.

(** ** Correctness of the operations *)

Section Correctness.
Context `{Config}.

Lemma is_list_empty_run s l :
  is_list s l → empty s = Ok (bool_decide (l = []), s).
Proof.
  intros (_ & _ & Hh & Ht). unfold empty. do 2 mstep. rewrite Hh, Ht.
  by destruct l; mstep.
Qed.

Lemma assert_nonempty_run s l :
  is_list s l → l ≠ [] → assert_nonempty s = Ok (tt, s).
Proof.
  intros Hl Hne. apply zth_assert_m_true.
  rewrite (bind_Ok _ _ _ _ _ (is_list_empty_run _ _ Hl)).
  by rewrite bool_decide_false.
Qed.

Lemma push_back_spec s l e :
  is_list s l → e ∉ l → loose (nodes s) e →
  ∃ it s', push_back e s = Ok (it, s') ∧ iter_get it = Some e ∧
    is_list s' (l ++ [e]) ∧ usr (nodes s') e = Some 0%Z ∧
    same_but (nodes s) (nodes s') (l ++ [e]).
Proof.
  intros (Hr & Hnd & Hh & Ht) He (Hex & Hloose).
  unfold push_back, set_user, set_next, set_prev. do 6 mstep.
  destruct (last l) as [z|] eqn:Hz; rewrite Ht.
  - destruct (head l) as [a|] eqn:Ha; [|by destruct l].
    assert (is_Some (nodes s !! z) ∧ is_Some (nodes s !! a)) as [Hzs Has] by (split; eauto with zth).
    assert (e ≠ z ∧ e ≠ a) as [Hez Hea] by (split; intros ->; eauto with zth).
    destruct (ring_ends _ _ _ _ Hr Ha Hz) as [Hnz Hpa].
    msteps. do 2 eexists. split; [reflexivity|]. split; [done|]. split; [|split].
    + split; [|split; [|split]]; cbn [nodes m_head m_tail].
      * eapply ring_insert; eauto; intros x; links; by rewrite ?Hnz, ?Hpa.
      * by apply NoDup_snoc.
      * destruct l; simplify_eq/=. done.
      * by rewrite last_snoc.
    + cbn [nodes]. rewrite !usr_alter_other by done. by apply usr_alter_user.
    + frame.
  - apply last_None in Hz as ->. mstep. rewrite Hh. msteps.
    do 2 eexists. split; [reflexivity|]. split; [done|]. split; [|split].
    + split; [|split; [|split]]; cbn [nodes m_head m_tail]; [|by apply NoDup_singleton|done..].
      apply chain_cons. by links.
    + cbn [nodes]. rewrite !usr_alter_other by done. by apply usr_alter_user.
    + frame.
Qed.

Lemma push_front_spec s l e :
  is_list s l → e ∉ l → loose (nodes s) e →
  ∃ it s', push_front e s = Ok (it, s') ∧ iter_get it = Some e ∧
    is_list s' (e :: l) ∧ usr (nodes s') e = Some 0%Z ∧
    same_but (nodes s) (nodes s') (e :: l).
Proof.
  intros (Hr & Hnd & Hh & Ht) He (Hex & Hloose).
  unfold push_front, set_user, set_next, set_prev. do 5 mstep.
  destruct (head l) as [a|] eqn:Ha; rewrite Hh.
  - destruct (last l) as [z|] eqn:Hz; [|by apply last_None in Hz as ->].
    assert (is_Some (nodes s !! z) ∧ is_Some (nodes s !! a)) as [Hzs Has] by (split; eauto with zth).
    assert (e ≠ z ∧ e ≠ a) as [Hez Hea] by (split; intros ->; eauto with zth).
    destruct (ring_ends _ _ _ _ Hr Ha Hz) as [Hnz Hpa].
    msteps. do 2 eexists. split; [reflexivity|]. split; [done|]. split; [|split].
    + split; [|split; [|split]]; cbn [nodes m_head m_tail]; [|by constructor|done|].
      * apply (ring_rot _ l [e]).
        eapply ring_insert; eauto; intros x; links; rewrite ?Hnz, ?Hpa; repeat case_decide; congruence.
      * rewrite Ht, <-Hz. by destruct l.
    + by apply usr_alter_user; present.
    + frame.
  - destruct l; [|done]. mstep. rewrite Ht. msteps.
    do 2 eexists. split; [reflexivity|]. split; [done|]. split; [|split].
    + split; [|split; [|split]]; cbn [nodes m_head m_tail]; [|by apply NoDup_singleton|done..].
      apply chain_cons. by links.
    + apply usr_alter_user. present.
    + frame.
Qed.

(** Unlinking a node from a ring of at least two. *)
Lemma unlink_run s e r :
  ring (nodes s) (e :: r) → NoDup (e :: r) → r ≠ [] →
  ∃ h', unlink e s = Ok (tt, mkLS h' (m_head s) (m_tail s)) ∧ ring h' r ∧
    is_Some (h' !! e) ∧ (∀ x, usr h' x = usr (nodes s) x) ∧ same_but (nodes s) h' r.
Proof.
  intros Hr Hnd Hne. destruct r as [|b r]; [done|].
  destruct (last (b :: r)) as [z|] eqn:Hz; [|by apply last_None in Hz].
  pose proof (ring_first _ _ _ Hr) as [Hn Hp].
  assert (last (e :: b :: r) = Some z) as Hz' by done. rewrite Hz' in Hp. simpl in Hn.
  assert (e ∉ b :: r) as He by (by apply NoDup_cons in Hnd as [? _]).
  assert (z ∈ b :: r) as Hzr by eauto with zth.
  assert (e ≠ z ∧ e ≠ b) as [Hez Heb] by (split; intros ->; eauto with zth).
  assert (is_Some (nodes s !! e)) by eauto with zth.
  assert (is_Some (nodes s !! z) ∧ is_Some (nodes s !! b)) as [Hzs Hbs].
  { split; eapply ring_exists; eauto with zth. }
  unfold unlink, set_next, set_prev. msteps. erewrite wr_run by present. rewrite Hn.
  eexists. split; [reflexivity|]. cbn [nodes]. split; [|split; [|split]].
  - eapply (ring_remove (nodes s)); [done..|eauto|done| |]; intros x Hx; links; by rewrite ?Hp.
  - present.
  - intros x. by rewrite !usr_alter_other by done.
  - frame.
Qed.

Lemma detach_run s e :
  is_Some (nodes s !! e) →
  ∃ h', detach e s = Ok (tt, mkLS h' (m_head s) (m_tail s)) ∧ loose h' e ∧
    (∀ x, usr h' x = usr (nodes s) x) ∧ same_but (nodes s) h' [e].
Proof.
  intros He. unfold detach, when, loose. destruct EnableAssert.
  - unfold set_next, set_prev. mstep. erewrite wr_run by present.
    eexists. split; [reflexivity|]. cbn [nodes m_head m_tail]. split; [|split].
    + split; [present|]. by links.
    + intros x. by rewrite !usr_alter_other by done.
    + frame.
  - exists (nodes s). split; [by destruct s|]. split; [|done]. by split.
Qed.

(** [e] was taken out of the list and its payload returned. *)
Definition removed (s s' : LS) (e : addr) (u : Z) (l : list addr) : Prop :=
  is_list s' l ∧ usr (nodes s) e = Some u ∧ loose (nodes s') e ∧
  (∀ x, usr (nodes s') x = usr (nodes s) x) ∧ same_but (nodes s) (nodes s') (e :: l).

Lemma rd_user_usr s a u : usr (nodes s) a = Some u → rd user a s = Ok (u, s).
Proof. intros (n & Hn & ->)%fmap_Some. by apply rd_user_run. Qed.

Lemma detach_user s e :
  is_Some (nodes s !! e) →
  ∃ u h', (detach e;; rd user e) s = Ok (u, mkLS h' (m_head s) (m_tail s)) ∧
    usr (nodes s) e = Some u ∧ loose h' e ∧
    (∀ x, usr h' x = usr (nodes s) x) ∧ same_but (nodes s) h' [e].
Proof.
  intros Hex. destruct (detach_run s e Hex) as (h' & E & Hl & Hu & Hs). rewrite (bind_Ok _ _ _ _ _ E).
  destruct (usr (nodes s) e) as [u|] eqn:He.
  - exists u, h'. split; [|done]. apply rd_user_usr. cbn [nodes]. by rewrite Hu.
  - destruct Hex as [n Hn]. unfold usr in He. by rewrite Hn in He.
Qed.

Lemma unlink_detach s e r :
  ring (nodes s) (e :: r) → NoDup (e :: r) → r ≠ [] →
  ∃ u h', (unlink e;; detach e;; rd user e) s = Ok (u, mkLS h' (m_head s) (m_tail s)) ∧
    ring h' r ∧ usr (nodes s) e = Some u ∧ loose h' e ∧
    (∀ x, usr h' x = usr (nodes s) x) ∧ same_but (nodes s) h' (e :: r).
Proof.
  intros Hr Hnd Hne.
  destruct (unlink_run _ _ _ Hr Hnd Hne) as (h1 & E & Hr1 & Hex & Hu1 & Hs1).
  rewrite (bind_Ok _ _ _ _ _ E).
  destruct (detach_user (mkLS h1 (m_head s) (m_tail s)) e Hex)
    as (u & h2 & -> & Hu & Hl & Hu2 & Hs2). cbn [nodes m_head m_tail] in *.
  apply NoDup_cons in Hnd as [He _].
  exists u, h2. split; [done|]. split; [|split; [|split; [|split]]].
  - eapply ring_agree; [|done]. intros x Hx. apply Hs2. set_solver.
  - by rewrite <-Hu1.
  - done.
  - intros x. by rewrite Hu2.
  - intros x Hx. rewrite Hs2, Hs1 by set_solver. done.
Qed.

(** The last node of a list leaves it. *)
Lemma single_detach s s0 e :
  is_list s [e] → nodes s0 = nodes s → m_head s0 = nullptr → m_tail s0 = nullptr →
  ∃ u s', (assert_single e;; detach e;; rd user e) s0 = Ok (u, s') ∧ removed s s' e u [].
Proof.
  intros (Hr & Hnd & _) Hn Hh Ht.
  pose proof (ring_first _ _ _ Hr) as [Hnx Hpv]. simpl in Hnx, Hpv. rewrite <-Hn in Hnx, Hpv.
  assert (is_Some (nodes s0 !! e)) as Hex by eauto with zth.
  unfold assert_single. rewrite bind_assoc.
  rewrite (bind_Ok _ _ _ s0 tt); [|apply zth_assert_m_true; msteps; by rewrite Hnx, Hpv, ptr_eqb_refl].
  rewrite (bind_Ok _ _ _ s0 tt); [|apply zth_assert_m_true; msteps; by rewrite Hpv, ptr_eqb_refl].
  destruct (detach_user s0 e Hex) as (u & h' & -> & Hu & Hl & Hu' & Hs').
  do 2 eexists. split; [done|]. rewrite Hn in *.
  split; [|by split].
  split; [done|]. split; [apply NoDup_nil_2|]. by rewrite Hh, Ht.
Qed.

(** A node leaves a list of at least two. *)
Lemma unlink_removed s s0 l1 e l2 :
  is_list s (l1 ++ e :: l2) → l1 ++ l2 ≠ [] → nodes s0 = nodes s →
  m_head s0 = head (l1 ++ l2) → m_tail s0 = last (l1 ++ l2) →
  ∃ u s', (unlink e;; detach e;; rd user e) s0 = Ok (u, s') ∧ removed s s' e u (l1 ++ l2).
Proof.
  intros (Hr%ring_rot & Hnd%NoDup_rot & _) Hne Hn Hh Ht. simpl in Hr, Hnd.
  rewrite <-Hn in Hr.
  destruct (unlink_detach _ _ _ Hr Hnd) as (u & h' & E & Hr' & Hu & Hl & Hu' & Hs).
  { intros [-> ->]%app_nil. done. }
  exists u, (mkLS h' (m_head s0) (m_tail s0)). split; [done|]. rewrite Hn in *.
  split; [|split; [done|split; [done|split; [done|]]]].
  - split; [by apply ring_rot|]. split; [|done].
    apply NoDup_cons in Hnd as [_ ?]. by apply NoDup_rot.
  - intros x Hx. apply Hs. set_solver.
Qed.

Lemma pop_front_spec s e l :
  is_list s (e :: l) → ∃ u s', pop_front s = Ok (u, s') ∧ removed s s' e u l.
Proof.
  intros Hl. pose proof Hl as (Hr & Hnd & Hh & Ht). unfold pop_front.
  rewrite (bind_Ok _ _ _ _ _ (assert_nonempty_run _ _ Hl ltac:(done))).
  do 2 mstep. rewrite Hh. mstep. rewrite Ht.
  destruct l as [|b l].
  - rewrite ptr_eqb_refl. do 2 mstep. rewrite ?bind_assoc. by eapply single_detach.
  - rewrite (proj2 (ptr_eqb_false _ _)).
    2:{ intros Heq. apply (last_elem (b :: l)) in Heq. by apply NoDup_cons in Hnd as []. }
    do 2 mstep. rewrite ?bind_assoc.
    eapply (unlink_removed s _ [] e (b :: l)); try done.
    cbn. by apply ring_first in Hr as [-> _].
Qed.

Lemma pop_back_spec s l e :
  is_list s (l ++ [e]) → ∃ u s', pop_back s = Ok (u, s') ∧ removed s s' e u l.
Proof.
  intros Hl. pose proof Hl as (Hr & Hnd & Hh & Ht). rewrite last_snoc in Ht. unfold pop_back.
  rewrite (bind_Ok _ _ _ _ _ (assert_nonempty_run _ _ Hl ltac:(by destruct l))).
  do 2 mstep. rewrite Ht. mstep. rewrite Hh.
  destruct l as [|a l].
  - simpl. rewrite ptr_eqb_refl. do 2 mstep. rewrite ?bind_assoc. by eapply single_detach.
  - simpl. rewrite (proj2 (ptr_eqb_false _ _)).
    2:{ intros [= ->]. apply NoDup_app in Hnd as (_ & Hnd & _). eapply (Hnd a); set_solver. }
    assert (is_Some (nodes s !! e)) by (eapply ring_exists; eauto with zth).
    do 2 mstep. rewrite ?bind_assoc.
    eapply (unlink_removed s _ (a :: l) e []) in Hl; rewrite ?app_nil_r in *; try done.
    cbn [m_tail]. apply ring_lookup in Hr as [_ ->]. done.
Qed.

(** *** Iteration

    The iterator that has passed [pre] and still has [rest] to go. *)
Definition pos (pre rest : list addr) : Iterator :=
  mkIter (head (pre ++ rest))
    match pre, rest with
    | [], _ => nullptr
    | _, [] => head (pre ++ rest)
    | _, x :: _ => Some x
    end.

Lemma pos_end pre : atEnd (pos pre []) = true.
Proof. destruct pre; apply ptr_eqb_refl. Qed.

Lemma pos_not_end pre x rest : NoDup (pre ++ x :: rest) → atEnd (pos pre (x :: rest)) = false.
Proof.
  intros Hnd. apply ptr_eqb_false. destruct pre as [|d pre]; [done|]. simpl.
  intros [= ->]. apply NoDup_app in Hnd as (_ & Hnd & _). eapply (Hnd d); set_solver.
Qed.

Lemma pos_get pre x rest : iter_get (pos pre (x :: rest)) = Some x.
Proof. by destruct pre. Qed.

Lemma pos_eqb_end pre rest :
  NoDup (pre ++ rest) →
  iter_eqb (pos pre rest) (mkIter (head (pre ++ rest)) (head (pre ++ rest))) =
    match rest with [] => true | _ => false end.
Proof.
  intros Hnd. unfold iter_eqb. unfold atEnd at 2 3. cbn [m_start m_current].
  rewrite ptr_eqb_refl.
  destruct rest; [by rewrite pos_end|]. by rewrite pos_not_end.
Qed.

Lemma iter_next_run s pre x rest :
  is_list s (pre ++ x :: rest) →
  iter_next false (pos pre (x :: rest)) s = Ok (pos (pre ++ [x]) rest, s).
Proof.
  intros (Hr & Hnd & _). unfold iter_next.
  assert (is_Some (nodes s !! x)) by (eapply ring_exists; eauto with zth).
  rewrite (bind_Ok _ _ _ s tt).
  2:{ apply zth_assert_true. rewrite pos_not_end by done. by destruct pre. }
  change (if atBegin _ then _ else _) with (iter_get (pos pre (x :: rest))).
  rewrite pos_get. do 2 mstep. unfold mret, M_ret. do 2 f_equal.
  apply ring_lookup in Hr as [-> _]. unfold pos. rewrite <-app_assoc. simpl. f_equal.
  destruct pre, rest; done.
Qed.

Lemma contains_loop_run s pre rest e n :
  is_list s (pre ++ rest) → length rest < n →
  contains_loop n e (pos pre rest) s = Ok (bool_decide (e ∈ rest), s).
Proof.
  revert pre n. induction rest as [|x rest IH]; intros pre n Hl Hn;
    (destruct n as [|n]; [simpl in Hn; lia|]); simpl; pose proof Hl as (_ & Hnd & Hh & _);
    mstep; rewrite Hh, pos_eqb_end by done.
  - done.
  - rewrite pos_get. destruct (decide (x = e)) as [->|Hx].
    + rewrite ptr_eqb_refl. by rewrite (bool_decide_true (e ∈ _)) by set_solver.
    + rewrite (proj2 (ptr_eqb_false (Some x) (Some e))) by congruence.
      rewrite (bind_Ok _ _ _ _ _ (iter_next_run _ _ _ _ Hl)).
      rewrite IH; [|by rewrite <-app_assoc|simpl in Hn; lia].
      do 2 f_equal. apply bool_decide_ext. set_solver.
Qed.

Lemma size_loop_run s pre rest k n :
  is_list s (pre ++ rest) → length rest < n →
  size_loop n k (pos pre rest) s = Ok (k + length rest, s).
Proof.
  revert pre k n. induction rest as [|x rest IH]; intros pre k n Hl Hn;
    (destruct n as [|n]; [simpl in Hn; lia|]); simpl; pose proof Hl as (_ & Hnd & Hh & _);
    mstep; rewrite Hh, pos_eqb_end by done.
  - by rewrite Nat.add_0_r.
  - rewrite (bind_Ok _ _ _ _ _ (iter_next_run _ _ _ _ Hl)).
    rewrite IH; [|by rewrite <-app_assoc|simpl in Hn; lia]. do 2 f_equal. lia.
Qed.

Lemma is_list_length s l : is_list s l → length l ≤ size (nodes s).
Proof.
  intros (Hr & Hnd & _). rewrite <-(size_dom (D := gset addr)).
  rewrite <-(size_list_to_set (C := gset addr)) by done.
  apply subseteq_size. intros x Hx%elem_of_list_to_set. apply elem_of_dom. eauto using ring_exists.
Qed.

Lemma contains_spec s l e : is_list s l → contains e s = Ok (bool_decide (e ∈ l), s).
Proof.
  intros Hl. unfold contains. do 2 mstep. pose proof (is_list_length _ _ Hl).
  pose proof Hl as (_ & _ & -> & _). change (mkIter (head l) nullptr) with (pos [] l).
  apply contains_loop_run; [done|lia].
Qed.

Lemma list_size_spec s l : is_list s l → list_size s = Ok (length l, s).
Proof.
  intros Hl. unfold list_size. do 2 mstep. pose proof (is_list_length _ _ Hl).
  pose proof Hl as (_ & _ & -> & _). change (mkIter (head l) nullptr) with (pos [] l).
  apply size_loop_run; [done|lia].
Qed.

Lemma contains_assert_run s l e : is_list s l → e ∈ l → zth_assert_m (contains e) s = Ok (tt, s).
Proof.
  intros Hl He. apply zth_assert_m_true. rewrite (contains_spec _ _ _ Hl).
  by rewrite bool_decide_true.
Qed.

(** *** Removal anywhere, rotation, clearing *)

Lemma erase_spec s l1 e l2 :
  is_list s (l1 ++ e :: l2) →
  ∃ u s', erase e s = Ok (u, s') ∧ removed s s' e u (l1 ++ l2).
Proof.
  intros Hl. pose proof Hl as (Hr & Hnd & Hh & Ht). unfold erase.
  rewrite (bind_Ok _ _ _ _ _ (contains_assert_run _ _ e Hl ltac:(set_solver))). do 2 mstep.
  rewrite Hh, Ht. pose proof (NoDup_middle_inv Hnd) as He.
  destruct l1 as [|a l1]; [rewrite ptr_eqb_refl; by apply pop_front_spec|].
  rewrite (proj2 (ptr_eqb_false (head _) _)) by (intros [= ->]; set_solver).
  destruct l2 as [|b l2].
  - rewrite last_snoc, ptr_eqb_refl, app_nil_r. by apply pop_back_spec.
  - rewrite (proj2 (ptr_eqb_false _ _)).
    2:{ rewrite last_app, last_cons_cons. intros Hx. destruct (last (b :: l2)) eqn:E.
        - injection Hx as ->. apply last_elem in E. set_solver.
        - by apply last_None in E. }
    apply unlink_removed; try done.
    by rewrite Ht, !last_app, last_cons_cons.
Qed.

Lemma rotate_spec s l1 e l2 :
  is_list s (l1 ++ e :: l2) →
  ∃ s', rotate e s = Ok (tt, s') ∧ is_list s' (e :: l2 ++ l1) ∧ nodes s' = nodes s.
Proof.
  intros Hl. pose proof Hl as (Hr & Hnd & Hh & Ht). unfold rotate.
  rewrite (bind_Ok _ _ _ _ _ (contains_assert_run _ _ e Hl ltac:(set_solver))).
  assert (is_Some (nodes s !! e)) by (eapply ring_exists; eauto with zth).
  do 2 mstep. eexists. split; [reflexivity|]. split; [|done].
  split; [by apply (ring_rot _ l1 (e :: l2))|].
  split; [by apply (NoDup_rot l1 (e :: l2))|]. cbn [m_head m_tail].
  by apply ring_lookup in Hr as [_ ->].
Qed.

Lemma loose_agree h h' x : h' !! x = h !! x → loose h x → loose h' x.
Proof. unfold loose, prv, nxt. by intros ->. Qed.

Lemma clear_loop_run s l n :
  is_list s l → length l < n →
  ∃ s', clear_loop n s = Ok (tt, s') ∧ is_list s' [] ∧
    (∀ x, x ∈ l → loose (nodes s') x) ∧ same_but (nodes s) (nodes s') l.
Proof.
  revert s n. induction l as [|e l IH]; intros s [|n] Hl Hn; try (simpl in Hn; lia);
    simpl; rewrite (bind_Ok _ _ _ _ _ (is_list_empty_run _ _ Hl)).
  - rewrite bool_decide_true by done. exists s. split; [done|]. split; [done|]. split; [set_solver|done].
  - rewrite bool_decide_false by done.
    destruct (pop_front_spec _ _ _ Hl) as (u & s1 & E & Hl1 & _ & Hlo & _ & Hs1).
    rewrite (bind_Ok _ _ _ _ _ E).
    destruct (IH s1 n Hl1) as (s' & E' & Hl' & Hlo' & Hs'); [simpl in Hn; lia|].
    pose proof Hl as (_ & [He _]%NoDup_cons & _).
    exists s'. split; [done|]. split; [done|]. split.
    + intros x [->|Hx]%elem_of_cons; [|by apply Hlo'].
      eapply loose_agree; [by apply Hs'|done].
    + intros x Hx. rewrite Hs', Hs1 by set_solver. done.
Qed.

Lemma clear_spec s l :
  is_list s l →
  ∃ s', clear s = Ok (tt, s') ∧ is_list s' [] ∧
    (∀ x, x ∈ l → loose (nodes s') x) ∧ same_but (nodes s) (nodes s') l.
Proof.
  intros Hl. unfold clear. pose proof (is_list_length _ _ Hl) as Hlen.
  destruct EnableAssert eqn:EA.
  - mstep. apply clear_loop_run; [done|lia].
  - eexists. split; [reflexivity|]. split; [by repeat split; constructor|]. split; [|done].
    intros x Hx. split; [eapply ring_exists; [apply Hl|done]|]. by rewrite EA.
Qed.

(** *** Operations at an iterator *)

Lemma insert_middle_spec s k x rest e :
  is_list s (k ++ x :: rest) → k ≠ [] → e ∉ k ++ x :: rest → is_Some (nodes s !! e) →
  ∃ it s', insert_at (pos k (x :: rest)) e s = Ok (it, s') ∧ iter_get it = Some e ∧
    is_list s' (k ++ e :: x :: rest) ∧ same_but (nodes s) (nodes s') (k ++ e :: x :: rest).
Proof.
  intros (Hr & Hnd & Hh & Ht) Hk He Hex. unfold insert_at.
  rewrite pos_not_end, pos_get by done.
  replace (atBegin (pos k (x :: rest))) with false by (by destruct k).
  destruct (last k) as [z|] eqn:Hz; [|by apply last_None in Hz].
  assert (is_Some (nodes s !! x)) as Hxs by (eapply ring_exists; eauto with zth).
  assert (z ∈ k) as Hzk by eauto with zth.
  assert (is_Some (nodes s !! z)) as Hzs by (eapply ring_exists; eauto with zth).
  pose proof (ring_rot _ k (x :: rest) Hr) as Hr2.
  destruct (ring_ends _ ((x :: rest) ++ k) x z Hr2) as [Hnz Hpx];
    [done|by rewrite last_app, Hz|].
  assert (e ≠ z ∧ e ≠ x) as [Hez Hex'] by (split; intros ->; apply He; eauto with zth).
  unfold set_next, set_prev, set_user. msteps.
  do 2 eexists. split; [reflexivity|]. split; [done|]. split; [|frame].
  split; [|split; [|split]]; cbn [nodes m_head m_tail].
  - change (e :: x :: rest) with ([e] ++ x :: rest). rewrite (app_assoc k).
    apply ring_rot. rewrite app_assoc.
    eapply ring_insert; eauto; [by apply NoDup_rot|set_solver|by rewrite last_app, Hz| |];
      intros y; links; rewrite ?Hpx; repeat case_decide; congruence.
  - rewrite <-Permutation_middle. by constructor.
  - rewrite Hh. by destruct k.
  - rewrite Ht. by rewrite !last_app, last_cons_cons.
Qed.

Lemma insert_at_spec s pre rest e :
  is_list s (pre ++ rest) → e ∉ pre ++ rest → loose (nodes s) e →
  ∃ it s', insert_at (pos pre rest) e s = Ok (it, s') ∧ iter_get it = Some e ∧
    is_list s' (pre ++ e :: rest) ∧ same_but (nodes s) (nodes s') (pre ++ e :: rest).
Proof.
  intros Hl He Hlo. pose proof Hl as (_ & Hnd & _).
  destruct rest as [|x rest].
  { unfold insert_at. rewrite pos_end. rewrite app_nil_r in *.
    destruct (push_back_spec _ _ _ Hl He Hlo) as (it & s' & E & _ & Hl' & _ & Hs).
    rewrite (bind_Ok _ _ _ _ _ E). mstep. by do 2 eexists. }
  destruct pre as [|p pre]; [|apply insert_middle_spec; [done..|apply Hlo]].
  unfold insert_at. rewrite pos_not_end by done.
  destruct (push_front_spec _ _ _ Hl He Hlo) as (it & s' & E & _ & Hl' & _ & Hs).
  simpl. rewrite (bind_Ok _ _ _ _ _ E). do 2 eexists. split; [reflexivity|].
  split; [|done]. by pose proof Hl' as (_ & _ & -> & _).
Qed.

Lemma is_list_iter_pos s l : is_list s l → mkIter (m_head s) nullptr = pos [] l.
Proof. by intros (_ & _ & -> & _). Qed.

(** [erase] at an iterator returns the iterator of the element that follows. *)
Lemma erase_at_spec s pre x rest :
  is_list s (pre ++ x :: rest) →
  ∃ u s', erase_at (pos pre (x :: rest)) s = Ok (pos pre rest, s') ∧
          removed s s' x u (pre ++ rest).
Proof.
  intros Hl. pose proof Hl as (Hr & Hnd & Hh & Ht). unfold erase_at.
  destruct (erase_spec _ _ _ _ Hl) as (u & s' & E & Hrem).
  pose proof Hrem as ((_ & _ & Hh' & _) & _). exists u.
  rewrite pos_not_end, pos_get by done. do 3 mstep.
  destruct pre as [|p pre].
  { replace (atBegin (pos [] (x :: rest))) with true by done.
    rewrite (bind_Ok _ _ _ _ _ E). exists s'. split; [|done].
    unfold begin, gets. by rewrite Hh'. }
  replace (atBegin (pos (p :: pre) (x :: rest))) with false by done. rewrite Ht.
  destruct rest as [|y rest].
  - rewrite last_snoc, ptr_eqb_refl, (bind_Ok _ _ _ _ _ E). exists s'. split; [|done].
    unfold iend, gets. by rewrite Hh'.
  - rewrite (proj2 (ptr_eqb_false _ _)).
    2:{ rewrite last_app, last_cons_cons. pose proof (NoDup_middle_inv Hnd).
        intros Hx. destruct (last (y :: rest)) eqn:El; [|by apply last_None in El].
        injection Hx as ->. apply last_elem in El. set_solver. }
    assert (is_Some (nodes s !! x)) by (eapply ring_exists; eauto with zth).
    mstep. rewrite (bind_Ok _ _ _ _ _ E). exists s'. split; [|done].
    apply ring_lookup in Hr as [-> _]. mstep. by rewrite Hh'.
Qed.

(** *** Decrementing and cycling *)

(** [--it] moves back over the element passed last... *)
Lemma iter_prev_run s pre y x rest :
  is_list s ((pre ++ [y]) ++ x :: rest) →
  iter_prev false (pos (pre ++ [y]) (x :: rest)) s = Ok (pos pre (y :: x :: rest), s).
Proof.
  intros Hl. pose proof Hl as (Hr & Hnd & _). unfold iter_prev.
  assert (is_Some (nodes s !! x)) by (eapply ring_exists; eauto with zth).
  rewrite (bind_Ok _ _ _ s tt).
  2:{ apply zth_assert_true. rewrite pos_not_end by done. by destruct pre. }
  replace (m_current (pos (pre ++ [y]) (x :: rest))) with (Some x) by (by destruct pre).
  mstep. rewrite (bind_Ok _ _ s s (Some y)).
  2:{ rewrite rd_prev_run by done. apply ring_lookup in Hr as [_ ->].
      by rewrite app_comm_cons, app_assoc, last_snoc. }
  unfold mret, M_ret, pos. rewrite <-app_assoc. do 2 f_equal.
  destruct pre as [|p pre]; cbn [app head m_start]; f_equal.
  - by rewrite ptr_eqb_refl.
  - rewrite (proj2 (ptr_eqb_false (Some y) _)); [done|]. intros [= ->].
    rewrite <-app_assoc in Hnd. apply NoDup_cons in Hnd as [Hnd _]. apply Hnd. set_solver.
Qed.

(** ...but dereferences a null pointer when it is at the first element. *)
Lemma iter_prev_begin s x rest cyc :
  iter_prev cyc (pos [] (x :: rest)) s = Fault NullDeref.
Proof.
  unfold iter_prev. erewrite bind_Ok; [|apply zth_assert_true; by destruct cyc].
  done.
Qed.

(** [*++list.cyclic(x)], the successor of [x] in the ring. *)
Definition cyclic_succ (x : addr) : M LS addr :=
  it ← cyclic x; it' ← iter_next true it; deref (iter_get it').

Lemma cyclic_succ_spec s l1 x l2 y :
  is_list s (l1 ++ x :: l2) → head (l2 ++ l1 ++ [x]) = Some y →
  cyclic_succ x s = Ok (y, s).
Proof.
  intros Hl Hy. pose proof Hl as (Hr & Hnd & _). unfold cyclic_succ, cyclic.
  rewrite bind_assoc, (bind_Ok _ _ _ _ _ (contains_assert_run _ _ x Hl ltac:(set_solver))).
  mstep. unfold iter_next. rewrite bind_assoc.
  erewrite bind_Ok; [|apply zth_assert_true; done]. cbn [m_start].
  assert (is_Some (nodes s !! x)) by (eapply ring_exists; eauto with zth).
  change (atBegin (mkIter (Some x) nullptr)) with true. cbn [m_start].
  do 3 mstep. apply ring_lookup in Hr as [-> _]. by rewrite Hy.
Qed.

Lemma front_spec s e l : is_list s (e :: l) → front s = Ok (e, s).
Proof.
  intros Hl. unfold front. rewrite (bind_Ok _ _ _ _ _ (assert_nonempty_run _ _ Hl ltac:(done))).
  mstep. by pose proof Hl as (_ & _ & -> & _).
Qed.

Lemma back_spec s l e : is_list s (l ++ [e]) → back s = Ok (e, s).
Proof.
  intros Hl. unfold back.
  rewrite (bind_Ok _ _ _ _ _ (assert_nonempty_run _ _ Hl ltac:(by destruct l))).
  mstep. pose proof Hl as (_ & _ & _ & ->). by rewrite last_snoc.
Qed.
End Correctness.

(** ** Abstract specification: sequences of distinct addresses *)

Inductive list_op :=
| PushBack (e : addr) | PushFront (e : addr) | PopFront | PopBack
| Erase (e : addr) | Rotate (e : addr) | Clear.

(** [rotate_to e l] brings [e] to the front. *)
Fixpoint rotate_to (e : addr) (acc l : list addr) : option (list addr) :=
  match l with
  | [] => None
  | x :: l' => if decide (x = e) then Some (x :: l' ++ acc) else rotate_to e (acc ++ [x]) l'
  end.

Definition spec_op (op : list_op) (l : list addr) : option (list addr) :=
  match op with
  | PushBack e => if decide (e ∈ l) then None else Some (l ++ [e])
  | PushFront e => if decide (e ∈ l) then None else Some (e :: l)
  | PopFront => match l with [] => None | _ :: l' => Some l' end
  | PopBack => match l with [] => None | _ => Some (removelast l) end
  | Erase e => if decide (e ∈ l) then Some (filter (λ x, x ≠ e) l) else None
  | Rotate e => rotate_to e [] l
  | Clear => Some []
  end.

Definition run_op `{Config} (op : list_op) : M LS unit :=
  match op with
  | PushBack e => push_back e;; mret tt
  | PushFront e => push_front e;; mret tt
  | PopFront => pop_front;; mret tt
  | PopBack => pop_back;; mret tt
  | Erase e => erase e;; mret tt
  | Rotate e => rotate e
  | Clear => clear
  end.

Fixpoint spec_ops (ops : list list_op) (l : list addr) : option (list addr) :=
  match ops with [] => Some l | op :: ops => spec_op op l ≫= spec_ops ops end.

Fixpoint run_ops `{Config} (ops : list list_op) : M LS unit :=
  match ops with [] => mret tt | op :: ops => run_op op;; run_ops ops end.

(** [U] are the elements of the program; those in no list are loose. *)
Definition list_inv `{Config} (U : list addr) (s : LS) (l : list addr) : Prop :=
  is_list s l ∧ l ⊆ U ∧ ∀ x, x ∈ U → x ∉ l → loose (nodes s) x.

Definition op_arg (op : list_op) : list addr :=
  match op with PushBack e | PushFront e => [e] | _ => [] end.

Section Refinement.
Context `{Config}.

Lemma rotate_to_spec e acc l l' :
  rotate_to e acc l = Some l' → ∃ l1 l2, l = l1 ++ e :: l2 ∧ l' = e :: l2 ++ acc ++ l1.
Proof.
  revert acc. induction l as [|x l IH]; intros acc; simpl; [done|].
  case_decide as Hx.
  - intros [= <-]. subst. exists [], l. by rewrite app_nil_r.
  - intros (l1 & l2 & -> & ->)%IH. exists (x :: l1), l2. by rewrite <-!app_assoc.
Qed.

Lemma removed_inv U s s' e u l1 l2 :
  list_inv U s (l1 ++ e :: l2) → removed s s' e u (l1 ++ l2) → list_inv U s' (l1 ++ l2).
Proof.
  intros (Hl & HU & Hlo) (Hl' & _ & Hle & _ & Hs). split; [done|].
  split; [set_solver|]. intros x Hx Hn. destruct (decide (x = e)) as [->|Hxe]; [done|].
  eapply loose_agree; [apply Hs; set_solver|]. apply Hlo; set_solver.
Qed.

Lemma pushed_inv U s s' l l' e :
  list_inv U s l → is_list s' l' → (∀ x, x ∈ l' ↔ x = e ∨ x ∈ l) → e ∈ U →
  same_but (nodes s) (nodes s') l' → list_inv U s' l'.
Proof.
  intros (_ & HU & Hlo) Hl' Hel He Hs. split; [done|]. split.
  - intros x [->|Hx]%Hel; [done|by apply HU].
  - intros x Hx Hn. eapply loose_agree; [by apply Hs|]. apply Hlo; [done|].
    intros Hxl. apply Hn, Hel. by right.
Qed.

Lemma run_op_refines U op s l l' :
  list_inv U s l → op_arg op ⊆ U → spec_op op l = Some l' →
  ∃ s', run_op op s = Ok (tt, s') ∧ list_inv U s' l'.
Proof.
  intros Hinv HU Hop. pose proof Hinv as (Hl & HlU & Hlo). pose proof Hl as (_ & Hnd & _).
  destruct op as [e|e| | |e|e|]; simpl in *.
  - case_decide as He; simplify_eq.
    destruct (push_back_spec s l e Hl He) as (it & s' & E & _ & Hl' & _ & Hs);
      [apply Hlo; set_solver|].
    rewrite (bind_Ok _ _ _ _ _ E). exists s'. split; [done|].
    apply (pushed_inv U s s' l _ e); [done|done|set_solver|set_solver|done].
  - case_decide as He; simplify_eq.
    destruct (push_front_spec s l e Hl He) as (it & s' & E & _ & Hl' & _ & Hs);
      [apply Hlo; set_solver|].
    rewrite (bind_Ok _ _ _ _ _ E). exists s'. split; [done|].
    apply (pushed_inv U s s' l _ e); [done|done|set_solver|set_solver|done].
  - destruct l as [|e l]; simplify_eq.
    destruct (pop_front_spec s e l' Hl) as (u & s' & E & Hr).
    rewrite (bind_Ok _ _ _ _ _ E). exists s'. split; [done|].
    by eapply (removed_inv U _ _ e u []).
  - destruct l as [|e l _] using rev_ind; simplify_eq.
    destruct (pop_back_spec s l e Hl) as (u & s' & E & Hr).
    rewrite (bind_Ok _ _ _ _ _ E). exists s'. split; [done|].
    assert (l' = l ++ []) as ->.
    { rewrite app_nil_r, <-(removelast_last l e). by destruct l; simplify_eq/=. }
    eapply (removed_inv U _ _ e u); [done|]. by rewrite app_nil_r.
  - case_decide as He; simplify_eq. apply list_elem_of_split in He as (l1 & l2 & ->).
    rewrite filter_removed by done. destruct (erase_spec s l1 e l2 Hl) as (u & s' & E & Hr).
    rewrite (bind_Ok _ _ _ _ _ E). exists s'. split; [done|]. by eapply removed_inv.
  - apply rotate_to_spec in Hop as (l1 & l2 & -> & ->).
    destruct (rotate_spec s l1 e l2 Hl) as (s' & E & Hl' & Hs). exists s'. split; [done|].
    split; [done|]. rewrite Hs. split; [set_solver|]. intros x Hx Hn. apply Hlo; set_solver.
  - simplify_eq. destruct (clear_spec s l Hl) as (s' & E & Hl' & Hlo' & Hs).
    exists s'. split; [done|]. split; [done|]. split; [set_solver|]. intros x Hx _.
    destruct (decide (x ∈ l)); [by apply Hlo'|].
    eapply loose_agree; [by apply Hs|]. by apply Hlo.
Qed.

Lemma run_ops_refines U ops s l l' :
  list_inv U s l → Forall (λ op, op_arg op ⊆ U) ops → spec_ops ops l = Some l' →
  ∃ s', run_ops ops s = Ok (tt, s') ∧ list_inv U s' l'.
Proof.
  revert s l. induction ops as [|op ops IH]; intros s l Hinv HU Hops; simpl in *.
  - simplify_eq. by exists s.
  - apply bind_Some in Hops as (l1 & Hop & Hops). apply Forall_cons in HU as [Hu HU].
    destruct (run_op_refines _ _ _ _ _ Hinv Hu Hop) as (s1 & E & Hinv1).
    rewrite (bind_Ok _ _ _ _ _ E). by eapply IH.
Qed.
End Refinement.

(** ** Properties *)

(** C1: any sequence of list operations that is legal on the abstract sequence
    of elements (no element added twice, no pop of an empty list, only members
    erased or rotated to) runs on the pointer structure without an assertion
    failing and without a null dereference, and ends in a ring that represents
    the sequence the abstract operations give, with every element outside of
    the list ready to be added again. *)
Theorem list_refines_sequence `{Config} U ops s l l' :
  list_inv U s l → Forall (λ op, op_arg op ⊆ U) ops → spec_ops ops l = Some l' →
  ∃ s', run_ops ops s = Ok (tt, s') ∧ list_inv U s' l'.
Proof. apply run_ops_refines. Qed.

(** On a well-formed list, [empty], [contains], [size], [front] and [back]
    terminate, answer as the represented sequence says, and change nothing. *)
Theorem list_queries_functional `{Config} s l x :
  is_list s l →
  empty s = Ok (bool_decide (l = []), s) ∧
  contains x s = Ok (bool_decide (x ∈ l), s) ∧
  list_size s = Ok (length l, s) ∧
  (∀ a l', l = a :: l' → front s = Ok (a, s)) ∧
  (∀ l' z, l = l' ++ [z] → back s = Ok (z, s)).
Proof.
  intros Hl. split; [by apply is_list_empty_run|].
  split; [by apply contains_spec|]. split; [by apply list_size_spec|].
  split; intros ? ? ->; eauto using front_spec, back_spec.
Qed.

(** Editing at an iterator that stands between [pre] and [rest]: [insert]
    links the element in at that place and returns an iterator to it; [erase]
    takes the element out, marks it as free, and returns the iterator to the
    element that follows.  No other node of the heap is written. *)
Theorem list_iterator_edits `{Config} s pre rest e :
  is_list s (pre ++ rest) →
  (e ∉ pre ++ rest → loose (nodes s) e →
   ∃ it s', insert_at (pos pre rest) e s = Ok (it, s') ∧ iter_get it = Some e ∧
     is_list s' (pre ++ e :: rest) ∧ same_but (nodes s) (nodes s') (pre ++ e :: rest)) ∧
  (∀ x rest', rest = x :: rest' →
   ∃ s', erase_at (pos pre rest) s = Ok (pos pre rest', s') ∧
     is_list s' (pre ++ rest') ∧ loose (nodes s') x ∧
     same_but (nodes s) (nodes s') (x :: pre ++ rest')).
Proof.
  intros Hl. split; [by apply insert_at_spec|]. intros x rest' ->.
  destruct (erase_at_spec _ _ _ _ Hl) as (u & s' & E & Hl' & _ & Hlo & _ & Hs). by exists s'.
Qed.

(** Decrementing an iterator steps back to the previous element, except at
    the first element, where it dereferences a null pointer, for a cyclic
    iterator too, although that has a predecessor. *)
Theorem list_iterator_decrement `{Config} s pre y x rest cyc :
  is_list s ((pre ++ [y]) ++ x :: rest) →
  iter_prev false (pos (pre ++ [y]) (x :: rest)) s = Ok (pos pre (y :: x :: rest), s) ∧
  iter_prev cyc (mkIter (Some y) nullptr) s = Fault NullDeref.
Proof. intros Hl. split; [by apply iter_prev_run|by apply (iter_prev_begin s y [] cyc)]. Qed.

(** *** Witnesses: a heap with three free nodes. *)

Definition example_heap : LS :=
  mkLS (list_to_map [(1, mkListable nullptr nullptr 0); (2, mkListable nullptr nullptr 0);
                     (3, mkListable nullptr nullptr 0)])%positive nullptr nullptr.

(** The list [1; 3] in that heap. *)
Definition example_list : LS :=
  mkLS (list_to_map [(1, mkListable (Some 3) (Some 3) 0); (2, mkListable nullptr nullptr 0);
                     (3, mkListable (Some 1) (Some 1) 0)])%positive (Some 1%positive) (Some 3%positive).

Lemma example_heap_inv : list_inv (H := debug_config) [1; 2; 3]%positive example_heap [].
Proof.
  split; [by repeat split; constructor|]. split; [set_solver|].
  intros x Hx _. split; [|by intros _; set_unfold; destruct Hx as [->|[->|[->|[]]]]].
  set_unfold. destruct Hx as [->|[->|[->|[]]]]; by eexists.
Qed.

Lemma example_list_ok : is_list example_list [1; 3]%positive.
Proof.
  split; [by repeat split|]. split; [|done]. by apply (bool_decide_unpack _).
Qed.

Lemma list_refines_sequence_witness :
  ∃ s', run_ops (H := debug_config)
          [PushBack 1; PushFront 2; PushBack 3; Rotate 1; Erase 3; PushFront 3; PopBack]%positive
          example_heap = Ok (tt, s') ∧
        list_inv (H := debug_config) [1; 2; 3]%positive s' [3; 1]%positive.
Proof.
  apply (list_refines_sequence (H := debug_config) [1; 2; 3]%positive _ _ []);
    [apply example_heap_inv | | reflexivity].
  repeat (apply List.Forall_cons; [set_solver|]). apply List.Forall_nil.
Defined.

Lemma list_queries_functional_witness :
  contains (H := debug_config) 3%positive example_list = Ok (true, example_list) ∧
  list_size (H := debug_config) example_list = Ok (2, example_list).
Proof.
  destruct (list_queries_functional (H := debug_config) example_list [1; 3]%positive 3%positive
    example_list_ok) as (_ & Hc & Hs & _).
  split; [exact Hc|exact Hs].
Defined.

Lemma list_iterator_edits_witness :
  ∃ it s', insert_at (H := debug_config) (pos [1%positive] [3%positive]) 2%positive example_list
             = Ok (it, s') ∧ is_list s' [1; 2; 3]%positive.
Proof.
  destruct (list_iterator_edits (H := debug_config) example_list [1%positive] [3%positive]
    2%positive example_list_ok) as [Hi _].
  destruct Hi as (it & s' & E & _ & Hl & _); [set_solver|by split; [eexists|]|].
  exists it, s'. split; [exact E|exact Hl].
Defined.

Lemma list_iterator_decrement_witness :
  iter_prev (H := debug_config) true (mkIter (Some 1%positive) nullptr) example_list
  = Fault NullDeref.
Proof.
  apply (list_iterator_decrement (H := debug_config) example_list [] 1%positive 3%positive []
    true example_list_ok).
Defined.
