(* ===== verification/AATree.v ===== *)
(** * AA trees: the algorithm of [SortedList<T, Compare>] (libzth/list.h)

    The balancing algorithm of the sorted intrusive list on trees, without the
    heap: its operations, the balance invariant they keep, and the sorted
    sequence they maintain.  SortedList.v has the pointer program and connects
    it to these functions. *)

From stdpp Require Import base gmap list sorting.
From S2P Require Import Prelude.

(** ** The order of the elements *)

(** [Compare] of the template, on the elements at two addresses.  The keys do
    not change while an element is in the list. *)
Class Compare := m_comp : addr → addr → bool.

Section Order.
Context `{Compare}.

(** The comparison of [insert_], [delete_] and [contains]: the elements'
    order first, then their addresses. *)
Definition goes_left (x t : addr) : bool :=
  if m_comp x t then true else if m_comp t x then false else (x <? t)%positive.

Definition before (x y : addr) : Prop := goes_left x y = true.
End Order.

(** What [SortedList] expects of [Compare]: a strict weak order, as the
    standard library's sorted containers do. *)
Class StrictWeakOrder `{Compare} : Prop := {
  comp_irrefl x : m_comp x x = false;
  comp_trans x y z : m_comp x y = true → m_comp y z = true → m_comp x z = true;
  comp_incomp x y z : m_comp x y = false → m_comp y z = false → m_comp x z = false;
}.

(** Elements that compare equal are ordered by address: a strict total order. *)
Section TotalOrder.
Context `{StrictWeakOrder}.

Lemma before_irrefl x : ¬ before x x.
Proof. unfold before, goes_left. by rewrite comp_irrefl, Pos.ltb_irrefl. Qed.

Lemma before_trans x y z : before x y → before y z → before x z.
Proof.
  unfold before, goes_left.
  destruct (m_comp x y) eqn:Exy, (m_comp y z) eqn:Eyz, (m_comp x z) eqn:Exz; try done;
    destruct (m_comp y x) eqn:Eyx, (m_comp z y) eqn:Ezy, (m_comp z x) eqn:Ezx; try done;
    try (rewrite !Pos.ltb_lt; lia); exfalso;
    repeat match goal with
      | E : m_comp ?a ?b = true, F : m_comp ?b ?c = true |- _ =>
          learn_hyp (comp_trans _ _ _ E F)
      | E : m_comp ?a ?b = false, F : m_comp ?b ?c = false |- _ =>
          learn_hyp (comp_incomp _ _ _ E F)
      end; congruence.
Qed.

Lemma before_total x y : x ≠ y → ¬ before x y → before y x.
Proof.
  unfold before, goes_left. destruct (m_comp x y) eqn:E, (m_comp y x) eqn:F; try done.
  rewrite !Pos.ltb_lt. lia.
Qed.
End TotalOrder.

(** ** The algorithm on trees *)

Inductive tree := Leaf | Node (a : addr) (lv : Z) (l r : tree).

Fixpoint elements (t : tree) : list addr :=
  match t with Leaf => [] | Node a _ l r => elements l ++ a :: elements r end.

Definition lvl (t : tree) : Z := match t with Leaf => 0%Z | Node _ lv _ _ => lv end.

Definition root (t : tree) : ptr := match t with Leaf => nullptr | Node a _ _ _ => Some a end.

Definition right_of (t : tree) : tree := match t with Leaf => Leaf | Node _ _ _ r => r end.

Fixpoint height (t : tree) : nat :=
  match t with Leaf => 0 | Node _ _ l r => S (height l `max` height r) end.

Definition skewT (t : tree) : tree :=
  match t with
  | Node a lv (Node b lb ll lr) r =>
      if (lb =? lv)%Z then Node b lb ll (Node a lv lr r) else t
  | _ => t
  end.

Definition splitT (t : tree) : tree :=
  match t with
  | Node a lv l (Node b lb rl (Node c lc cl cr)) =>
      if (lv =? lc)%Z then Node b (lb + 1) (Node a lv l rl) (Node c lc cl cr) else t
  | _ => t
  end.

Definition decT (t : tree) : tree :=
  match t with
  | Leaf => Leaf
  | Node a lv l r =>
      let should_be := ((if (lvl l <? lvl r)%Z then lvl l else lvl r) + 1)%Z in
      if (should_be <? lv)%Z then
        Node a should_be l
          match r with
          | Node b lb rl rr => if (should_be <? lb)%Z then Node b should_be rl rr else r
          | Leaf => Leaf
          end
      else t
  end.

(** Apply [f] to the right child. *)
Definition on_right (f : tree → tree) (t : tree) : tree :=
  match t with Leaf => Leaf | Node a lv l r => Node a lv l (f r) end.

Definition rebalanceT (t : tree) : tree :=
  on_right splitT (splitT (on_right (on_right skewT) (on_right skewT (skewT (decT t))))).

Fixpoint lowestT (t : tree) : ptr :=
  match t with
  | Leaf => nullptr
  | Node a _ Leaf _ => Some a
  | Node _ _ l _ => lowestT l
  end.

Fixpoint highestT (t : tree) : ptr :=
  match t with
  | Leaf => nullptr
  | Node a _ _ Leaf => Some a
  | Node _ _ _ r => highestT r
  end.

Section TreeOperations.
Context `{Compare}.

Fixpoint insertT (x : addr) (t : tree) : tree :=
  match t with
  | Leaf => Node x 1 Leaf Leaf
  | Node a lv l r =>
      splitT (skewT (if goes_left x a then Node a lv (insertT x l) r
                     else Node a lv l (insertT x r)))
  end.

Fixpoint containsT (x : addr) (t : tree) : bool :=
  match t with
  | Leaf => false
  | Node a _ l r =>
      if decide (a = x) then true
      else if goes_left x a then containsT x l else containsT x r
  end.

Fixpoint deleteT (x : addr) (t : tree) : tree :=
  match t with
  | Leaf => Leaf
  | Node a lv l r =>
      if decide (a = x) then
        match l, lowestT r, highestT l with
        | Leaf, None, _ => Leaf
        | Leaf, Some s, _ => rebalanceT (Node s lv Leaf (deleteT s r))
        | _, _, Some p => rebalanceT (Node p lv (deleteT p l) r)
        | _, _, None => Leaf
        end
      else rebalanceT (if goes_left x a then Node a lv (deleteT x l) r
                       else Node a lv l (deleteT x r))
  end.
End TreeOperations.

(** The balance invariant of AA trees. *)
Fixpoint balanced (t : tree) : Prop :=
  match t with
  | Leaf => True
  | Node _ lv l r =>
      (1 ≤ lv)%Z ∧ lvl l = (lv - 1)%Z ∧ (lvl r = lv - 1 ∨ lvl r = lv)%Z ∧
      (lvl (right_of r) < lv)%Z ∧ balanced l ∧ balanced r
  end.

(** No horizontal link at the root. *)
Definition single (t : tree) : Prop :=
  match t with Leaf => False | Node _ lv _ r => (lvl r < lv)%Z end.

(** ** Balance is restored *)

Lemma lvl_nonneg t : balanced t → (0 ≤ lvl t)%Z.
Proof. destruct t; simpl; lia. Qed.

Lemma balanced_leaf t : balanced t → lvl t = 0%Z → t = Leaf.
Proof. destruct t; simpl; [done|lia]. Qed.

Lemma skewT_id t : balanced t → skewT t = t.
Proof. destruct t as [|a lv [|b lb ll lr] r]; simpl; [done..|]. case_match; [lia|done]. Qed.

Lemma splitT_id t : balanced t → splitT t = t.
Proof. destruct t as [|a lv l [|b lb rl [|c lc cl cr]]]; simpl; [done..|]. case_match; [lia|done]. Qed.

(** What [insertT] promises about [t'], made from [t]. *)
Definition grown (t t' : tree) : Prop :=
  balanced t' ∧ (lvl t' = lvl t ∨ (lvl t' = lvl t + 1)%Z ∧ single t') ∧
  (single t → lvl t' = lvl t).

(** Decide every level comparison of the goal, then close it by arithmetic. *)
Ltac levels :=
  simpl in *;
  repeat match goal with
    | |- context [Z.eqb ?x ?y] => destruct (Z.eqb_spec x y); simpl in *; try lia
    | |- context [Z.ltb ?x ?y] => destruct (Z.ltb_spec x y); simpl in *; try lia
    end;
  repeat split; try tauto; try lia.

Lemma skewT_low a lv l r : (lvl l < lv)%Z → skewT (Node a lv l r) = Node a lv l r.
Proof. destruct l; simpl; [done|]. intros. by rewrite (proj2 (Z.eqb_neq _ _)) by lia. Qed.

Lemma lvl_right_of t : balanced t → (lvl (right_of t) ≤ lvl t)%Z.
Proof. destruct t; simpl; lia. Qed.

Lemma grown_left a lv l l' r :
  balanced (Node a lv l r) → grown l l' → grown (Node a lv l r) (splitT (skewT (Node a lv l' r))).
Proof.
  intros B (G1 & G2 & G3). unfold grown.
  destruct l' as [|b lb ll lr], r as [|c lc cl cr]; [|destruct cr| |destruct lr, cr];
    try destruct lr; levels.
Qed.

Lemma grown_right a lv l r r' :
  balanced (Node a lv l r) → grown r r' → grown (Node a lv l r) (splitT (skewT (Node a lv l r'))).
Proof.
  intros (H1 & H2 & H3 & H4 & H5 & H6) (G1 & G2 & G3). rewrite skewT_low by lia. unfold grown.
  assert (lvl (right_of (right_of r')) ≤ lvl (right_of r'))%Z
    by (apply lvl_right_of; destruct r'; simpl in *; tauto).
  destruct r' as [|c lc cl [|d ld dl dr]]; [levels|levels|].
  assert (lvl (right_of cl) ≤ lvl cl)%Z by (apply lvl_right_of; simpl in *; tauto).
  destruct r; levels.
Qed.

Lemma insertT_grown `{Compare} x t : balanced t → grown t (insertT x t).
Proof.
  induction t as [|a lv l IHl r IHr]; intros B.
  - unfold grown. simpl. repeat split; try lia.
  - simpl insertT. destruct B as (?&?&?&?&Bl&Br).
    destruct (goes_left x a); [apply grown_left|apply grown_right]; auto; by repeat split.
Qed.

(** What [deleteT] promises. *)
Definition shrunk (t t' : tree) : Prop :=
  balanced t' ∧ (lvl t' = lvl t ∨ (lvl t' = lvl t - 1)%Z) ∧
  (lvl t' = lvl t → single t → single t').

Lemma decT_id t : balanced t → decT t = t.
Proof. destruct t; simpl; [done|]. intros. case_match; levels. Qed.

Lemma on_right_id f t : f (right_of t) = right_of t → on_right f t = t.
Proof. destruct t; simpl; congruence. Qed.

Lemma on_right_node f a lv l r : on_right f (Node a lv l r) = Node a lv l (f r).
Proof. done. Qed.

Lemma balanced_right_of t : balanced t → balanced (right_of t).
Proof. destruct t; simpl; tauto. Qed.

Lemma rebalanceT_id t : balanced t → rebalanceT t = t.
Proof.
  intros B. pose proof (balanced_right_of _ B). pose proof (balanced_right_of (right_of t)).
  unfold rebalanceT. rewrite decT_id, skewT_id by done.
  rewrite (on_right_id skewT), (on_right_id (on_right skewT)), splitT_id, on_right_id; auto.
  - apply splitT_id; auto.
  - apply on_right_id, skewT_id; auto.
  - apply skewT_id; auto.
Qed.

Lemma skewT_eq a lv b lb ll lr r :
  lb = lv → skewT (Node a lv (Node b lb ll lr) r) = Node b lb ll (Node a lv lr r).
Proof. simpl. intros ->. by rewrite Z.eqb_refl. Qed.

Lemma splitT_low a lv l r : (lvl (right_of r) < lv)%Z → (0 < lv)%Z → splitT (Node a lv l r) = Node a lv l r.
Proof.
  destruct r as [|b lb rl [|c lc cl cr]]; simpl; [done..|].
  intros. by rewrite (proj2 (Z.eqb_neq _ _)) by lia.
Qed.

Lemma splitT_eq a lv l b lb rl rr :
  (0 < lv)%Z → lvl rr = lv → splitT (Node a lv l (Node b lb rl rr)) = Node b (lb + 1) (Node a lv l rl) rr.
Proof. destruct rr; simpl; [lia|]. intros _ ->. by rewrite Z.eqb_refl. Qed.

(** The right child lost a level. *)
Lemma shrunk_right_low a lv l r :
  (1 < lv)%Z → lvl l = (lv - 1)%Z → lvl r = (lv - 2)%Z → balanced l → balanced r →
  let t' := rebalanceT (Node a lv l r) in
  balanced t' ∧ (lvl t' = (lv - 1)%Z ∨ lvl t' = lv ∧ single t').
Proof.
  intros Hlv Hl Hr Bl Br. unfold rebalanceT. unfold decT.
  rewrite (proj2 (Z.ltb_ge (lvl l) (lvl r))), (proj2 (Z.ltb_lt (lvl r + 1) lv)) by lia.
  replace (match r with Leaf => Leaf | Node _ _ _ _ => _ end) with r
    by (destruct r; [done|]; simpl; case_match; [lia|done]).
  destruct l as [|b lb ll lr]; simpl in Hl; [lia|].
  replace (lvl r + 1)%Z with (lv - 1)%Z by lia. rewrite skewT_eq by lia. rewrite ?on_right_node.
  assert (lvl (right_of r) ≤ lvl r)%Z by by apply lvl_right_of.
  destruct Bl as (? & ? & Hlr & ? & ? & Blr).
  destruct (decide (lvl lr = lb)) as [E|E].
  - destruct lr as [|c lc cl cr]; simpl in E; [lia|].
    rewrite (skewT_eq a) by lia. rewrite ?on_right_node.
    simpl in Blr. rewrite (skewT_low a) by (simpl in *; lia).
    rewrite splitT_eq by (simpl; lia). rewrite ?on_right_node.
    assert (lvl (right_of cl) ≤ lvl cl)%Z by (apply lvl_right_of; tauto).
    rewrite splitT_low by lia. simpl in *. repeat split; try tauto; try lia.
  - rewrite (skewT_low a) by lia. rewrite ?on_right_node. rewrite skewT_id by done.
    rewrite splitT_low by (simpl; lia). rewrite ?on_right_node. rewrite splitT_low by lia.
    simpl in *. repeat split; try tauto; lia.
Qed.

(** The left child lost a level. *)
Lemma shrunk_left_low a lv l r :
  (1 < lv)%Z → lvl l = (lv - 2)%Z → (lvl r = lv - 1 ∨ lvl r = lv)%Z → (lvl (right_of r) < lv)%Z →
  balanced l → balanced r →
  let t' := rebalanceT (Node a lv l r) in
  balanced t' ∧ (lvl t' = (lv - 1)%Z ∨ lvl t' = lv ∧ ((lvl r < lv)%Z → single t')).
Proof.
  intros Hlv Hl Hr Hrr Bl Br. unfold rebalanceT. unfold decT.
  rewrite (proj2 (Z.ltb_lt (lvl l) (lvl r))), (proj2 (Z.ltb_lt (lvl l + 1) lv)) by lia.
  destruct r as [|b lb rl rr]; simpl in Hr, Hrr; [lia|].
  replace (lvl l + 1)%Z with (lv - 1)%Z by lia. rewrite skewT_low by lia. rewrite ?on_right_node.
  pose proof (lvl_right_of l Bl).
  destruct (Z.ltb_spec (lv - 1) lb).
  - destruct Br as (? & Hrl & Hrr' & ? & Brl & Brr).
    pose proof (lvl_right_of _ Brr).
    destruct rl as [|d ld dl dr]; simpl in Hrl; [lia|].
    rewrite (skewT_eq b) by lia. rewrite ?on_right_node.
    destruct Brl as (? & Hdl & Hdr & ? & Bdl & Bdr).
    pose proof (lvl_right_of _ Bdl). pose proof (lvl_right_of _ Bdr).
    destruct (decide (lvl dr = ld)) as [E|E].
    + destruct dr as [|e le el er]; simpl in E; [lia|].
      rewrite (skewT_eq b) by lia. rewrite (splitT_eq a) by (simpl; lia). rewrite ?on_right_node.
      rewrite (splitT_eq e) by lia.
      assert (lvl (right_of el) ≤ lvl el)%Z by (apply lvl_right_of; simpl in *; tauto).
      assert (lvl (right_of er) ≤ lvl er)%Z by (apply lvl_right_of; simpl in *; tauto).
      simpl in *. repeat split; try tauto; lia.
    + rewrite (skewT_low b) by lia. rewrite (splitT_eq a) by (simpl; lia). rewrite ?on_right_node.
      destruct (decide (lvl (right_of rr) = (lv - 1)%Z)) as [E'|E'].
      * destruct rr as [|c lc cl cr]; simpl in E'; [lia|].
        rewrite splitT_eq by lia. 
        assert (lvl (right_of cl) ≤ lvl cl)%Z by (apply lvl_right_of; simpl in *; tauto).
        assert (lvl (right_of cr) ≤ lvl cr)%Z by (apply lvl_right_of; simpl in *; tauto).
        simpl in *. repeat split; try tauto; lia.
      * rewrite splitT_low by lia. simpl in *. repeat split; try tauto; lia.
  - rewrite (skewT_id (Node b lb rl rr)) by done. rewrite on_right_node.
    assert (balanced rr) by apply Br. assert (balanced rl) by apply Br.
    pose proof (lvl_right_of rl ltac:(done)). rewrite (skewT_id rr) by done.
    destruct (decide (lvl rr = (lv - 1)%Z)) as [E|E].
    + rewrite splitT_eq, on_right_node, splitT_id by (lia || done).
      simpl in *. repeat split; try tauto; lia.
    + rewrite splitT_low, on_right_node, splitT_id by (simpl in *; lia || done).
      simpl in *. repeat split; try tauto; lia.
Qed.

Lemma shrunk_left a a' lv l l' r :
  balanced (Node a lv l r) → shrunk l l' → shrunk (Node a lv l r) (rebalanceT (Node a' lv l' r)).
Proof.
  intros (H1 & H2 & H3 & H4 & H5 & H6) (S1 & S2 & S3).
  destruct (decide (lvl l' = lvl l)) as [E|E].
  - rewrite rebalanceT_id by (repeat split; auto; lia). repeat split; simpl; auto; lia.
  - pose proof (lvl_nonneg l' S1).
    pose proof (shrunk_left_low a' lv l' r ltac:(lia) ltac:(lia) ltac:(lia) ltac:(lia) S1 H6) as [B L].
    simpl in B, L. split; [done|]. simpl. split; [lia|]. intros E' Hs. destruct L as [|[_ L]]; [lia|auto].
Qed.

Lemma shrunk_right a a' lv l r r' :
  balanced (Node a lv l r) → shrunk r r' → shrunk (Node a lv l r) (rebalanceT (Node a' lv l r')).
Proof.
  intros (H1 & H2 & H3 & H4 & H5 & H6) (S1 & S2 & S3).
  pose proof (lvl_right_of r' S1) as Hr.
  destruct (decide (lvl r' = (lv - 2)%Z)) as [E|E].
  - pose proof (lvl_nonneg r' S1).
    pose proof (shrunk_right_low a' lv l r' ltac:(lia) ltac:(lia) ltac:(lia) H5 S1) as [B L].
    simpl in B, L. split; [done|]. simpl. split; [lia|]. intros E' Hs. destruct L as [|[_ L]]; [lia|auto].
  - assert (balanced (Node a' lv l r')).
    { repeat split; auto; [lia|]. destruct (decide (lvl r' = lv)) as [E'|E']; [|lia].
      assert (single r') as Hs by (apply S3; [lia|]; destruct r; simpl in *; lia).
      destruct r'; simpl in *; lia. }
    rewrite rebalanceT_id by done. split; [done|]. simpl. split; [lia|]. lia.
Qed.

Lemma lowestT_Some t : t ≠ Leaf → is_Some (lowestT t).
Proof. induction t as [|a lv [] IH r]; naive_solver. Qed.

Lemma highestT_Some t : t ≠ Leaf → is_Some (highestT t).
Proof. induction t as [|a lv l ? []]; naive_solver. Qed.

Lemma deleteT_shrunk `{Compare} x t : balanced t → shrunk t (deleteT x t).
Proof.
  revert x. induction t as [|a lv l IHl r IHr]; intros x B; [repeat split; auto|].
  simpl deleteT. assert (balanced l) by apply B. assert (balanced r) by apply B.
  case_decide as D.
  - destruct l as [|b lb ll lr].
    + destruct r as [|c lc cl cr].
      * simpl in B. repeat split; simpl in *; lia.
      * destruct (lowestT_Some (Node c lc cl cr) ltac:(done)) as [s ->].
        apply shrunk_right; auto.
    + destruct (highestT_Some (Node b lb ll lr) ltac:(done)) as [s E]. simpl in E. rewrite E.
      apply shrunk_left; auto.
  - destruct (goes_left x a); [apply shrunk_left|apply shrunk_right]; auto.
Qed.

(** ** The sequence of elements *)

(** Insertion into a sequence in order. *)
Fixpoint ins `{Compare} (x : addr) (l : list addr) : list addr :=
  match l with
  | [] => [x]
  | e :: l' => if goes_left x e then x :: l else e :: ins x l'
  end.

Abbreviation ordered := (StronglySorted before).

Lemma elements_skewT t : elements (skewT t) = elements t.
Proof.
  destruct t as [|a lv [|b lb ll lr] r]; simpl; [done..|].
  case_match; simpl; by rewrite <-?(assoc_L (++)).
Qed.

Lemma elements_splitT t : elements (splitT t) = elements t.
Proof.
  destruct t as [|a lv l [|b lb rl [|c lc cl cr]]]; simpl; [done..|].
  case_match; simpl; by rewrite <-?(assoc_L (++)).
Qed.

Lemma elements_decT t : elements (decT t) = elements t.
Proof. destruct t as [|a lv l [|b lb rl rr]]; simpl; [done|..]; repeat case_match; done. Qed.

Lemma elements_nil t : elements t = [] → t = Leaf.
Proof. destruct t as [|? ? l]; [done|]. simpl. by destruct (elements l). Qed.

Lemma elements_on_right f t : (∀ u, elements (f u) = elements u) → elements (on_right f t) = elements t.
Proof. intros E. destruct t; simpl; by rewrite ?E. Qed.

#[local] Hint Resolve elements_skewT elements_splitT elements_decT elements_on_right : core.

Lemma elements_rebalanceT t : elements (rebalanceT t) = elements t.
Proof.
  unfold rebalanceT. rewrite elements_on_right, elements_splitT, !elements_on_right, elements_skewT; auto.
Qed.

Lemma head_elements_lowestT t : lowestT t = head (elements t).
Proof.
  induction t as [|a lv l IHl r IHr]; [done|].
  destruct l as [|b lb ll lr]; [done|]. change (lowestT (Node b lb ll lr) = head (elements (Node b lb ll lr) ++ a :: elements r)).
  rewrite IHl. destruct (elements (Node b lb ll lr)) eqn:E; [|done].
  simpl in E. by destruct (elements ll).
Qed.

Lemma last_elements_highestT t : highestT t = last (elements t).
Proof.
  induction t as [|a lv l IHl r IHr]; [done|].
  destruct r as [|b lb rl rr]; [by simpl; rewrite last_snoc|].
  change (highestT (Node b lb rl rr) = last (elements l ++ a :: elements (Node b lb rl rr))).
  rewrite IHr, last_app_cons. destruct (elements (Node b lb rl rr)) eqn:E; [|done].
  simpl in E. by destruct (elements rl).
Qed.

Lemma deleteT_succ `{Compare} x lv r s :
  lowestT r = Some s → deleteT x (Node x lv Leaf r) = rebalanceT (Node s lv Leaf (deleteT s r)).
Proof. intros E. simpl. case_decide; [|done]. by rewrite E. Qed.

Lemma deleteT_pred `{Compare} x lv l r p :
  highestT l = Some p → deleteT x (Node x lv l r) = rebalanceT (Node p lv (deleteT p l) r).
Proof.
  intros E. destruct l as [|b lb ll lr]; [done|]. simpl in *. case_decide; [|done]. by rewrite E.
Qed.

Lemma deleteT_other `{Compare} x a lv l r :
  a ≠ x → deleteT x (Node a lv l r) =
    rebalanceT (if goes_left x a then Node a lv (deleteT x l) r else Node a lv l (deleteT x r)).
Proof. intros. simpl. by case_decide. Qed.

Section Sequence.
Context `{StrictWeakOrder}.

Lemma ordered_app l1 a l2 :
  ordered (l1 ++ a :: l2) ↔
  ordered l1 ∧ ordered l2 ∧ (∀ e, e ∈ l1 → before e a) ∧ (∀ e, e ∈ l2 → before a e).
Proof.
  rewrite StronglySorted_app, StronglySorted_cons, Forall_forall. split.
  - intros (S1 & S2 & S3 & S4). repeat split; auto. intros e He. apply S1; set_solver.
  - intros (S1 & S2 & S3 & S4). repeat split; auto. intros e e' He He'.
    apply elem_of_cons in He' as [->|He']; eauto using before_trans.
Qed.

Lemma ordered_NoDup l : ordered l → NoDup l.
Proof.
  induction 1 as [|a l ? IH Ha]; constructor; [|done].
  intros He. rewrite Forall_forall in Ha. by apply Ha, before_irrefl in He.
Qed.

Lemma ins_left x l1 a l2 : before x a → ins x (l1 ++ a :: l2) = ins x l1 ++ a :: l2.
Proof.
  intros Hx. induction l1 as [|e l1 IH]; simpl; [by rewrite Hx|]. case_match; [done|]. by rewrite IH.
Qed.

Lemma ins_right x l1 a l2 :
  ¬ before x a → (∀ e, e ∈ l1 → before e a) → ins x (l1 ++ a :: l2) = l1 ++ a :: ins x l2.
Proof.
  intros Hx. induction l1 as [|e l1 IH]; intros He; simpl.
  - by rewrite (not_true_is_false _ Hx).
  - rewrite (not_true_is_false (goes_left x e)); [by rewrite IH by set_solver|].
    intros Hxe. apply Hx. apply before_trans with e; [done|set_solver].
Qed.

Lemma ins_Permutation x l : ins x l ≡ₚ x :: l.
Proof. induction l as [|e l IH]; simpl; [done|]. case_match; [done|]. rewrite IH. constructor. Qed.

Lemma ins_ordered x l : x ∉ l → ordered l → ordered (ins x l).
Proof.
  induction l as [|e l IH]; simpl; intros Hx Hl; [repeat constructor|].
  apply StronglySorted_cons in Hl as [Hl1 Hl2]. rewrite Forall_forall in Hl1. case_match.
  - repeat constructor; auto; try (by rewrite Forall_forall).
    rewrite Forall_forall. intros ??. apply before_trans with e; auto.
  - apply StronglySorted_cons. split; [|apply IH; set_solver].
    rewrite Forall_forall. intros y. rewrite (ins_Permutation x l), elem_of_cons.
    intros [->|Hy]; [|auto]. apply before_total; [set_solver|]. unfold before. congruence.
Qed.

Lemma filter_ordered x l : ordered l → ordered (filter (λ e, e ≠ x) l).
Proof.
  induction l as [|e l IH]; intros Hl; [done|]. apply StronglySorted_cons in Hl as [Hl1 Hl2].
  rewrite filter_cons. case_decide; [|auto]. apply StronglySorted_cons. split; [|auto].
  rewrite Forall_forall in *. intros y [_ Hy]%list_elem_of_filter. auto.
Qed.

(** [insertT] inserts in order. *)
Lemma elements_insertT x t : ordered (elements t) → elements (insertT x t) = ins x (elements t).
Proof.
  induction t as [|a lv l IHl r IHr]; [done|]. simpl. intros (S1 & S2 & S3 & S4)%ordered_app.
  rewrite elements_splitT, elements_skewT. case_match eqn:E; simpl.
  - by rewrite IHl, ins_left.
  - rewrite IHr, ins_right; auto. unfold before. congruence.
Qed.

Lemma containsT_elem x t : ordered (elements t) → containsT x t = bool_decide (x ∈ elements t).
Proof.
  induction t as [|a lv l IHl r IHr]; [done|]. simpl. intros (S1 & S2 & S3 & S4)%ordered_app.
  destruct (decide (a = x)) as [D|D]; [subst; symmetry; apply bool_decide_eq_true; auto with zth|].
  case_match eqn:E; [rewrite IHl by done|rewrite IHr by done]; apply bool_decide_ext;
    rewrite elem_of_app, elem_of_cons.
  - split; [tauto|]. intros [|[|Hx]]; [done..|].
    destruct (before_irrefl x). eapply before_trans; [apply E|auto].
  - split; [tauto|]. intros [Hx|[|]]; [|done..]. apply S3 in Hx. unfold before in Hx. congruence.
Qed.

(** [deleteT] removes the element, wherever it is, and leaves the others. *)
Lemma elements_deleteT x t :
  ordered (elements t) → elements (deleteT x t) = filter (λ e, e ≠ x) (elements t).
Proof.
  revert x. induction t as [|a lv l IHl r IHr]; intros x; [done|].
  change (elements (Node a lv l r)) with (elements l ++ a :: elements r).
  intros Ht. pose proof (ordered_NoDup _ Ht) as Hnd.
  pose proof (proj1 (ordered_app _ _ _) Ht) as (S1 & S2 & S3 & S4). destruct (decide (a = x)) as [D|D].
  - subst x. rewrite filter_removed by done.
    destruct (highestT l) as [p|] eqn:E; [|destruct (lowestT r) as [s|] eqn:E'];
      rewrite last_elements_highestT in E; try rewrite head_elements_lowestT in E'.
    + rewrite (deleteT_pred _ _ _ _ p), elements_rebalanceT by by rewrite last_elements_highestT.
      cbn [elements]. rewrite IHl by done. apply ordered_NoDup in S1.
      apply last_Some in E as [l' E]. rewrite E in *.
      rewrite filter_removed, app_nil_r by done. by rewrite <-(assoc_L (++)).
    + apply last_None, elements_nil in E as ->.
      rewrite (deleteT_succ _ _ _ s), elements_rebalanceT by by rewrite head_elements_lowestT.
      cbn [elements]. rewrite IHr by done. apply ordered_NoDup in S2.
      destruct (elements r) as [|? r']; simplify_eq/=.
      pose proof (filter_removed s [] r' ltac:(done)) as F. simpl in F. by rewrite F.
    + apply last_None, elements_nil in E as ->.
      apply head_None, elements_nil in E' as ->. simpl. by case_decide.
  - rewrite deleteT_other, elements_rebalanceT, filter_app, filter_cons_True by done.
    case_match eqn:E; simpl.
    + rewrite IHl, (filter_absent x (elements r)); auto. intros Hx.
      destruct (before_irrefl x). eapply before_trans; [apply E|auto].
    + rewrite IHr, (filter_absent x (elements l)); auto. intros Hx%S3.
      unfold before in Hx. congruence.
Qed.
End Sequence.

(** ** Height and size *)

Lemma lvl_size t : balanced t → (2 ^ lvl t ≤ Z.of_nat (length (elements t)) + 1)%Z.
Proof.
  induction t as [|a lv l IHl r IHr]; simpl; [lia|]. intros (H1 & H2 & H3 & H4 & Bl & Br).
  rewrite length_app. simpl. specialize (IHl Bl). specialize (IHr Br).
  assert (2 ^ lvl l = 2 ^ (lv - 1))%Z by (f_equal; lia).
  assert (2 ^ (lv - 1) ≤ 2 ^ lvl r)%Z by (apply Z.pow_le_mono_r; lia).
  assert (2 ^ lv = 2 * 2 ^ (lv - 1))%Z by (rewrite <-Z.pow_succ_r by lia; f_equal; lia). lia.
Qed.

Lemma height_lvl t : balanced t → (Z.of_nat (height t) ≤ 2 * lvl t)%Z.
Proof.
  assert (balanced t → Z.of_nat (height t) ≤ 2 * lvl t ∧
    (lvl (right_of t) < lvl t → Z.of_nat (height t) ≤ 2 * lvl t - 1))%Z as H; [|tauto].
  induction t as [|a lv l IHl r IHr]; simpl; [lia|]. intros (H1 & H2 & H3 & H4 & Bl & Br).
  specialize (IHl Bl). specialize (IHr Br). lia.
Qed.

Lemma height_size t : height t ≤ length (elements t).
Proof. induction t; simpl; [lia|]. rewrite length_app. simpl. lia. Qed.
