(* ===== verification/SortedList.v ===== *)
(** * The sorted intrusive list (libzth/list.h, [SortedList<T, Compare>])

    An AA tree: a binary search tree of the elements themselves, whose balance
    is kept by a level per node, with a cached pointer to the lowest element.
    The pointer program is modelled on a heap of nodes; [tree] and the functions
    on it are the algorithm without the heap, and the refinement lemmas connect
    the two. *)

From stdpp Require Import base gmap list sorting.
From S2P Require Import Prelude AATree.

Module AA.

(** ** Data *)

(** The view of a [Listable] that [SortedList] uses; [level] is a
    [uint_fast8_t]. *)
Record SNode := mkSNode { left : ptr; right : ptr; level : Z }.

(** The tree's heap and the fields [m_t], [m_head], [m_size]. *)
Record SS := mkSS { nodes : gmap addr SNode; m_t : ptr; m_head : ptr; m_size : Z }.

(** ** Memory accesses *)

Definition deref (p : ptr) : M SS addr :=
  match p with Some a => mret a | None => fail NullDeref end.

Definition rd {A : Type} (f : SNode → A) (a : addr) : M SS A := λ s,
  match nodes s !! a with Some n => Ok (f n, s) | None => Fault NullDeref end.

Definition wr (f : SNode → SNode) (a : addr) : M SS unit := λ s,
  match nodes s !! a with
  | Some _ => Ok (tt, mkSS (alter f a (nodes s)) (m_t s) (m_head s) (m_size s))
  | None => Fault NullDeref
  end.

Definition set_left (a : addr) (p : ptr) : M SS unit := wr (λ n, mkSNode p (right n) (level n)) a.
Definition set_right (a : addr) (p : ptr) : M SS unit := wr (λ n, mkSNode (left n) p (level n)) a.
Definition set_level (a : addr) (v : Z) : M SS unit := wr (λ n, mkSNode (left n) (right n) v) a.
Definition set_t (p : ptr) : M SS unit := modify (λ s, mkSS (nodes s) p (m_head s) (m_size s)).
Definition set_head (p : ptr) : M SS unit := modify (λ s, mkSS (nodes s) (m_t s) p (m_size s)).
Definition set_size (n : Z) : M SS unit := modify (λ s, mkSS (nodes s) (m_t s) (m_head s) n).

(** The level of a possibly absent child. *)
Definition rd_level (p : ptr) : M SS Z :=
  match p with None => mret 0%Z | Some a => rd level a end.

Section Operations.
Context `{Config} `{Compare}.

(** ** Balancing *)

Definition skew (t : ptr) : M SS ptr :=
  match t with
  | None => mret nullptr
  | Some a =>
      l ← rd left a;
      match l with
      | None => mret t
      | Some l =>
          ll ← rd level l; tl ← rd level a;
          if (ll =? tl)%Z then
            lr ← rd right l; set_left a lr;;
            set_right l (Some a);;
            mret (Some l)
          else mret t
      end
  end.

Definition split (t : ptr) : M SS ptr :=
  match t with
  | None => mret nullptr
  | Some a =>
      r ← rd right a;
      match r with
      | None => mret t
      | Some r =>
          rr ← rd right r;
          match rr with
          | None => mret t
          | Some rr =>
              tl ← rd level a; rrl ← rd level rr;
              if (tl =? rrl)%Z then
                rl ← rd left r; set_right a rl;;
                set_left r (Some a);;
                lv ← rd level r; zth_assert (lv <? 255)%Z;;
                set_level r (u8 (lv + 1));;
                mret (Some r)
              else mret t
          end
      end
  end.

Definition decrease_level (a : addr) : M SS unit :=
  l ← rd left a; ll ← rd_level l;
  r ← rd right a; lr ← rd_level r;
  let should_be := u8 ((if (ll <? lr)%Z then ll else lr) + 1) in
  tl ← rd level a;
  if (should_be <? tl)%Z then
    set_level a should_be;;
    match r with
    | None => mret tt
    | Some r => rl ← rd level r; if (should_be <? rl)%Z then set_level r should_be else mret tt
    end
  else mret tt.

Fixpoint lowest (fuel : nat) (t : ptr) : M SS ptr :=
  match fuel with
  | O => fail OutOfFuel
  | S fuel =>
      match t with
      | None => mret nullptr
      | Some a => l ← rd left a; match l with None => mret t | Some _ => lowest fuel l end
      end
  end.

Fixpoint highest (fuel : nat) (t : ptr) : M SS ptr :=
  match fuel with
  | O => fail OutOfFuel
  | S fuel =>
      match t with
      | None => mret nullptr
      | Some a => r ← rd right a; match r with None => mret t | Some _ => highest fuel r end
      end
  end.

Definition successor (fuel : nat) (t : addr) : M SS ptr := r ← rd right t; lowest fuel r.
Definition predecessor (fuel : nat) (t : addr) : M SS ptr := l ← rd left t; highest fuel l.

(** ** Operations *)

Fixpoint insert_ (fuel : nat) (x : addr) (t : ptr) : M SS ptr :=
  match fuel with
  | O => fail OutOfFuel
  | S fuel =>
      match t with
      | None =>
          set_level x 1;; set_right x nullptr;; set_left x nullptr;; mret (Some x)
      | Some a =>
          (if goes_left x a
           then l ← rd left a; l' ← insert_ fuel x l; set_left a l'
           else r ← rd right a; r' ← insert_ fuel x r; set_right a r');;
          hd ← gets m_head; l ← rd left a;
          when (ptr_eqb t hd && negb (ptr_eqb l nullptr)) (set_head l);;
          t' ← skew t; split t'
      end
  end.

Fixpoint contains_ (fuel : nat) (x : addr) (t : ptr) : M SS bool :=
  match fuel with
  | O => fail OutOfFuel
  | S fuel =>
      match t with
      | None => mret false
      | Some a =>
          if ptr_eqb t (Some x) then mret true
          else if goes_left x a then l ← rd left a; contains_ fuel x l
          else r ← rd right a; contains_ fuel x r
      end
  end.

(** The tail of [delete_], which restores the balance at [t]. *)
Definition rebalance (a : addr) : M SS ptr :=
  decrease_level a;;
  t ← skew (Some a); t ← deref t;
  r ← rd right t; r ← skew r; set_right t r;;
  match r with
  | None => mret tt
  | Some r => rr ← rd right r; rr ← skew rr; set_right r rr
  end;;
  t ← split (Some t); t ← deref t;
  r ← rd right t; r ← split r; set_right t r;;
  mret (Some t).

Fixpoint delete_ (fuel : nat) (x : addr) (t : ptr) : M SS ptr :=
  match fuel with
  | O => fail OutOfFuel
  | S fuel =>
      match t with
      | None => mret nullptr
      | Some a =>
          if ptr_eqb t (Some x) then
            l ← rd left a; r ← rd right a;
            if ptr_eqb l nullptr && ptr_eqb r nullptr then mret nullptr
            else if ptr_eqb l nullptr then
              s ← successor fuel a; s ← deref s;
              r' ← delete_ fuel s r; set_right s r';;
              l ← rd left a; set_left s l;;
              lv ← rd level a; set_level s lv;;
              rebalance s
            else
              p ← predecessor fuel a; p ← deref p;
              l' ← delete_ fuel p l; set_left p l';;
              r ← rd right a; set_right p r;;
              lv ← rd level a; set_level p lv;;
              rebalance p
          else
            (if goes_left x a
             then l ← rd left a; l' ← delete_ fuel x l; set_left a l'
             else r ← rd right a; r' ← delete_ fuel x r; set_right a r');;
            rebalance a
      end
  end.

(** The recursive [check]; without assertions it returns 0 at once. *)
Fixpoint check_ (fuel : nat) (t : ptr) : M SS Z :=
  if negb EnableAssert then mret 0%Z else
  match fuel with
  | O => fail OutOfFuel
  | S fuel =>
      match t with
      | None => mret 0%Z
      | Some a =>
          l ← rd left a; r ← rd right a; lv ← rd level a;
          ll ← rd_level l; lr ← rd_level r;
          rr ← match r with None => mret nullptr | Some r => rd right r end;
          lrr ← rd_level rr;
          zth_assert (match l with None => true | Some l =>
            m_comp l a || (negb (m_comp a l) && (l <? a)%positive) end);;
          zth_assert (match r with None => true | Some r =>
            m_comp a r || (negb (m_comp r a) || (a <? r)%positive) end);;
          zth_assert (negb (ptr_eqb l nullptr) || negb (ptr_eqb r nullptr) || (lv =? 1)%Z);;
          zth_assert (ptr_eqb l nullptr || (ll =? lv - 1)%Z);;
          zth_assert (ptr_eqb r nullptr || (lr =? lv - 1)%Z || (lr =? lv)%Z);;
          zth_assert (ptr_eqb r nullptr || ptr_eqb rr nullptr || (lrr <? lv)%Z);;
          zth_assert ((lv <? 2)%Z || (negb (ptr_eqb l nullptr) && negb (ptr_eqb r nullptr)));;
          nl ← check_ fuel l; nr ← check_ fuel r;
          mret (u64 (1 + nl + nr))
      end
  end.

(** The recursion depth is bounded by the number of nodes of the heap. *)
Definition depth : M SS nat := gets (λ s, S (S (size (nodes s)))).

Definition check : M SS unit :=
  n ← depth; t ← gets m_t; hd ← gets m_head; sz ← gets m_size;
  zth_assert_m (c ← check_ n t; mret (sz =? c)%Z);;
  zth_assert_m (lo ← lowest n t;
    mret ((ptr_eqb t nullptr && ptr_eqb hd nullptr)
          || (negb (ptr_eqb t nullptr) && negb (ptr_eqb hd nullptr) && ptr_eqb lo hd))).

Definition contains (x : addr) : M SS bool :=
  n ← depth; t ← gets m_t; contains_ n x t.

Definition insert (x : addr) : M SS unit :=
  l ← rd left x; zth_assert (ptr_eqb l nullptr);;
  r ← rd right x; zth_assert (ptr_eqb r nullptr);;
  lv ← rd level x; zth_assert (lv =? 0)%Z;;
  zth_assert_m (c ← contains x; mret (negb c));;
  t ← gets m_t;
  when (ptr_eqb t nullptr) (set_head (Some x));;
  n ← depth; t' ← insert_ n x t; set_t t';;
  sz ← gets m_size; set_size (u64 (sz + 1));;
  check.

Definition erase (x : addr) : M SS unit :=
  zth_assert_m (contains x);;
  n ← depth; t ← gets m_t; t' ← delete_ n x t; set_t t';;
  hd ← gets m_head;
  (if ptr_eqb hd (Some x) then lo ← lowest n t'; set_head lo else mret tt);;
  when EnableAssert (set_level x 0;; set_right x nullptr;; set_left x nullptr);;
  sz ← gets m_size; set_size (u64 (sz - 1));;
  check.

Definition empty : M SS bool :=
  t ← gets m_t; sz ← gets m_size;
  zth_assert ((0 <? sz)%Z || ptr_eqb t nullptr);;
  mret (ptr_eqb t nullptr).

Definition sl_size : M SS Z :=
  t ← gets m_t; sz ← gets m_size;
  zth_assert ((0 <? sz)%Z || ptr_eqb t nullptr);;
  mret sz.

Definition front : M SS addr :=
  hd ← gets m_head; t ← gets m_t;
  zth_assert (negb (ptr_eqb hd nullptr) && negb (ptr_eqb t nullptr));;
  deref hd.

Fixpoint clear_loop (fuel : nat) : M SS unit :=
  match fuel with
  | O => fail OutOfFuel
  | S fuel =>
      b ← empty;
      if b : bool then mret tt
      else t ← gets m_t; t ← deref t; erase t;; clear_loop fuel
  end.

Definition clear : M SS unit :=
  if EnableAssert then n ← depth; clear_loop n
  else set_t nullptr;; set_head nullptr;; set_size 0.
End Operations.

(** ** The heap holds a tree *)

Fixpoint rep (h : gmap addr SNode) (t : tree) : Prop :=
  match t with
  | Leaf => True
  | Node a lv l r => h !! a = Some (mkSNode (root l) (root r) lv) ∧ rep h l ∧ rep h r
  end.

(** Only the nodes of [l] changed, and none appeared or vanished. *)
Definition frame (h h' : gmap addr SNode) (l : list addr) : Prop :=
  (∀ x, x ∉ l → h' !! x = h !! x) ∧ dom h' = dom h.

(** [s] with another heap. *)
Definition upd (s : SS) (h : gmap addr SNode) : SS := mkSS h (m_t s) (m_head s) (m_size s).

Lemma rep_agree h h' t : rep h t → (∀ x, x ∈ elements t → h' !! x = h !! x) → rep h' t.
Proof.
  induction t as [|a lv l IHl r IHr]; [done|]. simpl. intros (Ha & Hl & Hr) E.
  repeat split; [rewrite E; auto with zth|apply IHl|apply IHr]; auto with zth.
Qed.

Lemma rep_frame h h' l t : rep h t → frame h h' l → (∀ x, x ∈ elements t → x ∉ l) → rep h' t.
Proof. intros Ht [F _] D. eapply rep_agree; eauto. Qed.

Lemma frame_refl h l : frame h h l.
Proof. by split. Qed.

Lemma frame_trans h1 h2 h3 l1 l2 l :
  frame h1 h2 l1 → frame h2 h3 l2 → (∀ x, x ∈ l1 → x ∈ l) → (∀ x, x ∈ l2 → x ∈ l) → frame h1 h3 l.
Proof.
  intros [F1 D1] [F2 D2] I1 I2. split; [|congruence]. intros x Hx. rewrite F2, F1; auto.
Qed.

Lemma frame_mono h h' l1 l2 : frame h h' l1 → (∀ x, x ∈ l1 → x ∈ l2) → frame h h' l2.
Proof. intros [F D] I. split; [|done]. auto. Qed.

Lemma frame_insert h a n l : is_Some (h !! a) → a ∈ l → frame h (<[a:=n]> h) l.
Proof.
  intros Ha Hl. split.
  - intros x Hx. apply lookup_insert_ne. set_solver.
  - apply dom_insert_lookup_L. done.
Qed.

Lemma frame_is_Some h h' l a : frame h h' l → is_Some (h !! a) → is_Some (h' !! a).
Proof. intros [_ D]. rewrite <-!elem_of_dom, D. auto. Qed.

Lemma rep_is_Some h t a : rep h t → a ∈ elements t → is_Some (h !! a).
Proof.
  induction t as [|b lv l IHl r IHr]; simpl; [set_solver|].
  intros (E & Hl & Hr). rewrite elem_of_app, elem_of_cons. intros [?|[->|?]]; eauto.
Qed.

(** Memory accesses at a known node. *)
Lemma rd_run {A} (f : SNode → A) a s n : nodes s !! a = Some n → rd f a s = Ok (f n, s).
Proof. unfold rd. by intros ->. Qed.

Lemma sl_deref_run a s : deref (Some a) s = Ok (a, s).
Proof. done. Qed.

Lemma sl_wr_run f a s n : nodes s !! a = Some n → wr f a s = Ok (tt, upd s (<[a:=f n]> (nodes s))).
Proof.
  unfold wr. intros E. rewrite E. unfold upd. do 3 f_equal. apply map_eq. intros i.
  destruct (decide (i = a)) as [->|]; [|by rewrite lookup_alter_ne, lookup_insert_ne].
  by rewrite lookup_alter_eq, lookup_insert_eq, E.
Qed.

Lemma rd_level_run h t s : nodes s = h → rep h t → rd_level (root t) s = Ok (lvl t, s).
Proof. intros <-. destruct t; [done|]. simpl. intros (E & _). by rewrite (rd_run _ _ _ _ E). Qed.

(** Every level lies in [0..n]. *)
Fixpoint bounded (n : Z) (t : tree) : Prop :=
  match t with Leaf => True | Node _ lv l r => (0 ≤ lv ≤ n)%Z ∧ bounded n l ∧ bounded n r end.

Lemma bounded_mono n m t : (n ≤ m)%Z → bounded n t → bounded m t.
Proof. induction t; simpl; naive_solver lia. Qed.

Lemma bounded_balanced t : balanced t → bounded (lvl t) t.
Proof.
  induction t as [|a lv l IHl r IHr]; [done|]. simpl. intros (H1 & H2 & H3 & H4 & Bl & Br).
  repeat split; try lia; [apply (bounded_mono (lvl l))|apply (bounded_mono (lvl r))]; auto; lia.
Qed.

Lemma bounded_lvl n t : (0 ≤ n)%Z → bounded n t → (0 ≤ lvl t ≤ n)%Z.
Proof. destruct t; simpl; lia. Qed.

Lemma rep_node h a lv l r :
  rep h (Node a lv l r) ↔ h !! a = Some (mkSNode (root l) (root r) lv) ∧ rep h l ∧ rep h r.
Proof. done. Qed.

Lemma NoDup_node a lv l r :
  NoDup (elements (Node a lv l r)) ↔
  a ∉ elements l ∧ a ∉ elements r ∧ (∀ x, x ∈ elements l → x ∉ elements r) ∧
  NoDup (elements l) ∧ NoDup (elements r).
Proof. simpl. rewrite NoDup_app, NoDup_cons. set_solver. Qed.

(** Run the next memory access; [look] finds the node in an updated heap. *)
Ltac look :=
  simpl; repeat (rewrite lookup_insert_eq || rewrite lookup_insert_ne by congruence);
  first [eassumption|reflexivity].
Ltac step_rd := erewrite bind_Ok by (apply rd_run; look); simpl.
Ltac step_wr := erewrite bind_Ok by (apply sl_wr_run; look); simpl.
(** A subtree whose nodes were not written. *)
Ltac untouched :=
  lazymatch goal with
  | H : rep _ ?t |- rep _ ?t =>
      apply (rep_agree _ _ _ H); intros ??; rewrite ?lookup_insert_ne; [done|set_solver..]
  end.
Ltac framed :=
  repeat (first [apply frame_refl|eapply frame_trans; [|apply frame_insert; [|]|intros ? Hin; exact Hin|done]]);
  rewrite ?lookup_insert_is_Some'; eauto with zth.

Section Balancing.
Context `{Config}.

(** The pointer program [m], started at the root of a tree, yields [f] of
    it, in the same nodes. *)
Definition implements (n : Z) (m : ptr → M SS ptr) (f : tree → tree) : Prop :=
  ∀ s t, rep (nodes s) t → NoDup (elements t) → bounded n t →
  ∃ h', m (root t) s = Ok (root (f t), upd s h') ∧ rep h' (f t) ∧ frame (nodes s) h' (elements t).

Lemma implements_id s (t : tree) :
  rep (nodes s) t → ∃ h', Ok (root t, s) = Ok (root t, upd s h') ∧ rep h' t ∧ frame (nodes s) h' (elements t).
Proof. exists (nodes s). repeat split; [by destruct s|done]. Qed.

Lemma implements_unit s (t : tree) :
  rep (nodes s) t → ∃ h', Ok (tt, s) = Ok (tt, upd s h') ∧ rep h' t ∧ frame (nodes s) h' (elements t).
Proof. exists (nodes s). repeat split; [by destruct s|done]. Qed.

Lemma skew_implements n : implements n skew skewT.
Proof.
  intros s t Ht Hnd _. destruct t as [|a lv l r]; [exact (implements_id _ Leaf Ht)|].
  pose proof (proj1 (rep_node _ _ _ _ _) Ht) as (Ea & Hl & Hr). simpl. step_rd.
  destruct l as [|b lb ll lr]; simpl; [exact (implements_id _ _ Ht)|].
  pose proof (proj1 (rep_node _ _ _ _ _) Hl) as (Eb & Hll & Hlr). do 2 step_rd.
  case_match; [|exact (implements_id _ _ Ht)].
  rewrite !NoDup_node in Hnd. 
  assert (a ≠ b) by set_solver.
  step_rd. step_wr. step_wr. eexists. split; [reflexivity|]. simpl. split; [split_and!|].
  - look.
  - untouched.
  - look.
  - untouched.
  - untouched.
  - framed.
Qed.

Lemma split_implements n : (n < 255)%Z → implements n split splitT.
Proof.
  intros Hn s t Ht Hnd B. destruct t as [|a lv l r]; [exact (implements_id _ Leaf Ht)|].
  pose proof (proj1 (rep_node _ _ _ _ _) Ht) as (Ea & Hl & Hr). simpl. step_rd.
  destruct r as [|b lb rl rr]; simpl; [exact (implements_id _ _ Ht)|].
  pose proof (proj1 (rep_node _ _ _ _ _) Hr) as (Eb & Hrl & Hrr). step_rd.
  destruct rr as [|c lc cl cr]; simpl; [exact (implements_id _ _ Ht)|].
  pose proof (proj1 (rep_node _ _ _ _ _) Hrr) as (Ec & Hcl & Hcr). do 2 step_rd.
  case_match; [|exact (implements_id _ _ Ht)].
  rewrite !NoDup_node in Hnd. assert (a ≠ b) by set_solver. assert (b ≠ c) by set_solver.
  step_rd. step_wr. step_wr. step_rd. simpl in B.
  erewrite bind_Ok by (apply zth_assert_true, Z.ltb_lt; lia).
  rewrite u8_small by lia. step_wr. eexists. split; [reflexivity|]. simpl. split; [split_and!|].
  - look.
  - look.
  - untouched.
  - untouched.
  - rewrite !lookup_insert_ne by set_solver. done.
  - untouched.
  - untouched.
  - framed.
Qed.

Lemma decrease_level_run s a lv l r :
  let t := Node a lv l r in
  rep (nodes s) t → NoDup (elements t) → bounded 254 t →
  ∃ h', decrease_level a s = Ok (tt, upd s h') ∧ rep h' (decT t) ∧ frame (nodes s) h' (elements t).
Proof.
  intros t Ht Hnd B. subst t. pose proof (proj1 (rep_node _ _ _ _ _) Ht) as (Ea & Hl & Hr).
  rewrite !NoDup_node in Hnd. destruct B as (B1 & B2 & B3).
  unfold decrease_level. step_rd. erewrite bind_Ok by by eapply rd_level_run. step_rd.
  erewrite bind_Ok by by eapply rd_level_run. step_rd.
  pose proof (bounded_lvl 254 l ltac:(lia) B2). pose proof (bounded_lvl 254 r ltac:(lia) B3).
  rewrite u8_small by (case_match; lia).
  unfold decT. set (sb := ((if (lvl l <? lvl r)%Z then lvl l else lvl r) + 1)%Z).
  clearbody sb. destruct (sb <? lv)%Z; [|exact (implements_unit _ _ Ht)].
  step_wr. destruct r as [|b lb rl rr].
  - eexists. split; [reflexivity|]. simpl. split; [split_and!|]; [look|untouched|done|framed].
  - pose proof (proj1 (rep_node _ _ _ _ _) Hr) as (Eb & Hrl & Hrr). simpl.
    rewrite NoDup_node in Hnd. assert (a ≠ b) by set_solver.
    step_rd. destruct (sb <? lb)%Z.
    + unfold set_level at 1. erewrite sl_wr_run by look. eexists. split; [reflexivity|]. simpl.
      split; [split_and!|]; [look|untouched|look|untouched|untouched|framed].
    + eexists. split; [reflexivity|]. simpl.
      split; [split_and!|]; [look|untouched|look|untouched|untouched|framed].
Qed.

(** Applying [m] to the right child of [a]. *)
Lemma implements_right n m f s a lv l r :
  implements n m f → (∀ u, elements (f u) = elements u) →
  let t := Node a lv l r in
  rep (nodes s) t → NoDup (elements t) → bounded n t →
  ∃ h', (∀ B (k : ptr → M SS B),
      (c ← rd right a; c' ← m c; set_right a c';; k c') s = k (root (f r)) (upd s h')) ∧
    (c ← rd right a; c' ← m c; set_right a c') s = Ok (tt, upd s h') ∧
    rep h' (on_right f t) ∧ frame (nodes s) h' (elements t).
Proof.
  intros Hm Hf t Ht Hnd Bd. subst t. pose proof (proj1 (rep_node _ _ _ _ _) Ht) as (Ea & Hl & Hr).
  rewrite !NoDup_node in Hnd. destruct Bd as (_ & _ & B3).
  destruct (Hm s r) as (h' & E & Hr' & F); [done|tauto|done|].
  assert (h' !! a = nodes s !! a) as Ea' by (apply F; tauto). rewrite Ea in Ea'.
  eexists. split; [|split; [|simpl; split; [split_and!|]]].
  - intros B k. step_rd. rewrite (bind_Ok _ _ _ _ _ E). step_wr. reflexivity.
  - step_rd. rewrite (bind_Ok _ _ _ _ _ E). unfold set_right. by erewrite sl_wr_run by look.
  - look.
  - assert (rep h' l) by (eapply rep_frame; eauto; naive_solver). untouched.
  - apply (rep_agree _ _ _ Hr'). intros x Hx. rewrite Hf in Hx. apply lookup_insert_ne. set_solver.
  - eapply frame_trans; [apply F|apply (frame_insert _ a _ [a])|..]; set_solver.
Qed.

Lemma bounded_skewT n t : bounded n t → bounded n (skewT t).
Proof. destruct t as [|a lv [|b lb ll lr] r]; simpl; [tauto..|]. case_match; simpl; tauto. Qed.

Lemma bounded_splitT n t : bounded n t → bounded (n + 1) (splitT t).
Proof.
  intros B. assert (bounded (n + 1) t) by (eapply bounded_mono; [|done]; lia).
  destruct t as [|a lv l [|b lb rl [|c lc cl cr]]]; simpl in *; [tauto..|].
  case_match; simpl; [split_and!; try tauto; lia|tauto].
Qed.

Lemma bounded_decT n t : bounded n t → (0 ≤ n)%Z → bounded n (decT t).
Proof.
  destruct t as [|a lv l r]; simpl; [tauto|]. intros (B1 & B2 & B3) Hn.
  pose proof (bounded_lvl n l Hn B2). pose proof (bounded_lvl n r Hn B3).
  repeat case_match; simpl in *; rewrite ?Z.ltb_lt in *; split_and!; try tauto; lia.
Qed.

Lemma bounded_on_right n f t : (∀ u, bounded n u → bounded n (f u)) → bounded n t → bounded n (on_right f t).
Proof. destruct t; simpl; naive_solver. Qed.

Lemma skewT_Node a lv l r : ∃ a' lv' l' r', skewT (Node a lv l r) = Node a' lv' l' r'.
Proof. destruct l; simpl; repeat case_match; eauto 10. Qed.

Lemma splitT_Node a lv l r : ∃ a' lv' l' r', splitT (Node a lv l r) = Node a' lv' l' r'.
Proof. destruct r as [|? ? ? []]; simpl; repeat case_match; eauto 10. Qed.

Lemma bounded_right n a lv l r r' : bounded n (Node a lv l r) → bounded n r' → bounded n (Node a lv l r').
Proof. simpl. tauto. Qed.

Lemma right_right_run s a lv l r :
  let t := Node a lv l r in
  rep (nodes s) t → NoDup (elements t) → bounded 200 t →
  ∃ h', match root r with
        | None => mret tt
        | Some r => rr ← rd right r; rr ← skew rr; set_right r rr
        end s = Ok (tt, upd s h') ∧
    rep h' (on_right (on_right skewT) t) ∧ frame (nodes s) h' (elements t).
Proof.
  intros t Ht Hnd Bd. subst t. destruct r as [|b lb rl rr]; [exact (implements_unit _ _ Ht)|].
  pose proof (proj1 (rep_node _ _ _ _ _) Ht) as (Ea & Hl & Hr).
  pose proof (proj1 (NoDup_node _ _ _ _) Hnd) as (N1 & N2 & N3 & N4 & N5). destruct Bd as (_ & _ & Bd).
  destruct (implements_right 200 skew skewT s b lb rl rr (skew_implements 200)
    elements_skewT Hr N5 Bd) as (h' & _ & E & R & F).
  exists h'. split_and!; [exact E| |].
  - rewrite on_right_node, rep_node. split_and!; [|by eapply rep_frame|exact R].
    rewrite (proj1 F) by done. exact Ea.
  - eapply frame_trans; [apply frame_refl|apply F|set_solver|]. simpl. set_solver.
Qed.

(** A tree of known shape [f u], on a heap that differs from [h0] in [L]. *)
Definition stage (h0 : gmap addr SNode) (L : list addr) (n : Z) (h : gmap addr SNode) (t : tree) : Prop :=
  rep h t ∧ frame h0 h L ∧ elements t = L ∧ NoDup L ∧ bounded n t.

Lemma stage_next h0 L n n' h h' t t' :
  stage h0 L n h t → rep h' t' → frame h h' (elements t) → elements t' = elements t →
  bounded n' t' → stage h0 L n' h' t'.
Proof.
  intros (R & F & E & Hnd & B) R' F' E' B'. split_and!; try done; [|congruence].
  rewrite E in F'. by eapply frame_trans.
Qed.

Lemma on_right_Node f a lv l r : ∃ a' lv' l' r', on_right f (Node a lv l r) = Node a' lv' l' r'.
Proof. simpl. eauto. Qed.

Lemma rebalance_run s a lv l r :
  let t := Node a lv l r in
  rep (nodes s) t → NoDup (elements t) → bounded 200 t →
  ∃ h', rebalance a s = Ok (root (rebalanceT t), upd s h') ∧ rep h' (rebalanceT t) ∧
    frame (nodes s) h' (elements t).
Proof.
  intros t Ht Hnd Bd.
  assert (stage (nodes s) (elements t) 200 (nodes s) t) as S0 by by split_and!.
  unfold rebalance. destruct (decrease_level_run s a lv l r) as (h1 & E1 & R1 & F1); [done..| |].
  { by apply (bounded_mono 200). }
  rewrite (bind_Ok _ _ _ _ _ E1).
  assert (stage (nodes s) (elements t) 200 h1 (decT t)) as S1
    by (eapply stage_next; eauto using elements_decT, bounded_decT with lia).
  assert (∃ a1 lv1 l1 r1, decT t = Node a1 lv1 l1 r1 ∧ a1 = a) as (a1 & lv1 & l1 & r1 & Q1 & ->)
    by (simpl; repeat case_match; eauto 10).
  unfold rebalanceT. rewrite Q1 in *. set (L := elements t) in *. clearbody L. clear t Ht Hnd Bd S0 E1 F1 R1 Q1 l r.
  set (h0 := nodes s) in *. clearbody h0.
  (* skew the root *)
  pose proof S1 as (R1 & F1 & Q1 & N1 & B1). rewrite <-Q1 in N1.
  destruct (skew_implements 200 (upd s h1) _ R1 N1 B1) as (h2 & E2 & R2 & F2).
  change (root (Node a lv1 l1 r1)) with (Some a) in E2. rewrite (bind_Ok _ _ _ _ _ E2).
  assert (stage h0 L 200 h2 (skewT (Node a lv1 l1 r1))) as S2
    by (eapply stage_next; eauto using elements_skewT, bounded_skewT).
  destruct (skewT_Node a lv1 l1 r1) as (a2 & lv2 & l2 & r2 & Q2). rewrite Q2 in *.
  erewrite bind_Ok by apply sl_deref_run.
  change (upd (upd s h1) h2) with (upd s h2). clear S1 R1 F1 Q1 N1 B1 E2 R2 F2 Q2 h1 lv1 l1 r1.
  (* skew its right child *)
  pose proof S2 as (R2 & F2 & Q2 & N2 & B2). rewrite <-Q2 in N2.
  destruct (implements_right 200 skew skewT (upd s h2) a2 lv2 l2 r2 (skew_implements 200)
    elements_skewT R2 N2 B2) as (h3 & E3 & _ & R3 & F3). rewrite E3.
  rewrite on_right_node in *.
  assert (stage h0 L 200 h3 (Node a2 lv2 l2 (skewT r2))) as S3.
  { eapply stage_next; [apply S2|apply R3|apply F3|simpl; by rewrite elements_skewT|].
    apply (bounded_right _ _ _ _ r2); [done|apply bounded_skewT, B2]. }
  change (upd (upd s h2) h3) with (upd s h3).
  set (r3 := skewT r2) in *. clearbody r3. clear S2 R2 F2 Q2 N2 B2 E3 R3 F3 h2 r2.
  (* skew the right child of the right child *)
  pose proof S3 as (R3 & F3 & Q3 & N3 & B3). rewrite <-Q3 in N3.
  destruct (right_right_run (upd s h3) a2 lv2 l2 r3 R3 N3 B3) as (h4 & E4 & R4 & F4).
  rewrite (bind_Ok _ _ _ _ _ E4). rewrite on_right_node in *.
  assert (stage h0 L 200 h4 (Node a2 lv2 l2 (on_right skewT r3))) as S4.
  { eapply stage_next; [apply S3|apply R4|apply F4|simpl; by rewrite elements_on_right by apply elements_skewT|].
    apply (bounded_right _ _ _ _ r3); [done|apply bounded_on_right; [apply bounded_skewT|apply B3]]. }
  change (upd (upd s h3) h4) with (upd s h4).
  set (r4 := on_right skewT r3) in *. clearbody r4. clear S3 R3 F3 Q3 N3 B3 E4 R4 F4 h3 r3.
  (* split the root *)
  pose proof S4 as (R4 & F4 & Q4 & N4 & B4). rewrite <-Q4 in N4.
  destruct (split_implements 200 ltac:(lia) (upd s h4) _ R4 N4 B4) as (h5 & E5 & R5 & F5).
  change (root (Node a2 lv2 l2 r4)) with (Some a2) in E5. rewrite (bind_Ok _ _ _ _ _ E5).
  assert (stage h0 L 201 h5 (splitT (Node a2 lv2 l2 r4))) as S5
    by (eapply stage_next; [apply S4|apply R5|apply F5|apply elements_splitT|by apply (bounded_splitT 200)]).
  destruct (splitT_Node a2 lv2 l2 r4) as (a5 & lv5 & l5 & r5 & Q5). rewrite Q5 in *.
  erewrite bind_Ok by apply sl_deref_run.
  change (upd (upd s h4) h5) with (upd s h5). clear S4 R4 F4 Q4 N4 B4 E5 R5 F5 Q5 h4 lv2 l2 r4.
  (* split its right child *)
  pose proof S5 as (R5 & F5 & Q5 & N5 & B5). rewrite <-Q5 in N5.
  destruct (implements_right 201 split splitT (upd s h5) a5 lv5 l5 r5 (split_implements 201 ltac:(lia))
    elements_splitT R5 N5 B5) as (h6 & E6 & _ & R6 & F6). rewrite (E6 _ (λ _, mret (Some a5))).
  exists h6. split_and!; [done|done|]. eapply frame_trans; eauto. by rewrite <-Q5.
Qed.
End Balancing.

Lemma lowest_run s fuel t : rep (nodes s) t → height t < fuel → lowest fuel (root t) s = Ok (lowestT t, s).
Proof.
  revert fuel. induction t as [|a lv l IHl r IHr]; intros [|fuel] Ht Hf; simpl in Hf; try lia; [done|].
  apply rep_node in Ht as (Ea & Hl & Hr). cbn [lowest root]. step_rd.
  destruct l; [done|]. apply IHl; [done|]. simpl in *. lia.
Qed.

Lemma highest_run s fuel t : rep (nodes s) t → height t < fuel → highest fuel (root t) s = Ok (highestT t, s).
Proof.
  revert fuel. induction t as [|a lv l IHl r IHr]; intros [|fuel] Ht Hf; simpl in Hf; try lia; [done|].
  apply rep_node in Ht as (Ea & Hl & Hr). cbn [highest root]. step_rd.
  destruct r; [done|]. apply IHr; [done|]. simpl in *. lia.
Qed.

(** Where [m_head] points after [insert_] turned the elements [l] of a subtree
    into [l']. *)
Definition track (hd : ptr) (l l' : list addr) : ptr :=
  match hd with Some e => if decide (e ∈ l) then head l' else hd | None => None end.

Definition is_first (hd : ptr) (l : list addr) : Prop := ∀ e, hd = Some e → e ∈ l → head l = Some e.

Lemma is_first_left hd l a r : is_first hd (l ++ a :: r) → is_first hd l.
Proof. intros F e -> He. specialize (F e eq_refl (elem_app_l _ _ _ He)). destruct l; [set_solver|done]. Qed.

Lemma is_first_right hd l a r : NoDup (l ++ a :: r) → is_first hd (l ++ a :: r) → is_first hd r ∧ ∀ r', track hd r r' = hd.
Proof.
  intros Hnd F. assert (∀ e, hd = Some e → e ∉ r) as N.
  { intros e -> He. specialize (F e eq_refl ltac:(auto with zth)). apply NoDup_app in Hnd as (_ & D & Hnd).
    apply NoDup_cons in Hnd as [Ha _]. destruct l as [|b l]; simplify_eq/=; [done|].
    apply (D e); set_solver. }
  split; [intros e E He; by apply N in He|].
  intros r'. destruct hd as [e|]; simpl; [|done]. by rewrite decide_False by auto.
Qed.

#[local] Arguments skew : simpl never.
#[local] Arguments split : simpl never.
#[local] Arguments rebalance : simpl never.
#[local] Arguments deleteT : simpl never.
#[local] Arguments skewT : simpl never.
#[local] Arguments splitT : simpl never.
#[local] Arguments rebalanceT : simpl never.

Section Operations_on_trees.
Context `{Config} `{StrictWeakOrder}.

Lemma contains_run s fuel x t :
  rep (nodes s) t → height t < fuel → contains_ fuel x (root t) s = Ok (containsT x t, s).
Proof.
  revert fuel. induction t as [|a lv l IHl r IHr]; intros [|fuel] Ht Hf; simpl in Hf; try lia; [done|].
  apply rep_node in Ht as (Ea & Hl & Hr). cbn [contains_ root containsT].
  destruct (decide (a = x)) as [->|D]; [by rewrite ptr_eqb_refl|].
  rewrite (proj2 (ptr_eqb_false _ _)) by congruence.
  destruct (goes_left x a); step_rd; [apply IHl|apply IHr]; auto; lia.
Qed.

Definition upd_head (s : SS) (h : gmap addr SNode) (hd : ptr) : SS := mkSS h (m_t s) hd (m_size s).

Lemma insertT_root x t : ∃ a lv l r, insertT x t = Node a lv l r.
Proof.
  destruct t as [|a lv l r]; simpl; [eauto|]. case_match;
  [destruct (skewT_Node a lv (insertT x l) r) as (?&?&?&?&->)|
   destruct (skewT_Node a lv l (insertT x r)) as (?&?&?&?&->)]; apply splitT_Node.
Qed.

Lemma ordered_node a lv l r :
  ordered (elements (Node a lv l r)) → ordered (elements l) ∧ ordered (elements r).
Proof. intros (?&?&_)%ordered_app. done. Qed.

(** The tail of [insert_]: the head moves to a new left neighbour, and the
    node is rebalanced. *)
Lemma insert_tail s a lv l r :
  let t := Node a lv l r in
  rep (nodes s) t → NoDup (elements t) → bounded 200 t →
  let hd := if ptr_eqb (Some a) (m_head s) && negb (ptr_eqb (root l) nullptr) then root l else m_head s in
  ∃ h', (hd ← gets m_head; l ← rd left a;
         when (ptr_eqb (Some a) hd && negb (ptr_eqb l nullptr)) (set_head l);;
         t' ← skew (Some a); split t') s = Ok (root (splitT (skewT t)), upd_head s h' hd) ∧
    rep h' (splitT (skewT t)) ∧ frame (nodes s) h' (elements t).
Proof.
  intros t Ht Hnd Bd hd. pose proof (proj1 (rep_node _ _ _ _ _) Ht) as (Ea & _ & _).
  erewrite bind_Ok by reflexivity. step_rd.
  erewrite (bind_Ok (when _ _)) with (s' := upd_head s (nodes s) hd) (a := tt); cycle 1.
  { subst hd. by case_match; destruct s. }
  destruct (skew_implements 200 (upd_head s (nodes s) hd) t Ht Hnd Bd) as (h1 & E1 & R1 & F1).
  change (root t) with (Some a) in E1. rewrite (bind_Ok _ _ _ _ _ E1).
  destruct (split_implements 200 ltac:(lia) (upd (upd_head s (nodes s) hd) h1) (skewT t) R1)
    as (h2 & E2 & R2 & F2); [by rewrite elements_skewT|by apply bounded_skewT|].
  rewrite elements_skewT in F2. exists h2. split_and!; [exact E2|done|]. eapply frame_trans; eauto.
Qed.

Lemma bounded_200 t : balanced t → (lvl t ≤ 200)%Z → bounded 200 t.
Proof. intros. eapply bounded_mono; [|by apply bounded_balanced]. done. Qed.

Lemma track_left hd x a (l : tree) r l' :
  hd ≠ Some x → a ≠ x → NoDup (elements l ++ a :: r) → is_first hd (elements l ++ a :: r) →
  elements l' ≡ₚ x :: elements l → (l = Leaf → root l' = Some x) →
  let hd1 := track hd (elements l) (elements l') in
  (if ptr_eqb (Some a) hd1 && negb (ptr_eqb (root l') nullptr) then root l' else hd1)
  = track hd (elements l ++ a :: r) (elements l' ++ a :: r).
Proof.
  intros Hh Hax Hnd F P Q. destruct hd as [e|]; [|done]. simpl.
  specialize (F e eq_refl). apply NoDup_app in Hnd as (_ & D & Hnd).
  apply NoDup_cons in Hnd as [Ha _].
  destruct (elements l') as [|y l2] eqn:El'; [by apply Permutation_nil_cons in P|]. simpl.
  assert (y ≠ a). { intros ->. assert (a ∈ x :: elements l) as [->|Hl]%elem_of_cons by (rewrite <-P; set_solver); [done|].
    apply (D _ Hl). set_solver. }
  destruct (decide (e ∈ elements l)) as [He|He].
  - rewrite decide_True by auto with zth. by rewrite (proj2 (ptr_eqb_false _ _)) by congruence.
  - destruct (decide (e = a)) as [->|Hea].
    + rewrite decide_True by auto with zth. rewrite ptr_eqb_refl. simpl.
      specialize (F ltac:(auto with zth)). destruct l as [|b lb ll lr].
      * rewrite Q by done. simpl in *. symmetry in P. apply Permutation_length_1_inv in P. by simplify_eq.
      * destruct (elements (Node b lb ll lr)) eqn:E; [apply elements_nil in E; done|].
        simplify_eq/=. set_solver.
    + rewrite (proj2 (ptr_eqb_false _ _)) by congruence. simpl. case_decide as He'; [|done].
      specialize (F He'). destruct (elements l); simplify_eq/=. set_solver.
Qed.
Lemma track_right hd a (l : tree) r r' :
  NoDup (elements l ++ a :: r) → is_first hd (elements l ++ a :: r) →
  (if ptr_eqb (Some a) hd && negb (ptr_eqb (root l) nullptr) then root l else hd)
  = track hd (elements l ++ a :: r) (elements l ++ a :: r').
Proof.
  intros Hnd F. destruct hd as [e|]; [|done]. specialize (F e eq_refl). simpl.
  destruct (decide (e = a)) as [->|He].
  - specialize (F ltac:(auto with zth)). rewrite decide_True by auto with zth. rewrite ptr_eqb_refl.
    destruct l as [|b lb ll lr]; [done|].
    destruct (elements (Node b lb ll lr)) eqn:E; [apply elements_nil in E; done|].
    simplify_eq/=. apply NoDup_cons in Hnd as [[]%not_elem_of_app _]. set_solver.
  - rewrite (proj2 (ptr_eqb_false _ _)) by congruence. simpl. case_decide as He'; [|done].
    specialize (F He'). destruct (elements l); simplify_eq/=; done.
Qed.

Lemma rep_join h a lv l r :
  rep h l → rep h r → NoDup (elements (Node a lv l r)) →
  rep (<[a:=mkSNode (root l) (root r) lv]> h) (Node a lv l r).
Proof.
  intros Hl Hr (N1 & N2 & _)%NoDup_node. apply rep_node. split_and!; [by rewrite lookup_insert_eq|..];
    (eapply rep_agree; [eassumption|]); intros y Hy; apply lookup_insert_ne; by intros ->.
Qed.

Lemma frame_join h0 h1 h2 a n x L1 L2 L :
  frame h0 h1 (x :: L1) → frame (<[a:=n]> h1) h2 L2 → L2 ≡ₚ x :: L → a ∈ L →
  is_Some (h1 !! a) → L1 ⊆ L → frame h0 h2 (x :: L).
Proof.
  intros F1 F2 P Ha Hs I. eapply frame_trans; [|apply F2|done|by intros y; rewrite P].
  eapply frame_trans; [apply F1|apply (frame_insert _ a n [a]); [done|auto with zth]|set_solver|set_solver].
Qed.

Lemma insert_run s fuel x t :
  rep (nodes s) t → balanced t → ordered (elements t) → (lvl t < 200)%Z → height t < fuel →
  x ∉ elements t → is_Some (nodes s !! x) → m_head s ≠ Some x ∨ t = Leaf → is_first (m_head s) (elements t) →
  ∃ h', insert_ fuel x (root t) s =
      Ok (root (insertT x t), upd_head s h' (track (m_head s) (elements t) (elements (insertT x t)))) ∧
    rep h' (insertT x t) ∧ frame (nodes s) h' (x :: elements t).
Proof.
  revert s fuel. induction t as [|a lv l IHl r IHr]; intros s [|fuel] Ht B O L Hf Hx [n En] Hh Hfst;
    simpl in Hf; try lia.
  - cbn [insert_ root]. do 3 step_wr. eexists. split; [do 2 f_equal; unfold upd, upd_head; f_equal|].
    + by destruct (m_head s).
    + simpl. split; [by rewrite lookup_insert_eq|]. framed.
  - destruct Hh as [Hh|]; [|done]. pose proof (ordered_NoDup _ O) as Hnd.
    pose proof (proj1 (rep_node _ _ _ _ _) Ht) as (Ea & Hl & Hr).
    pose proof (proj1 (NoDup_node _ _ _ _) Hnd) as (N1 & N2 & N3 & N4 & N5).
    pose proof (ordered_node _ _ _ _ O) as (O1 & O2).
    assert (a ≠ x ∧ x ∉ elements l ∧ x ∉ elements r) as (Nax & Nxl & Nxr) by (simpl in Hx; set_solver).
    pose proof B as (B1 & B2 & B3 & B4 & B5 & B6). simpl in L. cbn [insert_ root insertT].
    destruct (goes_left x a) eqn:G.
    + destruct (IHl s fuel) as (h1 & E1 & R1 & F1); eauto using is_first_left; [lia|lia|].
      pose proof (elements_insertT x l O1) as El. pose proof (ins_Permutation x (elements l)) as P.
      rewrite <-El in P. pose proof (insertT_grown x l B5) as (B5' & L5 & _).
      rewrite bind_assoc. step_rd. rewrite bind_assoc, (bind_Ok _ _ _ _ _ E1).
      assert (elements (Node a lv (insertT x l) r) ≡ₚ x :: elements (Node a lv l r)) as P'
        by (cbn [elements]; by rewrite P).
      assert (h1 !! a = nodes s !! a) as Ea' by (apply F1; rewrite elem_of_cons; naive_solver).
      rewrite Ea in Ea'. step_wr. assert (NoDup (elements (Node a lv (insertT x l) r))) as Hnd'
        by (rewrite P'; by constructor).
      set (s1 := upd (upd_head s h1 _) _).
      destruct (insert_tail s1 a lv (insertT x l) r) as (h2 & E2 & R2 & F2); [|done|..].
      * apply rep_join; [done| |done]. eapply rep_frame; [apply Hr|apply F1|].
        intros y Hy. rewrite elem_of_cons. intros [->|Hy']; [done|by apply (N3 y)].
      * apply (bounded_right _ _ _ _ r); [|by apply bounded_200; [|lia]].
        split; [lia|]. split; [|by apply bounded_200; [|lia]]. apply bounded_200; [done|lia].
      * exists h2. rewrite E2. subst s1. simpl m_head.
        rewrite (track_left _ x a l (elements r)); auto; [|by intros ->].
        rewrite elements_splitT, elements_skewT. split_and!; [done|done|].
        eapply (frame_join _ h1); [apply F1|apply F2|by rewrite P'|simpl; auto with zth|by eexists|intros y; simpl; auto with zth].
    + pose proof (is_first_right _ _ _ _ Hnd Hfst) as [Hfst' T].
      destruct (IHr s fuel) as (h1 & E1 & R1 & F1); eauto; [lia|lia|].
      pose proof (elements_insertT x r O2) as El. pose proof (ins_Permutation x (elements r)) as P.
      rewrite <-El in P. pose proof (insertT_grown x r B6) as (B6' & L6 & _).
      rewrite bind_assoc. step_rd. rewrite bind_assoc, (bind_Ok _ _ _ _ _ E1), T.
      assert (elements (Node a lv l (insertT x r)) ≡ₚ x :: elements (Node a lv l r)) as P'
        by (cbn [elements]; rewrite P; by rewrite (Permutation_swap x a), (Permutation_middle (elements l) _ x)).
      assert (h1 !! a = nodes s !! a) as Ea' by (apply F1; rewrite elem_of_cons; naive_solver).
      rewrite Ea in Ea'. step_wr. assert (NoDup (elements (Node a lv l (insertT x r)))) as Hnd'
        by (rewrite P'; by constructor).
      set (s1 := upd (upd_head s h1 _) _).
      destruct (insert_tail s1 a lv l (insertT x r)) as (h2 & E2 & R2 & F2); [|done|..].
      * apply rep_join; [|done|done]. eapply rep_frame; [apply Hl|apply F1|].
        intros y Hy. rewrite elem_of_cons. intros [->|Hy']; [done|by apply (N3 y)].
      * split; [lia|]. split; apply bounded_200; auto; lia.
      * exists h2. rewrite E2. subst s1. simpl m_head.
        rewrite (track_right _ a l (elements r) (elements (insertT x r))) by done.
        rewrite elements_splitT, elements_skewT. split_and!; [done|done|].
        eapply (frame_join _ h1); [apply F1|apply F2|by rewrite P'|simpl; auto with zth|by eexists|intros y; simpl; auto with zth].
Qed.

(** A subtree was replaced below [a], which then is rebalanced. *)
Lemma rebalance_join s h1 n a lv l r L :
  let t := Node a lv l r in
  frame (nodes s) h1 L → is_Some (h1 !! a) → rep h1 l → rep h1 r →
  NoDup (elements t) → bounded 200 t → (∀ y, y ∈ elements t → y ∈ L) →
  n = mkSNode (root l) (root r) lv →
  ∃ h', rebalance a (upd s (<[a:=n]> h1)) = Ok (root (rebalanceT t), upd s h') ∧
    rep h' (rebalanceT t) ∧ frame (nodes s) h' L.
Proof.
  intros t F1 Ha Hl Hr Hnd Bd I ->.
  destruct (rebalance_run (upd s (<[a:=mkSNode (root l) (root r) lv]> h1)) a lv l r) as (h' & E & R & F);
    [by apply rep_join|done|done|].
  exists h'. split_and!; [exact E|done|].
  assert (frame h1 (<[a:=mkSNode (root l) (root r) lv]> h1) L) as F2
    by (apply frame_insert; [done|]; apply I; simpl; auto with zth).
  exact (frame_trans _ _ _ _ _ _ (frame_trans _ _ _ _ _ _ F1 F2 (λ _ H, H) (λ _ H, H)) F (λ _ H, H) I).
Qed.

Lemma deleteT_elem x y t : ordered (elements t) → y ∈ elements (deleteT x t) → y ≠ x ∧ y ∈ elements t.
Proof. intros O. rewrite elements_deleteT by done. by intros [??]%list_elem_of_filter. Qed.

Lemma deleteT_NoDup x t : ordered (elements t) → NoDup (elements (deleteT x t)).
Proof. intros O. rewrite elements_deleteT by done. by apply NoDup_filter, ordered_NoDup. Qed.

Lemma deleteT_bounded x t : balanced t → (lvl t < 200)%Z → bounded 200 (deleteT x t).
Proof. intros B L. destruct (deleteT_shrunk x t B) as (B' & L' & _). apply bounded_200; [done|lia]. Qed.

Lemma delete_run s fuel x t :
  rep (nodes s) t → balanced t → ordered (elements t) → (lvl t < 200)%Z → height t < fuel →
  ∃ h', delete_ fuel x (root t) s = Ok (root (deleteT x t), upd s h') ∧
    rep h' (deleteT x t) ∧ frame (nodes s) h' (elements t).
Proof.
  revert s fuel x. induction t as [|a lv l IHl r IHr]; intros s [|fuel] x Ht B O L Hf; simpl in Hf; try lia.
  - exact (implements_id s Leaf Ht).
  - pose proof (ordered_NoDup _ O) as Hnd.
    pose proof (proj1 (rep_node _ _ _ _ _) Ht) as (Ea & Hl & Hr).
    pose proof (proj1 (NoDup_node _ _ _ _) Hnd) as (N1 & N2 & N3 & N4 & N5).
    pose proof (ordered_node _ _ _ _ O) as (O1 & O2).
    pose proof B as (B1 & B2 & B3 & B4 & B5 & B6). simpl in L. cbn [delete_ root].
    destruct (decide (a = x)) as [->|D].
    + rewrite ptr_eqb_refl. do 2 step_rd. destruct (highestT l) as [p|] eqn:El.
      * assert (l ≠ Leaf) as Nl by (by intros ->).
        rewrite (proj2 (ptr_eqb_false (root l) _)) by by destruct l. simpl.
        rewrite (deleteT_pred _ _ _ _ p) by done.
        rewrite last_elements_highestT in El. apply last_elem in El as Hp.
        unfold predecessor. rewrite bind_assoc. step_rd.
        rewrite (bind_Ok _ _ _ _ _ (highest_run s fuel l Hl ltac:(lia))), last_elements_highestT, El.
        erewrite bind_Ok by apply sl_deref_run.
        destruct (IHl s fuel p) as (h1 & E1 & R1 & F1); [done..|lia|lia|]. rewrite (bind_Ok _ _ _ _ _ E1).
        destruct (rep_is_Some (nodes s) l p) as [np Ep]; [done..|].
        destruct (frame_is_Some _ _ _ p F1) as [np1 Ep1]; [by eexists|].
        assert (h1 !! x = nodes s !! x) as Ea' by by apply F1. rewrite Ea in Ea'.
        assert (p ≠ x) by by intros ->.
        step_wr. step_rd. step_wr. step_rd. step_wr. rewrite !insert_insert_eq.
        apply (rebalance_join s h1); [|by eexists|done|..].
        -- apply (frame_mono _ _ _ _ F1). simpl. auto with zth.
        -- eapply rep_frame; [apply Hr|apply F1|]. intros y Hy Hy'. by apply (N3 y).
        -- apply NoDup_node. split_and!; auto using deleteT_NoDup; try (by apply N3).
           ++ by intros [? ?]%deleteT_elem.
           ++ intros y [_ Hy]%deleteT_elem; auto.
        -- split; [lia|]. split; [apply deleteT_bounded|apply bounded_200]; auto; lia.
        -- intros y. cbn [elements]. rewrite !elem_of_app, !elem_of_cons.
           intros [Hy|[->|Hy]]; [apply deleteT_elem in Hy|..]; tauto.
        -- done.
      * rewrite last_elements_highestT in El. apply last_None, elements_nil in El as ->.
        destruct r as [|b lb rl rr]; [simpl|].
        { exists (nodes s). unfold deleteT. rewrite decide_True by done. split_and!; [by destruct s|done..]. }
        remember (Node b lb rl rr) as r eqn:Er. assert (root r ≠ nullptr) as Nr by by subst r.
        destruct (lowestT_Some r) as [p Ep]; [by subst r|]. clear Er b lb rl rr.
        rewrite (deleteT_succ _ _ _ p) by done. rewrite (proj2 (ptr_eqb_false (root r) _)) by done. simpl.
        pose proof Ep as Hp. rewrite head_elements_lowestT in Hp. apply head_elem in Hp.
        unfold successor. rewrite bind_assoc. step_rd.
        rewrite (bind_Ok _ _ _ _ _ (lowest_run s fuel r Hr ltac:(lia))), Ep.
        erewrite bind_Ok by apply sl_deref_run.
        destruct (IHr s fuel p) as (h1 & E1 & R1 & F1); [done..|lia|lia|]. rewrite (bind_Ok _ _ _ _ _ E1).
        destruct (rep_is_Some (nodes s) r p) as [np Ep']; [done..|].
        destruct (frame_is_Some _ _ _ p F1) as [np1 Ep1]; [by eexists|].
        assert (h1 !! x = nodes s !! x) as Ea' by by apply F1. rewrite Ea in Ea'.
        assert (p ≠ x) by by intros ->.
        step_wr. step_rd. step_wr. step_rd. step_wr. rewrite !insert_insert_eq.
        apply (rebalance_join s h1); [|by eexists|done|done|..].
        -- apply (frame_mono _ _ _ _ F1). simpl. auto with zth.
        -- apply NoDup_node. split_and!; auto using deleteT_NoDup; [set_solver| |set_solver].
           by intros [? ?]%deleteT_elem.
        -- split; [lia|]. split; [done|apply deleteT_bounded]; auto; lia.
        -- intros y. cbn [elements app]. rewrite !elem_of_cons.
           intros [->|Hy]; [|apply deleteT_elem in Hy]; tauto.
        -- done.
    + rewrite (proj2 (ptr_eqb_false _ _)) by congruence. rewrite deleteT_other by done.
      destruct (goes_left x a).
      * destruct (IHl s fuel x) as (h1 & E1 & R1 & F1); [done..|lia|lia|].
        rewrite bind_assoc. step_rd. rewrite bind_assoc, (bind_Ok _ _ _ _ _ E1).
        assert (h1 !! a = nodes s !! a) as Ea' by by apply F1. rewrite Ea in Ea'. step_wr.
        apply (rebalance_join s h1); [|by eexists|done|..].
        -- apply (frame_mono _ _ _ _ F1). simpl. auto with zth.
        -- eapply rep_frame; [apply Hr|apply F1|]. intros y Hy Hy'. by apply (N3 y).
        -- apply NoDup_node. split_and!; auto using deleteT_NoDup.
           ++ by intros [? ?]%deleteT_elem.
           ++ intros y [_ Hy]%deleteT_elem; auto.
        -- split; [lia|]. split; [apply deleteT_bounded|apply bounded_200]; auto; lia.
        -- intros y. cbn [elements]. rewrite !elem_of_app, !elem_of_cons.
           intros [Hy|[->|Hy]]; [apply deleteT_elem in Hy|..]; tauto.
        -- done.
      * destruct (IHr s fuel x) as (h1 & E1 & R1 & F1); [done..|lia|lia|].
        rewrite bind_assoc. step_rd. rewrite bind_assoc, (bind_Ok _ _ _ _ _ E1).
        assert (h1 !! a = nodes s !! a) as Ea' by by apply F1. rewrite Ea in Ea'. step_wr.
        apply (rebalance_join s h1); [|by eexists| |done|..].
        -- apply (frame_mono _ _ _ _ F1). simpl. auto with zth.
        -- eapply rep_frame; [apply Hl|apply F1|]. intros y Hy Hy'. by apply (N3 y).
        -- apply NoDup_node. split_and!; auto using deleteT_NoDup.
           ++ by intros [? ?]%deleteT_elem.
           ++ intros y Hy [_ Hy']%deleteT_elem; [|done]. by apply (N3 y).
        -- split; [lia|]. split; [apply bounded_200|apply deleteT_bounded]; auto; lia.
        -- intros y. cbn [elements]. rewrite !elem_of_app, !elem_of_cons.
           intros [Hy|[->|Hy]]; [|..|apply deleteT_elem in Hy]; tauto.
        -- done.
Qed.

Lemma root_elem t a : root t = Some a → a ∈ elements t.
Proof. destruct t; simpl; [done|]. intros [= ->]. auto with zth. Qed.

Lemma check_node s a lv l r :
  let t := Node a lv l r in
  rep (nodes s) t → balanced t → ordered (elements t) →
  (match root l with None => true | Some l =>
     m_comp l a || (negb (m_comp a l) && (l <? a)%positive) end = true) ∧
  (match root r with None => true | Some r =>
     m_comp a r || (negb (m_comp r a) || (a <? r)%positive) end = true) ∧
  negb (ptr_eqb (root l) nullptr) || negb (ptr_eqb (root r) nullptr) || (lv =? 1)%Z = true ∧
  ptr_eqb (root l) nullptr || (lvl l =? lv - 1)%Z = true ∧
  ptr_eqb (root r) nullptr || (lvl r =? lv - 1)%Z || (lvl r =? lv)%Z = true ∧
  ptr_eqb (root r) nullptr || ptr_eqb (root (right_of r)) nullptr || (lvl (right_of r) <? lv)%Z = true ∧
  (lv <? 2)%Z || (negb (ptr_eqb (root l) nullptr) && negb (ptr_eqb (root r) nullptr)) = true.
Proof.
  intros t Ht (B1 & B2 & B3 & B4 & B5 & B6) (O1 & O2 & O3 & O4)%ordered_app.
  assert (∀ u : tree, u = Leaf ∨ ptr_eqb (root u) nullptr = false) as N by (intros []; auto).
  split_and!.
  - destruct (root l) as [b|] eqn:E; [|done]. apply root_elem, O3 in E.
    unfold before, goes_left in E. by destruct (m_comp b a), (m_comp a b).
  - destruct (root r) as [b|] eqn:E; [|done]. apply root_elem, O4 in E.
    unfold before, goes_left in E. by destruct (m_comp b a), (m_comp a b).
  - destruct (N l) as [->| ->]; [|done]. destruct (N r) as [->| ->]; [|done]. simpl in *.
    apply Z.eqb_eq. lia.
  - rewrite (proj2 (Z.eqb_eq _ _) B2). apply orb_true_r.
  - destruct B3 as [->| ->]; rewrite Z.eqb_refl, ?orb_true_r; done.
  - rewrite (proj2 (Z.ltb_lt _ _) B4). apply orb_true_r.
  - destruct (Z.ltb_spec lv 2); [done|].
    destruct (N l) as [->| ->]; [simpl in *; lia|]. destruct (N r) as [->| ->]; [simpl in *; lia|done].
Qed.

Lemma check_run s fuel t :
  EnableAssert = true → rep (nodes s) t → balanced t → ordered (elements t) →
  (Z.of_nat (length (elements t)) < 2 ^ 64)%Z → height t < fuel →
  check_ fuel (root t) s = Ok (Z.of_nat (length (elements t)), s).
Proof.
  intros A. revert fuel. induction t as [|a lv l IHl r IHr]; intros fuel Ht B O Sz Hf; simpl in Hf;
    (destruct fuel as [|fuel]; [lia|]); cbn [check_ root]; rewrite A; cbn [negb]; [done|].
  pose proof (check_node s a lv l r Ht B O) as C.
  pose proof (proj1 (rep_node _ _ _ _ _) Ht) as (Ea & Hl & Hr). destruct (ordered_node _ _ _ _ O) as [O1 O2].
  destruct B as (_ & _ & _ & _ & B5 & B6). simpl in Sz. rewrite length_app in Sz. simpl in Sz.
  do 3 step_rd. erewrite !bind_Ok by by eapply rd_level_run.
  erewrite (bind_Ok (match root r with None => _ | Some _ => _ end)) with (a := root (right_of r)) (s' := s); cycle 1.
  { destruct r as [|b lb rl rr]; [done|]. simpl. by rewrite (rd_run _ _ _ _ (proj1 Hr)). }
  erewrite bind_Ok by (eapply rd_level_run; [done|]; destruct r; [done|apply Hr]).
  destruct C as (C1 & C2 & C3 & C4 & C5 & C6 & C7).
  do 7 erewrite bind_Ok by (apply zth_assert_true; assumption).
  rewrite (bind_Ok _ _ _ _ _ (IHl fuel Hl B5 O1 ltac:(lia) ltac:(lia))).
  rewrite (bind_Ok _ _ _ _ _ (IHr fuel Hr B6 O2 ltac:(lia) ltac:(lia))).
  cbn [elements]. rewrite length_app. simpl.
  rewrite u64_small by lia. unfold mret, M_ret. by replace (1 + _ + _)%Z with (Z.of_nat (length (elements l) + S (length (elements r)))) by lia.
Qed.

(** *** The list as a whole *)

Definition sl_tree (s : SS) (t : tree) : Prop :=
  rep (nodes s) t ∧ m_t s = root t ∧ balanced t ∧ ordered (elements t) ∧
  m_head s = head (elements t) ∧ m_size s = Z.of_nat (length (elements t)) ∧
  (Z.of_nat (length (elements t)) < 2 ^ 64)%Z.

(** [l] is the sequence of elements of the list. *)
Definition is_sorted_list (s : SS) (l : list addr) : Prop := ∃ t, sl_tree s t ∧ elements t = l.

(** An element that can be inserted. *)
Definition loose (h : gmap addr SNode) (x : addr) : Prop :=
  ∃ n, h !! x = Some n ∧ (EnableAssert = true → n = mkSNode nullptr nullptr 0).

Lemma elements_size h t : rep h t → NoDup (elements t) → length (elements t) ≤ size h.
Proof.
  intros Ht Hnd. rewrite <-(size_list_to_set (C := gset addr)), <-(size_dom h) by done.
  apply subseteq_size. intros x Hx. apply elem_of_list_to_set in Hx.
  apply elem_of_dom. by eapply rep_is_Some.
Qed.

Lemma depth_ok h t : rep h t → ordered (elements t) → height t < S (S (size h)).
Proof.
  intros Ht O%ordered_NoDup. pose proof (elements_size _ _ Ht O). pose proof (height_size t). lia.
Qed.

Lemma lvl_64 t : balanced t → (Z.of_nat (length (elements t)) < 2 ^ 64)%Z → (lvl t < 200)%Z.
Proof.
  intros B Sz. pose proof (lvl_size t B). apply Z.nle_gt. intros L.
  pose proof (Z.pow_le_mono_r 2 200 (lvl t) ltac:(lia) L). lia.
Qed.

Lemma check_ok s t : sl_tree s t → check s = Ok (tt, s).
Proof.
  intros (Ht & Er & B & O & Eh & Es & Sz). unfold check.
  do 4 (erewrite bind_Ok by reflexivity). rewrite Er, Eh, Es.
  pose proof (depth_ok _ _ Ht O) as D.
  rewrite (bind_Ok _ _ s s tt); cycle 1.
  { unfold zth_assert_m. destruct EnableAssert eqn:A; [|done].
    rewrite bind_assoc, (bind_Ok _ _ _ _ _ (check_run s _ t A Ht B O Sz D)). unfold zth_assert.
    by rewrite A, bind_ret, Z.eqb_refl. }
  apply zth_assert_m_true. rewrite (bind_Ok _ _ _ _ _ (lowest_run s _ t Ht D)).
  rewrite head_elements_lowestT. destruct (elements t) eqn:E; [by apply elements_nil in E as ->|].
  rewrite ptr_eqb_refl. by destruct t.
Qed.

Lemma contains_ok s l x : is_sorted_list s l → contains x s = Ok (bool_decide (x ∈ l), s).
Proof.
  intros (t & (Ht & Er & B & O & _) & <-). unfold contains. do 2 (erewrite bind_Ok by reflexivity).
  rewrite Er. pose proof (depth_ok _ _ Ht O). by rewrite contains_run, containsT_elem.
Qed.

Lemma is_sorted_NoDup s l : is_sorted_list s l → NoDup l.
Proof. intros (t & (_ & _ & _ & O & _) & <-). by apply ordered_NoDup. Qed.

Lemma track_insert hd x l :
  hd = head l → x ∉ l → track (if ptr_eqb (head l) nullptr then Some x else hd) l (ins x l) = head (ins x l).
Proof. intros -> Hx. destruct l as [|e l]; simpl; [done|]. rewrite decide_True by set_solver. done. Qed.

Lemma insert_ok s l x :
  is_sorted_list s l → x ∉ l → loose (nodes s) x → (Z.of_nat (length l) + 1 < 2 ^ 64)%Z →
  ∃ s', insert x s = Ok (tt, s') ∧ is_sorted_list s' (ins x l) ∧ frame (nodes s) (nodes s') (x :: l).
Proof.
  intros Hs Hx (n & En & Hn) Sz. pose proof (contains_ok s l x Hs) as Ec.
  rewrite bool_decide_false in Ec by done. destruct Hs as (t & (Ht & Er & B & O & Eh & Es & Sz') & <-).
  unfold insert. step_rd. erewrite bind_Ok by (apply zth_assert_guard; intros A; by rewrite (Hn A)).
  step_rd. erewrite bind_Ok by (apply zth_assert_guard; intros A; by rewrite (Hn A)).
  step_rd. erewrite bind_Ok by (apply zth_assert_guard; intros A; by rewrite (Hn A)).
  erewrite bind_Ok by (apply zth_assert_m_true; by rewrite (bind_Ok _ _ _ _ _ Ec)).
  erewrite bind_Ok by reflexivity. rewrite Er.
  set (hd := if ptr_eqb (root t) nullptr then Some x else m_head s).
  erewrite (bind_Ok (when _ _)) with (a := tt) (s' := upd_head s (nodes s) hd) by (subst hd; case_match; by destruct s).
  erewrite bind_Ok by reflexivity.
  assert (ptr_eqb (root t) nullptr = ptr_eqb (head (elements t)) nullptr) as Ehd.
  { destruct t as [|a lv l r]; [done|]. by destruct (elements (Node a lv l r)) eqn:E; [apply elements_nil in E|]. }
  assert (m_head s ≠ Some x) as Nh by (rewrite Eh; intros E; by apply Hx, head_elem).
  destruct (insert_run (upd_head s (nodes s) hd) (S (S (size (nodes s)))) x t) as (h' & E & R & F);
    [done..|by apply lvl_64|by apply depth_ok|done|by eexists| | |].
  { subst hd. destruct t; [by right|by left]. }
  { subst hd. rewrite Ehd, Eh. intros e. destruct (elements t) eqn:Q; simpl; [set_solver|]. congruence. }
  change (depth (upd_head s (nodes s) hd)) with (Ok (S (S (size (nodes s))), upd_head s (nodes s) hd)).
  rewrite (bind_Ok _ _ _ _ _ E). simpl m_head. subst hd.
  rewrite Ehd, elements_insertT, track_insert by (done || by rewrite Eh).
  do 3 (erewrite bind_Ok by reflexivity). simpl.
  set (s' := mkSS _ _ _ _). assert (sl_tree s' (insertT x t)) as T.
  { pose proof (insertT_grown x t B) as (B' & _). pose proof (ins_Permutation x (elements t)) as P%Permutation_length.
    unfold sl_tree. rewrite elements_insertT by done. simpl in P. rewrite P.
    split_and!; try done; [by apply ins_ordered| |lia]. subst s'. simpl. rewrite u64_small; lia. }
  exists s'. split_and!; [by eapply check_ok|exists (insertT x t); split; [done|by apply elements_insertT]|done].
Qed.

Lemma empty_ok s l : is_sorted_list s l → empty s = Ok (bool_decide (l = []), s).
Proof.
  intros (t & (Ht & Er & B & O & Eh & Es & Sz) & <-). unfold empty.
  do 2 (erewrite bind_Ok by reflexivity). rewrite Er, Es.
  assert (ptr_eqb (root t) nullptr = bool_decide (elements t = [])) as ->.
  { apply bool_decide_ext. split; [by destruct t|]. by intros ->%elements_nil. }
  erewrite bind_Ok; [done|]. apply zth_assert_true.
  destruct (elements t); [by rewrite bool_decide_true, orb_true_r|]. simpl. lia.
Qed.

Lemma size_ok s l : is_sorted_list s l → sl_size s = Ok (Z.of_nat (length l), s).
Proof.
  intros (t & (Ht & Er & B & O & Eh & Es & Sz) & <-). unfold sl_size.
  do 2 (erewrite bind_Ok by reflexivity). rewrite Er, Es.
  erewrite bind_Ok; [done|]. apply zth_assert_true.
  destruct t as [|a lv l r]; [done|]. apply orb_true_iff. left. apply Z.ltb_lt.
  cbn [elements]. rewrite length_app. simpl. lia.
Qed.

Lemma front_ok s x l : is_sorted_list s (x :: l) → front s = Ok (x, s).
Proof.
  intros (t & (Ht & Er & B & O & Eh & Es & Sz) & E). unfold front.
  do 2 (erewrite bind_Ok by reflexivity). rewrite Er, Eh, E.
  erewrite bind_Ok; [done|]. apply zth_assert_true. by destruct t.
Qed.

Lemma head_filter (x : addr) l : head l ≠ Some x → head (filter (λ e, e ≠ x) l) = head l.
Proof. destruct l as [|e l]; [done|]. simpl. intros N. by rewrite filter_cons_True by congruence. Qed.

Lemma length_filter_ne (x : addr) l : NoDup l → x ∈ l → S (length (filter (λ e, e ≠ x) l)) = length l.
Proof.
  intros Hnd (l1 & l2 & ->)%list_elem_of_split. rewrite filter_removed by done.
  rewrite !length_app. simpl. lia.
Qed.

(** The bookkeeping that follows an erased element's removal. *)
Definition released (h : gmap addr SNode) (x : addr) : gmap addr SNode :=
  if EnableAssert then <[x:=mkSNode nullptr nullptr 0]> h else h.

Lemma release_run s x : is_Some (nodes s !! x) →
  when EnableAssert (set_level x 0;; set_right x nullptr;; set_left x nullptr) s
  = Ok (tt, upd s (released (nodes s) x)).
Proof.
  intros [n En]. unfold released. destruct EnableAssert; simpl; [|by destruct s].
  step_wr. step_wr. unfold set_left. erewrite sl_wr_run by look. simpl. by rewrite !insert_insert_eq.
Qed.

Lemma erase_ok s l x :
  is_sorted_list s l → x ∈ l →
  ∃ s', erase x s = Ok (tt, s') ∧ is_sorted_list s' (filter (λ e, e ≠ x) l) ∧
    loose (nodes s') x ∧ frame (nodes s) (nodes s') l.
Proof.
  intros Hs Hx. pose proof (contains_ok s l x Hs) as Ec. rewrite bool_decide_true in Ec by done.
  destruct Hs as (t & (Ht & Er & B & O & Eh & Es & Sz) & <-).
  pose proof (depth_ok _ _ Ht O) as D. pose proof (elements_deleteT x t O) as Ed.
  destruct (delete_run s (S (S (size (nodes s)))) x t) as (h' & E & R & F); [done..|by apply lvl_64|done|].
  pose proof (deleteT_shrunk x t B) as (B' & _).
  unfold erase. erewrite bind_Ok by by apply zth_assert_m_true.
  do 2 (erewrite bind_Ok by reflexivity). rewrite Er, (bind_Ok _ _ _ _ _ E).
  do 2 (erewrite bind_Ok by reflexivity). simpl m_head.
  assert (ordered (elements (deleteT x t))) as O' by (rewrite Ed; by apply filter_ordered).
  pose proof (head_elements_lowestT (deleteT x t)) as Elo.
  set (s1 := mkSS h' (root (deleteT x t)) (head (filter (λ e, e ≠ x) (elements t))) (m_size s)).
  erewrite (bind_Ok (if ptr_eqb _ _ then _ else _)) with (a := tt) (s' := s1); cycle 1.
  { rewrite Eh. destruct (ptr_eqb (head (elements t)) (Some x)) eqn:Q.
    - erewrite bind_Ok; [|apply lowest_run; [done|]]; [by rewrite Elo, Ed|].
      pose proof (depth_ok _ _ R O'). rewrite <-(size_dom h'), (proj2 F), size_dom in H2. done.
    - apply ptr_eqb_false in Q. subst s1. by rewrite head_filter, <-Eh. }
  destruct (rep_is_Some _ _ _ Ht Hx) as [n En].
  destruct (frame_is_Some _ _ _ x F) as [n' En']; [by eexists|].
  erewrite bind_Ok by (apply (release_run s1); by eexists).
  do 2 (erewrite bind_Ok by reflexivity).
  set (s' := mkSS (released h' x) (root (deleteT x t)) (head (filter (λ e, e ≠ x) (elements t)))
               (u64 (m_size s - 1))).
  assert (sl_tree s' (deleteT x t)) as T.
  { pose proof (length_filter_ne x _ (ordered_NoDup _ O) Hx). unfold sl_tree. rewrite Ed in *.
    subst s'. simpl. split_and!; try done; [|rewrite u64_small; lia|lia].
    unfold released. case_match; [|done]. apply (rep_agree _ _ _ R). intros y Hy.
    apply deleteT_elem in Hy as [Hy _]; [|done]. by apply lookup_insert_ne. }
  exists s'. split_and!.
  - by eapply check_ok.
  - by exists (deleteT x t).
  - unfold loose, s', released. simpl. destruct EnableAssert; [rewrite lookup_insert_eq; eauto|by exists n'].
  - eapply (frame_trans _ h'); [apply F| |done|intros y Hy; exact Hy].
    unfold s', released. simpl. case_match; [|apply frame_refl]. apply frame_insert; [by eexists|done].
Qed.

Lemma loose_frame h h' l x : frame h h' l → x ∉ l → loose h x → loose h' x.
Proof. intros [F _] Hx (n & E & Hn). exists n. by rewrite F. Qed.

Lemma clear_loop_ok fuel s l :
  is_sorted_list s l → length l < fuel →
  ∃ s', clear_loop fuel s = Ok (tt, s') ∧ is_sorted_list s' [] ∧
    (∀ x, x ∈ l → loose (nodes s') x) ∧ frame (nodes s) (nodes s') l.
Proof.
  revert s l. induction fuel as [|fuel IH]; intros s l Hs Hf; [lia|]. simpl.
  rewrite (bind_Ok _ _ _ _ _ (empty_ok s l Hs)). case_bool_decide as Hl.
  - subst l. exists s. repeat split; try done. set_solver.
  - pose proof Hs as (t & (Ht & Er & _) & El). erewrite bind_Ok by reflexivity. rewrite Er.
    destruct t as [|a lv lt rt]; [by subst l|]. erewrite bind_Ok by apply sl_deref_run.
    assert (a ∈ l) as Ha by (subst l; simpl; auto with zth).
    destruct (erase_ok s l a Hs Ha) as (s1 & E1 & Hs1 & Hl1 & F1). rewrite (bind_Ok _ _ _ _ _ E1).
    pose proof (length_filter_ne a l (is_sorted_NoDup _ _ Hs) Ha) as Len.
    destruct (IH s1 _ Hs1 ltac:(lia)) as (s' & E & Hs' & Hl' & F). exists s'. split_and!; try done.
    + intros x Hx. destruct (decide (x = a)) as [->|Hxa]; [|apply Hl'; by apply list_elem_of_filter].
      apply (loose_frame _ _ _ _ F); [|done]. by intros [? _]%list_elem_of_filter.
    + eapply frame_trans; [apply F1|apply F|done|]. intros y. by intros [_ ?]%list_elem_of_filter.
Qed.

Lemma clear_ok s l :
  is_sorted_list s l →
  ∃ s', clear s = Ok (tt, s') ∧ is_sorted_list s' [] ∧
    (∀ x, x ∈ l → loose (nodes s') x) ∧ frame (nodes s) (nodes s') l.
Proof.
  intros Hs. unfold clear. destruct EnableAssert eqn:A.
  - erewrite bind_Ok by reflexivity. apply clear_loop_ok; [done|].
    pose proof Hs as (t & (Ht & _ & _ & O & _) & <-). pose proof (elements_size _ _ Ht (ordered_NoDup _ O)). lia.
  - eexists. split; [reflexivity|]. split; [exists Leaf; repeat split; try done; constructor|].
    split; [|apply frame_refl]. destruct Hs as (t & (Ht & _) & <-). intros x Hx.
    destruct (rep_is_Some _ _ _ Ht Hx) as [n En]. exists n. by rewrite A.
Qed.
End Operations_on_trees.

(** ** Abstract specification: the sorted sequence *)

Inductive sl_op := Insert (x : addr) | Erase (x : addr) | Clear.

Definition spec_op `{Compare} (op : sl_op) (l : list addr) : option (list addr) :=
  match op with
  | Insert x => if decide (x ∈ l) then None else Some (ins x l)
  | Erase x => if decide (x ∈ l) then Some (filter (λ e, e ≠ x) l) else None
  | Clear => Some []
  end.

Definition run_op `{Config} `{Compare} (op : sl_op) : M SS unit :=
  match op with Insert x => insert x | Erase x => erase x | Clear => clear end.

Fixpoint spec_ops `{Compare} (ops : list sl_op) (l : list addr) : option (list addr) :=
  match ops with [] => Some l | op :: ops => spec_op op l ≫= spec_ops ops end.

Fixpoint run_ops `{Config} `{Compare} (ops : list sl_op) : M SS unit :=
  match ops with [] => mret tt | op :: ops => run_op op;; run_ops ops end.

(** [U] are the elements of the program; those not in the list are loose. *)
Definition sl_inv `{Config} `{Compare} (U : list addr) (s : SS) (l : list addr) : Prop :=
  is_sorted_list s l ∧ l ⊆ U ∧ (∀ x, x ∈ U → x ∉ l → loose (nodes s) x) ∧
  (Z.of_nat (length U) + 1 < 2 ^ 64)%Z.

Definition op_arg (op : sl_op) : list addr := match op with Insert x => [x] | _ => [] end.

Section Refinement.
Context `{Config} `{StrictWeakOrder}.

Lemma sl_run_op_refines U op s l l' :
  sl_inv U s l → op_arg op ⊆ U → spec_op op l = Some l' →
  ∃ s', run_op op s = Ok (tt, s') ∧ sl_inv U s' l'.
Proof.
  intros (Hl & HlU & Hlo & Sz) HU Hop. destruct op as [x|x|]; simpl in *; try case_decide as Hx; simplify_eq.
  - pose proof (submseteq_length _ _ (NoDup_submseteq _ _ (is_sorted_NoDup _ _ Hl) HlU)).
    destruct (insert_ok s l x Hl Hx) as (s' & E & Hl' & F); [apply Hlo; set_solver|lia|].
    exists s'. split; [done|]. split; [done|].
    split; [intros y; rewrite (ins_Permutation x l); set_solver|]. split; [|done].
    intros y Hy. rewrite (ins_Permutation x l). intros Hn.
    apply (loose_frame _ _ _ _ F); [done|]. apply Hlo; set_solver.
  - destruct (erase_ok s l x Hl Hx) as (s' & E & Hl' & Hx' & F).
    exists s'. split; [done|]. split; [done|]. split; [|split; [|done]].
    + intros y [_ Hy]%list_elem_of_filter. auto.
    + intros y Hy Hn. destruct (decide (y = x)) as [->|Hyx]; [done|].
      assert (y ∉ l) by (intros Hl1; by apply Hn, list_elem_of_filter).
      apply (loose_frame _ _ _ _ F); auto.
  - destruct (clear_ok s l Hl) as (s' & E & Hl' & Hlo' & F). 
    exists s'. split; [done|]. split; [done|]. split; [set_solver|]. split; [|done].
    intros y Hy _. destruct (decide (y ∈ l)); [auto|]. apply (loose_frame _ _ _ _ F); auto.
Qed.

Lemma sl_run_ops_refines U ops s l l' :
  sl_inv U s l → Forall (λ op, op_arg op ⊆ U) ops → spec_ops ops l = Some l' →
  ∃ s', run_ops ops s = Ok (tt, s') ∧ sl_inv U s' l'.
Proof.
  revert s l. induction ops as [|op ops IH]; intros s l Hinv HU Hops; simpl in *.
  - simplify_eq. by exists s.
  - apply bind_Some in Hops as (l1 & Hop & Hops). apply Forall_cons in HU as [Hu HU].
    destruct (sl_run_op_refines _ _ _ _ _ Hinv Hu Hop) as (s1 & E & Hinv1).
    rewrite (bind_Ok _ _ _ _ _ E). by eapply IH.
Qed.

Lemma first_minimal x l y : ordered (x :: l) → y ∈ l → m_comp y x = false.
Proof.
  intros [F _]%StronglySorted_cons Hy. rewrite Forall_forall in F. apply F in Hy.
  unfold before, goes_left in Hy. destruct (m_comp x y) eqn:E, (m_comp y x) eqn:E'; try done.
  pose proof (comp_trans _ _ _ E E') as Q. by rewrite comp_irrefl in Q.
Qed.
End Refinement.

(** ** Properties *)

(** C5: any sequence of insertions of new elements, erasures of members and
    [clear]s runs on the heap without a failing assertion (the complete
    [check()] of order, balance, size and cached head after every step
    included) and without a null dereference, and ends in a balanced tree whose
    elements in order are what the same steps make of a sorted sequence. *)
Theorem sorted_refines_sequence `{Config} `{StrictWeakOrder} U ops s l l' :
  sl_inv U s l → Forall (λ op, op_arg op ⊆ U) ops → spec_ops ops l = Some l' →
  ∃ s', run_ops ops s = Ok (tt, s') ∧ sl_inv U s' l' ∧ ordered l' ∧ check s' = Ok (tt, s').
Proof.
  intros Hinv HU Hops. destruct (sl_run_ops_refines _ _ _ _ _ Hinv HU Hops) as (s' & E & Hinv').
  exists s'. pose proof Hinv' as ((t & T & El) & _). split_and!; [done|done| |by eapply check_ok].
  destruct T as (_ & _ & _ & O & _). by rewrite <-El.
Qed.

(** [empty], [size], [contains] and [front] answer as the sorted sequence
    says, and the element [front] returns is one that no other element compares
    less than. *)
Theorem sorted_queries_functional `{Config} `{StrictWeakOrder} s l x :
  is_sorted_list s l →
  empty s = Ok (bool_decide (l = []), s) ∧
  sl_size s = Ok (Z.of_nat (length l), s) ∧
  contains x s = Ok (bool_decide (x ∈ l), s) ∧
  (∀ a l', l = a :: l' → front s = Ok (a, s) ∧ ∀ y, y ∈ l' → m_comp y a = false).
Proof.
  intros Hl. split_and!; [by apply empty_ok|by apply size_ok|by apply contains_ok|].
  intros a l' ->. split; [by eapply front_ok|]. intros y. apply first_minimal.
  destruct Hl as (t & (_ & _ & _ & O & _) & <-). done.
Qed.

(** C7: the tree stays balanced: a search of a list of [n] elements visits at
    most [2 log2 (n + 1)] nodes. *)
Theorem sorted_search_logarithmic `{Config} `{StrictWeakOrder} s l x fuel :
  is_sorted_list s l → (2 * Z.log2 (Z.of_nat (length l) + 1) < Z.of_nat fuel)%Z →
  contains_ fuel x (m_t s) s = Ok (bool_decide (x ∈ l), s).
Proof.
  intros (t & (Ht & -> & B & O & _) & <-) Hf. rewrite <-containsT_elem by done. apply contains_run; [done|].
  pose proof (height_lvl t B). pose proof (lvl_nonneg t B).
  pose proof (lvl_size t B) as Q. apply Z.log2_le_pow2 in Q; lia.
Qed.

(** *** Witnesses: five elements ordered by [addr / 2], so that 2, 3 and 4, 5
    compare equal. *)

Definition half_compare : Compare := λ x y, (Pos.div2 x <? Pos.div2 y)%positive.

#[export] Instance half_order : @StrictWeakOrder half_compare.
Proof.
  split; unfold m_comp, half_compare; intros *; rewrite ?Pos.ltb_irrefl, ?Pos.ltb_lt, ?Pos.ltb_ge; [done|lia|lia].
Qed.

Definition example_heap : SS :=
  mkSS (list_to_map ((λ x, (x, mkSNode nullptr nullptr 0)) <$> [2; 3; 4; 5; 6]%positive)) nullptr nullptr 0.

Lemma sl_example_heap_inv : sl_inv (H := debug_config) (H0 := half_compare) [2; 3; 4; 5; 6]%positive example_heap [].
Proof.
  split; [exists Leaf; repeat split; try done; constructor|]. split_and!; [set_solver| |done].
  intros x Hx _. exists (mkSNode nullptr nullptr 0). split; [|done].
  repeat (apply elem_of_cons in Hx as [->|Hx]; [done|]). by apply elem_of_nil in Hx.
Qed.

Lemma sorted_refines_sequence_witness :
  ∃ s', run_ops (H := debug_config) (H0 := half_compare)
          [Insert 5; Insert 2; Insert 4; Insert 3; Insert 6; Erase 2; Erase 5; Insert 2]%positive
          example_heap = Ok (tt, s') ∧
        sl_inv (H := debug_config) (H0 := half_compare) [2; 3; 4; 5; 6]%positive s' [2; 3; 4; 6]%positive.
Proof.
  destruct (sorted_refines_sequence (H := debug_config) (H0 := half_compare) [2; 3; 4; 5; 6]%positive
    [Insert 5; Insert 2; Insert 4; Insert 3; Insert 6; Erase 2; Erase 5; Insert 2]%positive
    example_heap [] [2; 3; 4; 6]%positive sl_example_heap_inv) as (s' & E & I & _);
    [repeat (apply List.Forall_cons; [set_solver|]); apply List.Forall_nil|reflexivity|].
  exists s'. split; [exact E|exact I].
Defined.

(** The elements 3, 4 and 6 in a tree with root 4. *)
Definition example_list : SS :=
  mkSS (list_to_map [(3, mkSNode nullptr nullptr 1); (4, mkSNode (Some 3) (Some 6) 2);
                     (6, mkSNode nullptr nullptr 1)])%positive (Some 4)%positive (Some 3)%positive 3.

Lemma sl_example_list_ok : is_sorted_list (H0 := half_compare) example_list [3; 4; 6]%positive.
Proof.
  exists (Node 4 2 (Node 3 1 Leaf Leaf) (Node 6 1 Leaf Leaf))%positive. split; [|done].
  unfold sl_tree. split_and!; try done; simpl; try lia.
  repeat constructor.
Qed.

Lemma sorted_queries_functional_witness :
  sl_size (H := debug_config) example_list = Ok (3%Z, example_list) ∧
  contains (H0 := half_compare) 6%positive example_list = Ok (true, example_list) ∧
  front (H := debug_config) example_list = Ok (3%positive, example_list).
Proof.
  destruct (sorted_queries_functional (H := debug_config) (H0 := half_compare) example_list
    [3; 4; 6]%positive 6%positive sl_example_list_ok) as (_ & Hs & Hc & Hf).
  split; [exact Hs|]. split; [exact Hc|]. apply (Hf 3%positive [4; 6]%positive eq_refl).
Defined.

Lemma sorted_search_logarithmic_witness :
  contains_ (H0 := half_compare) 5 6%positive (m_t example_list) example_list = Ok (true, example_list).
Proof.
  apply (sorted_search_logarithmic (H := debug_config) (H0 := half_compare) example_list
    [3; 4; 6]%positive 6%positive 5 sl_example_list_ok). reflexivity.
Defined.

End AA.
