(* ===== verification/Time.v ===== *)
(** * Time arithmetic (libzth/time.h, src/time.cpp)

    [TimeInterval] (a signed interval as seconds, nanoseconds and a sign) and
    [Timestamp], with their arithmetic, their order and the conversions from
    integer counts; the time computation of the [clock_nanosleep]
    replacements.  The floating-point conversions are not modelled. *)

From stdpp Require Import base list.
From Stdlib Require Import ZArith Lia.
From S2P Require Import Prelude.

Local Open Scope Z_scope.

(** ** Data *)

(** [struct timespec] with a 64-bit [time_t] and [long]. *)
Record timespec := mkTs { tv_sec : Z; tv_nsec : Z }.

Record TimeInterval := mkTI { m_t : timespec; m_negative : bool }.

Definition BILLION : Z := 1000000000.
Definition time_max : Z := 2 ^ 63 - 1.

Definition interval (s ns : Z) (negative : bool) : TimeInterval := mkTI (mkTs s ns) negative.
Definition infinity : TimeInterval := interval time_max 0 false.
Definition null : TimeInterval := interval 0 0 false.

Definition sec (t : TimeInterval) : Z := tv_sec (m_t t).
Definition nsec (t : TimeInterval) : Z := tv_nsec (m_t t).

(** ** Conversions from integer counts

    [from_s] to [from_ns] are templates over the argument's type; the argument
    is within a signed or an unsigned 64-bit integer, [(long)] wraps. *)

Definition init_int (dt : Z) : TimeInterval :=
  interval (s64 (if 0 <=? dt then dt else - dt)) 0 (dt <? 0).

Definition from_s (s : Z) : TimeInterval :=
  if time_max <? s then interval time_max 999999999 false else interval s 0 false.

Definition from_ms (ms : Z) : TimeInterval :=
  let s_ := ms ÷ 1000 in
  if time_max <? u64 s_ then interval time_max 999999999 false
  else interval (s64 s_) (s64 (Z.rem (s64 ms) 1000 * 1000000)) false.

Definition from_us (us : Z) : TimeInterval :=
  let s_ := us ÷ 1000000 in
  if time_max <? u64 s_ then interval time_max 999999999 false
  else interval (s64 s_) (s64 (Z.rem (s64 us) 1000000 * 1000)) false.

Definition from_ns (ns : Z) : TimeInterval :=
  let s_ := ns ÷ 1000000000 in
  if time_max <? s_ then interval time_max 999999999 false
  else interval (s64 s_) (Z.rem (s64 ns) 1000000000) false.

(** The conversion to [std::chrono::nanoseconds]. *)
Definition to_chrono (t : TimeInterval) : Z := s64 (s64 (sec t * BILLION) + nsec t).

(** [operator"" _s]: the argument is an [unsigned long long]. *)
Definition literal_s (x : Z) : TimeInterval := interval (s64 (Z.min x time_max)) 0 false.
Definition literal_ms (x : Z) : TimeInterval := from_ms x.
Definition literal_us (x : Z) : TimeInterval := from_us x.

(** ** Predicates *)

Definition isNormal (t : TimeInterval) : bool :=
  (0 <=? sec t) && (0 <=? nsec t) && (nsec t <? BILLION).
Definition isNegative (t : TimeInterval) : bool := m_negative t.
Definition isPositive (t : TimeInterval) : bool := negb (isNegative t).
Definition isNull (t : TimeInterval) : bool := (sec t =? 0) && (nsec t =? 0).
Definition isInfinite (t : TimeInterval) : bool := time_max ÷ 2 <? sec t.
Definition hasPassed (t : TimeInterval) : bool := isNegative t || isNull t.

Definition isAbsBiggerThan (a b : TimeInterval) : bool :=
  (sec b <? sec a) || ((sec a =? sec b) && (nsec b <? nsec a)).

Definition isBiggerThan (a b : TimeInterval) : bool :=
  (negb (m_negative a) && m_negative b)
  || (negb (m_negative a) && negb (m_negative b) && isAbsBiggerThan a b)
  || (m_negative a && m_negative b && isAbsBiggerThan b a).

Definition ti_eq (a b : TimeInterval) : bool :=
  (nsec a =? nsec b) && (sec a =? sec b) && Bool.eqb (m_negative a) (m_negative b).
Definition ti_gt (a b : TimeInterval) : bool := isBiggerThan a b.
Definition ti_ge (a b : TimeInterval) : bool := ti_eq a b || isBiggerThan a b.
Definition ti_lt (a b : TimeInterval) : bool := negb (ti_ge a b).
Definition ti_le (a b : TimeInterval) : bool := ti_eq a b || negb (ti_gt a b).

(** ** Arithmetic *)

(** [this->add(t)]. *)
Definition add (this t : TimeInterval) : TimeInterval :=
  if Bool.eqb (m_negative t) (m_negative this) then
    if isInfinite this || isInfinite t || (s64 (s64 (time_max - sec this) - 1) <=? sec t) then
      interval time_max (nsec this) (m_negative this)
    else
      let s := s64 (sec this + sec t) in
      let ns := s64 (nsec this + nsec t) in
      if BILLION <? ns then interval (s64 (s + 1)) (s64 (ns - BILLION)) (m_negative this)
      else interval s ns (m_negative this)
  else
    let r :=
      if isAbsBiggerThan t this then
        interval (s64 (sec t - sec this)) (s64 (nsec t - nsec this)) (negb (m_negative this))
      else interval (s64 (sec this - sec t)) (s64 (nsec this - nsec t)) (m_negative this) in
    if nsec r <? 0 then interval (s64 (sec r - 1)) (s64 (nsec r + BILLION)) (m_negative r) else r.

Definition neg (t : TimeInterval) : TimeInterval := interval (sec t) (nsec t) (negb (isNegative t)).
Definition sub (this t : TimeInterval) : TimeInterval :=
  add this (interval (sec t) (nsec t) (negb (isNegative t))).

(** ** Timestamps *)

Definition Timestamp := timespec.

Definition ts_isNull (t : Timestamp) : bool := (tv_sec t =? 0) && (tv_nsec t =? 0).
Definition isBefore (a b : Timestamp) : bool :=
  (tv_sec a <? tv_sec b) || ((tv_sec a =? tv_sec b) && (tv_nsec a <? tv_nsec b)).
Definition isAfter (a b : Timestamp) : bool := isBefore b a.
Definition ts_eq (a b : Timestamp) : bool := (tv_nsec a =? tv_nsec b) && (tv_sec a =? tv_sec b).
Definition ts_le (a b : Timestamp) : bool := ts_eq a b || isBefore a b.
Definition ts_gt (a b : Timestamp) : bool := isBefore b a.
Definition ts_ge (a b : Timestamp) : bool := ts_eq a b || isBefore b a.

(** [hasPassed()] at the time [now] the clock gives. *)
Definition ts_hasPassed (now t : Timestamp) : bool := isBefore t now.

Definition timeTo (this t : Timestamp) : TimeInterval :=
  sub (interval (tv_sec t) (tv_nsec t) false) (interval (tv_sec this) (tv_nsec this) false).

(** [passed()] at the time [now]; asserts that the stamp is not in the future. *)
Definition passed `{Config} {S : Type} (now this : Timestamp) : M S TimeInterval :=
  zth_assert (negb (isAfter this now));;
  let s := s64 (tv_sec now - tv_sec this) in
  let ns := s64 (tv_nsec now - tv_nsec this) in
  mret (if ns <? 0 then interval (s64 (s - 1)) (s64 (ns + BILLION)) false else interval s ns false).

Definition ts_add `{Config} {S : Type} (this : Timestamp) (dt : TimeInterval) : M S Timestamp :=
  let t := add (interval (tv_sec this) (tv_nsec this) false) dt in
  zth_assert (isPositive t);; mret (m_t t).

(** [operator-=(TimeInterval)]. *)
Definition ts_sub `{Config} {S : Type} (this : Timestamp) (dt : TimeInterval) : M S Timestamp :=
  ts_add this (neg dt).

(** To and from [std::chrono::time_point] as a count of nanoseconds. *)
Definition of_time_point (ns : Z) : Timestamp := mkTs (ns ÷ BILLION) (Z.rem ns BILLION).
Definition to_time_point (t : Timestamp) : Z := s64 (s64 (tv_sec t * BILLION) + tv_nsec t).

(** ** The [clock_nanosleep] replacements of src/time.cpp

    The clock and the sleep of the operating system are parameters: the times
    read from the clock come as a list, a sleep only reports what it was asked
    for. *)

Inductive sleep_result :=
| Returned (res : Z)                   (** the function returns [res] *)
| Usleep (us : Z)                      (** [usleep(us)] *)
| Nanosleep (t : timespec)             (** [nanosleep(&t)] *)
| Polling.                             (** out of clock readings *)

Definition EFAULT : Z := 14.
Definition EINVAL : Z := 22.
Definition useconds_max : Z := 2 ^ 32 - 1.

(** macOS: what is slept for at the clock reading [now]. *)
Definition mac_sleep (request now : timespec) : sleep_result :=
  if tv_sec request <? tv_sec now then Returned 0
  else
    let sec := s64 (tv_sec request - tv_sec now) in
    if (sec =? 0) && (tv_nsec request <=? tv_nsec now) then Returned 0
    else if sec <? useconds_max ÷ 1000000 - 1 then
      Usleep (u32 (u32 (s64 (sec * 1000000)) + u32 ((tv_nsec request - tv_nsec now) ÷ 1000)))
    else Usleep useconds_max.

(** Windows. *)
Definition windows_sleep (request t : timespec) : sleep_result :=
  if tv_sec request <? tv_sec t then Returned 0
  else if (tv_sec t =? tv_sec request) && (tv_nsec request <? tv_nsec t) then Returned 0
  else
    let s := s64 (tv_sec request - tv_sec t) in
    let ns := s64 (tv_nsec request - tv_nsec t) in
    Nanosleep (if ns <? 0 then mkTs (s64 (s - 1)) (s64 (ns + 1000000000)) else mkTs s ns).

(** Bare metal: the clock is polled; a reading is a time or an error code. *)
Fixpoint poll_clock (request : timespec) (readings : list (Z + timespec)) : sleep_result :=
  match readings with
  | [] => Polling
  | inl res :: _ => Returned res
  | inr now :: readings =>
      if tv_sec request <? tv_sec now then Returned 0
      else if (tv_sec now =? tv_sec request) && (tv_nsec request <=? tv_nsec now) then Returned 0
      else poll_clock request readings
  end.

(** The checks of the arguments that all three have in common. *)
Definition clock_nanosleep (is_monotonic is_abstime : bool) (request : option timespec)
    (sleep : timespec → sleep_result) : sleep_result :=
  match request with
  | None => Returned EFAULT
  | Some request =>
      if negb is_monotonic || negb is_abstime then Returned EINVAL else sleep request
  end.

(** ** Meaning: nanoseconds *)

Definition abs_value (t : TimeInterval) : Z := sec t * BILLION + nsec t.
Definition value (t : TimeInterval) : Z := if m_negative t then - abs_value t else abs_value t.
Definition ns_of (t : timespec) : Z := tv_sec t * BILLION + tv_nsec t.

(** A normal interval whose seconds fit a [time_t]. *)
Definition wf (t : TimeInterval) : Prop := 0 <= sec t <= time_max ∧ 0 <= nsec t < BILLION.
Definition wf_ts (t : timespec) : Prop := 0 <= tv_sec t <= time_max ∧ 0 <= tv_nsec t < BILLION.

Lemma wf_isNormal t : wf t → isNormal t = true.
Proof. unfold wf, isNormal. intros. rewrite !andb_true_iff, Z.ltb_lt, !Z.leb_le. lia. Qed.

(** An order key: twice the value, with -0 below +0. *)
Definition key (t : TimeInterval) : Z := 2 * value t + (if m_negative t then 0 else 1).

Ltac time_unfold :=
  unfold neg, ti_lt, ti_le, ti_ge, ti_gt, ti_eq, isBiggerThan, isAbsBiggerThan, isPositive, isNegative,
    isInfinite, isNull, wf, wf_ts, key, value, abs_value, ns_of, ts_le, isAfter, isBefore, ts_eq,
    interval, sec, nsec, BILLION, time_max in *;
  cbn [m_t m_negative tv_sec tv_nsec negb andb orb Bool.eqb] in *.

(** Turn boolean comparisons into arithmetic. *)
Ltac bools :=
  repeat match goal with
    | |- context [Z.ltb ?x ?y] => destruct (Z.ltb_spec x y)
    | |- context [Z.leb ?x ?y] => destruct (Z.leb_spec x y)
    | |- context [Z.eqb ?x ?y] => destruct (Z.eqb_spec x y)
    end; cbn [negb andb orb Bool.eqb]; try done; try lia.

Lemma isBiggerThan_key a b : wf a → wf b → isBiggerThan a b = (key b <? key a).
Proof. destruct a as [[sa na] []], b as [[sb nb] []]; intros; time_unfold; bools. Qed.

Lemma ti_eq_key a b : wf a → wf b → ti_eq a b = (key a =? key b).
Proof. destruct a as [[sa na] []], b as [[sb nb] []]; intros; time_unfold; bools. Qed.

Lemma s64_id z : - 2 ^ 63 <= z < 2 ^ 63 → s64 z = z.
Proof. apply s64_small. Qed.

(** Remove the wrap-around of results in range. *)
Ltac no_wrap := repeat match goal with |- context [s64 ?z] => rewrite (s64_id z) by lia end.

(** [add] does not saturate. *)
Definition finite_sum (a b : TimeInterval) : Prop :=
  m_negative a ≠ m_negative b ∨
  (isInfinite a = false ∧ isInfinite b = false ∧ sec a + sec b < time_max - 1).

Lemma add_exact a b : wf a → wf b → finite_sum a b →
  value (add a b) = value a + value b ∧
  0 <= sec (add a b) <= time_max ∧ 0 <= nsec (add a b) <= BILLION ∧
  (nsec (add a b) = BILLION ↔ m_negative a = m_negative b ∧ nsec a + nsec b = BILLION).
Proof.
  intros Ha Hb Hf. unfold add, finite_sum in *.
  destruct (Bool.eqb (m_negative b) (m_negative a)) eqn:E.
  - apply Bool.eqb_prop in E. destruct Hf as [Hf|(-> & -> & Hf)]; [congruence|].
    destruct a as [[sa na] ga], b as [[sb nb] gb]. simpl in E. subst gb. time_unfold. no_wrap.
    destruct (Z.leb_spec (2 ^ 63 - 1 - sa - 1) sb); [lia|]. cbn [orb].
    destruct (Z.ltb_spec 1000000000 (na + nb)); cbn [m_t m_negative tv_sec tv_nsec]; no_wrap; destruct ga; (split; [lia|split; [lia|split; [lia|]]]);
      (split; [intros; split; [done|lia]|intros [_ ?]; lia]).
  - destruct a as [[sa na] ga], b as [[sb nb] gb]. time_unfold.
    destruct (Z.ltb_spec sa sb), (Z.eqb_spec sb sa), (Z.ltb_spec na nb); cbn [orb andb m_t m_negative tv_sec tv_nsec]; try lia; no_wrap;
      (match goal with |- context [?x <? 0] => destruct (Z.ltb_spec x 0) end;
       cbn [m_t m_negative tv_sec tv_nsec]; no_wrap); destruct ga, gb; try done; cbn [negb];
      (split; [lia|split; [lia|split; [lia|]]]); (split; [intros; lia|intros [? _]; done]).
Qed.

(** [add] reaches infinity. *)
Definition saturates (a b : TimeInterval) : Prop :=
  m_negative a = m_negative b ∧ (isInfinite a = true ∨ isInfinite b = true ∨ time_max - 1 <= sec a + sec b).

Lemma not_saturates a b : ¬ saturates a b → finite_sum a b.
Proof.
  intros N. destruct (decide (m_negative a = m_negative b)) as [E|E]; [right|by left].
  destruct (isInfinite a) eqn:Ia, (isInfinite b) eqn:Ib; try (destruct N; split; [done|tauto]).
  split_and!; [done..|]. apply Z.nle_gt. intros L. apply N. split; tauto.
Qed.

Lemma add_saturates a b : wf a → wf b → saturates a b → add a b = interval time_max (nsec a) (m_negative a).
Proof.
  intros Ha Hb [E S]. unfold add. rewrite E, Bool.eqb_reflx.
  assert (isInfinite a || isInfinite b || (s64 (s64 (time_max - sec a) - 1) <=? sec b) = true) as ->; [|done].
  destruct S as [->| [->|L]]; [done|by rewrite orb_true_r|]. apply orb_true_iff. right.
  unfold wf, time_max in *. no_wrap. apply Z.leb_le. lia.
Qed.

Lemma value_neg t : value (neg t) = - value t.
Proof. destruct t as [[s n] []]; time_unfold; lia. Qed.

Lemma sub_add_neg a b : sub a b = add a (neg b).
Proof. done. Qed.

Lemma wf_neg t : wf t → wf (neg t).
Proof. done. Qed.

Lemma timeTo_exact a b : wf_ts a → wf_ts b →
  value (timeTo a b) = ns_of b - ns_of a ∧ wf (timeTo a b).
Proof.
  intros Ha Hb. unfold timeTo. rewrite sub_add_neg.
  destruct (add_exact (interval (tv_sec b) (tv_nsec b) false) (neg (interval (tv_sec a) (tv_nsec a) false)))
    as (E1 & E2 & E3 & E4); [done|done|by left|].
  rewrite E1, value_neg. unfold wf. split; [done|]. split; [done|].
  cut (nsec (add (interval (tv_sec b) (tv_nsec b) false) (neg (interval (tv_sec a) (tv_nsec a) false))) ≠ BILLION);
    [lia|]. by intros [? _]%E4.
Qed.

Lemma value_isPositive t : wf t → 0 < value t → isPositive t = true.
Proof.
  destruct t as [[s n] []]; time_unfold; [|done]. lia.
Qed.

Lemma ns_of_value t : isPositive t = true → ns_of (m_t t) = value t.
Proof. unfold isPositive, isNegative, value, abs_value. destruct t as [[s n] []]; done. Qed.

Lemma add_positive a b : wf a → wf b → m_negative a = false → finite_sum a b →
  isPositive (add a b) = (0 <=? value a + value b).
Proof.
  intros Ha Hb Ga Hf. destruct (add_exact a b Ha Hb Hf) as (E & E1 & E2 & _). rewrite <-E.
  destruct (isPositive (add a b)) eqn:P; symmetry.
  - apply Z.leb_le. rewrite <-ns_of_value by done. unfold ns_of, BILLION, sec, nsec in *. lia.
  - apply Z.leb_gt. rewrite E. destruct a as [[sa na] ga], b as [[sb nb] []]; simpl in Ga; subst ga;
      revert P; unfold add; time_unfold; [|repeat case_match; done].
    repeat match goal with |- context [if ?x then _ else _] => destruct x eqn:? end; try done.
    all: bools.
Qed.

Lemma ts_add_exact `{Config} {S : Type} t dt (s : S) :
  wf_ts t → wf dt → finite_sum (interval (tv_sec t) (tv_nsec t) false) dt → 0 <= ns_of t + value dt →
  ∃ t', ts_add t dt s = Ok (t', s) ∧ ns_of t' = ns_of t + value dt ∧
    (wf_ts t' ↔ ¬ (m_negative dt = false ∧ tv_nsec t + nsec dt = BILLION)).
Proof.
  intros Ht Hd Hf Hv. set (t1 := interval (tv_sec t) (tv_nsec t) false).
  destruct (add_exact t1 dt Ht Hd Hf) as (E1 & E2 & E3 & E4).
  pose proof (add_positive t1 dt Ht Hd eq_refl Hf) as P. rewrite (proj2 (Z.leb_le _ _)) in P by done.
  exists (m_t (add t1 dt)). split; [|split; [by rewrite ns_of_value|]].
  - unfold ts_add. fold t1. by rewrite (bind_Ok _ _ _ _ _ (zth_assert_true _ _ P)).
  - unfold wf_ts. change (tv_sec (m_t (add t1 dt))) with (sec (add t1 dt)).
    change (tv_nsec (m_t (add t1 dt))) with (nsec (add t1 dt)). split.
    + intros [_ L] [D1 D2]. rewrite (proj2 E4) in L; [lia|]. by split.
    + intros N. split; [done|]. cut (nsec (add t1 dt) ≠ BILLION); [lia|].
      intros [Q1 Q2]%E4. apply N. by split.
Qed.

Lemma passed_exact `{Config} {S : Type} now t (s : S) : wf_ts t → wf_ts now → isBefore now t = false →
  ∃ d, passed now t s = Ok (d, s) ∧ value d = ns_of now - ns_of t ∧ wf d.
Proof.
  intros Ht Hn B. unfold passed, isAfter. rewrite B. simpl.
  rewrite (bind_Ok _ _ _ _ _ (zth_assert_true _ _ eq_refl)).
  destruct t as [s1 n1], now as [s2 n2]. time_unfold. no_wrap. revert B. bools; intros; eexists; 
    (split; [reflexivity|]); cbn [m_t m_negative tv_sec tv_nsec]; no_wrap; lia.
Qed.

Lemma ns_of_inj a b : wf_ts a → wf_ts b → ns_of a = ns_of b → a = b.
Proof. destruct a as [s1 n1], b as [s2 n2]. time_unfold. intros. f_equal; lia. Qed.

Lemma isBefore_ns a b : wf_ts a → wf_ts b → isBefore a b = (ns_of a <? ns_of b).
Proof. destruct a as [s1 n1], b as [s2 n2]. intros. time_unfold. bools. Qed.

(** Going from [a] to [b] by the interval between them. *)
Lemma add_timeTo `{Config} {S : Type} a b (s : S) :
  wf_ts a → wf_ts b → tv_sec a ≤ time_max ÷ 2 → tv_sec b ≤ time_max ÷ 2 →
  ∃ t', ts_add a (timeTo a b) s = Ok (t', s) ∧ ns_of t' = ns_of b ∧
    (t' = b ↔ ¬ (isBefore a b = true ∧ tv_nsec a ≠ 0 ∧ tv_nsec b = 0)).
Proof.
  intros Ha Hb La Lb. destruct (timeTo_exact a b Ha Hb) as [V W].
  assert (finite_sum (interval (tv_sec a) (tv_nsec a) false) (timeTo a b)) as F.
  { unfold finite_sum. destruct (m_negative (timeTo a b)) eqn:E; [by left|right].
    assert (sec (timeTo a b) ≤ tv_sec b) as L.
    { revert V W. unfold value. rewrite E. unfold abs_value, wf, wf_ts, ns_of, BILLION in *. lia. }
    assert (tv_sec a + sec (timeTo a b) ≤ tv_sec b).
    { revert V W. unfold value. rewrite E. unfold abs_value, wf, wf_ts, ns_of, BILLION in *. lia. }
    unfold isInfinite. change (sec (interval (tv_sec a) (tv_nsec a) false)) with (tv_sec a).
    split_and!; [apply Z.ltb_ge; lia..|]. change (time_max ÷ 2) with 4611686018427387903 in *.
    unfold time_max. lia. }
  destruct (ts_add_exact a (timeTo a b) s Ha W F) as (t' & E & N & I).
  { rewrite V. unfold wf_ts, ns_of, BILLION in *. lia. }
  exists t'. rewrite V in N. split; [done|]. split; [lia|].
  assert (t' = b ↔ wf_ts t') as ->.
  { split; [by intros ->|]. intros. apply ns_of_inj; try done. lia. }
  rewrite I. apply not_iff_compat. rewrite isBefore_ns, Z.ltb_lt by done.
  assert (m_negative (timeTo a b) = false ↔ ns_of a ≤ ns_of b) as ->.
  { rewrite <-not_true_iff_false. change (m_negative (timeTo a b)) with (isNegative (timeTo a b)).
    pose proof (add_positive (interval (tv_sec b) (tv_nsec b) false)
      (neg (interval (tv_sec a) (tv_nsec a) false)) Hb Ha eq_refl ltac:(by left)) as P.
    rewrite value_neg in P. unfold isPositive in P. change (add _ _) with (timeTo a b) in P.
    destruct (isNegative (timeTo a b)); simpl in P; symmetry in P;
      [apply Z.leb_gt in P|apply Z.leb_le in P];
      change (ns_of b + - ns_of a < 0) in P || change (0 ≤ ns_of b + - ns_of a) in P; split; try lia; done. }
  revert V W. unfold value. unfold wf_ts, wf, abs_value, ns_of, BILLION in *.
  destruct (m_negative (timeTo a b)); intros; lia.
Qed.

Lemma u32_add a b : u32 (u32 a + u32 b) = u32 (a + b).
Proof. unfold u32. symmetry. by apply Z.add_mod. Qed.

Lemma mac_sleep_us request now :
  wf_ts request → wf_ts now → ns_of now < ns_of request →
  ∃ us, mac_sleep request now = Usleep us ∧
    (us = useconds_max ∨ (ns_of request - ns_of now) - 1000 < us * 1000 < (ns_of request - ns_of now) + 1000).
Proof.
  destruct request as [s1 n1], now as [s2 n2]. intros Hr Hn L. unfold mac_sleep. time_unfold.
  destruct (Z.ltb_spec s1 s2); [lia|]. no_wrap.
  destruct (Z.eqb_spec (s1 - s2) 0), (Z.leb_spec n1 n2); cbn [andb]; try lia;
    change (useconds_max ÷ 1000000 - 1) with 4293;
    (destruct (Z.ltb_spec (s1 - s2) 4293); [|eexists; split; [reflexivity|by left]]);
    eexists; (split; [reflexivity|right]); no_wrap; rewrite u32_add;
    pose proof (Z.quot_rem' (n1 - n2) 1000); pose proof (Z.rem_bound_abs (n1 - n2) 1000);
    rewrite u32_small by lia; lia.
Qed.

Lemma poll_clock_skip request readings rest :
  wf_ts request → Forall (λ t, wf_ts t ∧ ns_of t < ns_of request) readings →
  poll_clock request ((inr <$> readings) ++ rest) = poll_clock request rest.
Proof.
  intros Hr. induction 1 as [|t readings [Ht L] F IH]; [done|]. simpl.
  rewrite <-IH. destruct request as [s1 n1], t as [s2 n2]. simpl. time_unfold. bools.
Qed.

Lemma poll_clock_early request readings :
  wf_ts request → Forall (λ t, wf_ts t ∧ ns_of t < ns_of request) readings →
  poll_clock request (inr <$> readings) = Polling.
Proof. intros Hr F. rewrite <-(app_nil_r (inr <$> readings)). by rewrite poll_clock_skip. Qed.

(** A time slice and a clock reading that stay within the finite range. *)
Definition good_slice (t : TimeInterval) : Prop := wf t ∧ m_negative t = false ∧ (sec t < 2 ^ 32)%Z.
Definition good_now (t : Timestamp) : Prop := wf_ts t ∧ (tv_sec t < 2 ^ 61)%Z.

Lemma good_sum {S : Type} `{Config} now slice (s : S) :
  good_now now → good_slice slice → ∃ e, ∀ s : S, ts_add now slice s = Ok (e, s).
Proof.
  intros [N N'] (W & P & L). destruct (ts_add_exact now slice s N W) as (e & E & _).
  - right. change (sec (interval (tv_sec now) (tv_nsec now) false)) with (tv_sec now).
    unfold isInfinite. change (sec (interval (tv_sec now) (tv_nsec now) false)) with (tv_sec now).
    change (time_max ÷ 2)%Z with 4611686018427387903%Z.
    split_and!; [apply Z.ltb_ge; lia..|]. unfold time_max. lia.
  - unfold value. rewrite P. unfold abs_value, ns_of, wf_ts, wf, BILLION in *. lia.
  - exists e. intros s'. revert E. unfold ts_add. set (t := Time.add _ _). unfold mbind, M_bind, zth_assert, fail, mret, M_ret.
    destruct (EnableAssert && negb (isPositive t)); [done|]. by intros [= ->].
Qed.

(** ** Properties *)

Lemma u64_negative z : - 2 ^ 64 < z < 0 → u64 z = z + 2 ^ 64.
Proof.
  intros. unfold u64. rewrite <-(Z.mod_add z 1), Z.mod_small by lia. lia.
Qed.

(** C8: the sum of two normal intervals, of either sign.  When both have the same
    sign, and one of them counts as infinite already (its seconds are more than half of the
    largest [time_t]) or the seconds add up to the largest [time_t] less one, or more, the
    sum is infinite: the largest number of seconds, with the sign and the nanoseconds of the
    first.  In all other cases it is exact; it is normal again, except when both have the
    same sign and the nanoseconds add up to exactly one second: then [tv_nsec] stays
    10^9. *)
Theorem interval_add_exact a b :
  wf a → wf b →
  (m_negative a = m_negative b ∧ (isInfinite a = true ∨ isInfinite b = true ∨ time_max - 1 <= sec a + sec b) →
     add a b = interval time_max (nsec a) (m_negative a)) ∧
  (¬ (m_negative a = m_negative b ∧ (isInfinite a = true ∨ isInfinite b = true ∨ time_max - 1 <= sec a + sec b)) →
     value (add a b) = value a + value b ∧
     (isNormal (add a b) = true ↔ ¬ (m_negative a = m_negative b ∧ nsec a + nsec b = BILLION))).
Proof.
  intros Ha Hb. split; [by apply add_saturates|].
  intros Hf%not_saturates. destruct (add_exact a b Ha Hb Hf) as (E1 & E2 & E3 & E4). split; [done|].
  rewrite <-E4. unfold isNormal. rewrite !andb_true_iff, Z.ltb_lt, !Z.leb_le. lia.
Qed.

(** The comparison operators of [TimeInterval] are the total order of the
    signed values, in which -0 comes before +0. *)
Theorem interval_order_total a b :
  wf a → wf b →
  ti_eq a b = (key a =? key b) ∧ ti_gt a b = (key b <? key a) ∧ ti_ge a b = (key b <=? key a) ∧
  ti_lt a b = (key a <? key b) ∧ ti_le a b = (key a <=? key b).
Proof.
  intros Ha Hb. unfold ti_le, ti_lt, ti_ge, ti_gt. rewrite isBiggerThan_key, ti_eq_key by done.
  split_and!; bools.
Qed.

(** For timestamps within the finite range, [timeTo] is the exact signed
    difference, and adding it again never fails and denotes the second stamp.
    The result also equals it field by field, except when going forward from a
    stamp with a fraction to a whole second. *)
Theorem timestamp_add_timeTo `{Config} {S : Type} a b (s : S) :
  wf_ts a → wf_ts b → tv_sec a ≤ time_max ÷ 2 → tv_sec b ≤ time_max ÷ 2 →
  value (timeTo a b) = ns_of b - ns_of a ∧ isNormal (timeTo a b) = true ∧
  (∃ t', ts_add a (timeTo a b) s = Ok (t', s) ∧ ns_of t' = ns_of b ∧
    (t' = b ↔ ¬ (isBefore a b = true ∧ tv_nsec a ≠ 0 ∧ tv_nsec b = 0))) ∧
  (isBefore b a = false → ∃ d, passed b a s = Ok (d, s) ∧ value d = value (timeTo a b)).
Proof.
  intros Ha Hb La Lb. destruct (timeTo_exact a b Ha Hb) as [V W]. split_and!.
  - done.
  - by apply wf_isNormal.
  - by apply add_timeTo.
  - intros B. destruct (passed_exact b a s Ha Hb B) as (d & E & Vd & _). exists d. by rewrite V.
Qed.

(** A non-negative count of milli-, micro- or nanoseconds that fits a
    [long] converts exactly to a normal interval, and back to
    [std::chrono::nanoseconds], which drops the sign of an interval.  A negative count does not: below
    a second it gives an interval that is not normal, and a whole negative
    second or more of milli- or microseconds gives infinity. *)
Theorem interval_from_counts n :
  (0 ≤ n ≤ time_max →
   value (from_ms n) = n * 1000000 ∧ wf (from_ms n) ∧ value (from_us n) = n * 1000 ∧ wf (from_us n) ∧
   value (from_ns n) = n ∧ wf (from_ns n) ∧ to_chrono (from_ns n) = n ∧
   to_chrono (neg (from_ns n)) = n) ∧
  (- 2 ^ 63 ≤ n < 0 →
   (n ≤ - 1000 → isInfinite (from_ms n) = true ∧ isNegative (from_ms n) = false) ∧
   (n ≤ - 1000000 → isInfinite (from_us n) = true ∧ isNegative (from_us n) = false) ∧
   (- 1000 < n → isNormal (from_ms n) = false ∧ isNormal (from_us n) = false ∧
      isNormal (from_ns n) = false)).
Proof.
  split.
  - intros Hn. unfold from_ms, from_us, from_ns, to_chrono, time_max in *.
    rewrite !(Z.quot_div_nonneg n), !Z.rem_mod_nonneg by (try apply s64_small; try rewrite s64_small; lia).
    rewrite !(s64_id n) by lia.
    pose proof (Z.div_mod n 1000). pose proof (Z.div_mod n 1000000). pose proof (Z.div_mod n 1000000000).
    pose proof (Z.mod_pos_bound n 1000). pose proof (Z.mod_pos_bound n 1000000).
    pose proof (Z.mod_pos_bound n 1000000000). rewrite !u64_small by lia.
    rewrite !(proj2 (Z.ltb_ge _ _)) by lia. time_unfold. no_wrap. lia.
  - intros Hn. assert (∃ m, n = - m) as [m ->] by (exists (- n); lia).
    pose proof (Z.div_mod m 1000). pose proof (Z.mod_pos_bound m 1000).
    pose proof (Z.div_mod m 1000000). pose proof (Z.mod_pos_bound m 1000000).
    split_and!; intros L; unfold from_ms, from_us, from_ns; rewrite !(s64_id (- m)) by lia;
      rewrite !Z.quot_opp_l, ?Z.rem_opp_l, !Z.quot_div_nonneg, ?Z.rem_mod_nonneg by lia.
    + rewrite u64_negative by lia. rewrite (proj2 (Z.ltb_lt _ _)); [done|unfold time_max; lia].
    + rewrite u64_negative by lia. rewrite (proj2 (Z.ltb_lt _ _)); [done|unfold time_max; lia].
    + rewrite !(Z.div_small m), !(Z.mod_small m) by lia. unfold isNormal. time_unfold.
      rewrite u64_small by lia. change (2 ^ 63 - 1 <? - 0) with false. cbv iota.
      cbn [m_t tv_sec tv_nsec]. no_wrap.
      split_and!; apply andb_false_iff; left; apply andb_false_iff; right; apply Z.leb_gt; lia.
Qed.

(** The replacements of [clock_nanosleep] wait for the requested absolute
    time.  They do not sleep when it has passed; otherwise the Windows version
    sleeps for the exact difference, the macOS version for the difference in
    microseconds, to within one, or for the longest [usleep] when that does not
    fit; the polling version returns at the first reading of the clock that
    reaches the time, and not before. *)
Theorem clock_nanosleep_until request now readings :
  wf_ts request → wf_ts now →
  (windows_sleep request now =
     if ns_of request <? ns_of now then Returned 0
     else Nanosleep (mkTs ((ns_of request - ns_of now) / BILLION) ((ns_of request - ns_of now) mod BILLION))) ∧
  (ns_of request ≤ ns_of now → mac_sleep request now = Returned 0) ∧
  (ns_of now < ns_of request → ∃ us, mac_sleep request now = Usleep us ∧
     (us = useconds_max ∨ (ns_of request - ns_of now) - 1000 < us * 1000 < (ns_of request - ns_of now) + 1000)) ∧
  (Forall (λ t, wf_ts t ∧ ns_of t < ns_of request) readings →
   poll_clock request (inr <$> readings) = Polling ∧
   (ns_of request ≤ ns_of now → poll_clock request ((inr <$> readings) ++ [inr now]) = Returned 0)).
Proof.
  intros Hr Hn. split_and!.
  - destruct request as [s1 n1], now as [s2 n2]. unfold windows_sleep. time_unfold. no_wrap.
    bools; f_equal; f_equal; no_wrap.
    all: pose proof (Z.div_mod (s1 * 1000000000 + n1 - (s2 * 1000000000 + n2)) 1000000000);
      pose proof (Z.mod_pos_bound (s1 * 1000000000 + n1 - (s2 * 1000000000 + n2)) 1000000000); lia.
  - intros L. destruct request as [s1 n1], now as [s2 n2]. unfold mac_sleep. time_unfold. no_wrap. bools.
  - intros L. by apply mac_sleep_us.
  - intros F. split; [by apply poll_clock_early|]. intros L. rewrite poll_clock_skip by done.
    destruct request as [s1 n1], now as [s2 n2]. simpl. time_unfold. bools.
Qed.

(** *** Witnesses *)

(** 0.5 s + 0.5 s; and 2^62 s + 1 s, which is infinite. *)
Lemma interval_add_exact_witness :
  value (add (interval 0 500000000 false) (interval 0 500000000 false)) = 1000000000 ∧
  isNormal (add (interval 0 500000000 false) (interval 0 500000000 false)) = false ∧
  add (interval (2 ^ 62) 5 false) (interval 1 7 false) = interval time_max 5 false.
Proof.
  destruct (interval_add_exact (interval 0 500000000 false) (interval 0 500000000 false))
    as [_ E]; [by vm_compute|by vm_compute|].
  destruct E as [V N]; [intros [_ [E|[E|E]]]; by vm_compute in E|]. split; [exact V|]. split.
  - apply not_true_iff_false. intros E. apply N in E. by apply E.
  - apply (interval_add_exact (interval (2 ^ 62) 5 false) (interval 1 7 false)); [by vm_compute|by vm_compute|].
    split; [reflexivity|left; by vm_compute].
Defined.

Lemma interval_order_total_witness :
  ti_lt (interval 1 5 true) (interval 0 7 false) = true.
Proof.
  destruct (interval_order_total (interval 1 5 true) (interval 0 7 false)) as (_ & _ & _ & E & _);
    [by vm_compute|by vm_compute|]. rewrite E. reflexivity.
Defined.

(** From 1.5 s to 3 s. *)
Lemma timestamp_add_timeTo_witness :
  ∃ t', ts_add (H := debug_config) (mkTs 1 500000000) (timeTo (mkTs 1 500000000) (mkTs 3 0)) tt = Ok (t', tt) ∧
    ns_of t' = 3000000000 ∧ t' ≠ mkTs 3 0.
Proof.
  destruct (timestamp_add_timeTo (H := debug_config) (mkTs 1 500000000) (mkTs 3 0) tt)
    as (_ & _ & (t' & E & N & I) & _); [by vm_compute..|].
  exists t'. split; [exact E|]. split; [exact N|]. intros Q. apply I in Q. by apply Q.
Defined.

Lemma interval_from_counts_witness :
  value (from_ms 1500) = 1500000000 ∧ isInfinite (from_ms (-1500)) = true.
Proof.
  split; [apply (interval_from_counts 1500); by vm_compute|].
  apply (interval_from_counts (-1500)); by vm_compute.
Defined.

Lemma clock_nanosleep_until_witness :
  windows_sleep (mkTs 5 0) (mkTs 3 250000000) = Nanosleep (mkTs 1 750000000) ∧
  poll_clock (mkTs 5 0) [inr (mkTs 4 7); inr (mkTs 5 1)] = Returned 0.
Proof.
  destruct (clock_nanosleep_until (mkTs 5 0) (mkTs 3 250000000) []) as (E & _); [by vm_compute..|].
  split; [exact E|].
  apply (clock_nanosleep_until (mkTs 5 0) (mkTs 5 1) [mkTs 4 7]); [by vm_compute..| |by vm_compute].
  apply List.Forall_cons; [by vm_compute|apply List.Forall_nil].
Defined.
