(* ===== verification/Hook.v ===== *)
(** * Hooks (libzth/list.h, [Hookable<T>] and [Hook<T>])

    A hook is a singly linked chain of callbacks it owns, newest first.  The
    chain is private to the hook, so it is modelled as a list.  Callbacks are
    parameters; a callback may add callbacks to the hook that is running it. *)

From stdpp Require Import base list.
From S2P Require Import Prelude.

(** [Hookable]: the function and its argument. *)
Record Hookable := mkHookable { func : positive; arg : ptr }.

#[export] Instance Hookable_eq_dec : EqDecision Hookable.
Proof. solve_decision. Defined.

(** [m_head], followed along [next]. *)
Definition Hook := list Hookable.

Definition hook_add (f : positive) (a : ptr) (m_head : Hook) : Hook := mkHookable f a :: m_head.

(** The loop of [remove]: [h] follows [prev] in the chain. *)
Fixpoint remove_loop (a : ptr) (h : Hook) : Hook :=
  match h with
  | [] => []
  | x :: next => if ptr_eqb (arg x) a then next else x :: remove_loop a next
  end.

Definition hook_remove `{Config} (a : ptr) : M Hook unit :=
  zth_assert (negb (ptr_eqb a nullptr));;
  modify (λ m_head,
    match m_head with
    | [] => []
    | h :: next => if ptr_eqb (arg h) a then next else h :: remove_loop a next
    end).

Section Calls.
(** What calling a callback does to the rest of the program ([S]), and the
    callbacks it adds to this hook, oldest first. *)
Context {S : Type} (call : Hookable → S → S * list Hookable).

Definition add_all (added : list Hookable) (m_head : Hook) : Hook :=
  fold_left (λ m x, hook_add (func x) (arg x) m) added m_head.

(** [operator()]: call all, from the head on. *)
Fixpoint hook_call (h : Hook) (st : S * Hook) : S * Hook :=
  match h with
  | [] => st
  | x :: next =>
      let (s', added) := call x (fst st) in
      hook_call next (s', add_all added (snd st))
  end.

(** [once]: call and delete all, then the hook is empty. *)
Definition hook_once (st : S * Hook) : S * Hook :=
  (fst (hook_call (snd st) st), []).
End Calls.

Definition hook_clear (m_head : Hook) : Hook := [].

(** ** Properties *)

Lemma hook_remove_run `{Config} a h : a ≠ nullptr → hook_remove a h = Ok (tt, remove_loop a h).
Proof.
  intros Ha. unfold hook_remove. erewrite bind_Ok; [|by apply zth_assert_true, negb_true_iff, ptr_eqb_false].
  unfold modify. by destruct h.
Qed.

Lemma hook_call_trace {S} (call : Hookable → S → S * list Hookable) h st :
  fst (hook_call call h st) = fold_left (λ s x, fst (call x s)) h (fst st).
Proof.
  revert st. induction h as [|x h IH]; intros [s m]; [done|]. simpl.
  destruct (call x s) as [s' added] eqn:E. by rewrite IH.
Qed.

(** Hooks run newest first; [once] calls each callback that was in the hook
    exactly once, in that order, and leaves it empty, so a callback that is
    added while the hook runs is dropped without having been called; [remove]
    takes out the first callback with the argument, and only that one. *)
Theorem hook_order_and_removal `{Config} {S} (call : Hookable → S → S * list Hookable) (s : S) (adds : list (positive * ptr)) a h :
  a ≠ nullptr →
  fold_left (λ m fa, hook_add (fst fa) (snd fa) m) adds [] = rev ((λ fa, mkHookable (fst fa) (snd fa)) <$> adds) ∧
  hook_once call (s, h) = (fold_left (λ s x, fst (call x s)) h s, []) ∧
  (∀ h1 x h2, h = h1 ++ x :: h2 → arg x = a → Forall (λ y, arg y ≠ a) h1 →
     hook_remove a h = Ok (tt, h1 ++ h2)) ∧
  (Forall (λ y, arg y ≠ a) h → hook_remove a h = Ok (tt, h)).
Proof.
  intros Ha. split_and!.
  - induction adds as [|x adds IH] using rev_ind; [done|].
    rewrite fold_left_app, fmap_app, rev_app_distr. simpl. by rewrite IH.
  - unfold hook_once. by rewrite hook_call_trace.
  - intros h1 x h2 -> Hx F. rewrite hook_remove_run by done. do 2 f_equal.
    induction F as [|y h1 Hy F IH]; simpl.
    + by rewrite (proj2 (ptr_eqb_true _ _) Hx).
    + by rewrite (proj2 (ptr_eqb_false _ _) Hy), IH.
  - intros F. rewrite hook_remove_run by done. do 2 f_equal.
    induction F as [|y h Hy F IH]; [done|]. simpl. by rewrite (proj2 (ptr_eqb_false _ _) Hy), IH.
Qed.

(** Two callbacks; the second, called first, adds a third, which is dropped. *)
Lemma hook_order_and_removal_witness :
  let call (x : Hookable) (s : list positive) :=
    (s ++ [func x], if decide (func x = 2%positive) then [mkHookable 3 (Some 9%positive)] else []) in
  hook_once call ([], [mkHookable 2 (Some 8%positive); mkHookable 1 (Some 7%positive)]) = ([2; 1]%positive, []).
Proof.
  intros call.
  apply (hook_order_and_removal (H := debug_config) call [] [] (Some 7%positive)
    [mkHookable 2 (Some 8%positive); mkHookable 1 (Some 7%positive)]). done.
Defined.
