(* ===== verification/Fiber.v ===== *)
(** * Fibers (libzth/fiber.h, src/fiber.cpp)

    The state of a [Fiber] and its life cycle.  The context switch itself
    (context_switch) and the creation of a context are code of other parts: the
    result of [context_create] is a parameter, and a switch is the outcome
    [Switch] of [run]. *)

From stdpp Require Import base gmap list.
From S2P Require Import Prelude Time Hook.

#[local] Arguments timeTo : simpl never.
#[local] Arguments add : simpl never.
#[local] Arguments ts_add : simpl never.
#[local] Arguments ti_lt : simpl never.

(** ** Data *)

Inductive State := Uninitialized | New | Ready | Running | Waiting | Suspended | Dead.

#[export] Instance State_eq_dec : EqDecision State.
Proof. solve_decision. Defined.

Definition state_eqb (a b : State) : bool := bool_decide (a = b).

(** [m_context] is only a flag here: whether a context was created. *)
Record Fiber := mkFiber {
  state : State; stateNext : State; stackSize : Z; context : bool; fls : ptr;
  totalTime : TimeInterval; startRun : Timestamp; stateEnd : Timestamp;
  timeslice : TimeInterval; dtMax : TimeInterval;
  exit_hook : Hook; cleanup_hook : Hook
}.

Definition EPERM : Z := 1.
Definition EAGAIN : Z := 11.
Definition ENOMEM : Z := 12.
Definition EBUSY : Z := 16.
Definition EINVAL : Z := 22.
Definition EALREADY : Z := 114.

Definition null_ts : Timestamp := mkTs 0 0.

(** ** Field updates *)
Definition with_state (st : State) (f : Fiber) : Fiber :=
  mkFiber st (stateNext f) (stackSize f) (context f) (fls f) (totalTime f) (startRun f) (stateEnd f)
    (timeslice f) (dtMax f) (exit_hook f) (cleanup_hook f).
Definition with_next (st : State) (f : Fiber) : Fiber :=
  mkFiber (state f) st (stackSize f) (context f) (fls f) (totalTime f) (startRun f) (stateEnd f)
    (timeslice f) (dtMax f) (exit_hook f) (cleanup_hook f).
Definition with_stack (sz : Z) (f : Fiber) : Fiber :=
  mkFiber (state f) (stateNext f) sz (context f) (fls f) (totalTime f) (startRun f) (stateEnd f)
    (timeslice f) (dtMax f) (exit_hook f) (cleanup_hook f).
Definition with_context (c : bool) (f : Fiber) : Fiber :=
  mkFiber (state f) (stateNext f) (stackSize f) c (fls f) (totalTime f) (startRun f) (stateEnd f)
    (timeslice f) (dtMax f) (exit_hook f) (cleanup_hook f).
Definition with_fls (p : ptr) (f : Fiber) : Fiber :=
  mkFiber (state f) (stateNext f) (stackSize f) (context f) p (totalTime f) (startRun f) (stateEnd f)
    (timeslice f) (dtMax f) (exit_hook f) (cleanup_hook f).
Definition with_total (t : TimeInterval) (f : Fiber) : Fiber :=
  mkFiber (state f) (stateNext f) (stackSize f) (context f) (fls f) t (startRun f) (stateEnd f)
    (timeslice f) (dtMax f) (exit_hook f) (cleanup_hook f).
Definition with_start (t : Timestamp) (f : Fiber) : Fiber :=
  mkFiber (state f) (stateNext f) (stackSize f) (context f) (fls f) (totalTime f) t (stateEnd f)
    (timeslice f) (dtMax f) (exit_hook f) (cleanup_hook f).
Definition with_end (t : Timestamp) (f : Fiber) : Fiber :=
  mkFiber (state f) (stateNext f) (stackSize f) (context f) (fls f) (totalTime f) (startRun f) t
    (timeslice f) (dtMax f) (exit_hook f) (cleanup_hook f).
Definition with_dtMax (t : TimeInterval) (f : Fiber) : Fiber :=
  mkFiber (state f) (stateNext f) (stackSize f) (context f) (fls f) (totalTime f) (startRun f) (stateEnd f)
    (timeslice f) t (exit_hook f) (cleanup_hook f).
Definition with_exit (h : Hook) (f : Fiber) : Fiber :=
  mkFiber (state f) (stateNext f) (stackSize f) (context f) (fls f) (totalTime f) (startRun f) (stateEnd f)
    (timeslice f) (dtMax f) h (cleanup_hook f).
Definition with_cleanup (h : Hook) (f : Fiber) : Fiber :=
  mkFiber (state f) (stateNext f) (stackSize f) (context f) (fls f) (totalTime f) (startRun f) (stateEnd f)
    (timeslice f) (dtMax f) (exit_hook f) h.

(** ** Operations of one fiber *)

(** Without the perf event and the dead hook. *)
Definition setState (st : State) (f : Fiber) : Fiber :=
  if state_eqb (state f) st then f else with_state st f.

(** The constructor; [MinTimeslice] and the default stack size are
    configuration. *)
Definition new_fiber (min_timeslice dt_max : TimeInterval) (default_stack : Z) : Fiber :=
  setState New (mkFiber Uninitialized Ready default_stack false nullptr null null_ts null_ts
                  min_timeslice dt_max [] []).

(** Returns the error code. *)
Definition setStackSize (size : Z) (f : Fiber) : Z * Fiber :=
  if negb (state_eqb (state f) New) then (EPERM, f) else (0%Z, with_stack size f).

Definition atExit (fn : positive) (a : ptr) (f : Fiber) : Fiber := with_exit (hook_add fn a (exit_hook f)) f.
Definition atCleanup (fn : positive) (a : ptr) (f : Fiber) : Fiber :=
  with_cleanup (hook_add fn a (cleanup_hook f)) f.

Definition kill (f : Fiber) : Fiber := if state_eqb (state f) Dead then f else setState Dead f.

(** [init]; [res] is what [context_create] returns. *)
Definition init `{Config} {S : Type} (res : Z) (now : Timestamp) (f : Fiber) : M S (Z * Fiber) :=
  if negb (state_eqb (state f) New) then mret (EPERM, f)
  else
    zth_assert (negb (context f));;
    if negb (res =? 0)%Z then mret (res, kill f)
    else
      let f := with_context true f in
      let f := setState (stateNext f) f in
      let f := with_next Ready f in
      mret (0%Z, with_start now f).

Definition allowYield (now : Timestamp) (f : Fiber) : bool :=
  negb (state_eqb (state f) Running) || isBefore (stateEnd f) now.

Definition nap (sleepUntil : Timestamp) (f : Fiber) : Fiber :=
  match state f with
  | New => with_end sleepUntil (with_next Waiting f)
  | Ready | Running => with_end sleepUntil (with_next Ready (setState Waiting f))
  | Suspended => with_end sleepUntil (with_next Waiting f)
  | Waiting | Uninitialized | Dead => f
  end.

Definition wakeup (f : Fiber) : Fiber :=
  if state_eqb (state f) Waiting then
    let f := setState (stateNext f) f in
    match state f with Suspended => with_next Ready f | _ => f end
  else if state_eqb (state f) Suspended && state_eqb (stateNext f) Waiting then with_next Ready f
  else f.

Definition suspend (f : Fiber) : Fiber :=
  match state f with
  | New => setState Suspended (with_next New f)
  | Running | Ready => setState Suspended (with_next Ready f)
  | Waiting => with_next Waiting f
  | Suspended | Uninitialized | Dead => f
  end.

Definition resume (f : Fiber) : Fiber :=
  if negb (state_eqb (state f) Suspended) then f
  else
    let f := setState (stateNext f) f in
    if state_eqb (state f) New then with_next Ready f else f.

(** The end of [fiberEntry_], after [m_entry] returned or threw: the exit hooks
    run, then the fiber dies.  The calls are returned, newest first. *)
Definition fiber_exit (f : Fiber) : list Hookable * Fiber := (exit_hook f, kill (with_exit [] f)).

(** The destructor. *)
Definition destruct_fiber `{Config} {S : Type} (f : Fiber) : M S (list Hookable * Fiber) :=
  let calls := exit_hook f ++ cleanup_hook f in
  let f := with_cleanup [] (with_exit [] f) in
  let f := if negb (state_eqb (state f) Uninitialized) && negb (state_eqb (state f) Dead) then kill f else f in
  let f := setState Uninitialized f in
  zth_assert (ptr_eqb (fls f) nullptr);;
  mret (calls, with_context false f).

(** ** [run], on the fibers of the program *)

Abbreviation Fibers := (gmap addr Fiber).

Inductive run_result :=
| Result (res : Z)      (** returned without a switch *)
| Switch.               (** [context_switch(from, this)]; returns 0 later *)

Section Run.
Context `{Config}.
(** What [context_create] returns for a fiber. *)
Context (context_create : addr → Z).
(** The threshold check's second look at the clock. *)
Context (later : Timestamp).

Definition get_fiber (a : addr) : M Fibers Fiber := λ s,
  match s !! a with Some f => Ok (f, s) | None => Fault NullDeref end.
Definition put_fiber (a : addr) (f : Fiber) : M Fibers unit := modify (λ s, <[a:=f]> s).

(** The case [Ready] of [run]. *)
Definition run_ready (this from : addr) (now : Timestamp) : M Fibers run_result :=
  zth_assert (bool_decide (from ≠ this));;
  ff ← get_fiber from;
  let dt := timeTo (startRun ff) now in
  let ff := with_total (add (totalTime ff) dt) ff in
  let ff := if state_eqb (state ff) Running then setState Ready ff else ff in
  let overrun := CheckTimesliceOverrun && ti_lt (dtMax ff) dt in
  let ff := if overrun then with_dtMax dt ff else ff in
  let now := if overrun then later else now in
  put_fiber from ff;;
  ft ← get_fiber this;
  let ft := setState Running (with_start now ft) in
  e ← ts_add now (timeslice ft);
  put_fiber this (with_end e ft);;
  mret Switch.

(** [run]: the [New] case initialises and looks again, at most once. *)
Definition run (this from : addr) (now : Timestamp) : M Fibers run_result :=
  f ← get_fiber this;
  '(res, f) ← (match state f with New => init (context_create this) now f | _ => mret (0%Z, f) end);
  put_fiber this f;;
  if negb (res =? 0)%Z then mret (Result res)
  else
    match state f with
    | Ready => run_ready this from now
    | Running => zth_assert (bool_decide (from = this));; mret (Result EAGAIN)
    | Dead => mret (Result EPERM)
    | New | Uninitialized | Waiting | Suspended => zth_assert false;; mret (Result EINVAL)
    end.
End Run.

(** ** [Runnable] (fiber.h, fiber.cpp)

    The runnable's fiber, whether the new fiber holds its clean-up hook, and the
    fibers handed to the worker. *)
Record RState := mkRS { r_fiber : ptr; r_hooked : bool; r_added : list addr }.

Definition set_r_fiber (p : ptr) : M RState unit := modify (λ r, mkRS p (r_hooked r) (r_added r)).
Definition set_r_hooked (b : bool) : M RState unit := modify (λ r, mkRS (r_fiber r) b (r_added r)).

(** [Runnable::fiberHook]. *)
Definition fiberHook (f : addr) : M RState (option Z) :=
  set_r_hooked true;; set_r_fiber (Some f);; mret (Some 0%Z).

(** [Runnable::cleanup_], the hook. *)
Definition runnable_cleanup `{Config} (f : addr) : M RState unit :=
  p ← gets r_fiber; zth_assert (ptr_eqb (Some f) p);; set_r_fiber nullptr.

(** [delete f]: the destructor of the fiber runs its clean-up hooks. *)
Definition delete_fiber `{Config} (f : addr) : M RState unit :=
  h ← gets r_hooked; when h (runnable_cleanup f);; set_r_hooked false.

(** [Runnable::run]; [f] is the fiber it allocates, [hook] the virtual
    [fiberHook], which throws when it returns [None], as [run] does then. *)
Definition runnable_run `{Config} (worker : bool) (f : addr) (hook : addr → M RState (option Z)) : M RState (option Z) :=
  if negb worker then mret (Some EAGAIN)
  else
    p ← gets r_fiber;
    if negb (ptr_eqb p nullptr) then mret (Some EALREADY)
    else
      res ← hook f;
      match res with
      | Some 0%Z => modify (λ r, mkRS (r_fiber r) (r_hooked r) (f :: r_added r));; mret (Some 0%Z)
      | _ => set_r_fiber nullptr;; delete_fiber f;; mret res
      end.

(** ** The life cycle *)

(** What [m_stateNext] and [m_context] can be in each state. *)
Definition fiber_inv (f : Fiber) : Prop :=
  match state f with
  | New => (stateNext f = Ready ∨ stateNext f = Waiting) ∧ context f = false
  | Ready | Running => stateNext f = Ready ∧ context f = true
  | Waiting => (stateNext f = Ready ∨ stateNext f = Waiting) ∧ context f = true
  | Suspended =>
      (stateNext f = New ∧ context f = false) ∨ (stateNext f = Ready ∧ context f = true)
  | Dead | Uninitialized => True
  end.

(** Case analysis on the state and the pending state of [f]. *)
Ltac fiber_cases f :=
  destruct f as [st nx ? c ? ? ? ? ? ? ? ?]; unfold fiber_inv in *; simpl in *;
  destruct st; simpl in *;
  repeat match goal with
    | H : _ ∨ _ |- _ => destruct H
    | H : _ ∧ _ |- _ => destruct H
    end; try done; subst; simpl in *; try done.

(** The operations that others call on a fiber. *)
Inductive fiber_op :=
| OpNap (until : Timestamp) | OpWakeup | OpSuspend | OpResume | OpKill | OpSetStack (size : Z)
| OpAtExit (fn : positive) (a : ptr) | OpAtCleanup (fn : positive) (a : ptr) | OpSetFls (p : ptr) | OpExit.

Definition run_fiber_op (op : fiber_op) (f : Fiber) : Fiber :=
  match op with
  | OpNap t => nap t f
  | OpWakeup => wakeup f
  | OpSuspend => suspend f
  | OpResume => resume f
  | OpKill => kill f
  | OpSetStack sz => snd (setStackSize sz f)
  | OpAtExit fn a => atExit fn a f
  | OpAtCleanup fn a => atCleanup fn a f
  | OpSetFls p => with_fls p f
  | OpExit => snd (fiber_exit f)
  end.

(** [nap] is for a fiber that is not suspended. *)
Definition legal_op (op : fiber_op) (f : Fiber) : Prop :=
  match op with OpNap _ => state f ≠ Suspended | _ => True end.

Lemma run_fiber_op_inv op f : legal_op op f → fiber_inv f → fiber_inv (run_fiber_op op f).
Proof. intros L I. destruct op; fiber_cases f; unfold fiber_inv; simpl; naive_solver. Qed.

Lemma init_run `{Config} {S} res now f (s : S) :
  fiber_inv f →
  init res now f s = Ok (
    if state_eqb (state f) New then
      if (res =? 0)%Z then (0%Z, with_start now (with_next Ready (setState (stateNext f) (with_context true f))))
      else (res, with_state Dead f)
    else (EPERM, f), s).
Proof.
  intros I. unfold init. destruct (state_eqb (state f) New) eqn:E; [|done]. simpl.
  apply bool_decide_eq_true in E. unfold fiber_inv in I. rewrite E in I. destruct I as [_ I].
  erewrite bind_Ok by (apply zth_assert_true; by rewrite I).
  destruct f; simpl in E; subst. by destruct (res =? 0)%Z.
Qed.

Lemma get_fiber_run a (s : Fibers) f : s !! a = Some f → get_fiber a s = Ok (f, s).
Proof. unfold get_fiber. by intros ->. Qed.

Lemma put_fiber_run a f (s : Fibers) : put_fiber a f s = Ok (tt, <[a:=f]> s).
Proof. done. Qed.

Lemma run_ready_run `{Config} later this from now (s : Fibers) f ff e :
  from ≠ this → s !! this = Some f → s !! from = Some ff →
  (∀ st : Fibers, ts_add (if CheckTimesliceOverrun && ti_lt (dtMax ff) (timeTo (startRun ff) now) then later else now)
     (timeslice f) st = Ok (e, st)) →
  ∃ f' ff', run_ready later this from now s = Ok (Switch, <[this:=f']> (<[from:=ff']> s)) ∧
    state f' = Running ∧ stateNext f' = stateNext f ∧ context f' = context f ∧ stateEnd f' = e ∧
    timeslice f' = timeslice f ∧
    state ff' = (if state_eqb (state ff) Running then Ready else state ff) ∧
    stateNext ff' = stateNext ff ∧ context ff' = context ff ∧ timeslice ff' = timeslice ff ∧
    totalTime ff' = add (totalTime ff) (timeTo (startRun ff) now).
Proof.
  intros Hne Ef Eff Ets. unfold run_ready.
  erewrite bind_Ok by by apply zth_assert_true, bool_decide_eq_true.
  rewrite (bind_Ok _ _ _ _ _ (get_fiber_run from s ff Eff)).
  set (ff1 := if state_eqb (state (with_total _ ff)) Running then _ else _).
  assert (dtMax ff1 = dtMax ff) as Ed by (subst ff1; by destruct ff as [[]]).
  rewrite Ed. set (ff2 := if CheckTimesliceOverrun && _ then with_dtMax _ ff1 else ff1).
  rewrite (bind_Ok _ _ _ _ _ (put_fiber_run _ _ _)).
  erewrite bind_Ok by (apply get_fiber_run; by rewrite lookup_insert_ne).
  erewrite bind_Ok by (by destruct f as [[]]; apply Ets).
  rewrite (bind_Ok _ _ _ _ _ (put_fiber_run _ _ _)).
  exists (with_end e (setState Running (with_start (if CheckTimesliceOverrun && ti_lt (dtMax ff) (timeTo (startRun ff) now)
    then later else now) f))), ff2.
  split; [done|]. destruct f as [[]], ff as [[]]; subst ff2 ff1; simpl;
    repeat case_match; split_and!; done.
Qed.

Lemma run_dead `{Config} ctx later this from now (s : Fibers) f :
  s !! this = Some f → state f = Dead → run ctx later this from now s = Ok (Result EPERM, s).
Proof.
  intros Ef D. unfold run. rewrite (bind_Ok _ _ _ _ _ (get_fiber_run this s f Ef)), D.
  unfold mret, M_ret, mbind, M_bind, put_fiber, modify. simpl. by rewrite D, insert_id.
Qed.

Lemma run_running `{Config} ctx later this now (s : Fibers) f :
  s !! this = Some f → state f = Running → run ctx later this this now s = Ok (Result EAGAIN, s).
Proof.
  intros Ef R. unfold run. rewrite (bind_Ok _ _ _ _ _ (get_fiber_run this s f Ef)), R.
  unfold mret, M_ret, mbind, M_bind, put_fiber, modify. simpl. rewrite R, insert_id by done.
  by rewrite bool_decide_true, zth_assert_true.
Qed.

Lemma run_self_ready `{Config} ctx later this now (s : Fibers) f :
  EnableAssert = true → s !! this = Some f → state f = Ready →
  run ctx later this this now s = Fault AssertFailed.
Proof.
  intros A Ef R. unfold run. rewrite (bind_Ok _ _ _ _ _ (get_fiber_run this s f Ef)), R.
  erewrite bind_Ok by reflexivity. simpl. erewrite bind_Ok by reflexivity. rewrite R.
  unfold run_ready. apply bind_Fault, zth_assert_false; [done|].
  apply bool_decide_eq_false_2. intros N. by apply N.
Qed.

Lemma run_switch `{Config} ctx later this from now (s : Fibers) f ff e :
  s !! this = Some f → fiber_inv f → s !! from = Some ff → from ≠ this →
  (∀ st : Fibers, ts_add (if CheckTimesliceOverrun && ti_lt (dtMax ff) (timeTo (startRun ff) now) then later else now)
     (timeslice f) st = Ok (e, st)) →
  state f = Ready ∨ (state f = New ∧ (ctx this =? 0)%Z = true ∧ stateNext f = Ready) →
  ∃ f' ff', run ctx later this from now s = Ok (Switch, <[this:=f']> (<[from:=ff']> s)) ∧
    state f' = Running ∧ stateNext f' = Ready ∧ context f' = true ∧ stateEnd f' = e ∧ timeslice f' = timeslice f ∧
    state ff' = (if state_eqb (state ff) Running then Ready else state ff) ∧
    stateNext ff' = stateNext ff ∧ context ff' = context ff ∧ timeslice ff' = timeslice ff ∧
    totalTime ff' = add (totalTime ff) (timeTo (startRun ff) now).
Proof.
  intros Ef I Eff Hne Ets R. unfold run. rewrite (bind_Ok _ _ _ _ _ (get_fiber_run this s f Ef)).
  destruct R as [R|(N & C & X)].
  - rewrite R. erewrite bind_Ok by reflexivity. simpl. erewrite bind_Ok by reflexivity. rewrite R, insert_id by done.
    destruct (run_ready_run later this from now s f ff e) as (f' & ff' & Q); [done..|].
    unfold fiber_inv in I. rewrite R in I. destruct I as [I1 I2]. exists f', ff'.
    destruct Q as (Q1 & Q2 & Q3 & Q4 & Q5 & Q6 & Q7 & Q8 & Q9 & Q10 & Q11). split_and!; congruence.
  - rewrite N. rewrite (bind_Ok _ _ _ _ _ (init_run (ctx this) now f s I)), N, C, X. cbn.
    destruct (run_ready_run later this from now
      (<[this:=with_start now (with_next Ready (setState Ready (with_context true f)))]> s)
      (with_start now (with_next Ready (setState Ready (with_context true f)))) ff e) as (f' & ff' & Q & Q');
      [done|by rewrite lookup_insert_eq|by rewrite lookup_insert_ne|by destruct f as [[]]|].
    exists f', ff'. rewrite insert_insert_ne, insert_insert_eq, insert_insert_ne in Q by done.
    destruct Q' as (Q2 & Q3 & Q4 & Q5 & Q6 & Q7 & Q8 & Q9 & Q10 & Q11).
    destruct f; simpl in N, X; subst. split_and!; first [exact Q|done|congruence].
Qed.

(** ** The lives of the fibers of a program

    What a fiber can be for its program, with what state, pending state and context
    together say. *)
Inductive life :=
| Created              (** not yet run *)
| CreatedAsleep        (** put to sleep before its first run *)
| CanRun | Runs
| Sleeps               (** until it is woken *)
| SleepsOn             (** suspended while it slept: it is not woken anymore *)
| PausedCreated | Paused  (** suspended, before and after its first run *)
| Ended.

#[export] Instance life_eq_dec : EqDecision life.
Proof. solve_decision. Defined.

Definition life_of (f : Fiber) : option life :=
  match state f, stateNext f, context f with
  | New, Ready, false => Some Created
  | New, Waiting, false => Some CreatedAsleep
  | Ready, Ready, true => Some CanRun
  | Running, Ready, true => Some Runs
  | Waiting, Ready, true => Some Sleeps
  | Waiting, Waiting, true => Some SleepsOn
  | Suspended, New, false => Some PausedCreated
  | Suspended, Ready, true => Some Paused
  | Dead, _, _ => Some Ended
  | _, _, _ => None
  end.

(** The life cycle. *)
Definition life_op (op : fiber_op) (l : life) : life :=
  match op, l with
  | OpNap _, Created => CreatedAsleep
  | OpNap _, (CanRun | Runs) => Sleeps
  | OpWakeup, Sleeps => CanRun
  | OpSuspend, (Created | CreatedAsleep) => PausedCreated
  | OpSuspend, (CanRun | Runs) => Paused
  | OpSuspend, Sleeps => SleepsOn
  | OpResume, PausedCreated => Created
  | OpResume, Paused => CanRun
  | (OpKill | OpExit), _ => Ended
  | _, _ => l
  end.

(** All fibers of a worker, and the one that has the processor. *)
Record Lives (A : Type) := mkLives { alive : gmap addr A; current : addr }.
Arguments mkLives {A}.
Arguments alive {A}.
Arguments current {A}.

(** A fiber is made; a function of it is called, by whom it may be; the worker calls its
    [run], with what [context_create] returns if it gets that far; it is deleted. *)
Inductive life_event :=
| Makes (a : addr) (slice dt : TimeInterval) (stack : Z)
| Does (a : addr) (op : fiber_op)
| RunsIt (this : addr) (res : Z) (now later : Timestamp)
| Deletes (a : addr).

Definition life_at (a : addr) (s : Lives Fiber) : option life := alive s !! a ≫= life_of.

(** Fibers are not put to sleep while they are suspended; the worker runs the current fiber
    again, or another one that can run; the current fiber is not deleted. *)
Definition life_enabled (e : life_event) (s : Lives Fiber) : bool :=
  match e with
  | Makes a _ _ _ => bool_decide (alive s !! a = None)
  | Does a op =>
      match life_at a s, op with
      | Some (PausedCreated | Paused), OpNap _ => false
      | l, _ => bool_decide (is_Some l)
      end
  | RunsIt a _ _ _ =>
      match life_at a s with
      | Some (Created | CanRun) => negb (bool_decide (current s = a))
      | Some Runs => bool_decide (current s = a)
      | Some Ended => true
      | _ => false
      end
  | Deletes a =>
      match alive s !! a with Some f => ptr_eqb (fls f) nullptr && negb (bool_decide (current s = a)) | None => false end
  end.

Definition on_fibers {A} (m : M Fibers A) : M (Lives Fiber) A := λ s,
  match m (alive s) with Ok (x, fs) => Ok (x, mkLives fs (current s)) | Fault e => Fault e end.

Definition life_step `{Config} (e : life_event) : M (Lives Fiber) unit :=
  match e with
  | Makes a slice dt stack => on_fibers (put_fiber a (new_fiber slice dt stack))
  | Does a op => on_fibers (f ← get_fiber a; put_fiber a (run_fiber_op op f))
  | RunsIt this res now later =>
      from ← gets current;
      r ← on_fibers (run (λ _, res) later this from now);
      match r with Switch => modify (λ s, mkLives (alive s) this) | Result _ => mret tt end
  | Deletes a => on_fibers (f ← get_fiber a; destruct_fiber f;; modify (delete a))
  end.

(** The same, of the lives only. *)
Definition switch_lives (this : addr) (s : Lives life) : Lives life :=
  mkLives (<[this:=Runs]> (alter (λ l, match l with Runs => CanRun | _ => l end) (current s) (alive s))) this.

Definition lives_step (e : life_event) (s : Lives life) : Lives life :=
  match e with
  | Makes a _ _ _ => mkLives (<[a:=Created]> (alive s)) (current s)
  | Does a op => mkLives (alter (life_op op) a (alive s)) (current s)
  | RunsIt a res _ _ =>
      match alive s !! a with
      | Some Created => if (res =? 0)%Z then switch_lives a s else mkLives (<[a:=Ended]> (alive s)) (current s)
      | Some CanRun => switch_lives a s
      | _ => s
      end
  | Deletes a => mkLives (delete a (alive s)) (current s)
  end.

Definition lives_of (s : Lives Fiber) : Lives life := mkLives (omap life_of (alive s)) (current s).

Definition good_event (e : life_event) : Prop :=
  match e with
  | Makes _ slice _ _ => good_slice slice
  | RunsIt _ _ now later => good_now now ∧ good_now later
  | _ => True
  end.

(** Every fiber has a life, and the only one that can run right now is the current one. *)
Record lives_inv (s : Lives Fiber) : Prop := {
  li_all a f : alive s !! a = Some f → is_Some (life_of f) ∧ good_slice (timeslice f);
  li_runs a f : alive s !! a = Some f → life_of f = Some Runs → a = current s;
  li_current : is_Some (alive s !! current s)
}.

Lemma life_of_inv f l : life_of f = Some l → fiber_inv f.
Proof. destruct f as [[] [] ? [] ? ? ? ? ? ? ? ?]; cbn; try done; intros; tauto. Qed.

Lemma life_op_ok op f l :
  life_of f = Some l → legal_op op f → life_of (run_fiber_op op f) = Some (life_op op l) ∧ timeslice (run_fiber_op op f) = timeslice f.
Proof.
  intros E L. destruct f as [[] [] ? [] ? ? ? ? ? ? ? ?]; cbn in E; simplify_eq; destruct op; cbn in *; try done;
    unfold setStackSize; cbn; done.
Qed.

Lemma life_op_runs op l : life_op op l = Runs → l = Runs.
Proof. by destruct op, l. Qed.

Lemma life_at_alive a s l : life_at a s = Some l → ∃ f, alive s !! a = Some f ∧ life_of f = Some l.
Proof. unfold life_at. intros (f & E & Ef)%bind_Some. eauto. Qed.

(** One fiber changes. *)
Lemma lives_put s a f l :
  lives_inv s → life_of f = Some l → good_slice (timeslice f) → (l = Runs → a = current s) →
  lives_inv (mkLives (<[a:=f]> (alive s)) (current s)) ∧
  lives_of (mkLives (<[a:=f]> (alive s)) (current s)) = mkLives (<[a:=l]> (omap life_of (alive s))) (current s).
Proof.
  intros [A R C] E Sl Hr. split.
  - split; cbn.
    + intros b g [[<- <-]|[_ Eb]]%lookup_insert_Some; [by split; [rewrite E|]|by apply (A b)].
    + intros b g [[<- <-]|[_ Eb]]%lookup_insert_Some Rg; [apply Hr; congruence|by apply (R b g)].
    + destruct (decide (a = current s)) as [<-|N]; [by rewrite lookup_insert_eq|by rewrite lookup_insert_ne].
  - unfold lives_of. cbn. f_equal. by apply omap_insert_Some.
Qed.

(** The processor goes to another fiber. *)
Lemma lives_switch s this f' ff ff' :
  lives_inv s → current s ≠ this → alive s !! current s = Some ff →
  state f' = Running → stateNext f' = Ready → context f' = true → good_slice (timeslice f') →
  state ff' = (if state_eqb (state ff) Running then Ready else state ff) → stateNext ff' = stateNext ff →
  context ff' = context ff → timeslice ff' = timeslice ff →
  let s' := mkLives (<[this:=f']> (<[current s:=ff']> (alive s))) this in
  lives_inv s' ∧ lives_of s' = switch_lives this (lives_of s).
Proof.
  intros [A R C] Hne Ef S1 S2 S3 S4 T1 T2 T3 T4 s'. destruct (A _ _ Ef) as [[l El] Sl].
  assert (life_of f' = Some Runs) as E' by (unfold life_of; by rewrite S1, S2, S3).
  assert (life_of ff' = Some (match l with Runs => CanRun | _ => l end)) as Ef'.
  { revert El. unfold life_of. rewrite T1, T2, T3. destruct (state ff), (stateNext ff), (context ff); cbn; intros; by simplify_eq. }
  split.
  - split; cbn.
    + intros b g [[<- <-]|[_ [[<- <-]|[_ Eb]]%lookup_insert_Some]]%lookup_insert_Some;
        [by split; [rewrite E'|]|split; [by rewrite Ef'|by rewrite T4]|by apply (A b)].
    + intros b g [[<- <-]|[Nb [[<- <-]|[Nb' Eb]]%lookup_insert_Some]]%lookup_insert_Some Rg; [done| |].
      * rewrite Ef' in Rg. by destruct l.
      * destruct Nb'. symmetry. by apply (R b g).
    + by rewrite lookup_insert_eq.
  - unfold lives_of, switch_lives. cbn. f_equal. rewrite (omap_insert_Some _ _ _ _ Runs) by done. f_equal.
    rewrite (omap_insert_Some _ _ _ _ _ Ef'). apply map_eq. intros b. destruct (decide (b = current s)) as [->|N].
    + by rewrite lookup_insert_eq, lookup_alter_eq, lookup_omap, Ef; cbn; rewrite El.
    + by rewrite lookup_insert_ne, lookup_alter_ne by done.
Qed.

Lemma on_fibers_run {A} (m : M Fibers A) s x fs : m (alive s) = Ok (x, fs) → on_fibers m s = Ok (x, mkLives fs (current s)).
Proof. unfold on_fibers. by intros ->. Qed.

Lemma run_lives `{Config} this res now later s :
  lives_inv s → good_now now → good_now later → life_enabled (RunsIt this res now later) s = true →
  ∃ s', life_step (RunsIt this res now later) s = Ok (tt, s') ∧ lives_inv s' ∧
    lives_of s' = lives_step (RunsIt this res now later) (lives_of s).
Proof.
  intros I Gn Gl En. simpl in En. destruct (life_at this s) as [l|] eqn:El; [|done].
  apply life_at_alive in El as (f & Ef & El). pose proof (life_of_inv f l El) as Fi.
  destruct (li_current _ I) as [ff Eff]. destruct (li_all _ I this f Ef) as [_ Sl].
  unfold life_step. cbn [gets]. erewrite bind_Ok by reflexivity. unfold lives_step. cbn [alive lives_of]. rewrite lookup_omap, Ef. cbn [mbind option_bind]. rewrite El.
  assert (∀ r, run (λ _, res) later this (current s) now (alive s) = Ok (Result r, alive s) →
    (r' ← on_fibers (run (λ _, res) later this (current s) now);
      match r' with Switch => modify (λ s, mkLives (alive s) this) | Result _ => mret tt end) s = Ok (tt, s)) as Stay.
  { intros r R. erewrite bind_Ok by (by apply on_fibers_run). by destruct s. }
  assert (current s ≠ this → (state f = Ready ∨ (state f = New ∧ (res =? 0)%Z = true ∧ stateNext f = Ready)) →
    ∃ s', (r' ← on_fibers (run (λ _, res) later this (current s) now);
      match r' with Switch => modify (λ s, mkLives (alive s) this) | Result _ => mret tt end) s = Ok (tt, s') ∧ lives_inv s' ∧
      lives_of s' = switch_lives this (lives_of s)) as Go.
  { intros Hne Hr. destruct (good_sum (if CheckTimesliceOverrun && ti_lt (dtMax ff) (timeTo (startRun ff) now) then later else now)
      (timeslice f) (alive s)) as [e He]; [by destruct (_ && _)|done|].
    destruct (run_switch (λ _, res) later this (current s) now (alive s) f ff e Ef Fi Eff Hne He Hr)
      as (f' & ff' & Q & S1 & S2 & S3 & _ & S5 & T1 & T2 & T3 & T4 & _).
    destruct (lives_switch s this f' ff ff') as [I' E']; try done; [by rewrite S5|].
    eexists. erewrite bind_Ok by (by apply on_fibers_run). split; [reflexivity|]. by split. }
  destruct l; try done; try (apply negb_true_iff, bool_decide_eq_false in En); try apply bool_decide_eq_true in En.
  - assert (state f = New ∧ stateNext f = Ready) as [N X].
    { revert El. unfold life_of. destruct (state f), (stateNext f), (context f); by intros [=]. }
    destruct (res =? 0)%Z eqn:Er; [apply Go; [done|by right]|].
    destruct (lives_put s this (with_state Dead f) Ended I eq_refl) as [I' E']; [done|done|].
    destruct (good_sum (if CheckTimesliceOverrun && ti_lt (dtMax ff) (timeTo (startRun ff) now) then later else now)
      (timeslice f) (alive s)) as [e He]; [by destruct (_ && _)|done|].
    assert (run (λ _, res) later this (current s) now (alive s) = Ok (Result res, <[this:=with_state Dead f]> (alive s))) as R.
    { unfold run. rewrite (bind_Ok _ _ _ _ _ (get_fiber_run this _ f Ef)), N. rewrite (bind_Ok _ _ _ _ _ (init_run res now f _ Fi)), N, Er.
      unfold mret, M_ret, mbind, M_bind, put_fiber, modify. simpl. by rewrite Er. }
    eexists. erewrite bind_Ok by (by apply on_fibers_run). split; [reflexivity|]. split; [exact I'|exact E'].
  - apply Go; [done|]. left. revert El. unfold life_of. destruct (state f), (stateNext f), (context f); by intros [=].
  - exists s. split; [|done]. apply (Stay EAGAIN). rewrite En. apply (run_running _ _ _ _ _ f); [done|].
    revert El. unfold life_of. destruct (state f), (stateNext f), (context f); by intros [=].
  - exists s. split; [|done]. apply (Stay EPERM). apply (run_dead _ _ _ _ _ _ f); [done|].
    revert El. unfold life_of. destruct (state f), (stateNext f), (context f); by intros [=].
Qed.

Lemma does_lives `{Config} a op s :
  lives_inv s → life_enabled (Does a op) s = true →
  ∃ s', life_step (Does a op) s = Ok (tt, s') ∧ lives_inv s' ∧ lives_of s' = lives_step (Does a op) (lives_of s).
Proof.
  intros I En. assert (∃ l, life_at a s = Some l ∧ (∀ t, op = OpNap t → l ≠ PausedCreated ∧ l ≠ Paused)) as (l & El & Np).
  { simpl in En. destruct (life_at a s) as [l|]; [|done].
    exists l. split; [done|]. intros t ->. by destruct l. }
  apply life_at_alive in El as (f & Ef & El). destruct (life_op_ok op f l El) as [E' Sl].
  { destruct op; try done. intros Q. revert El. unfold life_of. rewrite Q. destruct (Np _ eq_refl). destruct (stateNext f), (context f); congruence. }
  destruct (lives_put s a (run_fiber_op op f) (life_op op l) I E') as [I' Eq]; [rewrite Sl; by apply (li_all _ I a)| |].
  { intros Q%life_op_runs. subst l. by apply (li_runs _ I a f). }
  eexists. split.
  - unfold life_step. apply on_fibers_run. by rewrite (bind_Ok _ _ _ _ _ (get_fiber_run a _ f Ef)).
  - split; [exact I'|]. rewrite Eq. unfold lives_step, lives_of. cbn. f_equal. apply map_eq. intros b.
    destruct (decide (b = a)) as [->|N]; [|by rewrite lookup_insert_ne, lookup_alter_ne by done].
    rewrite lookup_insert_eq, lookup_alter_eq, lookup_omap, Ef. cbn. by rewrite El.
Qed.

Lemma deletes_lives `{Config} a s :
  lives_inv s → life_enabled (Deletes a) s = true →
  ∃ s', life_step (Deletes a) s = Ok (tt, s') ∧ lives_inv s' ∧ lives_of s' = lives_step (Deletes a) (lives_of s).
Proof.
  intros I En. simpl in En. destruct (alive s !! a) as [f|] eqn:Ef; [|done]. apply andb_true_iff in En as [Fl Nc].
  apply negb_true_iff, bool_decide_eq_false in Nc. exists (mkLives (delete a (alive s)) (current s)). split_and!.
  - unfold life_step. apply on_fibers_run. rewrite (bind_Ok _ _ _ _ _ (get_fiber_run a _ f Ef)).
    unfold destruct_fiber. rewrite bind_assoc. erewrite bind_Ok; [reflexivity|]. apply zth_assert_true.
    destruct f as [[] ? ? ? ? ? ? ? ? ? ? ?]; exact Fl.
  - destruct I as [A R C]. split; cbn.
    + intros b g [_ Eb]%lookup_delete_Some. by apply (A b).
    + intros b g [_ Eb]%lookup_delete_Some. by apply R.
    + by rewrite lookup_delete_ne.
  - unfold lives_of. cbn. f_equal. apply omap_delete.
Qed.

Lemma life_step_run `{Config} e s :
  good_event e → lives_inv s → life_enabled e s = true →
  ∃ s', life_step e s = Ok (tt, s') ∧ lives_inv s' ∧ lives_of s' = lives_step e (lives_of s).
Proof.
  intros Ge I En. destruct e as [a slice dt stack|a op|this res now later|a].
  - destruct (lives_put s a (new_fiber slice dt stack) Created I) as [I' Eq]; [done..|]. by eexists.
  - by apply does_lives.
  - destruct Ge. by apply run_lives.
  - by apply deletes_lives.
Qed.

Lemma lives_run `{Config} ls s :
  lives_inv s → Forall good_event ls → Runs.legal life_enabled life_step ls s →
  ∃ s', Runs.run life_step ls s = Ok (tt, s') ∧ lives_inv s' ∧ lives_of s' = foldl (λ s e, lives_step e s) (lives_of s) ls.
Proof.
  revert s. induction ls as [|e ls IH]; intros s I; [by exists s|]. intros [Ge Gs]%Forall_cons [En Lg].
  destruct (life_step_run e s Ge I En) as (s1 & R & I1 & E1). rewrite R in Lg.
  destruct (IH s1 I1 Gs Lg) as (s2 & R2 & I2 & E2). exists s2. simpl. rewrite (bind_Ok _ _ _ _ _ R), <-E1. by split_and!.
Qed.

Lemma ended_forever `{Config} e a s s' :
  lives_inv s → good_event e → life_enabled e s = true → e ≠ Deletes a → life_at a s = Some Ended →
  life_step e s = Ok (tt, s') → life_at a s' = Some Ended.
Proof.
  intros I Ge En Ne El R. destruct (life_step_run e s Ge I En) as (s1 & R1 & I1 & E1).
  rewrite R in R1. injection R1 as <-.
  replace (life_at a s') with (alive (lives_of s') !! a) by (unfold lives_of; cbn; by rewrite lookup_omap). rewrite E1. clear E1 R.
  pose proof El as (f & Ef & Elf)%life_at_alive.
  assert (omap life_of (alive s) !! a = Some Ended) as Q by (rewrite lookup_omap, Ef; exact Elf).
  destruct e as [b slice dt stack|b op|this res now later|b]; cbn.
  - simpl in En. apply bool_decide_eq_true in En. rewrite lookup_insert_ne; [done|congruence].
  - destruct (decide (b = a)) as [->|N]; [|by rewrite lookup_alter_ne]. rewrite lookup_alter_eq, Q. by destruct op.
  - assert (this ≠ a ∨ omap life_of (alive s) !! this = Some Ended) as [N|N] by (destruct (decide (this = a)) as [->|]; auto); [|by rewrite N].
    destruct (omap life_of (alive s) !! this) as [[]|]; try done; unfold switch_lives; cbn; [destruct (res =? 0)%Z; cbn|];
      rewrite lookup_insert_ne by done; try done;
      (destruct (decide (current s = a)) as [->|]; [by rewrite lookup_alter_eq, Q|by rewrite lookup_alter_ne]).
  - rewrite lookup_delete_ne; [done|congruence].
Qed.

(** ** Properties *)

(** C14: in every program of any number of fibers that are made, put to sleep, woken,
    suspended, resumed, killed, run and deleted in any order, every fiber goes through the
    life cycle [lives_step], whatever its state is; no assertion fails.  At most one fiber
    runs, the current one, and a fiber that has ended stays so until it is deleted.  This
    needs that no fiber is put to sleep while it is suspended, and that the worker only
    runs a fiber that can run, that has ended, or the current one while it runs. *)
Theorem fiber_lifecycle `{Config} c f0 ls :
  life_of f0 = Some CanRun → good_slice (timeslice f0) → Forall good_event ls →
  Runs.legal life_enabled life_step ls (mkLives {[c := f0]} c) →
  ∃ s, Runs.run life_step ls (mkLives {[c := f0]} c) = Ok (tt, s) ∧
    lives_of s = foldl (λ s e, lives_step e s) (mkLives {[c := CanRun]} c) ls ∧
    (∀ a f, alive s !! a = Some f → is_Some (life_of f)) ∧
    (∀ a, life_at a s = Some Runs → a = current s) ∧
    (∀ e a s', good_event e → life_enabled e s = true → e ≠ Deletes a → life_at a s = Some Ended →
       life_step e s = Ok (tt, s') → life_at a s' = Some Ended).
Proof.
  intros El Sl Ge Lg. assert (lives_inv (mkLives {[c := f0]} c)) as I.
  { split; cbn; [|by intros a f [-> <-]%lookup_singleton_Some|by rewrite lookup_singleton_eq].
    intros a f [<- <-]%lookup_singleton_Some. by rewrite El. }
  destruct (lives_run ls _ I Ge Lg) as (s & R & I' & E). exists s. split_and!; [done| | | |].
  - rewrite E. f_equal. unfold lives_of. cbn. f_equal. by apply omap_singleton_Some.
  - intros a f Ef. by apply (li_all _ I' a).
  - intros a (f & Ef & Ef')%life_at_alive. by apply (li_runs _ I' a f).
  - intros e a s' G En Ne Ea R'. by apply (ended_forever e a s s').
Qed.

(** C15: suspending and resuming a fiber that can run gives back the fiber (a
    running one is ready afterwards), and sleeping and waking up makes it ready,
    also when it was put to sleep and woken up while suspended.  But a fiber
    that is suspended while it waits, or that is resumed when it still sleeps,
    ignores every later wake-up; and one that is suspended before its first run
    and then sleeps and wakes up becomes ready without ever having got a
    context. *)
Theorem fiber_suspend_resume t f :
  fiber_inv f →
  (state f = New → stateNext f = Ready → resume (suspend f) = f) ∧
  (state f = Ready → resume (suspend f) = f) ∧
  (state f = Running → resume (suspend f) = with_state Ready f) ∧
  (state f = Ready ∨ state f = Running → state (nap t f) = Waiting ∧ state (wakeup (nap t f)) = Ready) ∧
  (state f = Ready ∨ state f = Running → state (resume (wakeup (nap t (suspend f)))) = Ready) ∧
  (state f = Waiting → state (suspend f) = Waiting ∧ wakeup (suspend f) = suspend f) ∧
  (state f = Suspended → state (resume (nap t f)) = Waiting ∧ wakeup (resume (nap t f)) = resume (nap t f)) ∧
  (state f = New → state (resume (wakeup (nap t (suspend f)))) = Ready ∧
     context (resume (wakeup (nap t (suspend f)))) = false).
Proof.
  intros I. split_and!; fiber_cases f; intros; simplify_eq; try done;
    try (repeat match goal with H : _ ∨ _ |- _ => destruct H end; simplify_eq; done).
Qed.

(** The outcome of [run] in every state.  A new fiber is initialised once
    and then treated as ready; one that was put to sleep before it started
    fails the assertion that its state is runnable ([EINVAL] without
    assertions). *)
Theorem fiber_run_outcomes `{Config} ctx later this from now (s : Fibers) f ff e :
  s !! this = Some f → fiber_inv f → s !! from = Some ff →
  (∀ st : Fibers, ts_add (if CheckTimesliceOverrun && ti_lt (dtMax ff) (timeTo (startRun ff) now) then later else now)
     (timeslice f) st = Ok (e, st)) →
  (state f = Dead → run ctx later this from now s = Ok (Result EPERM, s)) ∧
  (state f = Running → from = this → run ctx later this from now s = Ok (Result EAGAIN, s)) ∧
  (state f = Waiting ∨ state f = Suspended →
     run ctx later this from now s = if EnableAssert then Fault AssertFailed else Ok (Result EINVAL, s)) ∧
  (state f = New → (ctx this =? 0)%Z = false →
     run ctx later this from now s = Ok (Result (ctx this), <[this:=with_state Dead f]> s)) ∧
  (state f = New → (ctx this =? 0)%Z = true → stateNext f = Waiting → ∃ s',
     run ctx later this from now s = if EnableAssert then Fault AssertFailed else Ok (Result EINVAL, s')) ∧
  (from ≠ this → state f = Ready ∨ (state f = New ∧ (ctx this =? 0)%Z = true ∧ stateNext f = Ready) →
     ∃ f' ff', run ctx later this from now s = Ok (Switch, <[this:=f']> (<[from:=ff']> s)) ∧
       state f' = Running ∧ stateNext f' = Ready ∧ context f' = true ∧ stateEnd f' = e ∧
       state ff' = (if state_eqb (state ff) Running then Ready else state ff) ∧
       stateNext ff' = stateNext ff ∧ context ff' = context ff ∧
       totalTime ff' = add (totalTime ff) (timeTo (startRun ff) now)).
Proof.
  intros Ef I Eff Ets.
  pose proof (get_fiber_run this s f Ef) as Eg. split_and!.
  - by apply run_dead.
  - intros R ->. by apply (run_running _ _ _ _ _ f).
  - intros W. unfold run. rewrite (bind_Ok _ _ _ _ _ Eg). destruct W as [W|W]; rewrite W; unfold mret, M_ret, mbind, M_bind, put_fiber, modify; simpl;
      rewrite W, insert_id by done; unfold zth_assert; by destruct EnableAssert.
  - intros N C. unfold run. rewrite (bind_Ok _ _ _ _ _ Eg), N. rewrite (bind_Ok _ _ _ _ _ (init_run (ctx this) now f s I)), N, C. simpl.
    unfold mret, M_ret, mbind, M_bind, put_fiber, modify. simpl. by rewrite C.
  - intros N C X. unfold run. rewrite (bind_Ok _ _ _ _ _ Eg), N. rewrite (bind_Ok _ _ _ _ _ (init_run (ctx this) now f s I)), N, C, X. simpl.
    unfold mret, M_ret, mbind, M_bind, put_fiber, modify. simpl.
    destruct f; simpl in *; subst. simpl. unfold zth_assert. destruct EnableAssert; eauto.
  - intros Hne R. destruct (run_switch ctx later this from now s f ff e) as (f' & ff' & Q); [done..|].
    exists f', ff'. destruct Q as (Q1 & Q2 & Q3 & Q4 & Q5 & Q6 & Q7 & Q8 & Q9 & Q10 & Q11). split_and!; done.
Qed.

(** C17: [Runnable::run] starts one fiber at a time: it reports a missing
    worker and a fiber that still runs, and otherwise registers the fiber's
    clean-up and hands it to the worker.  When [fiberHook] fails or throws
    before it has called the base class, all is rolled back; when it does so
    afterwards, deleting the fiber fails the assertion of the clean-up hook. *)
Theorem runnable_run_spec `{Config} f g hook res added :
  runnable_run false f hook (mkRS nullptr false added) = Ok (Some EAGAIN, mkRS nullptr false added) ∧
  runnable_run true f fiberHook (mkRS nullptr false added) = Ok (Some 0%Z, mkRS (Some f) true (f :: added)) ∧
  runnable_run true f hook (mkRS (Some g) true added) = Ok (Some EALREADY, mkRS (Some g) true added) ∧
  (res ≠ Some 0%Z → hook f (mkRS nullptr false added) = Ok (res, mkRS nullptr false added) →
   runnable_run true f hook (mkRS nullptr false added) = Ok (res, mkRS nullptr false added)) ∧
  (res ≠ Some 0%Z → hook f (mkRS nullptr false added) = Ok (res, mkRS (Some f) true added) →
   EnableAssert = true → runnable_run true f hook (mkRS nullptr false added) = Fault AssertFailed) ∧
  runnable_cleanup f (mkRS (Some f) true added) = Ok (tt, mkRS nullptr true added).
Proof.
  split_and!; try done.
  - intros Hr E. unfold runnable_run. simpl. erewrite bind_Ok by reflexivity. simpl.
    rewrite (bind_Ok _ _ _ _ _ E). by destruct res as [[]|].
  - intros Hr E A. unfold runnable_run. simpl. erewrite bind_Ok by reflexivity. simpl.
    rewrite (bind_Ok _ _ _ _ _ E).
    assert ((set_r_fiber nullptr;; delete_fiber f;; mret res) (mkRS (Some f) true added) = Fault AssertFailed) as D.
    { unfold delete_fiber, runnable_cleanup, mbind, M_bind. simpl. unfold zth_assert. by rewrite A. }
    by destruct res as [[]|].
  - unfold runnable_cleanup. erewrite bind_Ok by reflexivity. simpl.
    by erewrite bind_Ok by apply zth_assert_true, ptr_eqb_refl.
Qed.

(** *** Witnesses *)

Definition example_slice : TimeInterval := interval 0 10000 false.
Definition example_fiber : Fiber := new_fiber example_slice null 4096.
(** A fiber that was initialised, and one that runs. *)
Definition example_ready : Fiber := with_next Ready (with_state Ready (with_context true example_fiber)).
Definition example_running : Fiber := with_state Running example_ready.

Definition example_life : list life_event :=
  [Makes 2 example_slice null 4096; Makes 3 example_slice null 4096; RunsIt 2 0 (mkTs 7 0) (mkTs 7 5); Does 2 (OpNap (mkTs 9 0));
   RunsIt 3 0 (mkTs 8 0) (mkTs 8 5); Does 2 OpWakeup; Does 3 OpSuspend; RunsIt 2 0 (mkTs 9 0) (mkTs 9 5); Does 3 OpResume;
   Does 1 OpKill; Deletes 1].

(** Fiber 2 sleeps, while 3 runs and wakes it. *)
Lemma fiber_lifecycle_witness : ∃ s,
  Runs.run (life_step (H := debug_config)) example_life (mkLives {[1%positive := example_ready]} 1) = Ok (tt, s) ∧
  lives_of s = mkLives (<[3%positive:=CanRun]> {[2%positive := Runs]}) 2.
Proof.
  destruct (fiber_lifecycle (H := debug_config) 1 example_ready example_life) as (s & R & E & _).
  - reflexivity.
  - by vm_compute.
  - repeat constructor; by vm_compute.
  - apply Runs.legalb_legal. vm_compute. reflexivity.
  - exists s. split; [exact R|]. rewrite E. vm_compute. reflexivity.
Defined.

Lemma fiber_suspend_resume_witness :
  state (wakeup (suspend (nap (mkTs 5 0) example_running))) = Waiting.
Proof.
  destruct (fiber_suspend_resume (mkTs 5 0) (nap (mkTs 5 0) example_running)) as (_ & _ & _ & _ & _ & S & _);
    [vm_compute; tauto|].
  destruct S as [S1 S2]; [reflexivity|]. rewrite S2. exact S1.
Defined.

Lemma fiber_run_outcomes_witness :
  ∃ s', run (H := debug_config) (λ _, 0%Z) (mkTs 7 5) 2 1 (mkTs 7 0)
          (<[2%positive:=example_fiber]> {[1%positive:=example_running]}) = Ok (Switch, s').
Proof.
  destruct (fiber_run_outcomes (H := debug_config) (λ _, 0%Z) (mkTs 7 5) 2 1 (mkTs 7 0)
    (<[2%positive:=example_fiber]> {[1%positive:=example_running]}) example_fiber example_running (mkTs 7 10005))
    as (_ & _ & _ & _ & _ & R); [reflexivity|vm_compute; tauto|reflexivity|intros st; reflexivity|].
  destruct R as (f' & ff' & E & _); [done|by right|]. eexists. exact E.
Defined.

Lemma runnable_run_spec_witness :
  runnable_run (H := debug_config) true 5 (λ f, fiberHook f;; mret (Some ENOMEM)) (mkRS nullptr false [])
  = Fault AssertFailed.
Proof.
  apply (runnable_run_spec (H := debug_config) 5 6 (λ f, fiberHook f;; mret (Some ENOMEM)) (Some ENOMEM) []);
    reflexivity || done.
Defined.

