(* ===== verification/Worker.v ===== *)
(** * The scheduler (libzth/worker.h)

    A [Worker] keeps a queue of runnable and one of suspended fibers and
    switches between them.  The queues are the abstract sequences of
    IntrusiveList.v, whose operations the pointer lists implement.  A context
    switch leaves the C++ function and comes back to it later: here, the part
    of a function before the switch ends with [Switched], and [arrive] is what
    happens in the context that is switched to. *)

From stdpp Require Import base gmap list.
From S2P Require Import Prelude IntrusiveList Time Hook Fiber.

#[local] Arguments timeTo : simpl never.
#[local] Arguments Time.add : simpl never.
#[local] Arguments ts_add : simpl never.
#[local] Arguments ti_lt : simpl never.

Module Worker.

(** ** Data *)

Record W := mkW {
  fibers : Fibers;               (** the fiber objects *)
  refs : gmap addr Z;            (** their reference counts *)
  m_currentFiber : ptr;
  m_runnableQueue : list addr;
  m_suspendedQueue : list addr;
  m_workerFiber : addr;
  m_end : Timestamp;
  m_disableContextSwitch : Z
}.

Definition set_fibers (m : Fibers) (w : W) : W :=
  mkW m (refs w) (m_currentFiber w) (m_runnableQueue w) (m_suspendedQueue w) (m_workerFiber w) (m_end w) (m_disableContextSwitch w).
Definition set_refs (r : gmap addr Z) (w : W) : W :=
  mkW (fibers w) r (m_currentFiber w) (m_runnableQueue w) (m_suspendedQueue w) (m_workerFiber w) (m_end w) (m_disableContextSwitch w).
Definition set_current (p : ptr) (w : W) : W :=
  mkW (fibers w) (refs w) p (m_runnableQueue w) (m_suspendedQueue w) (m_workerFiber w) (m_end w) (m_disableContextSwitch w).
Definition set_runnable (l : list addr) (w : W) : W :=
  mkW (fibers w) (refs w) (m_currentFiber w) l (m_suspendedQueue w) (m_workerFiber w) (m_end w) (m_disableContextSwitch w).
Definition set_suspended (l : list addr) (w : W) : W :=
  mkW (fibers w) (refs w) (m_currentFiber w) (m_runnableQueue w) l (m_workerFiber w) (m_end w) (m_disableContextSwitch w).
Definition set_end (t : Timestamp) (w : W) : W :=
  mkW (fibers w) (refs w) (m_currentFiber w) (m_runnableQueue w) (m_suspendedQueue w) (m_workerFiber w) t (m_disableContextSwitch w).
Definition set_disable (n : Z) (w : W) : W :=
  mkW (fibers w) (refs w) (m_currentFiber w) (m_runnableQueue w) (m_suspendedQueue w) (m_workerFiber w) (m_end w) n.

(** What a function that may switch contexts does. *)
Inductive sched_result :=
| Switched (next : addr)    (** to the context of [next]; [true] when back *)
| Returned (b : bool).

(** An operation of an intrusive list; what the list's assertions reject is a
    failing assertion here in every configuration. *)
Definition queue_op (op : list_op) (l : list addr) : M W (list addr) :=
  match spec_op op l with Some l' => mret l' | None => fail AssertFailed end.

Definition on_runnable (op : list_op) : M W unit :=
  l ← gets m_runnableQueue; l' ← queue_op op l; modify (set_runnable l').
Definition on_suspended (op : list_op) : M W unit :=
  l ← gets m_suspendedQueue; l' ← queue_op op l; modify (set_suspended l').

(** Run a computation on the fibers. *)
Definition with_fibers {A : Type} (m : M Fibers A) : M W A := λ w,
  match m (fibers w) with
  | Ok (a, fs) => Ok (a, set_fibers fs w)
  | Fault e => Fault e
  end.

Definition fiber_at (f : addr) : M W Fiber := with_fibers (get_fiber f).
Definition update_fiber (f : addr) (g : Fiber → Fiber) : M W unit :=
  x ← fiber_at f; with_fibers (put_fiber f (g x)).

(** The element that follows [x] in the ring of [l]. *)
Fixpoint ring_next (x : addr) (first : addr) (l : list addr) : option addr :=
  match l with
  | [] => None
  | y :: l' =>
      if decide (y = x) then Some (match l' with [] => first | z :: _ => z end)
      else ring_next x first l'
  end.

Section Operations.
Context `{Config}.
Context (context_create : addr → Z) (later : Timestamp).

(** [RefCounted::used] and [unused]; the last reference deletes the fiber. *)
Definition used (f : addr) : M W unit :=
  r ← gets refs;
  let n := default 0%Z (r !! f) in
  zth_assert (n <? 2 ^ 64 - 1)%Z;;
  modify (set_refs (<[f:=n + 1]> r))%Z.

Definition unused (f : addr) : M W bool :=
  r ← gets refs;
  let n := default 0%Z (r !! f) in
  zth_assert (0 <? n)%Z;;
  let n := u64 (n - 1) in
  modify (set_refs (<[f:=n]> r));;
  if (0 <? n)%Z then mret false
  else fs ← gets fibers; modify (set_fibers (delete f fs));; mret true.

Definition add (f : addr) (front : bool) : M W unit :=
  x ← fiber_at f;
  zth_assert (negb (state_eqb (state x) Waiting));;
  if state_eqb (state x) Suspended then on_suspended (PushBack f)
  else if front then on_runnable (PushFront f) else on_runnable (PushBack f).

Definition hatch (f : addr) : M W unit :=
  x ← fiber_at f; zth_assert (state_eqb (state x) New);; used f;; add f false.

(** [operator<<]. *)
Definition shift_in (f : addr) : M W unit :=
  x ← fiber_at f; if state_eqb (state x) New then hatch f else add f false.

Definition contextSwitchEnable (enable : bool) : M W unit :=
  n ← gets m_disableContextSwitch;
  if enable then zth_assert (0 <? n)%Z;; modify (set_disable (n - 1))
  else modify (set_disable (n + 1)).

Definition contextSwitchEnabled : M W bool := gets (λ w, (m_disableContextSwitch w =? 0)%Z).

Definition release (f : addr) : M W unit :=
  x ← fiber_at f;
  if state_eqb (state x) Suspended then on_suspended (Erase f) else on_runnable (Erase f).

(** [m_runnableQueue.rotate( *++m_runnableQueue.cyclic( *f))]. *)
Definition rotate_after (f : addr) : M W unit :=
  l ← gets m_runnableQueue;
  match ring_next f (default f (head l)) l with
  | Some y => on_runnable (Rotate y)
  | None => fail AssertFailed
  end.

(** One round of the loop of [schedule]: the outcome of [Fiber::run] of
    [next]. *)
Definition run_next (next : addr) (now : Timestamp) : M W run_result :=
  worker ← gets m_workerFiber;
  prev ← gets m_currentFiber;
  modify (set_current (Some next));;
  when (negb (bool_decide (next = worker))) (rotate_after next);;
  res ← with_fibers (run context_create later next (default worker prev) now);
  match res with
  | Switch => mret res
  | Result _ => modify (set_current prev);; mret res
  end.

(** [cleanup], given what scheduling to the worker's fiber does. *)
Definition cleanup_with (to_worker : M W sched_result) (f : addr) : M W (option sched_result) :=
  x ← fiber_at f; zth_assert (state_eqb (state x) Dead);;
  cur ← gets m_currentFiber;
  if ptr_eqb cur (Some f) then
    zth_assert_m contextSwitchEnabled;;
    r ← to_worker;
    match r with
    | Switched _ => mret (Some r)
    | Returned _ => fail Aborted
    end
  else
    on_runnable (Erase f);;
    worker ← gets m_workerFiber;
    zth_assert (negb (bool_decide (f = worker)));;
    unused f;; mret None.

(** The loop of [schedule], from the label [reschedule] on; [now2] is the
    clock's reading in a nested [schedule]. *)
Fixpoint reschedule (fuel : nat) (nextFiber : ptr) (didSchedule : bool) (now now2 : Timestamp) : M W sched_result :=
  match fuel with
  | O => fail OutOfFuel
  | S fuel =>
      worker ← gets m_workerFiber;
      l ← gets m_runnableQueue;
      let next := match nextFiber with Some f => f | None => default worker (head l) end in
      res ← run_next next now;
      match res with
      | Switch => mret (Switched next)
      | Result 0%Z => mret (Returned true)
      | Result r =>
          if (r =? EAGAIN)%Z then mret (Returned didSchedule)
          else if (r =? EPERM)%Z then
            c ← cleanup_with (reschedule fuel (Some worker) false now2 now2) next;
            match c with
            | Some r => mret r
            | None => reschedule fuel None true now now2
            end
          else fail Aborted
      end
  end.

(** Every round but the last removes a fiber. *)
Definition sched_fuel (w : W) : nat := length (m_runnableQueue w) + 3.

Definition schedule (preferFiber : ptr) (now now2 : Timestamp) : M W sched_result :=
  e ← contextSwitchEnabled;
  if negb e then mret (Returned true)
  else
    worker ← gets m_workerFiber;
    l ← gets m_runnableQueue;
    zth_assert (match preferFiber with
                | None => true
                | Some f => bool_decide (f = worker) || bool_decide (f ∈ l)
                end);;
    e ← gets m_end;
    let prefer := if negb (ts_isNull e) && isBefore e now then Some worker else preferFiber in
    fuel ← gets sched_fuel;
    reschedule fuel prefer false now now2.

Definition cleanup (now now2 : Timestamp) (f : addr) : M W (option sched_result) :=
  fuel ← gets sched_fuel; worker ← gets m_workerFiber;
  cleanup_with (reschedule fuel (Some worker) false now now2) f.

Definition suspend (now now2 : Timestamp) (f : addr) : M W (option sched_result) :=
  x ← fiber_at f;
  match state x with
  | New | Ready =>
      release f;; update_fiber f Fiber.suspend;; add f false;; mret None
  | Running =>
      release f;; update_fiber f Fiber.suspend;; add f false;;
      cur ← gets m_currentFiber;
      zth_assert (ptr_eqb cur (Some f));;
      zth_assert_m contextSwitchEnabled;;
      r ← schedule None now now2; mret (Some r)
  | Waiting => update_fiber f Fiber.suspend;; mret None
  | Uninitialized | Dead | Suspended => mret None
  end.

Definition resume (f : addr) : M W unit :=
  x ← fiber_at f;
  if negb (state_eqb (state x) Suspended) then mret tt
  else release f;; update_fiber f Fiber.resume;; add f false.

(** [zth::yield] in the current fiber. *)
Definition yield (preferFiber : ptr) (alwaysYield : bool) (now now2 : Timestamp) : M W (option sched_result) :=
  cur ← gets m_currentFiber;
  zth_assert (negb (ptr_eqb cur nullptr));;
  match cur with
  | None => fail NullDeref
  | Some c =>
      x ← fiber_at c;
      if negb alwaysYield && negb (allowYield now x) then mret None
      else r ← schedule preferFiber now now2; mret (Some r)
  end.

(** [run]: set the end time, then the condition of its loop. *)
Definition run_start (duration : TimeInterval) (now : Timestamp) : M W unit :=
  if ti_le duration null then modify (set_end null_ts)
  else e ← ts_add now duration; modify (set_end e).

Definition run_continues (now : Timestamp) : M W bool :=
  gets (λ w, negb (bool_decide (m_runnableQueue w = [])) && (ts_isNull (m_end w) || isBefore now (m_end w))).
End Operations.

(** The context that is switched to continues in its own [schedule], which puts
    back its [m_currentFiber], or at its entry point. *)
Definition arrive (w : W) : W :=
  if ptr_eqb (m_currentFiber w) (Some (m_workerFiber w)) then set_current nullptr w else w.

(** [zth_worker_create]; [instance] tells whether the thread has a worker. *)
Inductive create_outcome := Created | CreateError (res : Z).
Definition zth_worker_create (instance : bool) (constructor : create_outcome) : create_outcome :=
  if negb instance then CreateError EINVAL else constructor.

(** ** Queue operations *)

Lemma rotate_to_at y acc l1 l2 : y ∉ l1 → rotate_to y acc (l1 ++ y :: l2) = Some (y :: l2 ++ acc ++ l1).
Proof.
  revert acc. induction l1 as [|x l1 IH]; intros acc Hy; simpl.
  - by rewrite decide_True, app_nil_r.
  - rewrite decide_False by set_solver. rewrite IH by set_solver. by rewrite <-(assoc_L (++) acc).
Qed.

Lemma ring_next_at x first l1 l2 :
  x ∉ l1 → ring_next x first (l1 ++ x :: l2) = Some (match l2 with [] => first | z :: _ => z end).
Proof.
  induction l1 as [|y l1 IH]; intros Hx; simpl; [by rewrite decide_True|].
  rewrite decide_False by set_solver. apply IH. set_solver.
Qed.

Lemma on_runnable_run op w l' :
  spec_op op (m_runnableQueue w) = Some l' → on_runnable op w = Ok (tt, set_runnable l' w).
Proof. intros E. unfold on_runnable, queue_op. erewrite bind_Ok by reflexivity. by rewrite E. Qed.

Lemma on_suspended_run op w l' :
  spec_op op (m_suspendedQueue w) = Some l' → on_suspended op w = Ok (tt, set_suspended l' w).
Proof. intros E. unfold on_suspended, queue_op. erewrite bind_Ok by reflexivity. by rewrite E. Qed.

Lemma rotate_after_run w l1 x l2 :
  m_runnableQueue w = l1 ++ x :: l2 → NoDup (l1 ++ x :: l2) →
  rotate_after x w = Ok (tt, set_runnable (l2 ++ l1 ++ [x]) w).
Proof.
  intros E Hnd. assert (x ∉ l1) as Hx by (apply NoDup_app in Hnd; set_solver).
  unfold rotate_after. erewrite bind_Ok by reflexivity. rewrite E, ring_next_at by done.
  destruct l2 as [|z l2].
  - destruct l1 as [|y l1]; simpl.
    + rewrite (on_runnable_run _ _ [x]); [done|]. rewrite E. simpl. by rewrite decide_True.
    + rewrite (on_runnable_run _ _ ((y :: l1) ++ [x])); [done|]. rewrite E. simpl. rewrite decide_True by done.
      by rewrite app_nil_r.
  - rewrite (on_runnable_run _ _ (z :: l2 ++ l1 ++ [x])); [done|]. rewrite E. simpl.
    rewrite (cons_middle x), (assoc_L (++)). rewrite rotate_to_at; [done|].
    rewrite (cons_middle x), (assoc_L (++)) in Hnd. apply NoDup_app in Hnd. set_solver.
Qed.

Lemma spec_erase x l1 l2 : NoDup (l1 ++ x :: l2) → spec_op (Erase x) (l1 ++ x :: l2) = Some (l1 ++ l2).
Proof. intros. simpl. rewrite decide_True by auto with zth. by rewrite filter_removed. Qed.

(** ** Well-formed schedulers *)

Definition runnable_ok (x : Fiber) : Prop :=
  fiber_inv x ∧ good_slice (timeslice x) ∧
  match state x with
  | New => stateNext x = Ready
  | Ready | Running | Dead => True
  | _ => False
  end.

Definition suspended_ok (x : Fiber) : Prop :=
  fiber_inv x ∧ good_slice (timeslice x) ∧ state x = Suspended.

(** The current fiber is the only one that runs; without one, the worker's own
    fiber may.  Runnable fibers are in the runnable queue, suspended ones in
    the other, and nothing is in a queue twice. *)
Record wf_worker (w : W) : Prop := {
  wf_nodup : NoDup (m_workerFiber w :: m_runnableQueue w ++ m_suspendedQueue w);
  wf_runnable f : f ∈ m_runnableQueue w → ∃ x, fibers w !! f = Some x ∧ runnable_ok x;
  wf_suspended f : f ∈ m_suspendedQueue w → ∃ x, fibers w !! f = Some x ∧ suspended_ok x;
  wf_refs f : f ∈ m_runnableQueue w ++ m_suspendedQueue w → ∃ n, refs w !! f = Some n ∧ (0 < n < 2 ^ 64)%Z;
  wf_own : ∃ x, fibers w !! m_workerFiber w = Some x ∧ runnable_ok x ∧ (state x = Ready ∨ state x = Running);
  wf_current c : m_currentFiber w = Some c → c ≠ m_workerFiber w ∧ is_Some (fibers w !! c);
  wf_running f x : fibers w !! f = Some x → state x = Running →
    f = default (m_workerFiber w) (m_currentFiber w)
}.

Lemma with_fibers_run {A} (m : M Fibers A) w a fs :
  m (fibers w) = Ok (a, fs) → with_fibers m w = Ok (a, set_fibers fs w).
Proof. unfold with_fibers. by intros ->. Qed.

Lemma set_fibers_id w : set_fibers (fibers w) w = w.
Proof. by destruct w. Qed.

Lemma fiber_at_run f w x : fibers w !! f = Some x → fiber_at f w = Ok (x, w).
Proof.
  intros E. unfold fiber_at. erewrite with_fibers_run by by apply get_fiber_run. by rewrite set_fibers_id.
Qed.

Lemma update_fiber_run f g w x :
  fibers w !! f = Some x → update_fiber f g w = Ok (tt, set_fibers (<[f:=g x]> (fibers w)) w).
Proof. intros E. unfold update_fiber. by rewrite (bind_Ok _ _ _ _ _ (fiber_at_run f w x E)). Qed.

(** [f] can be switched to. *)
Definition can_run (ctx : addr → Z) (f : addr) (x : Fiber) : Prop :=
  state x = Ready ∨ (state x = New ∧ ctx f = 0%Z).

(** A dead fiber was taken out: it loses the worker's reference. *)
Definition reap (d : addr) (l : list addr) (w : W) : W :=
  let n := (default 0 (refs w !! d) - 1)%Z in
  let w' := set_refs (<[d:=n]> (refs w)) (set_runnable l w) in
  if (0 <? n)%Z then w' else set_fibers (delete d (fibers w)) w'.

(** ** Blocking and waking up outside of the queues *)

(** [f] was taken out of the run queue and does not run. *)
Lemma taken_out_wf w f y l1 l2 :
  wf_worker w → m_runnableQueue w = l1 ++ f :: l2 → state y ≠ Running →
  wf_worker (set_fibers (<[f:=y]> (fibers w)) (set_runnable (l1 ++ l2) w)).
Proof.
  intros W Er Sy. pose proof (wf_nodup w W) as Hnd. rewrite Er in Hnd.
  apply NoDup_cons in Hnd as [Hw Hnd]. rewrite <-(assoc_L (++)) in Hnd, Hw. simpl in Hnd, Hw.
  pose proof (NoDup_middle_inv Hnd) as Hf.
  destruct W as [V1 V2 V3 V4 V5 V6 V7]. constructor; simpl.
  - apply NoDup_cons. rewrite <-(assoc_L (++)). split; [set_solver|].
    rewrite <-Permutation_middle in Hnd. by apply NoDup_cons in Hnd as [_ ?].
  - intros g Hg. rewrite lookup_insert_ne by set_solver. apply V2. rewrite Er. set_solver.
  - intros g Hg. rewrite lookup_insert_ne by set_solver. by apply V3.
  - intros g Hg. apply V4. rewrite Er. set_solver.
  - rewrite lookup_insert_ne by set_solver. exact V5.
  - intros c Hc. destruct (V6 c Hc) as [? ?]. split; [done|]. by rewrite lookup_insert_is_Some'; auto.
  - intros g z [[<- <-]|[_ Hz]]%lookup_insert_Some Rz; [done|]. by apply (V7 g z).
Qed.

(** [f] sleeps or is blocked: it is in neither queue and can be woken up. *)
Definition asleep (w : W) (f : addr) : Prop :=
  (∃ x, fibers w !! f = Some x ∧ state x = Waiting ∧ stateNext x = Ready ∧ fiber_inv x ∧ good_slice (timeslice x)) ∧
  f ≠ m_workerFiber w ∧ f ∉ m_runnableQueue w ++ m_suspendedQueue w ∧
  (∃ n, refs w !! f = Some n ∧ (0 < n < 2 ^ 64)%Z).

Definition awake (w : W) (f : addr) (prio : bool) : W :=
  match fibers w !! f with
  | Some x => set_runnable (if prio then f :: m_runnableQueue w else m_runnableQueue w ++ [f])
                (set_fibers (<[f:=Fiber.wakeup x]> (fibers w)) w)
  | None => w
  end.

Lemma woken_up `{Config} w f prio :
  wf_worker w → asleep w f →
  (update_fiber f Fiber.wakeup;; add f prio) w = Ok (tt, awake w f prio) ∧ wf_worker (awake w f prio) ∧
  ∃ x, fibers (awake w f prio) !! f = Some x ∧ state x = Ready ∧ stateNext x = Ready.
Proof.
  intros W ((x & Ex & Sx & Nx & I & G) & Hw & Hq & (n & En & Bn)). unfold awake. rewrite Ex.
  assert (Fiber.wakeup x = with_state Ready x) as Ew.
  { clear Ex. destruct x; simpl in *; by subst. }
  assert (state (Fiber.wakeup x) = Ready) as Sw by (rewrite Ew; by destruct x).
  split; [|split].
  - erewrite bind_Ok by by apply update_fiber_run.
    unfold add. erewrite bind_Ok by (apply fiber_at_run; simpl; apply lookup_insert_eq).
    rewrite Sw. erewrite bind_Ok by by apply zth_assert_true. simpl.
    destruct prio; erewrite on_runnable_run; try done; simpl; rewrite decide_False; (done || set_solver).
  - assert (runnable_ok (Fiber.wakeup x)) as O.
    { unfold runnable_ok. rewrite Sw. split; [by apply (run_fiber_op_inv OpWakeup x)|]. by rewrite Ew; destruct x. }
    assert ((if prio then f :: m_runnableQueue w else m_runnableQueue w ++ [f]) ≡ₚ f :: m_runnableQueue w) as P
      by (destruct prio; [done|by rewrite (Permutation_app_comm _ [f])]).
    destruct W as [V1 V2 V3 V4 V5 V6 V7]. apply NoDup_cons in V1 as [V0 V1].
    constructor; simpl.
    + rewrite P. apply NoDup_cons. split; [set_solver|]. apply NoDup_cons. split; [set_solver|done].
    + intros g. rewrite P. intros [->|Hg]%elem_of_cons; [rewrite lookup_insert_eq; by eexists|].
      rewrite lookup_insert_ne by set_solver. auto.
    + intros g Hg. rewrite lookup_insert_ne by set_solver. auto.
    + intros g. rewrite P. intros [->|Hg]%elem_of_cons; [by eexists|auto].
    + rewrite lookup_insert_ne by done. exact V5.
    + intros c Hc. destruct (V6 c Hc) as [? ?]. split; [done|]. by rewrite lookup_insert_is_Some'; auto.
    + intros g z [[<- <-]|[_ Hz]]%lookup_insert_Some Rz; [congruence|]. by apply (V7 g z).
  - exists (Fiber.wakeup x). simpl. rewrite lookup_insert_eq. split_and!; [done|done|]. rewrite Ew. by destruct x.
Qed.

Lemma awake_fields w f prio g :
  (g ≠ f → fibers (awake w f prio) !! g = fibers w !! g) ∧ m_suspendedQueue (awake w f prio) = m_suspendedQueue w ∧
  m_currentFiber (awake w f prio) = m_currentFiber w ∧ m_workerFiber (awake w f prio) = m_workerFiber w ∧
  refs (awake w f prio) = refs w ∧ m_end (awake w f prio) = m_end w ∧
  m_disableContextSwitch (awake w f prio) = m_disableContextSwitch w.
Proof.
  unfold awake. destruct (fibers w !! f); simpl; split_and!; try done. intros. by rewrite lookup_insert_ne.
Qed.

(** [f] runs and goes to sleep. *)
Definition napped (w : W) (f : addr) (y : Fiber) (t : Timestamp) (l : list addr) : W :=
  set_fibers (<[f:=Fiber.nap t y]> (fibers w)) (set_runnable l w).

Lemma napped_asleep w f y t l1 l2 :
  wf_worker w → m_runnableQueue w = l1 ++ f :: l2 → fibers w !! f = Some y → state y = Running →
  wf_worker (napped w f y t (l1 ++ l2)) ∧ asleep (napped w f y t (l1 ++ l2)) f ∧
  ∀ g, asleep w g → g ≠ f ∧ asleep (napped w f y t (l1 ++ l2)) g.
Proof.
  intros W Er Ey Sy. pose proof (wf_nodup w W) as Hnd. rewrite Er in Hnd.
  apply NoDup_cons in Hnd as [Hw Hnd]. rewrite <-(assoc_L (++)) in Hnd, Hw. simpl in Hnd, Hw.
  pose proof (NoDup_middle_inv Hnd) as Hf.
  destruct (wf_runnable w W f) as (y' & Ey' & I & G & _); [rewrite Er; auto with zth|].
  rewrite Ey in Ey'. injection Ey' as <-.
  assert (state (Fiber.nap t y) = Waiting ∧ stateNext (Fiber.nap t y) = Ready ∧
    fiber_inv (Fiber.nap t y) ∧ timeslice (Fiber.nap t y) = timeslice y) as (N1 & N2 & N3 & N4).
  { clear Ey. destruct y; simpl in *; subst. unfold fiber_inv in *. simpl in *. tauto. }
  split_and!.
  - apply taken_out_wf; [done|done|by rewrite N1].
  - split; [|split_and!; [set_solver|set_solver|]].
    + eexists. simpl. rewrite lookup_insert_eq. split; [done|]. rewrite N4. done.
    + apply (wf_refs w W f). rewrite Er. set_solver.
  - intros g ((z & Ez & Sz & Z) & Hgw & Hgq & R). rewrite Er in Hgq. assert (g ≠ f) by (intros ->; congruence).
    split; [done|]. unfold asleep. simpl. rewrite lookup_insert_ne by done. split; [by exists z|].
    split; [done|]. split; [set_solver|done].
Qed.

Lemma asleep_awake w f g prio : f ≠ g → asleep w g → asleep (awake w f prio) g.
Proof.
  intros Hne ((x & Ex & X) & Hw & Hq & R).
  unfold asleep, awake. destruct (fibers w !! f) as [z|]; simpl; [|by split; [exists x|]].
  rewrite lookup_insert_ne by done. split; [by exists x|]. split; [done|]. split; [|done].
  destruct prio; set_solver.
Qed.

Section Scheduling.
Context `{Config}.
Context (ctx : addr → Z) (later : Timestamp).

Lemma run_next_dead d l x w now :
  m_runnableQueue w = d :: l → NoDup (m_workerFiber w :: d :: l) →
  fibers w !! d = Some x → state x = Dead →
  run_next ctx later d now w = Ok (Result EPERM, set_runnable (l ++ [d]) w).
Proof.
  intros Er [Hn Hnd]%NoDup_cons Ex Dx. unfold run_next. do 3 (erewrite bind_Ok by reflexivity).
  rewrite bool_decide_false by set_solver. simpl.
  erewrite bind_Ok by (apply (rotate_after_run (set_current (Some d) w) []); done).
  erewrite bind_Ok by by apply with_fibers_run, run_dead with x.
  by destruct w.
Qed.

Lemma cleanup_dead sched d l1 l2 x w n :
  m_runnableQueue w = l1 ++ d :: l2 → NoDup (l1 ++ d :: l2) → d ≠ m_workerFiber w →
  fibers w !! d = Some x → state x = Dead → m_currentFiber w ≠ Some d →
  refs w !! d = Some n → (0 < n < 2 ^ 64)%Z →
  cleanup_with sched d w = Ok (None, reap d (l1 ++ l2) w).
Proof.
  intros Er Hnd Hw Ex Dx Hc En Hn. unfold cleanup_with.
  rewrite (bind_Ok _ _ _ _ _ (fiber_at_run d w x Ex)).
  erewrite bind_Ok by (apply zth_assert_true; by rewrite Dx).
  erewrite bind_Ok by reflexivity. rewrite (proj2 (ptr_eqb_false _ _)) by done.
  erewrite bind_Ok by (apply on_runnable_run; rewrite Er; by apply spec_erase).
  erewrite bind_Ok by reflexivity. erewrite bind_Ok by (apply zth_assert_true; by rewrite bool_decide_false).
  unfold unused. rewrite bind_assoc. erewrite bind_Ok by reflexivity. simpl. rewrite En. simpl.
  rewrite bind_assoc. erewrite bind_Ok by (apply zth_assert_true, Z.ltb_lt; lia).
  rewrite u64_small by lia. rewrite bind_assoc. erewrite bind_Ok by reflexivity.
  unfold reap. rewrite En. simpl. by destruct (0 <? n - 1)%Z.
Qed.

Lemma reap_wf d l1 l2 x w :
  wf_worker w → m_runnableQueue w = l1 ++ d :: l2 → fibers w !! d = Some x → state x = Dead →
  m_currentFiber w ≠ Some d → wf_worker (reap d (l1 ++ l2) w).
Proof.
  intros W Er Ex Dx Hc. destruct W as [W1 W2 W3 W4 W5 W6 W7].
  assert (Hnd := W1). rewrite Er in Hnd. apply NoDup_cons in Hnd as [Hnw Hnd].
  rewrite <-(assoc_L (++)) in Hnd, Hnw. simpl in Hnd, Hnw.
  assert (d ∉ l1 ++ l2 ++ m_suspendedQueue w) as Hd by by apply NoDup_middle_inv in Hnd.
  assert (d ≠ m_workerFiber w) as Hdw by set_solver.
  set (w' := reap d (l1 ++ l2) w).
  assert (∀ f, f ≠ d → fibers w' !! f = fibers w !! f) as Ef.
  { intros f Hf. subst w'. unfold reap. case_match; simpl; [done|]. by rewrite lookup_delete_ne. }
  assert (∀ f y, fibers w' !! f = Some y → fibers w !! f = Some y) as Es.
  { intros f y. subst w'. unfold reap. case_match; simpl; [done|]. intros [_ ?]%lookup_delete_Some. done. }
  assert (∀ f, f ≠ d → refs w' !! f = refs w !! f) as Erf.
  { intros f Hf. subst w'. unfold reap. case_match; simpl; by rewrite lookup_insert_ne. }
  assert (m_runnableQueue w' = l1 ++ l2 ∧ m_suspendedQueue w' = m_suspendedQueue w ∧
    m_workerFiber w' = m_workerFiber w ∧ m_currentFiber w' = m_currentFiber w) as (E1 & E2 & E3 & E4).
  { subst w'. unfold reap. by case_match. }
  clearbody w'. constructor; rewrite ?E1, ?E2, ?E3, ?E4.
  - apply NoDup_cons. rewrite <-(assoc_L (++)). split; [set_solver|].
    rewrite <-Permutation_middle in Hnd. by apply NoDup_cons in Hnd as [_ ?].
  - intros f Hf. rewrite Ef by (intros ->; set_solver). apply W2. rewrite Er. set_solver.
  - intros f Hf. rewrite Ef by (intros ->; set_solver). by apply W3.
  - intros f Hf. rewrite Erf by (intros ->; set_solver). apply W4. rewrite Er. set_solver.
  - by rewrite Ef.
  - intros c Ec. rewrite Ef by congruence. by apply W6.
  - intros f y Hf. apply W7. by apply Es.
Qed.

(** [next] got the processor: what else changed. *)
Definition switched (w w' : W) (next : addr) : Prop :=
  let from := default (m_workerFiber w) (m_currentFiber w) in
  ∃ x' y y', fibers w !! from = Some y ∧ fibers w' !! from = Some y' ∧ fibers w' !! next = Some x' ∧
  state x' = Running ∧ state y' = (if state_eqb (state y) Running then Ready else state y) ∧
  (∀ f, f ≠ next → f ≠ from → fibers w' !! f = fibers w !! f) ∧
  refs w' = refs w ∧ m_currentFiber w' = Some next ∧ m_suspendedQueue w' = m_suspendedQueue w ∧
  m_workerFiber w' = m_workerFiber w ∧ m_end w' = m_end w ∧ m_disableContextSwitch w' = m_disableContextSwitch w ∧
  stateNext y' = stateNext y ∧ context y' = context y ∧ timeslice y' = timeslice y.

Lemma run_fibers_switch next x w now :
  wf_worker w → fibers w !! next = Some x → runnable_ok x → can_run ctx next x →
  next ≠ default (m_workerFiber w) (m_currentFiber w) → good_now now → good_now later →
  ∃ x' y y', run ctx later next (default (m_workerFiber w) (m_currentFiber w)) now (fibers w)
      = Ok (Switch, <[next:=x']> (<[default (m_workerFiber w) (m_currentFiber w):=y']> (fibers w))) ∧
    fibers w !! default (m_workerFiber w) (m_currentFiber w) = Some y ∧
    runnable_ok x' ∧ state x' = Running ∧
    state y' = (if state_eqb (state y) Running then Ready else state y) ∧
    stateNext y' = stateNext y ∧ context y' = context y ∧ timeslice y' = timeslice y.
Proof.
  intros W Ex (I & G & N) C Hne Gn Gl. set (from := default _ _) in *.
  assert (is_Some (fibers w !! from)) as [y Ey].
  { subst from. destruct (m_currentFiber w) as [c|] eqn:Ec; [by apply (wf_current w W)|].
    destruct (wf_own w W) as (y & Ey & _). by eexists. }
  set (t := if CheckTimesliceOverrun && ti_lt (dtMax y) (timeTo (startRun y) now) then later else now).
  assert (good_now t) as Gt by (subst t; by destruct (CheckTimesliceOverrun && _)).
  destruct (good_sum t (timeslice x) (fibers w) Gt G) as [e Ets].
  destruct (run_switch ctx later next from now (fibers w) x y e) as (x' & y' & Q); [done|done|done|done|done| |].
  { destruct C as [C|[C1 C2]]; [by left|right]. rewrite C2, C1 in *. done. }
  destruct Q as (Q1 & Q2 & Q3 & Q4 & Q5 & Q6 & Q7 & Q8 & Q9 & Q10 & Q11).
  exists x', y, y'. split_and!; try done. unfold runnable_ok, fiber_inv. by rewrite Q2, Q3, Q4, Q6.
Qed.

Lemma switched_back y y' :
  state y' = (if state_eqb (state y) Running then Ready else state y) →
  stateNext y' = stateNext y → context y' = context y → timeslice y' = timeslice y →
  (runnable_ok y → runnable_ok y') ∧ (suspended_ok y → suspended_ok y') ∧ state y' ≠ Running.
Proof.
  intros E1 E2 E3 E4. unfold runnable_ok, suspended_ok, fiber_inv. rewrite E1, E2, E3, E4.
  destruct (state y); simpl; split_and!; try done; naive_solver.
Qed.

(** Well-formedness after the switch, in the context that is switched to. *)
Lemma switched_wf w w' next x' y y' :
  wf_worker w → let from := default (m_workerFiber w) (m_currentFiber w) in
  next ≠ from → (next = m_workerFiber w ∨ next ∈ m_runnableQueue w) →
  fibers w !! from = Some y → runnable_ok x' → state x' = Running →
  state y' = (if state_eqb (state y) Running then Ready else state y) →
  stateNext y' = stateNext y → context y' = context y → timeslice y' = timeslice y →
  fibers w' = <[next:=x']> (<[from:=y']> (fibers w)) →
  refs w' = refs w → m_currentFiber w' = Some next → m_runnableQueue w' ≡ₚ m_runnableQueue w →
  m_suspendedQueue w' = m_suspendedQueue w → m_workerFiber w' = m_workerFiber w →
  wf_worker (arrive w').
Proof.
  intros [W1 W2 W3 W4 W5 W6 W7] from Hne Hnext Ey Ix Ex E1 E2 E3 E4 Ef Er Ec Eq Es Ew.
  destruct (switched_back y y' E1 E2 E3 E4) as (B1 & B2 & B3).
  assert (∀ (P : Fiber → Prop) f, (∃ z, fibers w !! f = Some z ∧ P z) → (P y → P y') → P x' ∨ f ≠ next →
    ∃ z, fibers (arrive w') !! f = Some z ∧ P z) as Hup.
  { intros P f (z & Ez & Pz) Py Px. assert (fibers (arrive w') = fibers w') as -> by (unfold arrive; by destruct (ptr_eqb _ _)).
    rewrite Ef. destruct (decide (f = next)) as [->|Hf].
    - rewrite lookup_insert_eq. exists x'. split; [done|]. by destruct Px.
    - rewrite lookup_insert_ne by done. destruct (decide (f = from)) as [->|Hf'].
      + rewrite lookup_insert_eq. exists y'. split; [done|]. apply Py. by simplify_eq.
      + rewrite lookup_insert_ne by done. eauto. }
  assert (m_runnableQueue (arrive w') = m_runnableQueue w' ∧ m_suspendedQueue (arrive w') = m_suspendedQueue w ∧
    m_workerFiber (arrive w') = m_workerFiber w ∧ refs (arrive w') = refs w) as (A1 & A2 & A3 & A4)
    by (unfold arrive; by destruct (ptr_eqb _ _)).
  constructor; rewrite ?A1, ?A2, ?A3, ?A4.
  - by rewrite Eq.
  - intros f Hf. rewrite Eq in Hf. apply (Hup runnable_ok); auto.
  - intros f Hf. apply (Hup suspended_ok); auto. right. intros ->. destruct Hnext as [->|Hn].
    + apply NoDup_cons in W1 as [W1 _]. set_solver.
    + apply NoDup_cons in W1 as [_ W1]. apply NoDup_app in W1 as (_ & W1 & _). by apply (W1 next).
  - intros f Hf. rewrite Eq in Hf. auto.
  - apply (Hup (λ z, runnable_ok z ∧ (state z = Ready ∨ state z = Running))); [done| |].
    + intros [P1 P2]. split; [auto|]. rewrite E1. left. destruct P2 as [->| ->]; done.
    + left. split; [done|by right].
  - intros c. unfold arrive. rewrite Ec, Ew. destruct (ptr_eqb (Some next) (Some (m_workerFiber w))) eqn:Q; [done|].
    rewrite Ec. apply ptr_eqb_false in Q. intros [= <-]. split; [congruence|]. rewrite Ef, lookup_insert_eq. by eexists.
  - intros f z. assert (fibers (arrive w') = fibers w') as -> by (unfold arrive; by destruct (ptr_eqb _ _)).
    assert (default (m_workerFiber w) (m_currentFiber (arrive w')) = next) as ->.
    { unfold arrive. rewrite Ec, Ew. destruct (ptr_eqb (Some next) (Some (m_workerFiber w))) eqn:Q; [|by rewrite Ec].
      apply ptr_eqb_true in Q. simpl. congruence. }
    rewrite Ef. destruct (decide (f = next)) as [->|Hf]; [done|]. rewrite lookup_insert_ne by done.
    destruct (decide (f = from)) as [->|Hf'].
    + rewrite lookup_insert_eq. intros [= <-]. done.
    + rewrite lookup_insert_ne by done. intros Ez Rz. by destruct (Hf' (W7 _ _ Ez Rz)).
Qed.

Lemma run_next_live l1 next l2 x w now :
  wf_worker w → m_runnableQueue w = l1 ++ next :: l2 → fibers w !! next = Some x → can_run ctx next x →
  next ≠ default (m_workerFiber w) (m_currentFiber w) → good_now now → good_now later →
  ∃ w', run_next ctx later next now w = Ok (Switch, w') ∧ switched w w' next ∧ wf_worker (arrive w') ∧
    m_runnableQueue w' = l2 ++ l1 ++ [next].
Proof.
  intros W Er Ex C Hne Gn Gl. pose proof (wf_nodup w W) as Hnd. rewrite Er in Hnd.
  assert (next ≠ m_workerFiber w) as Hw by (apply NoDup_cons in Hnd as [Hnd _]; set_solver).
  destruct (wf_runnable w W next) as (x0 & Ex0 & Rx); [rewrite Er; auto with zth|]. rewrite Ex in Ex0. injection Ex0 as <-.
  destruct (run_fibers_switch next x w now W Ex Rx C Hne Gn Gl) as (x' & y & y' & Q & Ey & Rx' & Sx' & Sy & E1 & E2 & E3).
  unfold run_next. do 3 (erewrite bind_Ok by reflexivity). rewrite bool_decide_false by done. simpl.
  erewrite bind_Ok.
  2:{ apply (rotate_after_run (set_current (Some next) w) l1 next l2); [done|].
      apply NoDup_cons in Hnd as [_ Hnd]. by apply NoDup_app in Hnd as [Hnd _]. }
  erewrite bind_Ok by by apply with_fibers_run. eexists. split; [reflexivity|]. split.
  { exists x', y, y'. simpl. rewrite lookup_insert_eq, lookup_insert_ne, lookup_insert_eq by done. split_and!; try done.
    intros f Hf Hf'. by rewrite !lookup_insert_ne. }
  split; [|done]. eapply (switched_wf w _ next x' y y' W); try done.
  - right. rewrite Er. auto with zth.
  - simpl. rewrite Er. by rewrite Permutation_app_comm, <-(assoc_L (++)).
Qed.

Lemma run_next_worker c w now :
  wf_worker w → m_currentFiber w = Some c → good_now now → good_now later →
  ∃ w', run_next ctx later (m_workerFiber w) now w = Ok (Switch, w') ∧ switched w w' (m_workerFiber w) ∧
    wf_worker (arrive w') ∧ m_runnableQueue w' = m_runnableQueue w.
Proof.
  intros W Ec Gn Gl. destruct (wf_own w W) as (x & Ex & Rx & Sx). destruct (wf_current w W c Ec) as [Hc _].
  assert (state x = Ready) as Sx'.
  { destruct Sx as [|Sx]; [done|]. pose proof (wf_running w W _ _ Ex Sx) as Q. rewrite Ec in Q. simpl in Q. congruence. }
  destruct (run_fibers_switch (m_workerFiber w) x w now W Ex Rx) as (x' & y & y' & Q & Ey & Rx' & Sx1 & Sy & E1 & E2 & E3);
    [by left|by rewrite Ec|done|done|].
  unfold run_next. do 3 (erewrite bind_Ok by reflexivity). rewrite bool_decide_true by done. simpl.
  erewrite bind_Ok by reflexivity.
  erewrite bind_Ok by (apply with_fibers_run; simpl; exact Q). eexists. split; [reflexivity|]. split.
  { exists x', y, y'. simpl. rewrite Ec in *. simpl in *.
    rewrite lookup_insert_eq, lookup_insert_ne, lookup_insert_eq by done. split_and!; try done.
    intros f Hf Hf'. by rewrite !lookup_insert_ne. }
  split; [|done]. eapply (switched_wf w _ (m_workerFiber w) x' y y' W); try done; [by rewrite Ec|by left].
Qed.

(** *** Passing over the dead *)

Definition dead_fiber (w : W) (d : addr) : Prop :=
  m_currentFiber w ≠ Some d ∧ ∃ x, fibers w !! d = Some x ∧ state x = Dead.

(** The dead fibers at the head of the queue were cleaned up. *)
Fixpoint reap_all (dead rest : list addr) (w : W) : W :=
  match dead with
  | [] => w
  | d :: dead => reap_all dead rest (reap d (dead ++ rest) w)
  end.

Lemma reap_fields d l w :
  m_runnableQueue (reap d l w) = l ∧ m_currentFiber (reap d l w) = m_currentFiber w ∧
  m_workerFiber (reap d l w) = m_workerFiber w ∧ m_suspendedQueue (reap d l w) = m_suspendedQueue w ∧
  m_end (reap d l w) = m_end w ∧ m_disableContextSwitch (reap d l w) = m_disableContextSwitch w ∧
  ∀ f, f ≠ d → fibers (reap d l w) !! f = fibers w !! f.
Proof.
  unfold reap. destruct (0 <? _)%Z; simpl; split_and!; try done. intros f Hf. by rewrite lookup_delete_ne.
Qed.

Lemma reap_all_spec dead rest w :
  wf_worker w → m_runnableQueue w = dead ++ rest → Forall (dead_fiber w) dead →
  let w' := reap_all dead rest w in
  wf_worker w' ∧ m_runnableQueue w' = rest ∧ m_currentFiber w' = m_currentFiber w ∧
  m_workerFiber w' = m_workerFiber w ∧ m_suspendedQueue w' = m_suspendedQueue w ∧
  m_end w' = m_end w ∧ m_disableContextSwitch w' = m_disableContextSwitch w ∧
  (∀ f, f ∉ dead → fibers w' !! f = fibers w !! f) ∧
  (∀ fuel ds now now2, reschedule ctx later (length dead + fuel) None ds now now2 w =
    reschedule ctx later fuel None (ds || negb (bool_decide (dead = []))) now now2 w').
Proof.
  revert w. induction dead as [|d dead IH]; intros w W Er F; simpl.
  { split_and!; try done. intros. by rewrite orb_false_r. }
  apply Forall_cons in F as [(Hc & x & Ex & Dx) F].
  pose proof (wf_nodup w W) as Hnd. rewrite Er in Hnd.
  destruct (reap_fields d (dead ++ rest) w) as (R1 & R2 & R3 & R4 & R5 & R6 & R7).
  change (NoDup ((m_workerFiber w :: d :: dead ++ rest) ++ m_suspendedQueue w)) in Hnd.
  apply NoDup_app in Hnd as [Hnd _].
  assert (d ≠ m_workerFiber w ∧ NoDup (d :: dead ++ rest)) as [Hdw Hnd'].
  { apply NoDup_cons in Hnd as [Hnw Hnd]. set_solver. }
  assert (d ∉ dead) as Hd by (apply NoDup_cons in Hnd' as [Hnd' _]; set_solver).
  destruct (IH (reap d (dead ++ rest) w)) as (I1 & I2 & I3 & I4 & I5 & I6 & I7 & I8 & I9).
  - by apply (reap_wf d [] (dead ++ rest) x).
  - done.
  - rewrite Forall_forall in *. intros e He. destruct (F e He) as (He1 & y & Ey & Dy).
    split; [by rewrite R2|]. exists y. rewrite R7 by (intros ->; done). done.
  - rewrite R2, R3, R4, R5, R6 in *. split_and!; try done.
    { intros f Hf. rewrite I8, R7 by set_solver. done. }
    intros fuel ds now now2. simpl. do 2 (erewrite bind_Ok by reflexivity). rewrite Er. simpl.
    erewrite bind_Ok by (eapply (run_next_dead d (dead ++ rest)); done).
    unfold EPERM, EAGAIN. cbn [Z.eqb Pos.eqb].
    destruct (wf_refs w W d) as (n & En & Bn); [rewrite Er; simpl; auto with zth|].
    rewrite (bind_Ok _ _ _ _ _ (cleanup_dead _ d (dead ++ rest) [] x (set_runnable ((dead ++ rest) ++ [d]) w) n
      eq_refl (NoDup_rot [d] (dead ++ rest) Hnd') Hdw Ex Dx Hc En Bn)).
    rewrite app_nil_r.
    assert (reap d (dead ++ rest) (set_runnable ((dead ++ rest) ++ [d]) w) = reap d (dead ++ rest) w) as ->
      by (by destruct w).
    rewrite I9. by rewrite orb_true_r.
Qed.








(** Scheduling is enabled and the run time is not over. *)
Definition may_schedule (w : W) (now : Timestamp) : Prop :=
  m_disableContextSwitch w = 0%Z ∧ negb (ts_isNull (m_end w)) && isBefore (m_end w) now = false.

Lemma schedule_start dead rest w now now2 :
  wf_worker w → may_schedule w now → m_runnableQueue w = dead ++ rest → Forall (dead_fiber w) dead →
  let w' := reap_all dead rest w in
  schedule ctx later None now now2 w =
    reschedule ctx later (S (length rest + 2)) None (negb (bool_decide (dead = []))) now now2 w'.
Proof.
  intros W [D E] Er F w'. unfold schedule. erewrite bind_Ok by reflexivity. rewrite D. simpl.
  do 2 (erewrite bind_Ok by reflexivity). erewrite bind_Ok by by apply zth_assert_true.
  do 2 (erewrite bind_Ok by reflexivity). rewrite E.
  destruct (reap_all_spec dead rest w W Er F) as (_ & _ & _ & _ & _ & _ & _ & _ & R).
  unfold sched_fuel. rewrite Er, length_app.
  replace (length dead + length rest + 3) with (length dead + S (length rest + 2)) by lia. by rewrite R.
Qed.

(** The loop stops at a fiber that can run. *)
Lemma reschedule_live fuel n rest x ds w now now2 :
  wf_worker w → m_runnableQueue w = n :: rest → fibers w !! n = Some x → can_run ctx n x →
  n ≠ default (m_workerFiber w) (m_currentFiber w) → good_now now → good_now later →
  ∃ w', reschedule ctx later (S fuel) None ds now now2 w = Ok (Switched n, w') ∧ switched w w' n ∧
    wf_worker (arrive w') ∧ m_runnableQueue w' = rest ++ [n].
Proof.
  intros W Er Ex C Hne Gn Gl.
  destruct (run_next_live [] n rest x w now W Er Ex C Hne Gn Gl) as (w' & Q & S & W' & Er').
  exists w'. split; [|done]. simpl. do 2 (erewrite bind_Ok by reflexivity). rewrite Er. simpl.
  by rewrite (bind_Ok _ _ _ _ _ Q).
Qed.

(** With nothing to run, the current fiber's context goes back to the worker. *)
Lemma reschedule_worker fuel next c ds w now now2 :
  wf_worker w → m_currentFiber w = Some c → good_now now → good_now later →
  (next = None ∧ m_runnableQueue w = []) ∨ next = Some (m_workerFiber w) →
  ∃ w', reschedule ctx later (S fuel) next ds now now2 w = Ok (Switched (m_workerFiber w), w') ∧
    switched w w' (m_workerFiber w) ∧ wf_worker (arrive w') ∧ m_runnableQueue w' = m_runnableQueue w.
Proof.
  intros W Ec Gn Gl Hn. destruct (run_next_worker c w now W Ec Gn Gl) as (w' & Q & S & W' & Er').
  exists w'. split; [|done]. simpl. do 2 (erewrite bind_Ok by reflexivity).
  destruct Hn as [[-> ->]| ->]; simpl; by rewrite (bind_Ok _ _ _ _ _ Q).
Qed.



(** *** Moving fibers between the queues *)

Lemma moved_to_suspended w f x l1 l2 :
  wf_worker w → m_runnableQueue w = l1 ++ f :: l2 → fibers w !! f = Some x →
  state x = New ∨ state x = Ready ∨ state x = Running →
  let w' := set_suspended (m_suspendedQueue w ++ [f])
              (set_fibers (<[f:=Fiber.suspend x]> (fibers w)) (set_runnable (l1 ++ l2) w)) in
  (release f;; update_fiber f Fiber.suspend;; add f false) w = Ok (tt, w') ∧ wf_worker w'.
Proof.
  intros W Er Ex Sx w'. pose proof (wf_nodup w W) as Hnd. rewrite Er in Hnd.
  assert (state (Fiber.suspend x) = Suspended ∧ timeslice (Fiber.suspend x) = timeslice x) as [Sx' Tx].
  { destruct x; simpl in *. destruct Sx as [->|[->| ->]]; done. }
  assert (f ∉ l1 ++ l2 ∧ f ∉ m_suspendedQueue w ∧ f ≠ m_workerFiber w ∧ NoDup (l1 ++ f :: l2)) as (N1 & N2 & N3 & N4).
  { apply NoDup_cons in Hnd as [Hw Hnd]. split; [apply NoDup_app in Hnd as [Hnd _]; by apply NoDup_middle_inv|].
    apply NoDup_app in Hnd as (Hnd & Hd & _). set_solver. }
  split.
  - unfold release. rewrite bind_assoc, (bind_Ok _ _ _ _ _ (fiber_at_run f w x Ex)).
    replace (state_eqb (state x) Suspended) with false by (destruct Sx as [->|[->| ->]]; done).
    erewrite bind_Ok by (apply on_runnable_run; rewrite Er; by apply spec_erase).
    erewrite bind_Ok by by apply update_fiber_run.
    unfold add. erewrite bind_Ok by (apply fiber_at_run; simpl; apply lookup_insert_eq).
    rewrite Sx'. erewrite bind_Ok by by apply zth_assert_true. simpl.
    erewrite on_suspended_run; [done|]. simpl. by rewrite decide_False.
  - destruct W as [V1 V2 V3 V4 V5 V6 V7]. constructor; simpl.
    + rewrite (assoc_L (++)). apply NoDup_cons. apply NoDup_cons in Hnd as [Hw Hnd]. split; [set_solver|].
      rewrite <-(assoc_L (++)) in Hnd. simpl in Hnd. rewrite <-Permutation_middle in Hnd.
      rewrite (Permutation_app_comm _ [f]), <-(assoc_L (++)). exact Hnd.
    + intros g Hg. rewrite lookup_insert_ne by (intros ->; done). apply V2. rewrite Er. set_solver.
    + intros g [Hg|Hg]%elem_of_app.
      * rewrite lookup_insert_ne by (intros ->; done). auto.
      * assert (g = f) as -> by set_solver. rewrite lookup_insert_eq. exists (Fiber.suspend x). split; [done|].
        destruct (V2 f) as (x0 & Ex0 & I & G & _); [rewrite Er; auto with zth|]. rewrite Ex in Ex0. injection Ex0 as <-.
        split; [by apply (run_fiber_op_inv OpSuspend x)|]. by rewrite Tx.
    + intros g Hg. apply V4. rewrite Er. set_solver.
    + by rewrite lookup_insert_ne.
    + intros c Hc. destruct (V6 c Hc) as [? ?]. split; [done|]. by rewrite lookup_insert_is_Some'; auto.
    + intros g y. destruct (decide (g = f)) as [->|Hg]; [rewrite lookup_insert_eq; congruence|].
      rewrite lookup_insert_ne by done. apply V7.
Qed.

Lemma moved_to_runnable w f x l1 l2 :
  wf_worker w → m_suspendedQueue w = l1 ++ f :: l2 → fibers w !! f = Some x →
  let w' := set_runnable (m_runnableQueue w ++ [f])
              (set_fibers (<[f:=Fiber.resume x]> (fibers w)) (set_suspended (l1 ++ l2) w)) in
  resume f w = Ok (tt, w') ∧ wf_worker w' ∧ (state (Fiber.resume x) = New ∨ state (Fiber.resume x) = Ready).
Proof.
  intros W Er Ex w'. pose proof (wf_nodup w W) as Hnd. rewrite Er in Hnd.
  destruct (wf_suspended w W f) as (x0 & Ex0 & I & G & Sx); [rewrite Er; auto with zth|].
  rewrite Ex in Ex0. injection Ex0 as <-.
  assert ((state (Fiber.resume x) = New ∨ state (Fiber.resume x) = Ready) ∧
    timeslice (Fiber.resume x) = timeslice x ∧ runnable_ok (Fiber.resume x)) as (Sx' & Tx & Ox).
  { pose proof (run_fiber_op_inv OpResume x Logic.I I) as I'. unfold runnable_ok. change (fiber_inv (Fiber.resume x)) in I'.
    clear Ex. fiber_cases x; unfold fiber_inv in *; simpl in *; split_and!; auto. }
  assert (f ∉ l1 ++ l2 ∧ f ∉ m_runnableQueue w ∧ f ≠ m_workerFiber w ∧ NoDup (l1 ++ f :: l2)) as (N1 & N2 & N3 & N4).
  { apply NoDup_cons in Hnd as [Hw Hnd]. apply NoDup_app in Hnd as (_ & Hd & Hnd). split; [by apply NoDup_middle_inv|].
    set_solver. }
  split; [|split; [|done]].
  - unfold resume. rewrite (bind_Ok _ _ _ _ _ (fiber_at_run f w x Ex)). rewrite Sx. simpl.
    unfold release. rewrite bind_assoc, (bind_Ok _ _ _ _ _ (fiber_at_run f w x Ex)). rewrite Sx. simpl.
    erewrite bind_Ok by (apply on_suspended_run; rewrite Er; by apply spec_erase).
    erewrite bind_Ok by by apply update_fiber_run.
    unfold add. erewrite bind_Ok by (apply fiber_at_run; simpl; apply lookup_insert_eq).
    erewrite bind_Ok by (apply zth_assert_true; destruct Sx' as [->| ->]; done).
    replace (state_eqb (state (Fiber.resume x)) Suspended) with false by (destruct Sx' as [->| ->]; done).
    erewrite on_runnable_run; [done|]. simpl. by rewrite decide_False.
  - destruct W as [V1 V2 V3 V4 V5 V6 V7]. constructor; simpl.
    + rewrite <-(assoc_L (++)). simpl. rewrite (Permutation_middle l1 l2 f). exact Hnd.
    + intros g [Hg|Hg]%elem_of_app.
      * rewrite lookup_insert_ne by (intros ->; done). auto.
      * assert (g = f) as -> by set_solver. rewrite lookup_insert_eq. eauto.
    + intros g Hg. rewrite lookup_insert_ne by (intros ->; done). apply V3. rewrite Er. set_solver.
    + intros g Hg. apply V4. rewrite Er. set_solver.
    + by rewrite lookup_insert_ne.
    + intros c Hc. destruct (V6 c Hc) as [? ?]. split; [done|]. by rewrite lookup_insert_is_Some'; auto.
    + intros g y. destruct (decide (g = f)) as [->|Hg].
      * rewrite lookup_insert_eq. intros [= <-]. destruct Sx' as [->| ->]; done.
      * rewrite lookup_insert_ne by done. apply V7.
Qed.

Lemma hatched w f x n :
  wf_worker w → fibers w !! f = Some x → state x = New → runnable_ok x → f ≠ m_workerFiber w →
  f ∉ m_runnableQueue w ++ m_suspendedQueue w → default 0%Z (refs w !! f) = n → (0 ≤ n < 2 ^ 64 - 1)%Z →
  let w' := set_runnable (m_runnableQueue w ++ [f]) (set_refs (<[f:=n + 1]> (refs w))%Z w) in
  hatch f w = Ok (tt, w') ∧ wf_worker w'.
Proof.
  intros W Ex Sx Ox Hw Hf En Bn w'. split.
  - unfold hatch. rewrite (bind_Ok _ _ _ _ _ (fiber_at_run f w x Ex)), Sx.
    erewrite bind_Ok by by apply zth_assert_true. unfold used. rewrite bind_assoc.
    erewrite bind_Ok by reflexivity. rewrite En, bind_assoc.
    erewrite bind_Ok by (apply zth_assert_true, Z.ltb_lt; lia). erewrite bind_Ok by reflexivity.
    unfold add. erewrite bind_Ok by (by apply fiber_at_run). rewrite Sx.
    erewrite bind_Ok by by apply zth_assert_true. simpl.
    erewrite on_runnable_run; [done|]. simpl. rewrite decide_False; [done|]. set_solver.
  - destruct W as [V1 V2 V3 V4 V5 V6 V7]. constructor; simpl; try done.
    + rewrite <-(assoc_L (++)). simpl. rewrite <-Permutation_middle. apply NoDup_cons in V1 as [V0 V1].
      apply NoDup_cons. split; [set_solver|]. by apply NoDup_cons.
    + intros g [Hg|Hg]%elem_of_app; [auto|]. assert (g = f) as -> by set_solver. eauto.
    + intros g Hg. destruct (decide (g = f)) as [->|Hgf].
      * rewrite lookup_insert_eq. eexists. split; [done|]. lia.
      * rewrite lookup_insert_ne by done. apply V4. set_solver.
Qed.

(** The current fiber sleeps: the first in the queue, or else the worker, gets
    the processor. *)
Lemma schedule_away w now now2 c :
  wf_worker w → may_schedule w now → m_currentFiber w = Some c → c ∉ m_runnableQueue w →
  good_now now → good_now later →
  (∀ n rest y, m_runnableQueue w = n :: rest → fibers w !! n = Some y → can_run ctx n y →
   ∃ w', schedule ctx later None now now2 w = Ok (Switched n, w') ∧ switched w w' n ∧ wf_worker (arrive w') ∧
     m_runnableQueue w' = rest ++ [n]) ∧
  (m_runnableQueue w = [] →
   ∃ w', schedule ctx later None now now2 w = Ok (Switched (m_workerFiber w), w') ∧
     switched w w' (m_workerFiber w) ∧ wf_worker (arrive w') ∧ m_runnableQueue w' = []).
Proof.
  intros W M Ec Hc Gn Gl. split.
  - intros n rest y Er Ey C. rewrite (schedule_start [] (n :: rest) w now now2 W M Er ltac:(done)).
    apply (reschedule_live _ n rest y); try done. rewrite Ec. simpl. rewrite Er in Hc. set_solver.
  - intros Er. rewrite (schedule_start [] [] w now now2 W M Er ltac:(done)).
    destruct (reschedule_worker (length (@nil addr) + 2) None c false w now now2) as (w' & Q & S & W' & Er');
      [done..|by left|]. exists w'. rewrite Er in Er'. done.
Qed.

Lemma asleep_switched w w' next f :
  asleep w f → switched w w' next → next ≠ f → m_runnableQueue w' ≡ₚ m_runnableQueue w → asleep w' f.
Proof.
  intros ((x & Ex & Sx & Nx & I & G) & Hw & Hq & R) (x' & y & y' & S1 & S2 & S3 & S4 & S5 & S6 & S7 & S8 & S9 & S10 & _ & _ & T1 & T2 & T3) Hne P.
  unfold asleep. rewrite S10, P, S9, S7. split; [|done].
  destruct (decide (f = default (m_workerFiber w) (m_currentFiber w))) as [->|Hf].
  - rewrite Ex in S1. injection S1 as <-. exists y'. rewrite Sx in S5. unfold fiber_inv in *.
    rewrite S5, T1, T2, T3. rewrite Sx in I. done.
  - exists x. rewrite S6 by done. done.
Qed.

Lemma arrive_asleep w f : asleep (arrive w) f ↔ asleep w f.
Proof. unfold arrive. by destruct (ptr_eqb _ _). Qed.

(** ...and whoever sleeps goes on sleeping. *)
Lemma schedule_away_any w now now2 c :
  wf_worker w → may_schedule w now → m_currentFiber w = Some c → c ∉ m_runnableQueue w →
  good_now now → good_now later →
  (∀ n, n ∈ m_runnableQueue w → ∃ y, fibers w !! n = Some y ∧ can_run ctx n y) →
  ∃ w', schedule ctx later None now now2 w = Ok (Switched (default (m_workerFiber w) (head (m_runnableQueue w))), w') ∧
    wf_worker (arrive w') ∧ (∀ g, asleep w g → asleep (arrive w') g) ∧
    m_runnableQueue w' = match m_runnableQueue w with [] => [] | n :: rest => rest ++ [n] end.
Proof.
  intros W M Ec Hc Gn Gl L. destruct (schedule_away w now now2 c W M Ec Hc Gn Gl) as [S1 S2].
  destruct (m_runnableQueue w) as [|n rest] eqn:En.
  - destruct (S2 eq_refl) as (w' & Q & Sw & W' & Er). exists w'. split_and!; try done.
    intros g Hg. apply arrive_asleep, (asleep_switched w w' (m_workerFiber w)); try done; [|by rewrite Er, En].
    by destruct Hg as (_ & ? & _).
  - destruct (L n) as (z & Ez & Cz); [auto with zth|].
    destruct (S1 n rest z eq_refl Ez Cz) as (w' & Q & Sw & W' & Er). exists w'. split_and!; try done.
    intros g Hg. apply arrive_asleep, (asleep_switched w w' n); try done.
    + destruct Hg as (_ & _ & Hg & _). rewrite En in Hg. set_solver.
    + by rewrite Er, En, (Permutation_app_comm rest).
Qed.

(** *** Rounds of the queue *)

(** Every fiber that gets the processor schedules again at once. *)
Fixpoint rounds (k : nat) (now now2 : Timestamp) (w : W) : outcome (list addr * W) :=
  match k with
  | O => Ok ([], w)
  | S k =>
      match schedule ctx later None now now2 w with
      | Ok (Switched n, w') =>
          match rounds k now now2 (arrive w') with
          | Ok (l, w'') => Ok (n :: l, w'')
          | Fault e => Fault e
          end
      | Ok (Returned _, _) => Fault OutOfFuel
      | Fault e => Fault e
      end
  end.

(** Every fiber in the queue can be switched to, or is the current one. *)
Definition live (w : W) : Prop :=
  ∀ f, f ∈ m_runnableQueue w → ∃ x, fibers w !! f = Some x ∧
    (can_run ctx f x ∨ (state x = Running ∧ m_currentFiber w = Some f)).

Lemma arrive_fields w :
  m_runnableQueue (arrive w) = m_runnableQueue w ∧ fibers (arrive w) = fibers w ∧
  m_end (arrive w) = m_end w ∧ m_disableContextSwitch (arrive w) = m_disableContextSwitch w.
Proof. unfold arrive. by destruct (ptr_eqb _ _). Qed.

Lemma rounds_step n rest w now now2 :
  wf_worker w → live w → may_schedule w now → m_runnableQueue w = n :: rest →
  m_currentFiber w ≠ Some n → good_now now → good_now later →
  ∃ w', schedule ctx later None now now2 w = Ok (Switched n, w') ∧ wf_worker (arrive w') ∧ live (arrive w') ∧
    may_schedule (arrive w') now ∧ m_runnableQueue (arrive w') = rest ++ [n] ∧ m_currentFiber (arrive w') = Some n.
Proof.
  intros W L M Er Hc Gn Gl. pose proof (wf_nodup w W) as Hnd. rewrite Er in Hnd.
  assert (n ≠ m_workerFiber w) as Hw by (apply NoDup_cons in Hnd as [Hnd _]; set_solver).
  destruct (L n) as (x & Ex & C); [rewrite Er; set_solver|]. destruct C as [C|[_ C]]; [|done].
  assert (n ≠ default (m_workerFiber w) (m_currentFiber w)) as Hne.
  { destruct (m_currentFiber w); simpl; congruence. }
  pose proof (schedule_start [] (n :: rest) w now now2 W M Er ltac:(done)) as Q. simpl in Q.
  destruct (reschedule_live (S (length rest + 2)) n rest x false w now now2 W Er Ex C Hne Gn Gl)
    as (w' & Q' & Sw & W' & Er'). exists w'. rewrite Q. split; [exact Q'|].
  destruct (arrive_fields w') as (A1 & A2 & A3 & A4).
  destruct Sw as (x' & y & y' & S1 & S2 & S3 & S4 & S5 & S6 & S7 & S8 & S9 & S10 & S11 & S12 & _).
  assert (m_currentFiber (arrive w') = Some n) as Ec.
  { unfold arrive. rewrite S8, S10. rewrite (proj2 (ptr_eqb_false _ _)) by congruence. done. }
  split_and!; [done| | |by rewrite A1|done].
  - intros f. rewrite A1, A2, Er', Ec. intros Hf. destruct (decide (f = n)) as [->|Hfn]; [eauto|].
    destruct (L f) as (z & Ez & Cz); [rewrite Er; set_solver|].
    destruct (decide (f = default (m_workerFiber w) (m_currentFiber w))) as [Hff|Hff].
    + exists y'. split; [congruence|]. left. rewrite Hff, S1 in Ez. injection Ez as <-. unfold can_run.
      rewrite S5. destruct Cz as [[Cz|[Cz ?]]|[Cz _]]; rewrite Cz; simpl; auto.
    + exists z. rewrite S6 by done. split; [done|]. left. destruct Cz as [Cz|[Cz Cz']]; [done|].
      destruct Hff. by rewrite Cz'.
  - unfold may_schedule. rewrite A3, A4, S11, S12. apply M.
Qed.

Lemma rounds_visit l1 l2 w now now2 :
  wf_worker w → live w → may_schedule w now → m_runnableQueue w = l2 ++ l1 →
  (∀ n, head l2 = Some n → m_currentFiber w ≠ Some n) → good_now now → good_now later →
  ∃ w', rounds (length l2) now now2 w = Ok (l2, w') ∧ wf_worker w' ∧ live w' ∧ m_runnableQueue w' = l1 ++ l2.
Proof.
  revert l1 w. induction l2 as [|n l2 IH]; intros l1 w W L M Er Hc Gn Gl; simpl.
  { exists w. rewrite app_nil_r. done. }
  destruct (rounds_step n (l2 ++ l1) w now now2) as (w1 & E1 & W1 & L1 & M1 & Er1 & Ec1); auto.
  destruct (IH (l1 ++ [n]) (arrive w1)) as (w' & E' & W' & L' & Er'); try done.
  - by rewrite Er1, <-(assoc_L (++)).
  - intros m Hm. rewrite Ec1. intros [= ->]. pose proof (wf_nodup w W) as Hnd. rewrite Er in Hnd.
    apply NoDup_cons in Hnd as [_ Hnd]. simpl in Hnd. apply NoDup_cons in Hnd as [Hnd _].
    apply Hnd. apply head_elem in Hm. set_solver.
  - exists w'. rewrite E1, E'. split_and!; try done. by rewrite Er', <-(assoc_L (++)).
Qed.
(** The current fiber suspends itself: it goes to the other queue, and the processor to the
    first fiber that is left, or back to the worker. *)
Lemma suspend_current w f x l1 l2 now now2 :
  wf_worker w → m_runnableQueue w = l1 ++ f :: l2 → fibers w !! f = Some x → m_currentFiber w = Some f → state x = Running →
  (∀ n, head (l1 ++ l2) = Some n → ∃ y, fibers w !! n = Some y ∧ can_run ctx n y) →
  may_schedule w now → good_now now → good_now later →
  ∃ w', suspend ctx later now now2 f w = Ok (Some (Switched (default (m_workerFiber w) (head (l1 ++ l2)))), w') ∧
    wf_worker (arrive w') ∧ m_suspendedQueue w' = m_suspendedQueue w ++ [f] ∧
    m_runnableQueue w' = match l1 ++ l2 with [] => [] | n :: rest => rest ++ [n] end.
Proof.
  intros W Er Ex Ec Sx Hn M Gn Gl. destruct (moved_to_suspended w f x l1 l2 W Er Ex) as [Q W']; [tauto|].
  set (w1 := set_suspended _ _) in *. pose proof (wf_nodup w W) as Hnd. rewrite Er in Hnd.
  assert (m_runnableQueue w1 = l1 ++ l2) as E1 by done.
  assert (∃ w', schedule ctx later None now now2 w1 = Ok (Switched (default (m_workerFiber w) (head (l1 ++ l2))), w') ∧
    wf_worker (arrive w') ∧ m_suspendedQueue w' = m_suspendedQueue w ++ [f] ∧
    m_runnableQueue w' = match l1 ++ l2 with [] => [] | n :: rest => rest ++ [n] end) as (w' & Q2 & P).
  { pose proof (schedule_start [] (l1 ++ l2) w1 now now2 W' M E1 ltac:(done)) as Q1. simpl in Q1. rewrite Q1. clear Q1.
    destruct (l1 ++ l2) as [|n rest] eqn:El; simpl.
    - destruct (reschedule_worker 2 None f false w1 now now2 W' Ec Gn Gl) as (w' & Q' & Sw & W'' & Er''); [by left|].
      exists w'. rewrite E1 in Er''. destruct Sw as (? & ? & ? & _ & _ & _ & _ & _ & _ & _ & _ & S9 & _). by split_and!.
    - destruct (Hn n eq_refl) as (y & Ey & C).
      assert (f ∉ n :: rest) as Nf.
      { apply NoDup_cons in Hnd as [_ Hnd]. apply NoDup_app in Hnd as [Hnd _]. apply NoDup_middle_inv in Hnd. by rewrite El in Hnd. }
      destruct (reschedule_live (S (length rest + 2)) n rest y false w1 now now2) as (w' & Q' & Sw & W'' & Er'');
        try done; [subst w1; simpl; rewrite lookup_insert_ne; [done|set_solver]|subst w1; simpl; rewrite Ec; simpl; set_solver|].
      exists w'. destruct Sw as (? & ? & ? & _ & _ & _ & _ & _ & _ & _ & _ & S9 & _). by split_and!. }
  exists w'. split; [|exact P]. unfold suspend. rewrite (bind_Ok _ _ _ _ _ (fiber_at_run f w x Ex)), Sx.
  rewrite <-!bind_assoc in Q. rewrite <-!bind_assoc.
  match type of Q with ?m w = _ => generalize dependent m end. intros m Q.
  rewrite !bind_assoc, (bind_Ok _ _ _ _ _ Q). erewrite bind_Ok by reflexivity.
  erewrite bind_Ok by (apply zth_assert_true; simpl; rewrite Ec; apply ptr_eqb_refl).
  erewrite bind_Ok.
  2:{ apply zth_assert_m_true. unfold contextSwitchEnabled, gets. simpl. by rewrite (proj1 M). }
  by rewrite (bind_Ok _ _ _ _ _ Q2).
Qed.

(** *** What does not touch the suspended fibers *)

Definition keeps {A : Type} (m : M W A) : Prop := ∀ w a w', m w = Ok (a, w') → m_suspendedQueue w' = m_suspendedQueue w.

Lemma keeps_bind {A B : Type} (m : M W A) (k : A → M W B) : keeps m → (∀ a, keeps (k a)) → keeps (m ≫= k).
Proof.
  intros Km Kk w b w'. unfold mbind, M_bind. destruct (m w) as [[a w1]|] eqn:E; [|done]. intros E'.
  by rewrite (Kk a w1 b w' E'), (Km w a w1 E).
Qed.

Lemma keeps_same {A : Type} (m : M W A) : (∀ w a w', m w = Ok (a, w') → w' = w) → keeps m.
Proof. intros Q w a w' E. by rewrite (Q w a w' E). Qed.

Lemma keeps_ret {A : Type} (a : A) : keeps (mret a).
Proof. intros w b w' [= _ ->]. done. Qed.
Lemma keeps_gets {A : Type} (f : W → A) : keeps (gets f).
Proof. intros w b w' [= _ ->]. done. Qed.
Lemma keeps_fail {A : Type} e : keeps (fail e : M W A).
Proof. done. Qed.
Lemma keeps_modify f : (∀ w, m_suspendedQueue (f w) = m_suspendedQueue w) → keeps (modify f).
Proof. intros Q w b w' [= _ <-]. apply Q. Qed.
Lemma keeps_assert b : keeps (zth_assert b).
Proof. intros w a w'. unfold zth_assert. destruct (_ && _); [done|]. by intros [= _ ->]. Qed.
Lemma keeps_fibers {A : Type} (m : M Fibers A) : keeps (with_fibers m).
Proof. intros w a w'. unfold with_fibers. destruct (m (fibers w)) as [[]|]; [|done]. by intros [= _ <-]. Qed.
Lemma keeps_queue op l : keeps (queue_op op l).
Proof. apply keeps_same. intros w a w'. unfold queue_op. destruct (spec_op op l); [|done]. by intros [= _ ->]. Qed.
Lemma keeps_when b (m : M W unit) : keeps m → keeps (when b m).
Proof. destruct b; [done|]. intros _. apply keeps_ret. Qed.

(** Step by step through a function. *)
Ltac keeps_step :=
  first [assumption | apply keeps_ret | apply keeps_gets | apply keeps_fail | apply keeps_assert | apply keeps_fibers | apply keeps_queue
        | apply keeps_when | (apply keeps_modify; intros []; reflexivity) | (apply keeps_bind; [|intros ?]) | case_match].

Lemma keeps_runnable op : keeps (on_runnable op).
Proof. unfold on_runnable. repeat keeps_step. Qed.

Lemma keeps_rotate f : keeps (rotate_after f).
Proof. unfold rotate_after. repeat first [apply keeps_runnable | keeps_step]. Qed.

Lemma keeps_run_next next now : keeps (run_next ctx later next now).
Proof. unfold run_next. repeat first [apply keeps_rotate | keeps_step]. Qed.

Lemma keeps_cleanup to_worker f : keeps to_worker → keeps (cleanup_with to_worker f).
Proof.
  intros K. unfold cleanup_with, fiber_at, zth_assert_m, contextSwitchEnabled, unused. repeat first [apply keeps_runnable | keeps_step].
Qed.

Lemma keeps_reschedule fuel next ds now now2 : keeps (reschedule ctx later fuel next ds now now2).
Proof.
  revert next ds now now2. induction fuel as [|fuel IH]; intros next ds now now2; simpl; [apply keeps_fail|].
  repeat first [apply keeps_run_next | apply keeps_cleanup | apply IH | keeps_step].
Qed.

Lemma keeps_schedule prefer now now2 : keeps (schedule ctx later prefer now now2).
Proof. unfold schedule, contextSwitchEnabled. repeat first [apply keeps_reschedule | keeps_step]. Qed.
End Scheduling.

(** ** Properties *)


(** C19: the scheduler is fair.  When all fibers in the run queue can run and
    each schedules again as soon as it gets the processor, one round runs every
    fiber of the queue exactly once, in queue order, and leaves the queue as it
    was; so no fiber waits for more than one turn of each other fiber. *)
Theorem schedule_round_robin `{Config} ctx later w now now2 l :
  wf_worker w → live ctx w → may_schedule w now → m_runnableQueue w = l →
  (∀ n, head l = Some n → m_currentFiber w ≠ Some n) → good_now now → good_now later →
  ∃ w', rounds ctx later (length l) now now2 w = Ok (l, w') ∧ wf_worker w' ∧ live ctx w' ∧ m_runnableQueue w' = l.
Proof.
  intros W L M Er Hc Gn Gl. eapply (rounds_visit ctx later [] l); try done. by rewrite app_nil_r.
Qed.

(** C20: starting a new fiber, suspending one that can run and resuming a
    suspended one each put it at the back of the right queue, keep the order of
    the others and keep the scheduler well-formed; suspending the current fiber
    switches away from it. *)
Theorem worker_queue_moves `{Config} ctx later w now now2 f x l1 l2 :
  wf_worker w → fibers w !! f = Some x →
  (state x = New → runnable_ok x → f ≠ m_workerFiber w → f ∉ m_runnableQueue w ++ m_suspendedQueue w →
   (0 ≤ default 0 (refs w !! f) < 2 ^ 64 - 1)%Z →
   ∃ w', hatch f w = Ok (tt, w') ∧ wf_worker w' ∧ m_runnableQueue w' = m_runnableQueue w ++ [f] ∧
     refs w' !! f = Some (default 0 (refs w !! f) + 1)%Z) ∧
  (m_runnableQueue w = l1 ++ f :: l2 → state x = New ∨ state x = Ready →
   ∃ w', suspend ctx later now now2 f w = Ok (None, w') ∧ wf_worker w' ∧ m_runnableQueue w' = l1 ++ l2 ∧
     m_suspendedQueue w' = m_suspendedQueue w ++ [f]) ∧
  (m_suspendedQueue w = l1 ++ f :: l2 →
   ∃ w', resume f w = Ok (tt, w') ∧ wf_worker w' ∧ m_suspendedQueue w' = l1 ++ l2 ∧
     m_runnableQueue w' = m_runnableQueue w ++ [f]) ∧
  (∀ n rest y, m_runnableQueue w = l1 ++ f :: l2 → m_currentFiber w = Some f → state x = Running →
   l1 ++ l2 = n :: rest → fibers w !! n = Some y → can_run ctx n y →
   may_schedule w now → good_now now → good_now later →
   ∃ w', suspend ctx later now now2 f w = Ok (Some (Switched n), w') ∧ wf_worker (arrive w') ∧
     m_runnableQueue w' = rest ++ [n] ∧ m_suspendedQueue w' = m_suspendedQueue w ++ [f]).
Proof.
  intros W Ex. split_and!.
  - intros Sx Ox Hw Hf B. destruct (hatched ctx w f x _ W Ex Sx Ox Hw Hf eq_refl B) as [Q W'].
    eexists. split; [exact Q|]. split; [exact W'|]. split; [done|]. apply lookup_insert_eq.
  - intros Er Sx. destruct (moved_to_suspended ctx w f x l1 l2 W Er Ex) as [Q W']; [tauto|].
    eexists. split; [|split; [exact W'|done]]. unfold suspend. rewrite (bind_Ok _ _ _ _ _ (fiber_at_run f w x Ex)).
    rewrite <-!bind_assoc in Q.
    destruct Sx as [->| ->]; rewrite <-!bind_assoc; by rewrite (bind_Ok _ _ _ _ _ Q).
  - intros Er. destruct (moved_to_runnable ctx w f x l1 l2 W Er Ex) as (Q & W' & _).
    eexists. split; [exact Q|]. split; [exact W'|done].
  - intros n rest y Er Ec Sx En Ey C M Gn Gl.
    destruct (suspend_current ctx later w f x l1 l2 now now2) as (w' & Q & W' & Es & Er'); try done.
    { rewrite En. intros ? [= <-]. by exists y. }
    exists w'. rewrite En in Q, Er'. by split_and!.
Qed.

(** What [schedule] does when it does not take a fiber from the queue.
    With context switching disabled it returns at once; when the run time is
    over it goes back to the worker.  A worker that is in its own context and
    finds only dead fibers returns [true], unless it has never switched to a
    fiber before: then its own fiber is still in state [Ready], and the
    assertion in [Fiber::run] that it does not switch to itself fails. *)
Theorem schedule_without_fiber `{Config} ctx later w now now2 prefer :
  wf_worker w → good_now now → good_now later →
  (m_disableContextSwitch w ≠ 0%Z → schedule ctx later prefer now now2 w = Ok (Returned true, w)) ∧
  (∀ c, m_disableContextSwitch w = 0%Z → ts_isNull (m_end w) = false → isBefore (m_end w) now = true →
     m_currentFiber w = Some c → match prefer with Some p => p ∈ m_runnableQueue w | None => True end →
     ∃ w', schedule ctx later prefer now now2 w = Ok (Switched (m_workerFiber w), w') ∧ wf_worker (arrive w')) ∧
  (∀ x, may_schedule w now → m_currentFiber w = None → Forall (dead_fiber w) (m_runnableQueue w) →
     fibers w !! m_workerFiber w = Some x →
     (state x = Running → m_runnableQueue w ≠ [] → ∃ w', schedule ctx later None now now2 w = Ok (Returned true, w') ∧
        m_runnableQueue w' = []) ∧
     (state x = Ready → EnableAssert = true → schedule ctx later None now now2 w = Fault AssertFailed)) ∧
  (∀ c x, m_currentFiber w = Some c → fibers w !! c = Some x → state x = Running → isBefore (stateEnd x) now = false →
     yield ctx later prefer false now now2 w = Ok (None, w)).
Proof.
  intros W Gn Gl. split_and!.
  - intros D. unfold schedule. erewrite bind_Ok by reflexivity. by rewrite (proj2 (Z.eqb_neq _ _) D).
  - intros c D E1 E2 Ec Hp. unfold schedule. erewrite bind_Ok by reflexivity. rewrite D. simpl.
    do 2 (erewrite bind_Ok by reflexivity). erewrite bind_Ok.
    2:{ apply zth_assert_true. destruct prefer; [|done]. by rewrite (bool_decide_true (_ ∈ _)), orb_true_r. }
    do 2 (erewrite bind_Ok by reflexivity). rewrite E1, E2. simpl.
    destruct (reschedule_worker ctx later (length (m_runnableQueue w) + 2) (Some (m_workerFiber w)) c false w now now2)
      as (w' & Q & Sw & W' & _); [done..|by right|].
    exists w'. split; [|done]. unfold sched_fuel.
    replace (length (m_runnableQueue w) + 3) with (S (length (m_runnableQueue w) + 2)) by lia. exact Q.
  - intros x M Ec F Ex.
    pose proof (schedule_start ctx later (m_runnableQueue w) [] w now now2 W M ltac:(by rewrite app_nil_r) F) as Q.
    destruct (reap_all_spec ctx later (m_runnableQueue w) [] w W ltac:(by rewrite app_nil_r) F)
      as (W1 & R1 & R2 & R3 & R4 & R5 & R6 & R7 & _).
    set (w1 := reap_all _ _ _) in *. rewrite Q. clear Q.
    assert (fibers w1 !! m_workerFiber w1 = Some x) as Ex1.
    { rewrite R3, R7; [done|]. pose proof (wf_nodup w W) as Hnd. apply NoDup_cons in Hnd as [Hnd _]. set_solver. }
    change (S (length [] + 2)) with 3. cbn [reschedule]. do 2 (erewrite bind_Ok by reflexivity). rewrite R1. simpl.
    unfold run_next. rewrite bind_assoc. erewrite bind_Ok by reflexivity. rewrite bind_assoc.
    erewrite bind_Ok by reflexivity. rewrite bind_assoc. erewrite bind_Ok by reflexivity.
    rewrite (bool_decide_true (m_workerFiber w1 = _)) by done. simpl.
    rewrite bind_assoc. erewrite bind_Ok by reflexivity. rewrite R2, Ec. simpl. split.
    + intros Sx Hq. rewrite bind_assoc. erewrite bind_Ok by (eapply with_fibers_run, run_running; [exact Ex1|done]).
      unfold EAGAIN. simpl. rewrite bool_decide_false by done. eexists. split; [reflexivity|]. done.
    + intros Sx A. apply bind_Fault, bind_Fault. unfold with_fibers. simpl. by rewrite (run_self_ready _ _ _ _ _ x).
  - intros c x Ec Ex Rx B. unfold yield. erewrite bind_Ok by reflexivity. rewrite Ec. simpl.
    erewrite bind_Ok by by apply zth_assert_true. rewrite (bind_Ok _ _ _ _ _ (fiber_at_run c w x Ex)).
    unfold allowYield. rewrite Rx, B. done.
Qed.

(** *** Witnesses: the worker's fiber 1, fibers 2, 3 and 6 that can run, a dead
    fiber 4 and a suspended fiber 5. *)

Definition example_fibers : Fibers :=
  list_to_map [(1, example_running); (2, example_ready); (3, example_fiber); (4, kill example_ready);
               (5, Fiber.suspend example_ready); (6, example_ready)]%positive.

Definition example_worker (run susp : list addr) : W :=
  mkW example_fibers (list_to_map ((λ f : addr, (f, 1%Z)) <$> [2; 3; 4; 5; 6]%positive)) None run susp 1 null_ts 0.

Lemma example_worker_wf run susp :
  NoDup (1%positive :: run ++ susp) → run ⊆ [2; 3; 4; 6]%positive → susp ⊆ [5]%positive →
  wf_worker (example_worker run susp).
Proof.
  intros Hnd Hr Hs. constructor; simpl; try done.
  - intros f Hf%Hr. repeat (apply elem_of_cons in Hf as [->|Hf]; [eexists; split; [reflexivity|]; by vm_compute; intuition|]).
    by apply elem_of_nil in Hf.
  - intros f Hf%Hs. assert (f = 5%positive) as -> by set_solver. eexists. split; [reflexivity|]. by vm_compute; intuition.
  - intros f [Hf%Hr|Hf%Hs]%elem_of_app.
    + repeat (apply elem_of_cons in Hf as [->|Hf]; [eexists; split; [reflexivity|]; lia|]). by apply elem_of_nil in Hf.
    + assert (f = 5%positive) as -> by set_solver. eexists. split; [reflexivity|]. lia.
  - eexists. split; [reflexivity|]. vm_compute. intuition discriminate.
  - intros f x Hf Rx. unfold example_fibers in Hf. simpl in Hf.
    repeat (apply lookup_insert_Some in Hf as [[<- <-]|[_ Hf]]; [done|]). by rewrite lookup_empty in Hf.
Qed.

Definition example_now : Timestamp := mkTs 7 0.

Lemma example_now_good : good_now example_now.
Proof. vm_compute. intuition discriminate. Qed.

Lemma example_worker_ready run susp : may_schedule (example_worker run susp) example_now.
Proof. done. Qed.


Lemma schedule_round_robin_witness :
  ∃ w', rounds (H := debug_config) (λ _, 0%Z) example_now 3 example_now example_now
          (example_worker [2; 3; 6] [5])%positive = Ok ([2; 3; 6]%positive, w').
Proof.
  destruct (schedule_round_robin (H := debug_config) (λ _, 0%Z) example_now (example_worker [2; 3; 6] [5])%positive
    example_now example_now [2; 3; 6]%positive) as (w' & E & _);
    [apply example_worker_wf; [by apply (bool_decide_unpack _)|set_solver|set_solver]| |apply example_worker_ready|done|done|
     apply example_now_good..|exists w'; exact E].
  intros f Hf. simpl in Hf.
  repeat (apply elem_of_cons in Hf as [->|Hf]; [eexists; split; [reflexivity|]; left; (by left) || (by right)|]).
  by apply elem_of_nil in Hf.
Defined.

Lemma worker_queue_moves_witness :
  ∃ w', suspend (H := debug_config) (λ _, 0%Z) example_now example_now example_now 3
          (example_worker [2; 3; 6] [5])%positive = Ok (None, w') ∧ m_suspendedQueue w' = [5; 3]%positive.
Proof.
  destruct (worker_queue_moves (H := debug_config) (λ _, 0%Z) example_now (example_worker [2; 3; 6] [5])%positive
    example_now example_now 3 example_fiber [2]%positive [6]%positive) as (_ & S & _);
    [apply example_worker_wf; [by apply (bool_decide_unpack _)|set_solver|set_solver]|done|].
  destruct S as (w' & E & _ & _ & Es); [done|by left|]. exists w'. split; [exact E|exact Es].
Defined.

(** The worker's fiber has not been switched to yet. *)
Definition fresh_worker : W :=
  set_fibers (<[1%positive:=example_ready]> example_fibers) (example_worker [4] [5])%positive.

Lemma fresh_worker_wf : wf_worker fresh_worker.
Proof.
  destruct (example_worker_wf [4] [5])%positive as [V1 V2 V3 V4 V5 V6 V7];
    [by apply (bool_decide_unpack _)|set_solver|set_solver|].
  constructor; simpl; try done.
  - intros f Hf. rewrite lookup_insert_ne by set_solver. by apply V2.
  - intros f Hf. rewrite lookup_insert_ne by set_solver. by apply V3.
  - eexists. split; [reflexivity|]. vm_compute. intuition discriminate.
  - intros f x [[<- <-]|[? Hf]]%lookup_insert_Some Rx; [done|]. by apply (V7 f x).
Qed.

Lemma schedule_without_fiber_witness :
  schedule (H := debug_config) (λ _, 0%Z) example_now None example_now example_now fresh_worker = Fault AssertFailed.
Proof.
  destruct (schedule_without_fiber (H := debug_config) (λ _, 0%Z) example_now fresh_worker example_now example_now None)
    as (_ & _ & D & _); [apply fresh_worker_wf|apply example_now_good..|].
  apply (D example_ready); [done|done| |done|done|done].
  apply List.Forall_cons; [|apply List.Forall_nil]. split; [done|]. eexists. split; reflexivity.
Defined.

End Worker.
