(* ===== verification/Waiter.v ===== *)
(** * The waiter (libzth/waiter.h, src/waiter.cpp)

    One fiber per worker keeps the fibers that sleep in a list that is sorted
    by their time-outs, and wakes them up.  The list is the sorted sequence of
    AATree.v, which the pointer structure of SortedList.v implements; the poll
    server is an interface, [PollerStore], that Poller.v implements. *)

From stdpp Require Import base gmap list sorting.
From S2P Require Import Prelude IntrusiveList AATree Time Hook Fiber Worker.

Set Default Proof Using "Type".

#[local] Arguments timeTo : simpl never.
#[local] Arguments Time.add : simpl never.
#[local] Arguments ts_add : simpl never.

(** What the waiter needs of the poll servers that it holds by address. *)
Class PollerStore (P : Type) := {
  p_empty : P → bool;
  p_new : P;                                        (** [DefaultPollerServer()] *)
  p_migrateTo : addr → addr → M (gmap addr P) Z;    (** [from->migrateTo( *to)] *)
  p_wf : P → Prop                                   (** the invariant of a server *)
}.

(** A migration that succeeds moves everything; one that fails nothing. *)
Class PollerStoreLaws (P : Type) `{PollerStore P} : Prop := {
  migrate_ok from to s a b :
    from ≠ to → s !! from = Some a → s !! to = Some b → p_wf a → p_wf b →
    ∃ res a' b', p_migrateTo from to s = Ok (res, <[to:=b']> (<[from:=a']> s)) ∧ p_wf a' ∧ p_wf b' ∧
      (res = 0%Z → p_empty a' = true ∧ p_empty b' = p_empty a && p_empty b) ∧
      (res ≠ 0%Z → p_empty a' = p_empty a);
  new_empty : p_empty p_new = true;
  new_wf : p_wf p_new
}.

Module Waiter.

(** ** Data *)

(** The classes that override [poll]: [TimedWaitable], [PolledWaiting] with its
    interval, and those defined elsewhere. *)
Inductive WKind := Timed | Polled (interval : TimeInterval) | Derived.

Record Waitable := mkWt { w_kind : WKind; m_timeout : Timestamp; m_fiber : ptr }.

Definition setTimeout (t : Timestamp) (x : Waitable) : Waitable := mkWt (w_kind x) t (m_fiber x).
Definition setFiber (p : ptr) (x : Waitable) : Waitable := mkWt (w_kind x) (m_timeout x) p.

Record WS {E P : Type} := mkWS {
  worker : Worker.W;
  objs : gmap addr Waitable;        (** the waitables *)
  m_waiting : list addr;
  waiter_fiber : ptr;               (** [Runnable::fiber()] *)
  m_poller : ptr;
  m_defaultPoller : ptr;
  pollers : gmap addr P;
  env : E                           (** what callbacks and derived classes use *)
}.
Arguments WS : clear implicits.
Arguments mkWS {E P}.

Definition set_worker {E P} (w : Worker.W) (s : WS E P) : WS E P :=
  mkWS w (objs s) (m_waiting s) (waiter_fiber s) (m_poller s) (m_defaultPoller s) (pollers s) (env s).
Definition set_objs {E P} (o : gmap addr Waitable) (s : WS E P) : WS E P :=
  mkWS (worker s) o (m_waiting s) (waiter_fiber s) (m_poller s) (m_defaultPoller s) (pollers s) (env s).
Definition set_waiting {E P} (l : list addr) (s : WS E P) : WS E P :=
  mkWS (worker s) (objs s) l (waiter_fiber s) (m_poller s) (m_defaultPoller s) (pollers s) (env s).
Definition set_env {E P} (e : E) (s : WS E P) : WS E P :=
  mkWS (worker s) (objs s) (m_waiting s) (waiter_fiber s) (m_poller s) (m_defaultPoller s) (pollers s) e.
Definition set_pollers {E P} (p d : ptr) (ps : gmap addr P) (s : WS E P) : WS E P :=
  mkWS (worker s) (objs s) (m_waiting s) (waiter_fiber s) p d ps (env s).

(** [TimedWaitable::operator<]: the order of [m_waiting]. *)
Definition timeout_of (o : gmap addr Waitable) (x : addr) : Timestamp :=
  match o !! x with Some a => m_timeout a | None => null_ts end.
#[export] Instance by_timeout (o : gmap addr Waitable) : Compare := λ x y,
  isBefore (timeout_of o x) (timeout_of o y).

(** How a call that waits came back or left. *)
Inductive wait_result :=
| NoWait                                       (** not in a running fiber *)
| Passed (r : option Worker.sched_result)      (** the condition held: [yield] *)
| Waits (r : Worker.sched_result).             (** sleeps; [schedule] *)

(** What the waiter's loop does when it has nothing to run. *)
Inductive sleep_action := NoSleep | PollFor (timeout_ms : Z) | SleepUntil (t : Timestamp).

(** [Away]: the processor went to another fiber; the loop continues with
    [doRealSleep] false when it is back. *)
Inductive yielded := Away (next : addr) | Stay (doRealSleep : bool).

Section Operations.
Context `{Config} {E P : Type} `{PollerStore P}.
Context (context_create : addr → Z) (later : Timestamp).
(** The callback of a [PolledWaiting], and the [poll] of other classes. *)
Context (m_f : addr → E → bool * E).
Context (derived_poll : addr → Timestamp → M (WS E P) bool).
(** [Config::Debug]. *)
Context (debug : bool).

Abbreviation St := (WS E P).

Definition with_worker {A : Type} (m : M Worker.W A) : M St A := λ s,
  match m (worker s) with
  | Ok (a, w) => Ok (a, set_worker w s)
  | Fault e => Fault e
  end.

Definition obj (x : addr) : M St Waitable := λ s,
  match objs s !! x with Some a => Ok (a, s) | None => Fault NullDeref end.
Definition update_obj (x : addr) (g : Waitable → Waitable) : M St unit :=
  a ← obj x; modify (λ s, set_objs (<[x:=g a]> (objs s)) s).

(** [m_waiting.insert], [erase]; an element that is inserted twice or erased
    without being a member is the list's failing assertion. *)
Definition insert (x : addr) : M St unit :=
  l ← gets m_waiting; o ← gets objs;
  if decide (x ∈ l) then fail AssertFailed else modify (set_waiting (ins (H := by_timeout o) x l)).
Definition erase (x : addr) : M St unit :=
  l ← gets m_waiting;
  if decide (x ∈ l) then modify (set_waiting (filter (λ e, e ≠ x) l)) else fail AssertFailed.

(** [PolledWaiting::poll]. *)
Definition polled_poll (x : addr) (interval : TimeInterval) (now : Timestamp) : M St bool :=
  e ← gets env;
  let '(b, e) := m_f x e in
  modify (set_env e);;
  if b then mret true
  else
    a ← obj x;
    next_poll ← ts_add (m_timeout a) interval;
    next_poll ← (if isBefore next_poll now then ts_add now interval else mret next_poll);
    update_obj x (setTimeout next_poll);;
    mret false.

(** [PolledWaiting::setInterval]. *)
Definition setInterval (x : addr) (interval : TimeInterval) (now : Timestamp) : M St unit :=
  a ← obj x;
  t ← ts_add now interval;
  update_obj x (λ _, mkWt (Polled interval) t (m_fiber a)).

(** The virtual [poll]. *)
Definition poll (x : addr) (now : Timestamp) : M St bool :=
  a ← obj x;
  match w_kind a with
  | Timed => mret (ts_le (m_timeout a) now)
  | Polled i => polled_poll x i now
  | Derived => derived_poll x now
  end.

Definition resume_waiter : M St unit :=
  p ← gets waiter_fiber;
  match p with Some f => with_worker (Worker.resume f) | None => mret tt end.

(** [Waiter::wait]. *)
Definition wait (x : addr) (now now2 : Timestamp) : M St wait_result :=
  cur ← with_worker (gets Worker.m_currentFiber);
  match cur with
  | None => mret NoWait
  | Some f =>
      y ← with_worker (Worker.fiber_at f);
      if negb (state_eqb (state y) Running) then mret NoWait
      else
        b ← poll x now;
        if b : bool then
          r ← with_worker (Worker.yield context_create later nullptr false now now2); mret (Passed r)
        else
          update_obj x (setFiber (Some f));;
          a ← obj x;
          with_worker (Worker.update_fiber f (Fiber.nap (m_timeout a)));;
          with_worker (Worker.release f);;
          insert x;;
          resume_waiter;;
          r ← with_worker (Worker.schedule context_create later None now now2);
          mret (Waits r)
  end.

Definition scheduleTask (x : addr) : M St unit := insert x;; resume_waiter.

Definition unscheduleTask (x : addr) : M St unit :=
  l ← gets m_waiting; when (bool_decide (x ∈ l)) (erase x).

(** [f.wakeup(); m_worker.add(&f, true)]. *)
Definition wake_fiber (x : addr) : M St unit :=
  a ← obj x;
  match m_fiber a with
  | Some f => with_worker (Worker.update_fiber f Fiber.wakeup;; Worker.add f true)
  | None => mret tt
  end.

(** [Waiter::wakeup(TimedWaitable&)]. *)
Definition wakeup (x : addr) : M St unit :=
  l ← gets m_waiting;
  when (bool_decide (x ∈ l))
    (erase x;; wake_fiber x;; update_obj x (setFiber nullptr)).

(** The inner loop of [entry]. *)
Fixpoint wake_loop (fuel : nat) (now : Timestamp) : M St unit :=
  match fuel with
  | O => fail OutOfFuel
  | S fuel =>
      l ← gets m_waiting;
      match l with
      | [] => mret tt
      | x :: _ =>
          a ← obj x;
          if isBefore (m_timeout a) now then
            erase x;;
            b ← poll x now;
            (if b : bool then wake_fiber x
             else
               insert x;;
               a ← obj x;
               match m_fiber a with
               | Some f => when debug (with_worker (Worker.update_fiber f (Fiber.nap (m_timeout a))))
               | None => mret tt
               end);;
            wake_loop fuel now
          else mret tt
      end
  end.

(** [polling]. *)
Definition polling (s : St) : bool :=
  match (match m_poller s with Some p => Some p | None => m_defaultPoller s end) with
  | Some p => match pollers s !! p with Some q => negb (p_empty q) | None => false end
  | None => false
  end.

(** [poller()], where [fresh] is the address of a new [DefaultPollerServer]. *)
Definition poller (fresh : addr) : M St addr :=
  s ← get;
  match m_poller s, m_defaultPoller s with
  | Some p, _ | None, Some p => mret p
  | None, None =>
      put (set_pollers nullptr (Some fresh) (<[fresh:=p_new]> (pollers s)) s);; mret fresh
  end.

Definition migrate (from to : addr) : M St unit := λ s,
  match p_migrateTo from to (pollers s) with
  | Ok (_, ps) => Ok (tt, set_pollers (m_poller s) (m_defaultPoller s) ps s)
  | Fault e => Fault e
  end.

Definition poller_empty (p : addr) : M St bool := λ s,
  match pollers s !! p with Some q => Ok (p_empty q, s) | None => Fault NullDeref end.

(** [setPoller]. *)
Definition setPoller (p : ptr) (fresh : addr) : M St unit :=
  s ← get;
  match m_poller s, p with
  | None, _ => put (set_pollers p (m_defaultPoller s) (pollers s) s)
  | Some q, Some p =>
      migrate q p;; modify (λ s, set_pollers (Some p) (m_defaultPoller s) (pollers s) s)
  | Some q, None =>
      e ← poller_empty q;
      when (ptr_eqb (m_defaultPoller s) nullptr && negb e)
        (put (set_pollers (Some q) (Some fresh) (<[fresh:=p_new]> (pollers s)) s));;
      d ← gets m_defaultPoller;
      match d with Some d => migrate q d | None => mret tt end;;
      modify (λ s, set_pollers (m_defaultPoller s) (m_defaultPoller s) (pollers s) s)
  end.

(** [entry], between the inner loop and the sleep. *)
Definition entry_yield (now now2 : Timestamp) : M St yielded :=
  s ← get;
  if bool_decide (m_waiting s = []) && negb (polling s) then
    match waiter_fiber s with
    | None => fail NullDeref
    | Some f =>
        r ← with_worker (Worker.suspend context_create later now now2 f);
        match r with
        | Some (Worker.Switched n) => mret (Away n)
        | _ => mret (Stay false)
        end
    end
  else
    r ← with_worker (Worker.schedule context_create later None now now2);
    match r with
    | Worker.Switched n => mret (Away n)
    | Worker.Returned b => mret (Stay (negb b))
    end.

(** [end]: the first time-out or the end of the worker's run. *)
Definition sleep_end (s : St) : M St (option Timestamp) :=
  e ← (match m_waiting s with
       | [] => mret None
       | x :: _ => a ← obj x; mret (Some (m_timeout a))
       end);
  let run_end := Worker.m_end (worker s) in
  mret (if negb (ts_isNull run_end) && match e with None => true | Some t => ts_gt t run_end end
        then Some run_end else e).

(** [entry], the sleep; [ms] is [(int)(dt.s<float>() * 1000.0F)]. *)
Definition entry_sleep (ms : TimeInterval → Z) (doRealSleep : bool) (now : Timestamp) : M St sleep_action :=
  s ← get;
  e ← sleep_end s;
  if polling s then
    mret (PollFor (if doRealSleep then
                     match e with None => (-1)%Z | Some t => Z.max 0 (ms (timeTo now t)) end
                   else 0%Z))
  else if doRealSleep then
    match e with Some t => mret (SleepUntil t) | None => fail NullDeref end
  else mret NoSleep.
End Operations.

(** ** [nap] and its variants *)

(** The time to sleep until, if at all. *)
Definition nap_for `{Config} {S : Type} (sleepFor : TimeInterval) (now : Timestamp) : M S (option Timestamp) :=
  if hasPassed sleepFor then mret None else t ← ts_add now sleepFor; mret (Some t).

Definition mnap `{Config} {S : Type} (ms : Z) (now : Timestamp) : M S (option Timestamp) :=
  nap_for (interval (ms ÷ 1000) (s64 (Z.rem ms 1000 * 1000000)) false) now.
Definition unap `{Config} {S : Type} (us : Z) (now : Timestamp) : M S (option Timestamp) :=
  nap_for (interval (us ÷ 1000000) (s64 (Z.rem us 1000000 * 1000)) false) now.
Definition zth_nap `{Config} {S : Type} (ts : option timespec) (now : Timestamp) : M S (option Timestamp) :=
  match ts with Some t => nap_for (mkTI t false) now | None => mret None end.

(** ** [PeriodicWakeUp] *)

(** [nap]: the new [m_t], and whether to sleep until then (or else to yield). *)
Definition periodic_nap `{Config} {S : Type} (interval : TimeInterval) (reference now : Timestamp) : M S (Timestamp * bool) :=
  t ← ts_add reference interval;
  if ts_gt t now then mret (t, true)
  else
    t2 ← ts_add t interval;
    if ts_gt t2 now then mret (t, false) else mret (now, false).

(** ** The order by time-out *)

Lemma isBefore_lt a b :
  isBefore a b = true ↔ (tv_sec a < tv_sec b ∨ (tv_sec a = tv_sec b ∧ tv_nsec a < tv_nsec b))%Z.
Proof. unfold isBefore. rewrite orb_true_iff, andb_true_iff, !Z.ltb_lt, Z.eqb_eq. done. Qed.

Lemma isBefore_ge a b :
  isBefore a b = false ↔ (tv_sec b < tv_sec a ∨ (tv_sec a = tv_sec b ∧ tv_nsec b ≤ tv_nsec a))%Z.
Proof. rewrite <-not_true_iff_false, isBefore_lt. lia. Qed.

Lemma isBefore_le a b : isBefore a b = true → ts_le a b = true.
Proof. unfold ts_le. intros ->. apply orb_true_r. Qed.

#[export] Instance by_timeout_order (o : gmap addr Waitable) : @StrictWeakOrder (by_timeout o).
Proof.
  split; unfold m_comp, by_timeout.
  - intros x. apply isBefore_ge. lia.
  - intros x y z. rewrite !isBefore_lt. lia.
  - intros x y z. rewrite !isBefore_ge. lia.
Qed.

Lemma timeout_of_insert o x a y :
  timeout_of (<[x:=a]> o) y = if decide (x = y) then m_timeout a else timeout_of o y.
Proof. unfold timeout_of. case_decide; [subst; by rewrite lookup_insert_eq|by rewrite lookup_insert_ne]. Qed.

(** The order of a list does not depend on the time-outs of others. *)
Lemma ordered_frame o o' l :
  (∀ x, x ∈ l → timeout_of o' x = timeout_of o x) →
  StronglySorted (before (H := by_timeout o)) l → StronglySorted (before (H := by_timeout o')) l.
Proof.
  intros E S. induction S as [|x l S IH F]; [constructor|]. constructor; [apply IH; auto with zth|].
  rewrite Forall_forall in *. intros y Hy. generalize (F y Hy). unfold before, goes_left, m_comp, by_timeout.
  by rewrite !E by auto with zth.
Qed.

(** [x] is not due at [now], all of [D] is: [x] goes behind them. *)
Lemma ins_behind o x D R now :
  isBefore (timeout_of o x) now = false → Forall (λ y, isBefore (timeout_of o y) now = true) D →
  ins (H := by_timeout o) x (D ++ R) = D ++ ins (H := by_timeout o) x R.
Proof.
  intros Hx. induction 1 as [|y D Hy F IH]; [done|]. simpl.
  assert (goes_left (H := by_timeout o) x y = false) as ->; [|by rewrite IH].
  rewrite isBefore_ge in Hx. rewrite isBefore_lt in Hy. unfold goes_left, m_comp, by_timeout.
  rewrite (proj2 (isBefore_ge (timeout_of o x) (timeout_of o y))) by lia.
  by rewrite (proj2 (isBefore_lt (timeout_of o y) (timeout_of o x))) by lia.
Qed.

(** A time plus a positive interval. *)
Lemma ts_add_positive `{Config} {S : Type} t i (s : S) :
  m_negative i = false → ts_add t i s = Ok (m_t (Time.add (interval (tv_sec t) (tv_nsec t) false) i), s).
Proof.
  intros N. unfold ts_add. erewrite bind_Ok; [done|]. apply zth_assert_true. unfold isPositive, isNegative.
  unfold Time.add. rewrite N. simpl. repeat case_match; done.
Qed.

Lemma add_not_before t i :
  wf_ts t → wf i → m_negative i = false →
  isBefore (m_t (Time.add (interval (tv_sec t) (tv_nsec t) false) i)) t = false.
Proof.
  intros T I N. unfold Time.add. rewrite N. cbn [m_negative interval Bool.eqb].
  destruct (_ || _) eqn:E.
  - apply isBefore_ge. simpl. unfold wf_ts in T. unfold sec, nsec. simpl. lia.
  - apply orb_false_iff in E as [_ E]. apply Z.leb_gt in E. unfold wf_ts, wf, sec, nsec, time_max, BILLION in *.
    simpl in *. rewrite (s64_small (2 ^ 63 - 1 - tv_sec t)) in E by lia. rewrite s64_small in E by lia.
    rewrite (s64_small (tv_sec t + _)), (s64_small (tv_nsec t + _)) by lia.
    case_match; apply isBefore_ge; simpl; rewrite ?s64_small by lia.
    + left. lia.
    + destruct (decide (tv_sec (m_t i) = 0)%Z); [right|left]; lia.
Qed.

Lemma filter_head (x : addr) l : NoDup (x :: l) → filter (λ e, e ≠ x) (x :: l) = l.
Proof. intros Hnd. exact (filter_removed x [] l Hnd). Qed.


(** ** Well-formed waiters *)

Section Correct.
Context `{Config} {E P : Type} `{PollerStore P}.
Context (m_f : addr → E → bool * E).
Context (derived_poll : addr → Timestamp → M (WS E P) bool).
Context (debug : bool).

Abbreviation St := (WS E P).
Abbreviation wake_loop' := (wake_loop (P := P) m_f derived_poll debug).
Abbreviation poll' := (poll (P := P) m_f derived_poll).

(** A class of this file, with a time-out and an interval that can be added. *)
Definition pollable (a : Waitable) : Prop :=
  match w_kind a with
  | Timed => True
  | Polled i => wf i ∧ m_negative i = false
  | Derived => False
  end.

(** The list is sorted; every element's fiber, if it has one, sleeps, and no
    fiber waits for two elements. *)
Record wf_waiter (s : St) : Prop := {
  ww_worker : Worker.wf_worker (worker s);
  ww_sorted : StronglySorted (before (H := by_timeout (objs s))) (m_waiting s);
  ww_objs x : x ∈ m_waiting s → ∃ a, objs s !! x = Some a ∧ pollable a ∧
    ∀ f, m_fiber a = Some f → Worker.asleep (worker s) f;
  ww_distinct x y a b f : x ∈ m_waiting s → y ∈ m_waiting s → objs s !! x = Some a → objs s !! y = Some b →
    m_fiber a = Some f → m_fiber b = Some f → x = y
}.

Lemma obj_run x (s : St) a : objs s !! x = Some a → obj x s = Ok (a, s).
Proof. unfold obj. by intros ->. Qed.

Lemma update_obj_run x g (s : St) a :
  objs s !! x = Some a → update_obj x g s = Ok (tt, set_objs (<[x:=g a]> (objs s)) s).
Proof. intros Ex. unfold update_obj. by rewrite (bind_Ok _ _ _ _ _ (obj_run x s a Ex)). Qed.

Lemma with_worker_run {A} (m : M Worker.W A) (s : St) a w :
  m (worker s) = Ok (a, w) → with_worker m s = Ok (a, set_worker w s).
Proof. unfold with_worker. by intros ->. Qed.

Lemma waiting_insert_run x (s : St) :
  x ∉ m_waiting s → insert x s = Ok (tt, set_waiting (ins (H := by_timeout (objs s)) x (m_waiting s)) s).
Proof. intros Hx. unfold insert. do 2 (erewrite bind_Ok by reflexivity). by rewrite decide_False. Qed.

Lemma waiting_erase_run x (s : St) :
  x ∈ m_waiting s → erase x s = Ok (tt, set_waiting (filter (λ e, e ≠ x) (m_waiting s)) s).
Proof. intros Hx. unfold erase. erewrite bind_Ok by reflexivity. by rewrite decide_True. Qed.

(** *** One poll *)

(** What [poll] answers when [x] is due, and the state of the callbacks. *)
Definition poll_answer (o : gmap addr Waitable) (x : addr) (e : E) : bool * E :=
  match o !! x with
  | Some a => match w_kind a with Polled _ => m_f x e | _ => (true, e) end
  | None => (true, e)
  end.

(** The next time-out of a [PolledWaiting]. *)
Definition next_timeout (t : Timestamp) (i : TimeInterval) (now : Timestamp) : Timestamp :=
  let p := m_t (Time.add (interval (tv_sec t) (tv_nsec t) false) i) in
  if isBefore p now then m_t (Time.add (interval (tv_sec now) (tv_nsec now) false) i) else p.

Definition polled_again (a : Waitable) (now : Timestamp) : Waitable :=
  match w_kind a with Polled i => setTimeout (next_timeout (m_timeout a) i now) a | _ => a end.

Lemma polled_again_late a now :
  pollable a → wf_ts now → w_kind a ≠ Timed →
  isBefore (m_timeout (polled_again a now)) now = false.
Proof.
  intros L N K. unfold polled_again, pollable in *. destruct (w_kind a) as [|i|]; [done| |done].
  unfold next_timeout. simpl. destruct (isBefore (m_t (Time.add _ i)) now) eqn:Q; [|done]. apply add_not_before; tauto.
Qed.

Lemma poll_due x (s : St) a now b e :
  objs s !! x = Some a → pollable a → isBefore (m_timeout a) now = true → poll_answer (objs s) x (env s) = (b, e) →
  poll' x now s = Ok (b, set_env e (if b then s else set_objs (<[x:=polled_again a now]> (objs s)) s)).
Proof.
  intros Ex L D. unfold poll, poll_answer, polled_again, pollable in *. rewrite Ex.
  rewrite (bind_Ok _ _ _ _ _ (obj_run x s a Ex)). destruct (w_kind a) as [|i|]; [| |done].
  - intros [= <- <-]. rewrite isBefore_le by done. by destruct s.
  - intros Q. unfold polled_poll. erewrite bind_Ok by reflexivity. rewrite Q. erewrite bind_Ok by reflexivity.
    destruct b; [done|]. destruct L as [_ L].
    erewrite bind_Ok by (apply (obj_run x (set_env e s) a); done).
    erewrite bind_Ok by by apply ts_add_positive.
    unfold next_timeout. erewrite bind_Ok with (a := next_timeout (m_timeout a) i now) (s' := set_env e s).
    2:{ unfold next_timeout. destruct (isBefore (m_t (Time.add _ i)) now); [by apply ts_add_positive|done]. }
    by erewrite bind_Ok by by apply (update_obj_run x _ (set_env e s) a).
Qed.

(** *** One round of the loop *)

Definition woken_worker (w : Worker.W) (p : ptr) : Worker.W :=
  match p with Some f => Worker.awake w f true | None => w end.

(** [x] was due and its poll succeeded. *)
Definition after_wake (x : addr) (a : Waitable) (l : list addr) (e : E) (s : St) : St :=
  set_worker (woken_worker (worker s) (m_fiber a)) (set_env e (set_waiting l s)).

(** [x] was due and its poll failed. *)
Definition after_poll (x : addr) (a : Waitable) (l : list addr) (e : E) (now : Timestamp) (s : St) : St :=
  let o := <[x:=polled_again a now]> (objs s) in
  set_waiting (ins (H := by_timeout o) x l) (set_env e (set_objs o s)).

Lemma wf_waiter_cons s x l :
  wf_waiter s → m_waiting s = x :: l →
  NoDup (x :: l) ∧ StronglySorted (before (H := by_timeout (objs s))) l ∧
  ∃ a, objs s !! x = Some a ∧ pollable a ∧ ∀ f, m_fiber a = Some f → Worker.asleep (worker s) f.
Proof.
  intros W El. destruct W as [_ V2 V3 _]. rewrite El in V2, V3.
  split; [by apply ordered_NoDup in V2|]. split; [by apply StronglySorted_cons in V2 as [_ V2]|].
  apply V3. auto with zth.
Qed.

Lemma after_wake_wf x a l e s :
  wf_waiter s → m_waiting s = x :: l → objs s !! x = Some a → wf_waiter (after_wake x a l e s).
Proof using H.
  intros W El Ex. destruct (wf_waiter_cons s x l W El) as (Hnd & So & a' & Ex' & La & Fa).
  rewrite Ex in Ex'. injection Ex' as <-. apply NoDup_cons in Hnd as [Hx Hnd].
  destruct W as [V1 V2 V3 V4]. rewrite El in *. constructor; simpl.
  - unfold woken_worker. destruct (m_fiber a) as [f|]; [|done]. by apply Worker.woken_up; auto.
  - exact So.
  - intros y Hy. destruct (V3 y) as (b & Eb & Lb & Fb); [auto with zth|]. exists b. split; [done|]. split; [done|].
    intros g Hg. unfold woken_worker. destruct (m_fiber a) as [f|] eqn:Ef; [|auto].
    apply Worker.asleep_awake; auto. intros ->. apply Hx. by rewrite (V4 x y a b g) by auto with zth.
  - intros y z b c f Hy Hz. apply V4; auto with zth.
Qed.

Lemma after_poll_wf x a l e now s :
  wf_waiter s → m_waiting s = x :: l → objs s !! x = Some a → wf_waiter (after_poll x a l e now s).
Proof.
  intros W El Ex. destruct (wf_waiter_cons s x l W El) as (Hnd & So & a' & Ex' & La & Fa).
  rewrite Ex in Ex'. injection Ex' as <-. apply NoDup_cons in Hnd as [Hx Hnd].
  assert (m_fiber (polled_again a now) = m_fiber a ∧ pollable (polled_again a now)) as [Ef Lp].
  { unfold polled_again, pollable in *. by destruct (w_kind a) eqn:K; simpl; rewrite ?K. }
  destruct W as [V1 V2 V3 V4]. rewrite El in *.
  assert (∀ y, y ∈ ins (H := by_timeout (<[x:=polled_again a now]> (objs s))) x l → y ∈ x :: l) as Hi.
  { intros y. by rewrite (ins_Permutation x l). }
  constructor; simpl.
  - done.
  - apply ins_ordered; [done|]. apply (ordered_frame (objs s)); [|done].
    intros y Hy. rewrite timeout_of_insert, decide_False by congruence. done.
  - intros y Hy%Hi. destruct (decide (y = x)) as [->|Hyx].
    + rewrite lookup_insert_eq. eexists. split; [done|]. split; [done|]. by rewrite Ef.
    + rewrite lookup_insert_ne by done. by apply V3.
  - assert (∀ y b, <[x:=polled_again a now]> (objs s) !! y = Some b →
      ∃ b', objs s !! y = Some b' ∧ m_fiber b' = m_fiber b) as Back.
    { intros y b [[<- <-]|[_ Hb]]%lookup_insert_Some; eauto. }
    intros y z b c f Hy%Hi Hz%Hi (b' & Eb & <-)%Back (c' & Ec & <-)%Back. by apply V4.
Qed.

Lemma nap_asleep t w f :
  Worker.asleep w f → Worker.update_fiber f (Fiber.nap t) w = Ok (tt, w).
Proof.
  intros ((y & Ey & Sy & _) & _). rewrite (Worker.update_fiber_run f _ w y Ey).
  assert (Fiber.nap t y = y) as ->; [|by rewrite insert_id, Worker.set_fibers_id].
  clear Ey. destruct y; simpl in *. by subst.
Qed.

Lemma set_worker_id (s : St) : set_worker (worker s) s = s.
Proof. by destruct s. Qed.

Lemma wake_loop_step fuel x a l b e now s :
  wf_waiter s → m_waiting s = x :: l → objs s !! x = Some a →
  isBefore (m_timeout a) now = true → poll_answer (objs s) x (env s) = (b, e) →
  wake_loop' (S fuel) now s =
    wake_loop' fuel now (if b then after_wake x a l e s else after_poll x a l e now s).
Proof.
  intros W El Ex D Q. destruct (wf_waiter_cons s x l W El) as (Hnd & So & a' & Ex' & La & Fa).
  rewrite Ex in Ex'. injection Ex' as <-.
  cbn [wake_loop]. erewrite bind_Ok by reflexivity. rewrite El.
  rewrite (bind_Ok _ _ _ _ _ (obj_run x s a Ex)), D.
  erewrite bind_Ok by (apply waiting_erase_run; rewrite El; auto with zth). rewrite El, filter_head by done.
  set (s0 := set_waiting l s).
  rewrite (bind_Ok _ _ _ _ _ (poll_due x s0 a now b e Ex La D Q)). destruct b.
  - unfold wake_fiber. rewrite bind_assoc.
    erewrite bind_Ok by (apply (obj_run x (set_env e s0) a); exact Ex).
    unfold after_wake, woken_worker. destruct (m_fiber a) as [f|] eqn:Ef.
    + erewrite bind_Ok; [reflexivity|]. apply with_worker_run.
      destruct (Worker.woken_up (worker s) f true) as [R _]; [apply W|by apply Fa|]. exact R.
    + erewrite bind_Ok by reflexivity. by destruct s.
  - assert (x ∉ l) as Hx by by apply NoDup_cons in Hnd as [? _].
    rewrite !bind_assoc. erewrite bind_Ok by (apply waiting_insert_run; exact Hx). rewrite bind_assoc.
    erewrite bind_Ok by (apply obj_run; simpl; apply lookup_insert_eq).
    erewrite bind_Ok; [reflexivity|].
    assert (m_fiber (polled_again a now) = m_fiber a) as ->
      by (unfold polled_again; by destruct (w_kind a)).
    destruct (m_fiber a) as [f|] eqn:Ef; [|done]. destruct debug; [|done]. cbn [when].
    erewrite with_worker_run by by apply nap_asleep, Fa. simpl. by destruct s.
Qed.

(** *** The whole loop *)

(** The elements of [D] whose poll succeeds, polled in this order. *)
Fixpoint wake_due (o : gmap addr Waitable) (D : list addr) (e : E) : list addr * E :=
  match D with
  | [] => ([], e)
  | x :: D =>
      let '(b, e) := poll_answer o x e in
      let '(woken, e) := wake_due o D e in
      (if b then x :: woken else woken, e)
  end.

(** The fibers of the waitables [l]. *)
Definition fibers_of (o : gmap addr Waitable) (l : list addr) : list addr :=
  omap (λ x, o !! x ≫= m_fiber) l.

Definition due (o : gmap addr Waitable) (now : Timestamp) (x : addr) : bool := isBefore (timeout_of o x) now.

Lemma wake_due_frame o o' D e :
  (∀ x, x ∈ D → o' !! x = o !! x) → wake_due o' D e = wake_due o D e.
Proof.
  revert e. induction D as [|x D IH]; intros e E'; [done|]. simpl. unfold poll_answer.
  rewrite E' by auto with zth. repeat case_match; rewrite ?IH in * by auto with zth; congruence.
Qed.

Lemma wake_due_subset o D e : fst (wake_due o D e) ⊆ D.
Proof. clear derived_poll.
  revert e. induction D as [|x D IH]; intros e; [done|]. simpl.
  destruct (poll_answer o x e) as [b e']. specialize (IH e'). destruct (wake_due o D e') as [w e'']. simpl in *.
  destruct b; set_solver.
Qed.

Lemma fibers_of_cons o x l :
  fibers_of o (x :: l) = match o !! x ≫= m_fiber with Some f => f :: fibers_of o l | None => fibers_of o l end.
Proof. done. Qed.

Lemma fibers_of_frame o o' l : (∀ x, x ∈ l → o' !! x = o !! x) → fibers_of o' l = fibers_of o l.
Proof.
  induction l as [|x l IH]; intros Eo; [done|].
  rewrite !fibers_of_cons, Eo, IH by auto with zth. done.
Qed.

Lemma wake_due_frame_state o o' D e w e' :
  (∀ x, x ∈ D → o' !! x = o !! x) → wake_due o D e = (w, e') →
  wake_due o' D e = (w, e') ∧ fibers_of o' w = fibers_of o w.
Proof. clear derived_poll.
  intros Eo Q. split; [by rewrite (wake_due_frame o o')|].
  pose proof (wake_due_subset o D e) as S. rewrite Q in S. simpl in S. clear Q.
  apply fibers_of_frame. auto.
Qed.

Lemma elem_fibers_of o l f : f ∈ fibers_of o l ↔ ∃ x a, x ∈ l ∧ o !! x = Some a ∧ m_fiber a = Some f.
Proof.
  unfold fibers_of. rewrite list_elem_of_omap. split.
  - intros (x & Hx & E'). destruct (o !! x) as [a|] eqn:Ea; [|done]. by exists x, a.
  - intros (x & a & Hx & Ea & Ef). exists x. by rewrite Ea.
Qed.

(** What waking the waitables [woken] does to the worker. *)
Record woke (s s' : St) (woken : list addr) : Prop := {
  wk_queue : Worker.m_runnableQueue (worker s') = rev (fibers_of (objs s) woken) ++ Worker.m_runnableQueue (worker s);
  wk_ready f : f ∈ fibers_of (objs s) woken → ∃ y, Worker.fibers (worker s') !! f = Some y ∧ state y = Ready;
  wk_other f : f ∉ fibers_of (objs s) woken → Worker.fibers (worker s') !! f = Worker.fibers (worker s) !! f;
  wk_current : Worker.m_currentFiber (worker s') = Worker.m_currentFiber (worker s)
}.

Lemma woke_cons x a l e s s' woken :
  wf_waiter s → m_waiting s = x :: l → objs s !! x = Some a → woken ⊆ l →
  woke (after_wake x a l e s) s' woken → woke s s' (x :: woken).
Proof using H. clear m_f derived_poll.
  intros W El Ex Hw [Q1 Q2 Q3 Q4]. simpl in *.
  assert (fibers_of (objs s) (x :: woken) = match m_fiber a with
    Some f => f :: fibers_of (objs s) woken | None => fibers_of (objs s) woken end) as U
    by by rewrite fibers_of_cons, Ex.
  destruct (wf_waiter_cons s x l W El) as (Hnd & _ & a' & Ex' & _ & Fa).
  rewrite Ex in Ex'. injection Ex' as <-. unfold woken_worker in *.
  destruct (m_fiber a) as [f|] eqn:Ef; [|constructor; by rewrite ?U].
  assert (f ∉ fibers_of (objs s) woken) as Hf.
  { rewrite elem_fibers_of. intros (y & b & Hy & Ey & Fy). apply NoDup_cons in Hnd as [Hx _]. apply Hx.
    rewrite (ww_distinct s W x y a b f) by (rewrite ?El; auto with zth). by apply Hw. }
  destruct (Worker.woken_up (worker s) f true (ww_worker s W) (Fa f eq_refl)) as (_ & _ & z & Ez & Sz & _).
  pose proof (Worker.awake_fields (worker s) f true) as A.
  constructor; rewrite ?U.
  - rewrite Q1. simpl. rewrite <-(assoc_L (++)). f_equal. unfold Worker.awake.
    destruct (Fa f eq_refl) as ((y & Ey & _) & _). by rewrite Ey.
  - intros g [->|Hg]%elem_of_cons; [|auto]. exists z. by rewrite Q3.
  - intros g Hg. rewrite Q3 by set_solver. apply A. set_solver.
  - rewrite Q4. by apply (A f).
Qed.

Lemma wake_loop_spec D R s now woken e :
  wf_waiter s → m_waiting s = D ++ R → wf_ts now →
  Forall (λ x, due (objs s) now x = true) D → Forall (λ x, due (objs s) now x = false) R →
  wake_due (objs s) D (env s) = (woken, e) →
  ∃ s', (∀ fuel, wake_loop' (length D + S fuel) now s = Ok (tt, s')) ∧ wf_waiter s' ∧ env s' = e ∧
    m_waiting s' ≡ₚ filter (λ x, x ∉ woken) D ++ R ∧ Forall (λ x, due (objs s') now x = false) (m_waiting s') ∧
    woke s s' woken.
Proof.
  intros W El N. revert R s woken e W El. induction D as [|x D IH]; intros R s woken e W El FD FR Q.
  { simpl in Q. injection Q as <- <-. exists s. split.
    - intros fuel. simpl. erewrite bind_Ok by reflexivity. rewrite El. simpl. destruct R as [|y R]; [done|].
      destruct (ww_objs s W y) as (a & Ea & _); [rewrite El; auto with zth|].
      rewrite (bind_Ok _ _ _ _ _ (obj_run y s a Ea)). apply Forall_cons in FR as [Hy _].
      unfold due, timeout_of in Hy. rewrite Ea in Hy. by rewrite Hy.
    - split_and!; try done; [by rewrite El|by rewrite El|]. constructor; try done. intros f Hf. by apply elem_of_nil in Hf. }
  simpl in El. destruct (wf_waiter_cons s x (D ++ R) W El) as (Hnd & So & a & Ex & La & Fa).
  apply Forall_cons in FD as [Dx FD]. unfold due, timeout_of in Dx. rewrite Ex in Dx.
  simpl in Q. destruct (poll_answer (objs s) x (env s)) as [b e1] eqn:Qx.
  destruct (wake_due (objs s) D e1) as [wk e2] eqn:QD.
  assert (wk ⊆ D) as Hwk by (pose proof (wake_due_subset (objs s) D e1) as S; by rewrite QD in S).
  pose proof (proj1 (NoDup_cons _ _) Hnd) as [Hx HndDR].
  destruct b; injection Q as <- <-.
  - destruct (IH R (after_wake x a (D ++ R) e1 s) wk e2) as (s' & L & W' & E' & P' & F' & K); try done.
    { by apply after_wake_wf. }
    exists s'. split; [|split_and!; try done].
    + intros fuel. change (length (x :: D) + S fuel) with (S (length D + S fuel)).
      by rewrite (wake_loop_step _ x a (D ++ R) true e1 now s W El Ex Dx Qx).
    + rewrite filter_cons_False by set_solver. rewrite P'. apply reflexive_eq. f_equal.
      assert (x ∉ D) as HxD by set_solver. clear -HxD. induction D as [|y D IH]; [done|].
      rewrite !filter_cons, IH by set_solver. do 2 case_decide; set_solver.
    + eapply woke_cons; try done. set_solver.
  - set (o := <[x:=polled_again a now]> (objs s)).
    assert (∀ y, y ∈ D ++ R → timeout_of o y = timeout_of (objs s) y) as Eo.
    { intros y Hy. unfold o. rewrite timeout_of_insert, decide_False by congruence. done. }
    assert (isBefore (timeout_of o x) now = false) as Lx.
    { unfold o. rewrite timeout_of_insert, decide_True by done. apply polled_again_late; try done.
      intros K. unfold poll_answer in Qx. rewrite Ex, K in Qx. done. }
    destruct (wake_due_frame_state (objs s) o D e1 wk e2) as [QD' Ef]; [|done|].
    { intros y Hy. unfold o. rewrite lookup_insert_ne; [done|]. set_solver. }
    destruct (IH (ins (H := by_timeout o) x R) (after_poll x a (D ++ R) e1 now s) wk e2)
      as (s' & L & W' & E' & P' & F' & K); try done.
    + by apply after_poll_wf.
    + simpl. fold o. apply (ins_behind o x D R now); [done|]. rewrite Forall_forall in *. intros y Hy.
      rewrite Eo by auto with zth. by apply FD.
    + simpl. fold o. rewrite Forall_forall in *. intros y Hy. unfold due. rewrite Eo by auto with zth. by apply FD.
    + simpl. fold o. rewrite Forall_forall in *. intros y. rewrite (ins_Permutation x R).
      intros [->|Hy]%elem_of_cons; [done|]. unfold due. rewrite Eo by auto with zth. by apply FR.
    + exists s'. split; [|split_and!; try done].
      * intros fuel. change (length (x :: D) + S fuel) with (S (length D + S fuel)).
      by rewrite (wake_loop_step _ x a (D ++ R) false e1 now s W El Ex Dx Qx).
      * rewrite P', filter_cons_True by set_solver. rewrite (ins_Permutation x R). simpl. by rewrite Permutation_middle.
      * destruct K as [K1 K2 K3 K4]. simpl in *. fold o in K1, K2, K3. rewrite Ef in *. by constructor.
Qed.

Lemma sorted_split o now l :
  StronglySorted (before (H := by_timeout o)) l →
  l = filter (λ x, due o now x = true) l ++ filter (λ x, due o now x = false) l.
Proof.
  induction 1 as [|x l S IH F]; [done|]. destruct (due o now x) eqn:D.
  - rewrite filter_cons_True, filter_cons_False by congruence. simpl. by rewrite <-IH.
  - rewrite filter_cons_False, filter_cons_True by congruence.
    assert (∀ y, y ∈ l → due o now y = false) as N.
    { intros y Hy. rewrite Forall_forall in F. specialize (F y Hy). unfold before, goes_left, m_comp, by_timeout in F.
      unfold due in *. rewrite isBefore_ge in D. destruct (isBefore (timeout_of o x) (timeout_of o y)) eqn:C.
      - rewrite isBefore_lt in C. apply isBefore_ge. lia.
      - destruct (isBefore (timeout_of o y) (timeout_of o x)) eqn:C'; [done|].
        rewrite isBefore_ge in C'. apply isBefore_ge. lia. }
    rewrite (filter_none (λ y, due o now y = true)), filter_all; [done..|]. intros y Hy. by rewrite N.
Qed.

(** *** Going to sleep *)

Context (context_create : addr → Z) (later : Timestamp).

(** The waiter's own fiber is where [resume] looks for it. *)
Definition waiter_ok (s : St) : Prop :=
  ∀ g, waiter_fiber s = Some g → ∃ y, Worker.fibers (worker s) !! g = Some y ∧
    (state y = Suspended → g ∈ Worker.m_suspendedQueue (worker s)).

(** Every fiber in the run queue but [f] can be switched to. *)
Definition others_live (f : addr) (w : Worker.W) : Prop :=
  ∀ n, n ∈ Worker.m_runnableQueue w → n ≠ f →
    ∃ y, Worker.fibers w !! n = Some y ∧ Worker.can_run context_create n y.

Lemma resume_waiter_ok s f :
  Worker.wf_worker (worker s) → waiter_ok s → (∀ a, context_create a = 0%Z) → others_live f (worker s) →
  ∃ w' k, resume_waiter s = Ok (tt, set_worker w' s) ∧ Worker.wf_worker w' ∧
    Worker.m_runnableQueue w' = Worker.m_runnableQueue (worker s) ++ k ∧
    Worker.m_currentFiber w' = Worker.m_currentFiber (worker s) ∧ Worker.m_end w' = Worker.m_end (worker s) ∧
    Worker.m_disableContextSwitch w' = Worker.m_disableContextSwitch (worker s) ∧
    Worker.m_workerFiber w' = Worker.m_workerFiber (worker s) ∧
    (∀ g, Worker.asleep (worker s) g → Worker.asleep w' g) ∧ others_live f w'.
Proof. clear m_f later derived_poll.
  intros W K C L. unfold resume_waiter. destruct (waiter_fiber s) as [g|] eqn:Eg.
  2:{ exists (worker s), []. rewrite app_nil_r, set_worker_id. erewrite bind_Ok by reflexivity. by rewrite Eg. }
  destruct (K g Eg) as (y & Ey & Sy). erewrite bind_Ok by reflexivity. rewrite Eg.
  destruct (decide (state y = Suspended)) as [Q|Q].
  2:{ exists (worker s), []. rewrite app_nil_r, set_worker_id. split; [|done].
      erewrite with_worker_run; [by rewrite set_worker_id|]. unfold Worker.resume.
      rewrite (bind_Ok _ _ _ _ _ (Worker.fiber_at_run g (worker s) y Ey)). unfold state_eqb.
      by rewrite bool_decide_false. }
  apply Sy, list_elem_of_split in Q as (l1 & l2 & Es).
  destruct (Worker.moved_to_runnable context_create (worker s) g y l1 l2 W Es Ey) as (R & W' & St').
  set (w' := Worker.set_runnable _ _) in *.
  destruct (Worker.wf_suspended _ W g) as (y' & Ey' & _ & _ & Sy'); [rewrite Es; auto with zth|].
  rewrite Ey in Ey'. injection Ey' as <-.
  assert (∀ h, Worker.asleep (worker s) h → Worker.asleep w' h) as A.
  { intros h ((z & Ez & Sz & Z) & Hw & Hq & R'). rewrite Es in Hq. assert (h ≠ g) as Hh by (intros ->; set_solver).
    unfold Worker.asleep. simpl. rewrite lookup_insert_ne by done. split; [by exists z|]. split; [done|]. split; [|done].
    set_solver. }
  exists w', [g]. split; [by apply with_worker_run|]. split_and!; try done.
  intros n. simpl. intros [Hn|Hn]%elem_of_app Hnf.
  - destruct (L n Hn Hnf) as (z & Ez & Cz). exists z. rewrite lookup_insert_ne; [done|].
    intros ->. rewrite Ez in Ey. injection Ey as ->. destruct Cz as [Cz|[Cz _]]; congruence.
  - assert (n = g) as -> by set_solver. rewrite lookup_insert_eq. eexists. split; [done|].
    unfold Worker.can_run. destruct St'; [right|left]; done.
Qed.

(** [f], the current fiber, was taken out to wait for [x]. *)
Definition sleeping (x f : addr) (a : Waitable) (y : Fiber) (l : list addr) (s : St) : St :=
  let o := <[x:=setFiber (Some f) a]> (objs s) in
  set_waiting (ins (H := by_timeout o) x (m_waiting s))
    (set_worker (Worker.set_fibers (<[f:=Fiber.nap (m_timeout a) y]> (Worker.fibers (worker s)))
                   (Worker.set_runnable l (worker s))) (set_objs o s)).

Lemma sleeping_wf x f a y l1 l2 s :
  wf_waiter s → Worker.m_runnableQueue (worker s) = l1 ++ f :: l2 → Worker.fibers (worker s) !! f = Some y →
  state y = Running → objs s !! x = Some a → pollable a → x ∉ m_waiting s →
  wf_waiter (sleeping x f a y (l1 ++ l2) s) ∧ Worker.asleep (worker (sleeping x f a y (l1 ++ l2) s)) f.
Proof. clear m_f later derived_poll context_create.
  intros W Er Ey Sy Ex La Hx.
  destruct (Worker.napped_asleep _ f y (m_timeout a) l1 l2 (ww_worker s W) Er Ey Sy) as (W1 & Af & A).
  split; [|exact Af].
  destruct W as [V1 V2 V3 V4]. constructor; simpl.
  - exact W1.
  - apply ins_ordered; [done|]. apply (ordered_frame (objs s)); [|done].
    intros z Hz. rewrite timeout_of_insert, decide_False by congruence. done.
  - intros z. rewrite (ins_Permutation x). intros [->|Hz]%elem_of_cons.
    + rewrite lookup_insert_eq. eexists. split; [done|]. split; [done|]. by intros g [= <-].
    + destruct (V3 z Hz) as (b & Eb & Lb & Fb). exists b. rewrite lookup_insert_ne by congruence.
      split; [done|]. split; [done|]. intros g Hg. by apply A, Fb.
  - intros z z' b b' g. rewrite !(ins_Permutation x), !elem_of_cons.
    intros [->|Hz] [->|Hz'] Eb Eb' Fb Fb'; try done.
    + rewrite lookup_insert_eq in Eb. injection Eb as <-. rewrite lookup_insert_ne in Eb' by congruence.
      destruct (V3 z' Hz') as (c & Ec & _ & Fc). rewrite Eb' in Ec. injection Ec as <-. injection Fb as <-.
      by destruct (A f (Fc f Fb')).
    + rewrite lookup_insert_eq in Eb'. injection Eb' as <-. rewrite lookup_insert_ne in Eb by congruence.
      destruct (V3 z Hz) as (c & Ec & _ & Fc). rewrite Eb in Ec. injection Ec as <-. injection Fb' as <-.
      by destruct (A f (Fc f Fb)).
    + rewrite lookup_insert_ne in Eb, Eb' by congruence. by apply (V4 z z' b b' g).
Qed.

Abbreviation wait' := (wait (P := P) context_create later m_f derived_poll).

(** [wait], up to the call of [schedule]. *)
Lemma wait_start x f a y l1 l2 now now2 s s' :
  wf_waiter s → Worker.m_currentFiber (worker s) = Some f →
  Worker.m_runnableQueue (worker s) = l1 ++ f :: l2 → Worker.fibers (worker s) !! f = Some y →
  state y = Running → objs s !! x = Some a → w_kind a = Timed → ts_le (m_timeout a) now = false →
  x ∉ m_waiting s → resume_waiter (sleeping x f a y (l1 ++ l2) s) = Ok (tt, s') →
  wait' x now now2 s =
    (r ← with_worker (Worker.schedule context_create later None now now2); mret (Waits r)) s'.
Proof.
  intros W Ec Er Ey Sy Ex K D Hx R. unfold wait.
  erewrite bind_Ok by (apply with_worker_run; reflexivity). rewrite set_worker_id, Ec.
  erewrite bind_Ok by by apply with_worker_run, Worker.fiber_at_run. rewrite set_worker_id, Sy. simpl.
  unfold poll. rewrite bind_assoc, (bind_Ok _ _ _ _ _ (obj_run x s a Ex)), K, D.
  erewrite bind_Ok by reflexivity. cbn iota. rewrite (bind_Ok _ _ _ _ _ (update_obj_run x _ s a Ex)).
  erewrite bind_Ok by (apply obj_run; simpl; apply lookup_insert_eq).
  erewrite bind_Ok by (apply with_worker_run, Worker.update_fiber_run; exact Ey).
  pose proof (Worker.wf_nodup _ (ww_worker s W)) as Hnd. rewrite Er in Hnd.
  apply NoDup_cons in Hnd as [_ Hnd]. apply NoDup_app in Hnd as [Hnd _].
  erewrite bind_Ok.
  2:{ apply with_worker_run. unfold Worker.release.
      erewrite bind_Ok by (apply Worker.fiber_at_run; simpl; apply lookup_insert_eq).
      assert (∀ t, state_eqb (state (Fiber.nap t y)) Suspended = false) as ->
        by (clear Ey; destruct y; simpl in *; by subst).
      apply Worker.on_runnable_run. simpl. rewrite Er. by apply Worker.spec_erase. }
  erewrite bind_Ok by by apply waiting_insert_run. by rewrite (bind_Ok _ _ _ _ _ R).
Qed.

Lemma wait_spec x f a y l1 l2 now now2 s :
  wf_waiter s → waiter_ok s → (∀ g, context_create g = 0%Z) → others_live f (worker s) →
  Worker.may_schedule (worker s) now → Time.good_now now → Time.good_now later →
  Worker.m_currentFiber (worker s) = Some f → Worker.m_runnableQueue (worker s) = l1 ++ f :: l2 →
  Worker.fibers (worker s) !! f = Some y → state y = Running →
  objs s !! x = Some a → w_kind a = Timed → ts_le (m_timeout a) now = false → x ∉ m_waiting s →
  ∃ next s', wait' x now now2 s = Ok (Waits (Worker.Switched next), s') ∧ next ≠ f ∧
    objs s' = <[x:=setFiber (Some f) a]> (objs s) ∧
    m_waiting s' = ins (H := by_timeout (objs s')) x (m_waiting s) ∧
    Worker.asleep (worker s') f ∧ wf_waiter (set_worker (Worker.arrive (worker s')) s') ∧
    (∀ n rest, l1 ++ l2 = n :: rest → next = n).
Proof.
  intros W K C L M Gn Gl Ec Er Ey Sy Ex Kx D Hx.
  destruct (sleeping_wf x f a y l1 l2 s W Er Ey Sy Ex) as [W1 A1]; [unfold pollable; by rewrite Kx|done|].
  set (s1 := sleeping x f a y (l1 ++ l2) s) in *.
  assert (waiter_ok s1 ∧ others_live f (worker s1)) as [K1 L1].
  { split.
    - intros g Hg. destruct (K g Hg) as (z & Ez & Sz). subst s1. simpl. destruct (decide (g = f)) as [->|Hgf].
      + rewrite lookup_insert_eq. eexists. split; [done|]. rewrite Ey in Ez. injection Ez as <-.
        destruct A1 as ((z & Ez & Sz' & _) & _). simpl in Ez. rewrite lookup_insert_eq in Ez. injection Ez as <-. congruence.
      + rewrite lookup_insert_ne by done. by exists z.
    - intros n Hn Hnf. destruct (L n) as (z & Ez & Cz); [rewrite Er; simpl in Hn; set_solver|done|].
      exists z. simpl. by rewrite lookup_insert_ne. }
  destruct (resume_waiter_ok s1 f (ww_worker _ W1) K1 C L1) as (w' & k & R & Ww & Q2 & C2 & E2 & D2 & F2 & A2 & L2).
  assert (wf_waiter (set_worker w' s1)) as W2.
  { destruct W1 as [V1 V2 V3 V4]. constructor; try done. intros z Hz. destruct (V3 z Hz) as (b & Eb & Lb & Fb).
    exists b. split; [done|]. split; [done|]. intros g Hg. by apply A2, Fb. }
  rewrite (wait_start x f a y l1 l2 now now2 s _ W Ec Er Ey Sy Ex Kx D Hx R).
  assert (f ∉ Worker.m_runnableQueue w') as Hf by (destruct (A2 f A1) as (_ & _ & Hq & _); set_solver).
  assert (Worker.may_schedule w' now) as M2 by (unfold Worker.may_schedule; by rewrite E2, D2).
  destruct (Worker.schedule_away_any context_create later w' now now2 f (ww_worker _ W2) M2) as (w2 & Q & W3 & A3 & _);
    [by rewrite C2|done..| |].
  { intros n Hn. apply L2; [done|]. intros ->. done. }
  exists (default (Worker.m_workerFiber w') (head (Worker.m_runnableQueue w'))), (set_worker w2 (set_worker w' s1)).
  split; [|split_and!]; try done.
  - erewrite bind_Ok by by apply with_worker_run. done.
  - destruct (A2 f A1) as (_ & Hw & Hq & _). intros E'. destruct (Worker.m_runnableQueue w') as [|n rest]; [done|].
    simpl in E'. subst n. apply Hq. auto with zth.
  - apply Worker.arrive_asleep. auto.
  - destruct W2 as [V1 V2 V3 V4]. constructor; try done. intros z Hz. destruct (V3 z Hz) as (b & Eb & Lb & Fb).
    exists b. split; [done|]. split; [done|]. intros g Hg. by apply A3, Fb.
  - intros n rest Hl. rewrite Q2. simpl. by rewrite Hl.
Qed.

(** [wakeup(w)]: the fiber of [x] is the next to run. *)
Lemma wakeup_spec x a s :
  wf_waiter s → x ∈ m_waiting s → objs s !! x = Some a →
  ∃ s', wakeup x s = Ok (tt, s') ∧ m_waiting s' = filter (λ e, e ≠ x) (m_waiting s) ∧
    worker s' = woken_worker (worker s) (m_fiber a) ∧ Worker.wf_worker (worker s') ∧
    objs s' = <[x:=setFiber nullptr a]> (objs s).
Proof.
  intros W Hx Ex. unfold wakeup. erewrite bind_Ok by reflexivity. rewrite bool_decide_true by done. simpl.
  rewrite (bind_Ok _ _ _ _ _ (waiting_erase_run x s Hx)).
  set (s0 := set_waiting _ s). unfold wake_fiber. rewrite bind_assoc.
  erewrite bind_Ok by (apply (obj_run x s0 a); exact Ex).
  destruct (ww_objs s W x Hx) as (a' & Ex' & _ & Fa). rewrite Ex in Ex'. injection Ex' as <-.
  unfold woken_worker. destruct (m_fiber a) as [f|].
  - destruct (Worker.woken_up (worker s) f true (ww_worker s W) (Fa f eq_refl)) as (R & W' & _).
    erewrite bind_Ok by (apply with_worker_run; exact R). erewrite update_obj_run by exact Ex.
    eexists. split; [reflexivity|]. done.
  - erewrite bind_Ok by reflexivity. erewrite update_obj_run by exact Ex. eexists. split; [reflexivity|].
    split_and!; try done. apply W.
Qed.
End Correct.

(** ** Periodic wake-ups *)

(** A time whose nanoseconds may have reached a full second, as sums have. *)
Definition near_ts (t : timespec) : Prop := (0 ≤ tv_sec t < 2 ^ 61)%Z ∧ (0 ≤ tv_nsec t ≤ BILLION)%Z.

Lemma add_near t i :
  (0 ≤ tv_sec t < 2 ^ 62)%Z → (0 ≤ tv_nsec t ≤ BILLION)%Z → wf i → m_negative i = false → (sec i < 2 ^ 60)%Z →
  let r := m_t (Time.add (interval (tv_sec t) (tv_nsec t) false) i) in
  ns_of r = (ns_of t + value i)%Z ∧ (0 ≤ tv_sec r)%Z ∧ (0 ≤ tv_nsec r ≤ BILLION)%Z ∧
  (tv_sec r ≤ tv_sec t + sec i + 1)%Z.
Proof.
  intros T1 T2 [I1 I2] N L. unfold Time.add. rewrite N. cbn [m_negative interval Bool.eqb].
  unfold value, abs_value, ns_of, sec, nsec, BILLION in *. rewrite N.
  replace (isInfinite _ || isInfinite i || _) with false.
  2:{ symmetry. unfold isInfinite, sec, time_max. simpl. rewrite !orb_false_iff, !Z.ltb_ge, Z.leb_gt.
      change ((2 ^ 63 - 1) ÷ 2)%Z with 4611686018427387903%Z.
    rewrite (s64_small (2 ^ 63 - 1 - tv_sec t)), s64_small by lia. lia. }
  simpl. rewrite (s64_small (tv_sec t + _)), (s64_small (tv_nsec t + _)) by lia.
  destruct (_ <? _)%Z eqn:C; simpl; rewrite ?s64_small by lia; lia.
Qed.

Lemma isBefore_near now t :
  wf_ts now → (0 ≤ tv_nsec t ≤ BILLION)%Z → isBefore now t = (ns_of now <? ns_of t)%Z.
Proof.
  intros [N1 N2] T. apply eq_true_iff_eq. rewrite isBefore_lt, Z.ltb_lt. unfold ns_of, BILLION in *. lia.
Qed.

(** ** The properties *)

(** C22: one pass of the waiter over its list, of [TimedWaiting]s and [PolledWaiting]s, polls
    exactly the waitables whose time-out has passed, each once, in the order of the time-outs,
    and ends: a [PolledWaiting] whose condition does not hold yet is sorted in again with a
    time-out that is not due.  The fibers of the others are ready and at the
    front of the run queue, the last one first; no other fiber changes. *)
Theorem waiter_wakes_due `{Config} {E P} `{PollerStore P} m_f derived debug (s : WS E P) now :
  wf_waiter s → wf_ts now →
  let D := filter (λ x, due (objs s) now x = true) (m_waiting s) in
  let '(woken, e) := wake_due m_f (objs s) D (env s) in
  ∃ s', wake_loop m_f derived debug (S (length (m_waiting s))) now s = Ok (tt, s') ∧
    wf_waiter s' ∧ env s' = e ∧ m_waiting s' ≡ₚ filter (λ x, x ∉ woken) (m_waiting s) ∧
    Forall (λ x, due (objs s') now x = false) (m_waiting s') ∧ woke s s' woken.
Proof.
  intros W N D. destruct (wake_due m_f (objs s) D (env s)) as [woken e] eqn:Q.
  set (R := filter (λ x, due (objs s) now x = false) (m_waiting s)).
  pose proof (sorted_split (objs s) now (m_waiting s) (ww_sorted s W)) as Sp. fold D R in Sp.
  destruct (wake_loop_spec m_f derived debug D R s now woken e) as (s' & L & W' & E' & P' & F' & K); try done.
  { apply Forall_forall. intros x [Hx _]%list_elem_of_filter. done. }
  { apply Forall_forall. intros x [Hx _]%list_elem_of_filter. done. }
  exists s'. split; [|split_and!; try done].
  - replace (S (length (m_waiting s))) with (length D + S (length R)); [apply L|].
    rewrite Sp, length_app. lia.
  - rewrite P'. replace (filter (λ x, x ∉ woken) (m_waiting s)) with (filter (λ x, x ∉ woken) (D ++ R)) by by rewrite <-Sp.
    rewrite filter_app. apply reflexive_eq. f_equal. symmetry. apply filter_all.
    intros x Hx Hw. pose proof (wake_due_subset m_f (objs s) D (env s)) as S. rewrite Q in S. apply S in Hw.
    apply list_elem_of_filter in Hx as [Hx _]. apply list_elem_of_filter in Hw as [Hw _]. congruence.
Qed.

(** A running fiber that waits for a time in the future gives up the
    processor to the next fiber of the run queue, and sleeps in neither queue
    until [wakeup], which makes it ready at the front of the run queue and
    takes the waitable out of the list.  When the time has passed, [wait] only
    yields. *)
Theorem waiter_wait_wakeup `{Config} {E P} `{PollerStore P} ctx later m_f derived (s : WS E P) x f a y l1 l2 now now2 :
  wf_waiter s → waiter_ok s → (∀ g, ctx g = 0%Z) → others_live ctx f (worker s) →
  Worker.may_schedule (worker s) now → Time.good_now now → Time.good_now later →
  Worker.m_currentFiber (worker s) = Some f → Worker.m_runnableQueue (worker s) = l1 ++ f :: l2 →
  Worker.fibers (worker s) !! f = Some y → state y = Running →
  objs s !! x = Some a → w_kind a = Timed → x ∉ m_waiting s →
  (ts_le (m_timeout a) now = true →
   wait ctx later m_f derived x now now2 s =
     (r ← with_worker (Worker.yield ctx later nullptr false now now2); mret (Passed r)) s) ∧
  (ts_le (m_timeout a) now = false →
   ∃ next s1 s2 z, wait ctx later m_f derived x now now2 s = Ok (Waits (Worker.Switched next), s1) ∧
     next ≠ f ∧ (∀ n rest, l1 ++ l2 = n :: rest → next = n) ∧
     Worker.asleep (worker s1) f ∧ x ∈ m_waiting s1 ∧
     wf_waiter (set_worker (Worker.arrive (worker s1)) s1) ∧
     wakeup x (set_worker (Worker.arrive (worker s1)) s1) = Ok (tt, s2) ∧
     m_waiting s2 = m_waiting s ∧ Worker.wf_worker (worker s2) ∧
     Worker.m_runnableQueue (worker s2) = f :: Worker.m_runnableQueue (Worker.arrive (worker s1)) ∧
     Worker.fibers (worker s2) !! f = Some z ∧ state z = Ready).
Proof.
  intros W K C L M Gn Gl Ec Er Ey Sy Ex Kx Hx. split; intros D.
  - unfold wait. erewrite bind_Ok by (apply with_worker_run; reflexivity). rewrite set_worker_id, Ec.
    erewrite bind_Ok by by apply with_worker_run, Worker.fiber_at_run. rewrite set_worker_id, Sy. simpl.
    unfold poll. by rewrite bind_assoc, (bind_Ok _ _ _ _ _ (obj_run x s a Ex)), Kx, D.
  - destruct (wait_spec m_f derived ctx later x f a y l1 l2 now now2 s) as (next & s1 & Q & Hn & Eo & El & A & W1 & Hh); try done.
    set (s1' := set_worker (Worker.arrive (worker s1)) s1) in *.
    assert (x ∈ m_waiting s1') as Hx1 by (simpl; rewrite El, (ins_Permutation x); auto with zth).
    assert (objs s1' !! x = Some (setFiber (Some f) a)) as Ex1 by (simpl; rewrite Eo; apply lookup_insert_eq).
    destruct (wakeup_spec x (setFiber (Some f) a) s1' W1 Hx1 Ex1) as (s2 & Q2 & El2 & Ew2 & W2 & _).
    simpl in Ew2. assert (Worker.asleep (Worker.arrive (worker s1)) f) as A' by by apply Worker.arrive_asleep.
    destruct (Worker.woken_up _ f true (ww_worker _ W1) A') as (_ & _ & z & Ez & Sz & _).
    exists next, s1, s2, z. split_and!; try done.
    + rewrite El2. simpl. rewrite El. clear -Hx. induction (m_waiting s) as [|e l IH]; simpl.
      * by rewrite filter_cons_False by tauto.
      * apply not_elem_of_cons in Hx as [Hxe Hx]. destruct (goes_left x e).
        -- rewrite filter_cons_False by tauto. apply filter_absent. set_solver.
        -- rewrite filter_cons_True by done. f_equal. by apply IH.
    + rewrite Ew2. unfold Worker.awake. destruct A' as ((z' & Ez' & _) & _). by rewrite Ez'.
    + by rewrite Ew2.
Qed.

Lemma entry_yield_stay `{Config} {E P} `{PollerStore P} ctx later (s s' : WS E P) now now2 :
  entry_yield ctx later now now2 s = Ok (Stay true, s') →
  (m_waiting s ≠ [] ∨ polling s = true) ∧ ∃ w, s' = set_worker w s.
Proof.
  unfold entry_yield, get. erewrite bind_Ok by reflexivity.
  destruct (bool_decide (m_waiting s = []) && negb (polling s)) eqn:B.
  - destruct (waiter_fiber s); [|done]. unfold mbind, M_bind. intros Q. repeat case_match; simplify_eq.
  - intros Q. split.
    + apply andb_false_iff in B as [B|B]; [left; by apply bool_decide_eq_false in B|right; by apply negb_false_iff in B].
    + unfold with_worker, mbind, M_bind in Q. repeat case_match; simplify_eq. injection Q as _ <-. by eexists.
Qed.

Lemma sorted_head_first o x l y :
  StronglySorted (before (H := by_timeout o)) (x :: l) → y ∈ x :: l → isBefore (timeout_of o y) (timeout_of o x) = false.
Proof.
  intros [So F]%StronglySorted_cons [->|Hy]%elem_of_cons; [apply isBefore_ge; lia|].
  rewrite Forall_forall in So. specialize (So y Hy). unfold before, goes_left, m_comp, by_timeout in So.
  destruct (isBefore (timeout_of o x) (timeout_of o y)) eqn:C.
  - rewrite isBefore_lt in C. apply isBefore_ge. lia.
  - by destruct (isBefore (timeout_of o y) (timeout_of o x)).
Qed.

(** Nothing waits and nothing is polled: the waiter suspends itself. *)
Lemma entry_yield_suspends `{Config} {E P} `{PollerStore P} ctx later (s : WS E P) now now2 f x l1 l2 :
  Worker.wf_worker (worker s) → m_waiting s = [] → polling s = false → waiter_fiber s = Some f →
  Worker.m_currentFiber (worker s) = Some f → Worker.m_runnableQueue (worker s) = l1 ++ f :: l2 →
  Worker.fibers (worker s) !! f = Some x → state x = Running →
  (∀ n, head (l1 ++ l2) = Some n → ∃ y, Worker.fibers (worker s) !! n = Some y ∧ Worker.can_run ctx n y) →
  Worker.may_schedule (worker s) now → good_now now → good_now later →
  ∃ s', entry_yield ctx later now now2 s = Ok (Away (default (Worker.m_workerFiber (worker s)) (head (l1 ++ l2))), s') ∧
    Worker.wf_worker (Worker.arrive (worker s')) ∧
    Worker.m_suspendedQueue (worker s') = Worker.m_suspendedQueue (worker s) ++ [f].
Proof.
  intros W Ew Ep Ewf Ec Er Ex Sx Hn M Gn Gl.
  destruct (Worker.suspend_current ctx later (worker s) f x l1 l2 now now2) as (w' & Q & W' & Es & _); try done.
  exists (set_worker w' s). split; [|by split]. unfold entry_yield, get. erewrite bind_Ok by reflexivity.
  rewrite Ew, Ep. cbn [bool_decide_pack negb andb]. rewrite bool_decide_true by done. cbn [andb negb]. rewrite Ewf.
  erewrite bind_Ok by (unfold with_worker; by rewrite Q). done.
Qed.

(** Otherwise, nobody is suspended. *)
Lemma entry_yield_keeps `{Config} {E P} `{PollerStore P} ctx later (s s' : WS E P) y now now2 :
  m_waiting s ≠ [] ∨ polling s = true → entry_yield ctx later now now2 s = Ok (y, s') →
  Worker.m_suspendedQueue (worker s') = Worker.m_suspendedQueue (worker s).
Proof.
  intros Hn. unfold entry_yield, get. erewrite bind_Ok by reflexivity.
  assert (bool_decide (m_waiting s = []) && negb (polling s) = false) as ->.
  { apply andb_false_iff. destruct Hn as [Hn| ->]; [left; by apply bool_decide_eq_false|by right]. }
  unfold with_worker. unfold mbind, M_bind.
  destruct (Worker.schedule ctx later None now now2 (worker s)) as [[r w]|] eqn:Q; [|done].
  apply Worker.keeps_schedule in Q. intros R. by destruct r; injection R as _ <-.
Qed.

(** The sleep. *)
Lemma sleep_until_first `{Config} {E P} `{PollerStore P} ctx later ms (s s' : WS E P) now now2 now3 :
  wf_waiter s → entry_yield ctx later now now2 s = Ok (Stay true, s') →
  let run_end := Worker.m_end (worker s') in
  ∃ e act, sleep_end s' s' = Ok (e, s') ∧ entry_sleep ms true now3 s' = Ok (act, s') ∧
    (polling s = false → ∃ t, e = Some t ∧ act = SleepUntil t) ∧
    (polling s = true → act = PollFor (match e with None => -1 | Some t => Z.max 0 (ms (timeTo now3 t)) end)%Z) ∧
    match e with
    | None => m_waiting s = [] ∧ ts_isNull run_end = true
    | Some t =>
        (∀ x, x ∈ m_waiting s → isBefore (timeout_of (objs s) x) t = false) ∧
        (ts_isNull run_end = false → isBefore run_end t = false) ∧
        (t = run_end ∨ ∃ x, x ∈ m_waiting s ∧ t = timeout_of (objs s) x)
    end.
Proof.
  intros W Q run_end. destruct (entry_yield_stay ctx later s s' now now2 Q) as (Hn & w & ->).
  set (s' := set_worker w s) in *.
  assert (∃ e, sleep_end s' s' = Ok (e, s') ∧ (m_waiting s ≠ [] → e ≠ None) ∧
    match e with
    | None => m_waiting s = [] ∧ ts_isNull run_end = true
    | Some t => (∀ x, x ∈ m_waiting s → isBefore (timeout_of (objs s) x) t = false) ∧
        (ts_isNull run_end = false → isBefore run_end t = false) ∧
        (t = run_end ∨ ∃ x, x ∈ m_waiting s ∧ t = timeout_of (objs s) x)
    end) as (e & Qe & Ne & Pe).
  { unfold sleep_end. change (m_waiting s') with (m_waiting s). change (Worker.m_end (worker s')) with run_end. clearbody run_end. destruct (m_waiting s) as [|x l] eqn:El.
    - erewrite bind_Ok by reflexivity. destruct (ts_isNull run_end) eqn:Hz; simpl; eexists; (split; [reflexivity|]);
        (split; [by intros []|]); [done|]. split; [by intros ? ?%elem_of_nil|]. split; [|by left]. intros _. apply isBefore_ge. lia.
    - destruct (ww_objs s W x) as (a & Ea & _); [rewrite El; auto with zth|].
      rewrite bind_assoc, (bind_Ok _ _ _ _ _ (obj_run x s' a Ea)). erewrite bind_Ok by reflexivity.
      assert (timeout_of (objs s) x = m_timeout a) as Et by (unfold timeout_of; by rewrite Ea).
      assert (∀ y, y ∈ x :: l → isBefore (timeout_of (objs s) y) (m_timeout a) = false) as First.
      { intros y Hy. rewrite <-Et. apply (sorted_head_first (objs s) x l); [rewrite <-El; apply W|done]. }
      destruct (ts_isNull run_end) eqn:Hz; simpl.
      { eexists. split; [reflexivity|]. split; [done|]. split; [exact First|]. split; [done|]. right. exists x.
        split; [auto with zth|done]. }
      destruct (ts_gt (m_timeout a) run_end) eqn:G; unfold ts_gt in G; eexists; (split; [reflexivity|]); (split; [done|]).
      + split; [|split; [intros _; apply isBefore_ge; lia|by left]]. intros y Hy.
        specialize (First y Hy). rewrite isBefore_ge in First. rewrite isBefore_lt in G. apply isBefore_ge. lia.
      + split; [exact First|]. split; [done|]. right. exists x. split; [auto with zth|done]. }
  assert (polling s' = polling s) as Ep by done.
  exists e. unfold entry_sleep, get. destruct (polling s) eqn:Pl.
  - eexists. split; [exact Qe|]. split; [|done]. erewrite bind_Ok by reflexivity. by rewrite (bind_Ok _ _ _ _ _ Qe), Ep.
  - destruct e as [t|]; [|by destruct Hn as [Hn|Hn]; [destruct (Ne Hn)|]]. exists (SleepUntil t). split; [exact Qe|].
    split; [erewrite bind_Ok by reflexivity; by rewrite (bind_Ok _ _ _ _ _ Qe), Ep|].
    split; [intros _; by exists t|]. split; [done|exact Pe].
Qed.

(** C24: the waiter's loop suspends the waiter's fiber when nothing waits and nothing is
    polled, and only then: otherwise no fiber is suspended.  When it has to sleep because no
    fiber can run, it does not dereference an end that is not there: it sleeps until the first
    of the time-outs and the end of the worker's run, or polls for that long, and polls
    without a time-out only when there is neither. *)
Theorem waiter_sleeps_until_first `{Config} {E P} `{PollerStore P} ctx later ms (s : WS E P) now now2 :
  wf_waiter s →
  (∀ f x l1 l2, m_waiting s = [] → polling s = false → waiter_fiber s = Some f →
     Worker.m_currentFiber (worker s) = Some f → Worker.m_runnableQueue (worker s) = l1 ++ f :: l2 →
     Worker.fibers (worker s) !! f = Some x → state x = Running →
     (∀ n, head (l1 ++ l2) = Some n → ∃ y, Worker.fibers (worker s) !! n = Some y ∧ Worker.can_run ctx n y) →
     Worker.may_schedule (worker s) now → good_now now → good_now later →
     ∃ s', entry_yield ctx later now now2 s = Ok (Away (default (Worker.m_workerFiber (worker s)) (head (l1 ++ l2))), s') ∧
       Worker.wf_worker (Worker.arrive (worker s')) ∧
       Worker.m_suspendedQueue (worker s') = Worker.m_suspendedQueue (worker s) ++ [f]) ∧
  (∀ y s', m_waiting s ≠ [] ∨ polling s = true → entry_yield ctx later now now2 s = Ok (y, s') →
     Worker.m_suspendedQueue (worker s') = Worker.m_suspendedQueue (worker s)) ∧
  (∀ s' now3, entry_yield ctx later now now2 s = Ok (Stay true, s') →
     let run_end := Worker.m_end (worker s') in
     ∃ e act, sleep_end s' s' = Ok (e, s') ∧ entry_sleep ms true now3 s' = Ok (act, s') ∧
       (polling s = false → ∃ t, e = Some t ∧ act = SleepUntil t) ∧
       (polling s = true → act = PollFor (match e with None => -1 | Some t => Z.max 0 (ms (timeTo now3 t)) end)%Z) ∧
       match e with
       | None => m_waiting s = [] ∧ ts_isNull run_end = true
       | Some t =>
           (∀ x, x ∈ m_waiting s → isBefore (timeout_of (objs s) x) t = false) ∧
           (ts_isNull run_end = false → isBefore run_end t = false) ∧
           (t = run_end ∨ ∃ x, x ∈ m_waiting s ∧ t = timeout_of (objs s) x)
       end).
Proof.
  intros W. split_and!.
  - intros f x l1 l2. apply entry_yield_suspends, W.
  - intros y s' Hn Q. by apply (entry_yield_keeps ctx later s s' y now now2).
  - intros s' now3 Q. by apply (sleep_until_first ctx later ms s s' now now2 now3).
Qed.

(** A [PeriodicWakeUp] keeps its grid: as long as the next deadline, one
    interval after the last, is in the future it sleeps until exactly then; when
    it has just passed the deadline still counts and the fiber only yields; and
    when more than a whole interval was missed the grid starts again at the
    present.  So the deadline is never more than an interval behind. *)
Theorem periodic_wakeup_grid `{Config} {S : Type} i reference now (s : S) :
  near_ts reference → wf_ts now → wf i → m_negative i = false → (sec i < 2 ^ 60)%Z → (0 < value i)%Z →
  ∃ t b, periodic_nap i reference now s = Ok ((t, b), s) ∧
    ((ns_of now < ns_of reference + value i)%Z → b = true ∧ ns_of t = ns_of reference + value i)%Z ∧
    ((ns_of reference + value i ≤ ns_of now < ns_of reference + 2 * value i)%Z →
       b = false ∧ ns_of t = ns_of reference + value i)%Z ∧
    ((ns_of reference + 2 * value i ≤ ns_of now)%Z → b = false ∧ t = now) ∧
    (ns_of now - value i < ns_of t)%Z ∧ (ns_of t ≤ Z.max (ns_of now) (ns_of reference + value i))%Z.
Proof.
  intros R N I P L V. unfold periodic_nap. rewrite (bind_Ok _ _ _ _ _ (ts_add_positive reference i s P)).
  destruct R as [R1 R2]. destruct (add_near reference i) as (A1 & A2 & A3 & A4); [lia|done..|].
  set (t := m_t (Time.add _ i)) in *. unfold ts_gt. rewrite (isBefore_near now t N A3).
  destruct (Z.ltb_spec (ns_of now) (ns_of t)) as [B|B].
  { exists t, true. split; [done|]. lia. }
  rewrite (bind_Ok _ _ _ _ _ (ts_add_positive t i s P)).
  destruct (add_near t i) as (B1 & B2 & B3 & _); [lia|done..|].
  rewrite (isBefore_near now _ N B3), B1.
  destruct (Z.ltb_spec (ns_of now) (ns_of t + value i)) as [C|C].
  - exists t, false. split; [done|]. lia.
  - exists now, false. split; [done|]. split_and!; try (intros; lia); [done|lia..].
Qed.

Lemma migrate_run {E P} `{PollerStoreLaws P} (s : WS E P) q r a b :
  q ≠ r → pollers s !! q = Some a → pollers s !! r = Some b → p_wf a → p_wf b →
  ∃ a' b', migrate q r s = Ok (tt, set_pollers (m_poller s) (m_defaultPoller s) (<[r:=b']> (<[q:=a']> (pollers s))) s) ∧
    (p_empty a' = true ∧ p_empty b' = p_empty a && p_empty b ∨ p_empty a' = p_empty a).
Proof.
  intros Hne Ea Eb Wa Wb. destruct (migrate_ok q r (pollers s) a b Hne Ea Eb Wa Wb) as (res & a' & b' & Q & _ & _ & Q1 & Q2).
  exists a', b'. unfold migrate. rewrite Q. split; [done|]. destruct (decide (res = 0%Z)); auto.
Qed.

(** Replacing the poll server by another one, or by a new default one,
    hands over what is registered (unless the migration fails), so that the
    waiter keeps polling.  But the first [setPoller] does not look at the default
    server, which [poller()] may have made before: what is registered there is
    not polled anymore. *)
Theorem waiter_set_poller {E P} `{PollerStoreLaws P} (s : WS E P) q r a b fresh :
  q ≠ r → pollers s !! q = Some a → pollers s !! r = Some b → pollers s !! fresh = None → p_wf a → p_wf b →
  (m_poller s = Some q →
   ∃ s' a', setPoller (Some r) fresh s = Ok (tt, s') ∧ m_poller s' = Some r ∧ pollers s' !! q = Some a' ∧
     (p_empty a' = true ∧ polling s' = polling s || negb (p_empty b) ∨ p_empty a' = p_empty a)) ∧
  (m_poller s = Some q → m_defaultPoller s = None → p_empty a = false →
   ∃ s' a', setPoller None fresh s = Ok (tt, s') ∧ m_poller s' = Some fresh ∧ m_defaultPoller s' = Some fresh ∧
     pollers s' !! q = Some a' ∧ (p_empty a' = true ∧ polling s' = true ∨ p_empty a' = p_empty a)) ∧
  (m_poller s = None → m_defaultPoller s = Some q → p_empty a = false → p_empty b = true →
   ∃ s', setPoller (Some r) fresh s = Ok (tt, s') ∧ polling s = true ∧ pollers s' !! q = Some a ∧ polling s' = false).
Proof.
  intros Hne Ea Eb Ef Wa Wb. assert (fresh ≠ q) as Hfq by congruence. split_and!.
  - intros Ep. unfold setPoller, get. erewrite bind_Ok by reflexivity. rewrite Ep.
    destruct (migrate_run s q r a b Hne Ea Eb Wa Wb) as (a' & b' & Q & R). rewrite (bind_Ok _ _ _ _ _ Q).
    eexists _, a'. split; [reflexivity|]. simpl. rewrite lookup_insert_ne, lookup_insert_eq by done.
    split_and!; try done. destruct R as [[R1 R2]|R]; [left|by right]. split; [done|].
    unfold polling. simpl. rewrite lookup_insert_eq, Ep, Ea, R2. by rewrite negb_andb.
  - intros Ep Ed Na. unfold setPoller, get. erewrite bind_Ok by reflexivity. rewrite Ep.
    erewrite bind_Ok by (unfold poller_empty; rewrite Ea; reflexivity). rewrite Ed, Na. simpl.
    erewrite bind_Ok by reflexivity. erewrite bind_Ok by reflexivity. simpl.
    set (s1 := set_pollers (Some q) (Some fresh) (<[fresh:=p_new]> (pollers s)) s).
    destruct (migrate_run s1 q fresh a p_new) as (a' & b' & Q & R); [done|simpl; by rewrite lookup_insert_ne|
      simpl; by rewrite lookup_insert_eq|done|apply new_wf|].
    rewrite (bind_Ok _ _ _ _ _ Q). eexists _, a'. split; [reflexivity|]. simpl.
    rewrite lookup_insert_ne, lookup_insert_eq by done. split_and!; try done.
    destruct R as [[R1 R2]|R]; [left|right; congruence]. split; [done|]. unfold polling. simpl.
    rewrite lookup_insert_eq, R2, Na. done.
  - intros Ep Ed Na Nb. unfold setPoller, get. erewrite bind_Ok by reflexivity. rewrite Ep.
    eexists. split; [reflexivity|]. unfold polling. simpl. by rewrite Ep, Ed, Ea, Eb, Na, Nb.
Qed.

(** *** Witnesses: the fibers of Worker.v; the waiter's fiber is 5, a poll
    server is a list of what is registered. *)

#[local] Instance example_store : PollerStore (list addr) := {
  p_empty l := bool_decide (l = []);
  p_new := [];
  p_migrateTo from to s :=
    match s !! from, s !! to with
    | Some a, Some b => Ok (0%Z, <[to:=b ++ a]> (<[from:=[]]> s))
    | _, _ => Fault NullDeref
    end;
  p_wf _ := True
}.

#[local] Instance example_store_laws : PollerStoreLaws (list addr).
Proof.
  split; [|done|done]. intros from to s a b Hne Ea Eb _ _. simpl. rewrite Ea, Eb. eexists 0%Z, [], (b ++ a).
  split; [done|]. split; [done|]. split; [done|]. split; [|done]. intros _. split; [done|]. destruct a, b; done.
Qed.

Definition example_sleeper : Fiber := Fiber.nap (mkTs 3 0) example_ready.

Definition example_wfibers : Fibers :=
  list_to_map [(1, example_ready); (2, example_running); (5, Fiber.suspend example_ready); (6, example_ready);
               (7, example_sleeper)]%positive.
Definition example_wworker : Worker.W :=
  Worker.mkW example_wfibers (list_to_map ((λ f : addr, (f, 1%Z)) <$> [2; 5; 6; 7]%positive)) (Some 2%positive)
    [2; 6]%positive [5]%positive 1 null_ts 0.

(** Fiber 7 sleeps until 3 s (waitable 10); 11 is a polled waitable; 12 is for
    fiber 2. *)
Definition example_objs : gmap addr Waitable :=
  list_to_map [(10, mkWt Timed (mkTs 3 0) (Some 7)); (11, mkWt (Polled (interval 1 0 false)) (mkTs 4 0) nullptr);
               (12, mkWt Timed (mkTs 9 0) nullptr)]%positive.
Definition example_waiter : WS nat (list addr) :=
  mkWS example_wworker example_objs [10; 11]%positive (Some 5%positive) nullptr (Some 20%positive)
    (list_to_map [(20, [30]); (21, [])]%positive) 0.
Definition example_m_f (x : addr) (n : nat) : bool * nat := (Nat.leb 1 n, S n).
Definition example_derived (x : addr) (now : Timestamp) : M (WS nat (list addr)) bool := mret true.

Ltac map_cases H :=
  repeat (apply lookup_insert_Some in H as [[<- <-]|[_ H]]); [..|by rewrite lookup_empty in H].
Ltac list_cases H :=
  repeat (apply elem_of_cons in H as [->|H]); [..|by apply elem_of_nil in H].

Lemma example_wworker_wf : Worker.wf_worker example_wworker.
Proof.
  constructor; simpl.
  - by apply (bool_decide_unpack _).
  - intros f Hf. list_cases Hf; (eexists; split; [reflexivity|]; by vm_compute; intuition).
  - intros f Hf. list_cases Hf. eexists; split; [reflexivity|]; by vm_compute; intuition.
  - intros f Hf. list_cases Hf; (eexists; split; [reflexivity|]; lia).
  - eexists. split; [reflexivity|]. by vm_compute; intuition.
  - intros c [= <-]. split; [done|by eexists].
  - intros f x Hf Rx. unfold example_wfibers in Hf. simpl in Hf. map_cases Hf; done.
Qed.

Lemma example_asleep : Worker.asleep example_wworker 7.
Proof.
  split; [eexists; split; [reflexivity|]; by vm_compute; intuition|]. split; [done|].
  split; [by apply (bool_decide_unpack _)|]. eexists. split; [reflexivity|by vm_compute].
Qed.

Lemma example_waiter_wf : wf_waiter example_waiter.
Proof.
  constructor; simpl.
  - apply example_wworker_wf.
  - repeat constructor.
  - intros x Hx. list_cases Hx; (eexists; split; [reflexivity|]; split; [by vm_compute; intuition|]).
    + intros f [= <-]. apply example_asleep.
    + done.
  - intros x y a b f Hx Hy Ea Eb Fa Fb. list_cases Hx; list_cases Hy; try done;
      vm_compute in Ea, Eb; simplify_eq; done.
Qed.

Lemma waiter_wakes_due_witness :
  ∃ s', wake_loop (H := debug_config) example_m_f example_derived true 3 (mkTs 20 0) example_waiter = Ok (tt, s') ∧
    env s' = 1 ∧ Worker.m_runnableQueue (worker s') = [7; 2; 6]%positive.
Proof.
  pose proof (waiter_wakes_due (H := debug_config) example_m_f example_derived true example_waiter (mkTs 20 0)
    example_waiter_wf) as T.
  destruct T as (s' & L & _ & E' & _ & _ & K); [vm_compute; intuition discriminate|].
  exists s'. split; [exact L|]. split; [exact E'|]. exact (wk_queue _ _ _ K).
Defined.

Lemma waiter_wait_wakeup_witness :
  ∃ s1, wait (H := debug_config) (λ _, 0%Z) (mkTs 7 0) example_m_f example_derived 12 (mkTs 7 0) (mkTs 7 0) example_waiter
    = Ok (Waits (Worker.Switched 6), s1).
Proof.
  destruct (waiter_wait_wakeup (H := debug_config) (λ _, 0%Z) (mkTs 7 0) example_m_f example_derived example_waiter 12 2
    (mkWt Timed (mkTs 9 0) nullptr) example_running [] [6]%positive (mkTs 7 0) (mkTs 7 0)) as [_ T];
    [apply example_waiter_wf| | | |done|vm_compute; intuition discriminate..|done|done|done|done|done|done| |].
  - intros g [= <-]. eexists. split; [reflexivity|]. intros _. simpl. auto with zth.
  - done.
  - intros n Hn Hne. simpl in Hn. list_cases Hn; [done|]. eexists. split; [reflexivity|by left].
  - by apply (bool_decide_unpack _).
  - destruct T as (n & s1 & _ & _ & Q & _ & Hn & _); [done|]. exists s1. by rewrite (Hn 6%positive []) in Q.
Defined.

(** Only the waiter's fiber can run. *)
Definition example_idle : WS nat (list addr) :=
  mkWS (Worker.mkW (list_to_map [(1, example_ready); (5, example_running); (7, example_sleeper)]%positive)
          (list_to_map [(5, 1%Z); (7, 1%Z)]%positive) (Some 5%positive) [5]%positive [] 1 null_ts 0)
    example_objs [10]%positive (Some 5%positive) nullptr nullptr ∅ 0.

Lemma example_idle_wf : wf_waiter example_idle.
Proof.
  constructor; simpl.
  - constructor; simpl.
    + by apply (bool_decide_unpack _).
    + intros f Hf. list_cases Hf; (eexists; split; [reflexivity|]; by vm_compute; intuition).
    + intros f Hf. list_cases Hf.
    + intros f Hf. list_cases Hf; (eexists; split; [reflexivity|]; by vm_compute).
    + eexists. split; [reflexivity|]. by vm_compute; intuition.
    + intros c [= <-]. split; [done|by eexists].
    + intros f x Hf Rx. map_cases Hf; done.
  - repeat constructor.
  - intros x Hx. list_cases Hx. eexists. split; [reflexivity|]. split; [done|]. intros f [= <-].
    split; [eexists; split; [reflexivity|]; by vm_compute; intuition|]. split; [done|].
    split; [by apply (bool_decide_unpack _)|]. eexists. split; [reflexivity|by vm_compute].
  - intros x y a b f Hx Hy. list_cases Hx; by list_cases Hy.
Qed.

Lemma waiter_sleeps_until_first_witness :
  ∃ s' act, entry_yield (H := debug_config) (λ _, 0%Z) (mkTs 1 0) (mkTs 1 0) (mkTs 1 0) example_idle = Ok (Stay true, s') ∧
    entry_sleep (λ _, 0%Z) true (mkTs 1 0) s' = Ok (act, s').
Proof.
  destruct (entry_yield (H := debug_config) (λ _, 0%Z) (mkTs 1 0) (mkTs 1 0) (mkTs 1 0) example_idle) as [[y s']|] eqn:Q;
    [|done].
  assert (y = Stay true) as -> by (vm_compute in Q; by injection Q as <- _).
  destruct (waiter_sleeps_until_first (H := debug_config) (λ _, 0%Z) (mkTs 1 0) (λ _, 0%Z) example_idle
    (mkTs 1 0) (mkTs 1 0) example_idle_wf) as (_ & _ & T).
  destruct (T s' (mkTs 1 0) Q) as (e & act & _ & S & _). by exists s', act.
Defined.

Lemma periodic_wakeup_grid_witness :
  ∃ t, periodic_nap (H := debug_config) (interval 1 0 false) (mkTs 5 0) (mkTs 5 7) tt = Ok ((t, true), tt).
Proof.
  destruct (periodic_wakeup_grid (H := debug_config) (interval 1 0 false) (mkTs 5 0) (mkTs 5 7) tt)
    as (t & b & Q & T & _); try done.
  destruct T as [-> _]; [done|]. by exists t.
Defined.

Lemma waiter_set_poller_witness :
  ∃ s', setPoller (Some 21%positive) 22 example_waiter = Ok (tt, s') ∧ polling s' = false.
Proof.
  destruct (waiter_set_poller example_waiter 20 21 [30]%positive [] 22) as (_ & _ & T); try done.
  destruct T as (s' & Q & _ & _ & N); try done. by exists s'.
Defined.
(*X*)
End Waiter.
