(* ===== verification/Poller.v ===== *)
(** * Poller (libzth/poller.h, poller.cpp)

    The poll server of the waiter keeps two lists side by side: what is registered,
    and the items for the system's [poll()], which follow lazily.  A client is a
    fiber's poller; it registers its pollables while it polls.  The system call's
    answer is an argument of the step that makes it. *)

From stdpp Require Import functions base gmap list.
From S2P Require Import Prelude SmallVector Time Fiber Waiter.

Set Default Proof Using "Type".

Definition EINTR : Z := 4.
Definition EIO : Z := 5.
Definition ESRCH : Z := 3.
Definition ENOSYS : Z := 38.

(** ** Data *)

(** [Pollable::EventsFlags] as masks. *)
Definition PollIn : Z := 1.
Definition PollOut : Z := 2.
Definition PollErr : Z := 4.
Definition PollPri : Z := 8.
Definition PollHup : Z := 16.

(** [Pollable] and [PollableFd]. *)
Record Pollable := mkPollable { user_data : ptr; p_fd : Z; events : Z; revents : Z }.

Definition set_revents (r : Z) (p : Pollable) : Pollable := mkPollable (user_data p) (p_fd p) (events p) r.

Record MetaItem := mkMeta { m_pollable : addr; m_client : ptr }.

#[export] Instance MetaItem_eq_dec : EqDecision MetaItem.
Proof. solve_decision. Defined.

(** ** The server's lists, for any kind of poll item *)

Record Server {I : Type} := mkServer { m_metaItems : Vec MetaItem; m_pollItems : Vec I }.
Arguments Server : clear implicits.
Arguments mkServer {I}.

Section Server.
Context `{Config} {I : Type} (grow : nat → nat).

Abbreviation S := (Server I).

Definition metas (s : S) : list MetaItem := contents (m_metaItems s).
Definition items (s : S) : list I := contents (m_pollItems s).

(** What an operation on a vector makes of the server; [false] when it throws. *)
Definition on_meta (op : Vec MetaItem → option (Vec MetaItem)) : M S bool := λ s,
  match op (m_metaItems s) with Some v => Ok (true, mkServer v (m_pollItems s)) | None => Ok (false, s) end.
Definition on_poll (op : Vec I → option (Vec I)) : M S bool := λ s,
  match op (m_pollItems s) with Some v => Ok (true, mkServer (m_metaItems s) v) | None => Ok (false, s) end.

(** Changes that need no memory. *)
Definition edit_meta (g : list MetaItem → list MetaItem) : M S unit :=
  modify (λ s, mkServer (mkVec (g (metas s)) (cap (m_metaItems s))) (m_pollItems s)).
Definition edit_poll (g : list I → list I) : M S unit :=
  modify (λ s, mkServer (m_metaItems s) (mkVec (g (items s)) (cap (m_pollItems s)))).

(** [operator[]] and [pop_back]. *)
Definition meta_at (i : nat) : M S MetaItem :=
  s ← get; zth_assert (i <? length (metas s))%nat;; match metas s !! i with Some m => mret m | None => fail NullDeref end.
Definition item_at (i : nat) : M S I :=
  s ← get; zth_assert (i <? length (items s))%nat;; match items s !! i with Some m => mret m | None => fail NullDeref end.
Definition drop_last {A : Type} (l : list A) : list A := take (length l - 1) l.

Definition server_empty : M S bool := s ← get; mret (bool_decide (metas s = [])).

Definition server_reserve (ok1 ok2 : bool) (more : nat) : M S bool :=
  s ← get;
  r ← on_meta (vector_reserve grow ok1 (length (metas s) + more));
  if r : bool then s ← get; on_poll (vector_reserve grow ok2 (cap (m_metaItems s))) else mret false.

(** [add]; the waiter's fiber is resumed by the caller. *)
Definition server_add (ok1 ok2 : bool) (p : addr) (client : ptr) : M S Z :=
  r ← on_meta (vector_push_back grow ok1 (mkMeta p client));
  if r : bool then
    s ← get;
    r ← on_poll (vector_reserve grow ok2 (length (metas s)));
    if r : bool then
      s ← get;
      zth_assert (length (items s) <=? length (metas s))%nat;;
      mret 0%Z
    else edit_meta drop_last;; mret ENOMEM
  else mret ENOMEM.

(** The search of [remove], from the end. *)
Fixpoint find_last (m : MetaItem) (l : list MetaItem) (i : nat) : option nat :=
  match i with
  | O => None
  | Datatypes.S i => if bool_decide (l !! i = Some m) then Some i else find_last m l i
  end.

(** The loops that call [deinit], which does nothing here but is given the items. *)
Fixpoint deinit_from (i n : nat) : M S unit :=
  match n with
  | O => mret tt
  | Datatypes.S n => meta_at i;; item_at i;; deinit_from (Datatypes.S i) n
  end.

Definition server_clear : M S unit :=
  s ← get;
  deinit_from 0 (length (items s));;
  edit_meta (λ _, []);; edit_poll (λ _, []).

(** [remove(size_t)]: the last ones. *)
Definition server_remove_last (last : nat) : M S unit :=
  s ← get;
  if (length (metas s) <=? last)%nat then server_clear
  else
    let n := (length (metas s) - last)%nat in
    deinit_from n (length (items s) - n);;
    edit_meta (take n);;
    when (n <? length (items s))%nat (edit_poll (take n)).

(** [remove(Pollable&, Client* )]. *)
Definition server_remove (p : addr) (client : ptr) : M S Z :=
  s ← get;
  let count := length (metas s) in
  match find_last (mkMeta p client) (metas s) count with
  | None => mret ESRCH
  | Some i =>
      (if (i <? count - 1)%nat then
         when (i <? length (items s))%nat
           (deinit_from i 1;;
            when (i <? length (items s) - 1)%nat
              (b ← item_at (length (items s) - 1); edit_poll (<[i:=b]>));;
            edit_poll drop_last);;
         m ← meta_at (count - 1);
         edit_meta (<[i:=m]>);;
         edit_meta drop_last
       else server_remove_last 1);;
      s ← get;
      zth_assert (length (items s) <=? length (metas s))%nat;;
      mret 0%Z
  end.
End Server.

(** ** Moving to another server *)

Section Migrate.
Context `{Config} {I : Type} (grow : nat → nat).
(** Whether there is memory for the reservations and the additions. *)
Context (ok : nat → bool * bool).
(** The capacity that [clear_and_release] leaves. *)
Context (left : nat → nat).

Abbreviation Store := (gmap addr (Server I)).

Definition on_server {A : Type} (q : addr) (m : M (Server I) A) : M Store A := λ s,
  match s !! q with
  | Some v => match m v with Ok (a, v) => Ok (a, <[q:=v]> s) | Fault e => Fault e end
  | None => Fault NullDeref
  end.

Definition release : M (Server I) unit :=
  modify (λ s, mkServer (mkVec [] (left (cap (m_metaItems s)))) (mkVec [] (left (cap (m_pollItems s))))).

(** The rollback: the first [n] in reverse order. *)
Fixpoint rollback (q : addr) (l : list MetaItem) (n : nat) : M Store unit :=
  match n with
  | O => mret tt
  | S n =>
      match l !! n with
      | Some m => on_server q (server_remove (m_pollable m) (m_client m));; rollback q l n
      | None => fail NullDeref
      end
  end.

(** The loop over [l], of which [i] are done. *)
Fixpoint migrate_loop (q : addr) (all l : list MetaItem) (i : nat) : M Store Z :=
  match l with
  | [] => mret 0%Z
  | m :: l =>
      r ← on_server q (server_add grow (ok (S i)).1 (ok (S i)).2 (m_pollable m) (m_client m));
      if (r =? 0)%Z then migrate_loop q all l (S i) else rollback q all i;; mret r
  end.

Definition server_migrateTo (this p : addr) : M Store Z :=
  l ← on_server this (gets metas);
  r ← on_server p (server_reserve grow (ok 0).1 (ok 0).2 (length l));
  if r : bool then
    r ← migrate_loop p l l 0;
    if (r =? 0)%Z then
      on_server this (server_clear;; release);;
      mret 0%Z
    else mret r
  else mret ENOMEM.
End Migrate.

(** ** [PollPoller]: the system's [poll()] *)

(** poll.h *)
Definition POLLIN : Z := 1.
Definition POLLPRI : Z := 2.
Definition POLLOUT : Z := 4.
Definition POLLERR : Z := 8.
Definition POLLHUP : Z := 16.
Definition POLLNVAL : Z := 32.

Record pollfd := mkPollfd { f_fd : Z; f_events : Z; f_revents : Z }.

(** A value-initialized one. *)
Definition pollfd0 : pollfd := mkPollfd 0 0 0.

(** The bits [b], when [mask] is among those of [x]. *)
Definition if_set (x mask b : Z) : Z := if (Z.land x mask =? 0)%Z then 0%Z else b.

(** [PollPoller::init]; it does not set [revents]. *)
Definition poll_init (p : Pollable) (item : pollfd) : Z * pollfd :=
  let e := 0%Z in
  let e := Z.lor e (if_set (events p) PollIn POLLIN) in
  let e := Z.lor e (if_set (events p) PollOut POLLOUT) in
  let e := Z.lor e (if_set (events p) PollPri POLLPRI) in
  let e := Z.lor e (if_set (events p) PollHup POLLHUP) in
  (0%Z, mkPollfd (p_fd p) e (f_revents item)).

(** The translation of [doPoll]. *)
Definition revents_of (r : Z) : Z :=
  let e := 0%Z in
  let e := Z.lor e (if_set r POLLIN PollIn) in
  let e := Z.lor e (if_set r POLLOUT PollOut) in
  let e := Z.lor e (if_set r POLLERR PollErr) in
  let e := Z.lor e (if_set r POLLPRI PollPri) in
  Z.lor e (if_set r POLLHUP PollHup).

(** What [::poll] answers: its result, [errno], and the [revents] it writes. *)
Record sys_poll := mkSys { s_res : Z; s_errno : Z; s_revents : list Z }.

(** ** The server with its clients *)

(** [PollerClient]: the time and the fiber of its [m_wait], what it polls and what
    it got. *)
Record Client := mkClient {
  c_timeout : Timestamp; c_fiber : ptr; m_pollables : Vec addr; m_result : Vec addr
}.

(** Calls that make a fiber go on: [Waiter::wakeup] of a client's [m_wait], which is
    in the waiter's list, [Worker::resume] of a fiber, and [Waiter::wakeup()]; see
    Waiter.v and Worker.v. *)
Inductive wake := WakeWaitable (c : addr) | ResumeFiber (f : addr) | ResumeWaiter.

Record PW := mkPW {
  server : Server pollfd; pollables : gmap addr Pollable; clients : gmap addr Client; wakes : list wake
}.

Section Polling.
Context `{Config} (grow : nat → nat).

Definition with_server {A : Type} (m : M (Server pollfd) A) : M PW A := λ s,
  match m (server s) with Ok (a, v) => Ok (a, mkPW v (pollables s) (clients s) (wakes s)) | Fault e => Fault e end.

Definition pollable (p : addr) : M PW Pollable := λ s,
  match pollables s !! p with Some a => Ok (a, s) | None => Fault NullDeref end.
Definition set_pollable (p : addr) (a : Pollable) : M PW unit :=
  modify (λ s, mkPW (server s) (<[p:=a]> (pollables s)) (clients s) (wakes s)).
Definition client (c : addr) : M PW Client := λ s,
  match clients s !! c with Some a => Ok (a, s) | None => Fault NullDeref end.
Definition set_client (c : addr) (a : Client) : M PW unit :=
  modify (λ s, mkPW (server s) (pollables s) (<[c:=a]> (clients s)) (wakes s)).
Definition wake_up (w : wake) : M PW unit :=
  modify (λ s, mkPW (server s) (pollables s) (clients s) (wakes s ++ [w])).

(** [PollerClient::event]; it is [noexcept]. *)
Definition client_event (ok : bool) (c p : addr) : M PW unit :=
  x ← client c;
  match vector_push_back grow ok p (m_result x) with
  | None => fail Aborted
  | Some v =>
      set_client c (mkClient (c_timeout x) (c_fiber x) (m_pollables x) v);;
      if negb (ts_isNull (c_timeout x)) then wake_up (WakeWaitable c)
      else match c_fiber x with Some f => wake_up (ResumeFiber f) | None => mret tt end
  end.

(** [PollerServer::event]. *)
Definition event (ok : bool) (r : Z) (index : nat) : M PW unit :=
  s ← get;
  zth_assert (index <? length (metas (server s)))%nat;;
  m ← with_server (meta_at index);
  p ← pollable (m_pollable m);
  set_pollable (m_pollable m) (set_revents r p);;
  when (negb (r =? 0)%Z) (match m_client m with Some c => client_event ok c (m_pollable m) | None => mret tt end).

(** The loop of [doPoll], from item [i] on, while [res] items have something. *)
Fixpoint events_loop (ok : bool) (res : Z) (i : nat) (l : list pollfd) : M PW unit :=
  match l with
  | [] => mret tt
  | item :: l =>
      if (0 <? res)%Z then
        let any := negb (f_revents item =? 0)%Z in
        event ok (if any then revents_of (f_revents item) else 0%Z) i;;
        events_loop ok (if any then res - 1 else res)%Z (S i) l
      else mret tt
  end.

Definition fill (l : list pollfd) (r : list Z) : list pollfd :=
  zip_with (λ x r, mkPollfd (f_fd x) (f_events x) r) l r.

(** [PollPoller::doPoll]. *)
Definition doPoll (ok : bool) (sys : list pollfd → sys_poll) : M PW Z :=
  s ← get;
  let a := sys (items (server s)) in
  if (s_res a <? 0)%Z then mret (s_errno a)
  else
    with_server (edit_poll (λ l, fill l (s_revents a)));;
    if (s_res a =? 0)%Z then mret 0%Z
    else
    s ← get;
    events_loop ok (s_res a) 0 (items (server s));;
    mret 0%Z.

(** [mirror], with the [init] of a subclass; it is [noexcept]. *)
Fixpoint init_loop (init : Pollable → pollfd → Z * pollfd) (i n : nat) : M PW Z :=
  match n with
  | O => mret 0%Z
  | S n =>
      m ← with_server (meta_at i);
      p ← pollable (m_pollable m);
      x ← with_server (item_at i);
      let '(res, x) := init p x in
      with_server (edit_poll (<[i:=x]>));;
      if (res =? 0)%Z then init_loop init (S i) n
      else with_server (edit_poll (take i));; mret res
  end.

Definition mirror (init : Pollable → pollfd → Z * pollfd) (ok : bool) : M PW Z :=
  s ← get;
  let doInit := length (items (server s)) in
  let n := length (metas (server s)) in
  r ← with_server (on_poll (vector_resize grow ok n pollfd0));
  if r : bool then
    res ← init_loop init doInit (n - doInit);
    s ← get;
    zth_assert (length (metas (server s)) =? length (items (server s)))%nat;;
    mret res
  else fail Aborted.

(** [PollerServer::poll]. *)
Definition server_poll (init : Pollable → pollfd → Z * pollfd) (sys : list pollfd → sys_poll) (ok1 ok2 : bool) : M PW Z :=
  res ← mirror init ok1;
  if (res =? 0)%Z then
    e ← with_server server_empty;
    if e : bool then mret EINVAL else doPoll ok2 sys
  else mret res.

(** [NoPoller]. *)
Definition no_init (p : Pollable) (item : pollfd) : Z * pollfd := (EINVAL, item).
Definition no_doPoll : M PW Z := mret ENOSYS.
End Polling.
(** ** The client *)

Section Client.
Context `{Config} (grow : nat → nat).

(** [PollerClient::reserve], [add], [remove]. *)
Definition client_reserve (c : addr) (ok1 ok2 : bool) (more : nat) : M PW bool :=
  x ← client c;
  match vector_reserve grow ok1 (length (contents (m_pollables x)) + more) (m_pollables x) with
  | None => mret false
  | Some v =>
      set_client c (mkClient (c_timeout x) (c_fiber x) v (m_result x));;
      match vector_reserve grow ok2 (cap v) (m_result x) with
      | None => mret false
      | Some r => set_client c (mkClient (c_timeout x) (c_fiber x) v r);; mret true
      end
  end.

Definition client_add (c : addr) (ok1 ok2 : bool) (p : addr) : M PW Z :=
  x ← client c;
  match vector_reserve grow ok1 (length (contents (m_pollables x)) + 1) (m_result x) with
  | None => mret ENOMEM
  | Some r =>
      set_client c (mkClient (c_timeout x) (c_fiber x) (m_pollables x) r);;
      match vector_push_back grow ok2 p (m_pollables x) with
      | None => mret ENOMEM
      | Some v => set_client c (mkClient (c_timeout x) (c_fiber x) v r);; mret 0%Z
      end
  end.

Fixpoint find_pollable (p : addr) (l : list addr) (i : nat) : option nat :=
  match i with
  | O => None
  | S i => if bool_decide (l !! i = Some p) then Some i else find_pollable p l i
  end.

Definition client_remove (c p : addr) : M PW Z :=
  x ← client c;
  let l := contents (m_pollables x) in
  match find_pollable p l (length l) with
  | None => mret EAGAIN
  | Some i =>
      match last l with
      | None => fail NullDeref
      | Some b =>
          set_client c (mkClient (c_timeout x) (c_fiber x)
            (mkVec (drop_last (<[i:=b]> l)) (cap (m_pollables x))) (m_result x));;
          mret 0%Z
      end
  end.

Definition client_empty (c : addr) : M PW bool := x ← client c; mret (bool_decide (contents (m_pollables x) = [])).

(** [PollerInterface::add] of a list, with the [add] and [remove] of the class. *)
Fixpoint undo (remove : addr → M PW Z) (l : list addr) (count : nat) : M PW unit :=
  match l, count with
  | p :: l, S count => remove p;; undo remove l count
  | _, _ => mret tt
  end.

Fixpoint add_loop (add : nat → addr → M PW Z) (remove : addr → M PW Z) (all l : list addr) (count : nat) : M PW Z :=
  match l with
  | [] => mret 0%Z
  | p :: l =>
      res ← add count p;
      if (res =? 0)%Z then add_loop add remove all l (S count)
      else undo remove all count;; mret res
  end.

Definition add_list (reserve : nat → M PW bool) (add : nat → addr → M PW Z) (remove : addr → M PW Z) (l : list addr) : M PW Z :=
  r ← reserve (length l);
  if r : bool then add_loop add remove l l 0 else mret ENOMEM.

(** *** [poll] *)

(** [PollerServer::add] of the waiter's server, which resumes the waiter. *)
Definition register (ok : bool * bool) (c p : addr) : M PW Z :=
  r ← with_server (server_add grow ok.1 ok.2 p (Some c));
  when (r =? 0)%Z (wake_up ResumeWaiter);;
  mret r.

Fixpoint register_all (ok : nat → bool * bool) (c : addr) (l : list addr) (i : nat) : M PW unit :=
  match l with [] => mret tt | p :: l => register (ok i) c p;; register_all ok c l (S i) end.

Fixpoint unregister_all (c : addr) (l : list addr) : M PW unit :=
  match l with [] => mret tt | p :: l => with_server (server_remove p (Some c));; unregister_all c l end.

(** How far the fiber gets. *)
Inductive poll_step :=
| Invalid                           (** [errno] is [EINVAL] *)
| Completed (res : Z)               (** goes on with [poll_finish] *)
| Suspends (res : Z)                (** calls [suspend()] first *)
| WaitsUntil (t : Timestamp) (res : Z).   (** calls [waitUntil(m_wait)] first *)

Definition set_wait (c : addr) (t : Timestamp) (f : ptr) : M PW unit :=
  x ← client c; set_client c (mkClient t f (m_pollables x) (m_result x)).

(** [PollerClient::poll] in fiber [f], up to where it gives up the processor. *)
Definition poll_start (init : Pollable → pollfd → Z * pollfd) (sys : list pollfd → sys_poll) (ok : nat → bool * bool)
    (ok1 ok2 : bool) (c f : addr) (timeout_ms : Z) (now : Timestamp) : M PW poll_step :=
  x ← client c;
  set_client c (mkClient (c_timeout x) (c_fiber x) (m_pollables x) (mkVec [] (cap (m_result x))));;
  if bool_decide (contents (m_pollables x) = []) then mret Invalid
  else
    register_all ok c (contents (m_pollables x)) 0;;
    set_wait c null_ts nullptr;;
    res ← server_poll grow init sys ok1 ok2;
    x ← client c;
    if negb (bool_decide (contents (m_result x) = [])) then mret (Completed res)
    else if negb (res =? 0)%Z && negb (res =? EAGAIN)%Z then mret (Completed res)
    else if (timeout_ms =? 0)%Z then mret (Completed res)
    else if (timeout_ms <? 0)%Z then set_wait c null_ts (Some f);; mret (Suspends res)
    else
      t ← ts_add now (interval (Z.quot timeout_ms 1000) (Z.rem (timeout_ms * 1000000) 1000000000) false);
      set_wait c t nullptr;;
      mret (WaitsUntil t res).

(** ...and from there; the result is [errno]. *)
Definition poll_finish (c : addr) (res : Z) : M PW Z :=
  x ← client c;
  unregister_all c (rev (contents (m_pollables x)));;
  mret (if bool_decide (contents (m_result x) = []) && (res =? 0)%Z then EAGAIN else res).

(** *** [zth::poll] of one pollable: what it makes of a poll of its poller;
    [None]: once more. *)
Definition poll_one (timeout_ms err : Z) (result : list Pollable) : option Z :=
  match result with
  | [] => if ((err =? EINTR)%Z || (err =? EAGAIN)%Z) && (timeout_ms =? -1)%Z then None else Some err
  | p :: _ => Some (if (Z.land (revents p) (events p) =? 0)%Z then EIO else 0)%Z
  end.
End Client.
(** ** The lists of the server *)

Definition swap_out {A : Type} (i : nat) (l : list A) : list A :=
  match last l with Some z => drop_last (<[i:=z]> l) | None => l end.

Lemma drop_last_snoc {A : Type} (l : list A) x : drop_last (l ++ [x]) = l.
Proof. unfold drop_last. rewrite length_app, Nat.add_sub. by rewrite take_app_length. Qed.

Lemma swap_out_length {A : Type} i (l : list A) : length (swap_out i l) = (length l - 1)%nat.
Proof.
  unfold swap_out. destruct (last l) as [z|] eqn:E; [|by apply last_None in E as ->].
  unfold drop_last. rewrite length_take, length_insert. lia.
Qed.

Lemma swap_out_lookup {A : Type} i j (l : list A) :
  (i < length l)%nat → (j < length l - 1)%nat → swap_out i l !! j = if decide (j = i) then last l else l !! j.
Proof.
  intros Hi Hj. unfold swap_out. destruct (last l) as [z|] eqn:E; [|apply last_None in E as ->; simpl in *; lia].
  unfold drop_last. rewrite length_insert, lookup_take_lt by lia. destruct (decide (j = i)) as [->|].
  - by apply list_lookup_insert_eq.
  - by rewrite list_lookup_insert_ne.
Qed.

Lemma swap_out_last {A : Type} (l : list A) : swap_out (length l - 1) l = drop_last l.
Proof.
  unfold swap_out. destruct (last l) as [z|] eqn:E; [|by apply last_None in E as ->].
  apply last_Some in E as [l' ->]. rewrite length_app, Nat.add_sub. by rewrite list_insert_id by by apply list_lookup_middle.
Qed.

Lemma swap_out_perm {A : Type} i x (l : list A) : l !! i = Some x → l ≡ₚ x :: swap_out i l.
Proof.
  intros E. destruct (last l) as [z|] eqn:Ez; [|by apply last_None in Ez as ->].
  assert (Ez' := Ez). apply last_Some in Ez as [l' ->]. unfold swap_out. rewrite Ez'.
  destruct (decide (i = length l')) as [->|Hne].
  - rewrite list_lookup_middle in E by done. injection E as ->.
    rewrite list_insert_id by by apply list_lookup_middle. rewrite drop_last_snoc. by rewrite Permutation_app_comm.
  - assert (i < length l')%nat as L.
    { apply lookup_lt_Some in E. rewrite length_app in E. simpl in E. lia. }
    rewrite lookup_app_l in E by done. rewrite insert_app_l, drop_last_snoc by done.
    rewrite (insert_take_drop l' i z L). rewrite <-(take_drop_middle l' i x E) at 1.
    rewrite <-Permutation_cons_append, <-!Permutation_middle. apply perm_swap.
Qed.

Section ServerLemmas.
Context `{Config} {I : Type} (grow : nat → nat).

Abbreviation S := (Server I).

(** The poll items follow what is registered, and there is room for all of them. *)
Record wf_server (s : S) : Prop := {
  sv_follow : (length (items s) ≤ length (metas s))%nat;
  sv_room : (length (metas s) ≤ cap (m_pollItems s))%nat
}.

Definition m_of (p : addr) (c : ptr) : MetaItem := mkMeta p c.

Lemma find_last_spec m (l : list MetaItem) n :
  (n ≤ length l)%nat →
  match find_last m l n with
  | Some i => (i < n)%nat ∧ l !! i = Some m ∧ ∀ j, (i < j < n)%nat → l !! j ≠ Some m
  | None => ∀ j, (j < n)%nat → l !! j ≠ Some m
  end.
Proof.
  induction n as [|n IH]; intros L; simpl; [lia|]. case_bool_decide as E.
  - split_and!; [lia|done|]. intros j Hj. lia.
  - specialize (IH ltac:(lia)). destruct (find_last m l n) as [i|].
    + destruct IH as (I1 & I2 & I3). split_and!; [lia|done|]. intros j Hj. destruct (decide (j = n)) as [->|]; [done|]. apply I3. lia.
    + intros j Hj. destruct (decide (j = n)) as [->|]; [done|]. apply IH. lia.
Qed.

Lemma meta_at_run i m (s : S) : metas s !! i = Some m → meta_at i s = Ok (m, s).
Proof.
  intros E. unfold meta_at. erewrite bind_Ok by reflexivity.
  erewrite bind_Ok by (apply zth_assert_true, Nat.ltb_lt; by apply lookup_lt_is_Some_1). by rewrite E.
Qed.

Lemma item_at_run i x (s : S) : items s !! i = Some x → item_at i s = Ok (x, s).
Proof.
  intros E. unfold item_at. erewrite bind_Ok by reflexivity.
  erewrite bind_Ok by (apply zth_assert_true, Nat.ltb_lt; by apply lookup_lt_is_Some_1). by rewrite E.
Qed.

Lemma deinit_run (s : S) i n : wf_server s → (n ≤ length (items s) - i)%nat → deinit_from i n s = Ok (tt, s).
Proof.
  intros W. revert i. induction n as [|n IH]; intros i L; simpl; [done|].
  destruct (lookup_lt_is_Some_2 (items s) i) as [x Ex]; [lia|].
  destruct (lookup_lt_is_Some_2 (metas s) i) as [m Em]; [pose proof (sv_follow s W); lia|].
  rewrite (bind_Ok _ _ _ _ _ (meta_at_run i m s Em)), (bind_Ok _ _ _ _ _ (item_at_run i x s Ex)). apply IH. lia.
Qed.

Lemma push_meta_run ok m (s : S) :
  on_meta (vector_push_back grow ok m) s =
    match vector_reserve grow ok (Datatypes.S (length (metas s))) (m_metaItems s) with
    | Some v => Ok (true, mkServer (mkVec (contents v ++ [m]) (cap v)) (m_pollItems s))
    | None => Ok (false, s)
    end.
Proof. unfold on_meta, vector_push_back, metas. by destruct (vector_reserve _ _ _ _). Qed.

Lemma server_add_run ok1 ok2 p c (s : S) :
  wf_server s → ∃ r s', server_add grow ok1 ok2 p c s = Ok (r, s') ∧ wf_server s' ∧ items s' = items s ∧
    (r = 0%Z ∧ metas s' = metas s ++ [m_of p c] ∨ r = ENOMEM ∧ metas s' = metas s) ∧
    (ok1 = true → ok2 = true → r = 0%Z) ∧
    ((Datatypes.S (length (metas s)) ≤ cap (m_metaItems s))%nat → (Datatypes.S (length (metas s)) ≤ cap (m_pollItems s))%nat → r = 0%Z) ∧
    (cap (m_metaItems s) ≤ cap (m_metaItems s'))%nat ∧ (cap (m_pollItems s) ≤ cap (m_pollItems s'))%nat.
Proof.
  intros [W1 W2]. unfold server_add. pose proof (push_meta_run ok1 (m_of p c) s) as P.
  pose proof (vector_reserve_spec grow ok1 (Datatypes.S (length (metas s))) (m_metaItems s)) as R.
  destruct (vector_reserve grow ok1 _ _) as [v|]; rewrite (bind_Ok _ _ _ _ _ P).
  2: { destruct R as [-> R]. eexists _, s. split; [reflexivity|]. split; [done|]. split_and!; auto; try done. lia. }
  destruct R as (R1 & R2 & R3). set (s1 := mkServer _ _). erewrite bind_Ok by reflexivity. cbn beta iota. assert (metas s1 = metas s ++ [m_of p c]) as E1 by (unfold metas; simpl; by rewrite R1).
  pose proof (vector_reserve_spec grow ok2 (length (metas s1)) (m_pollItems s1)) as Q.
  assert (on_poll (vector_reserve grow ok2 (length (metas s1))) s1 =
    match vector_reserve grow ok2 (length (metas s1)) (m_pollItems s1) with
    | Some w => Ok (true, mkServer (m_metaItems s1) w) | None => Ok (false, s1) end) as P2 by done.
  assert (length (metas s1) = Datatypes.S (length (metas s))) as El by (rewrite E1, length_app; simpl; lia).
  destruct (vector_reserve grow ok2 _ _) as [w|]; rewrite (bind_Ok _ _ _ _ _ P2); cbn beta iota.
  - destruct Q as (Q1 & Q2 & Q3). erewrite bind_Ok by reflexivity.
    set (s2 := mkServer _ w). assert (metas s2 = metas s1) as E2 by done.
    assert (items s2 = items s) as Ei by by (unfold items; simpl; rewrite Q1).
    erewrite bind_Ok by (apply zth_assert_true, Nat.leb_le; rewrite E2, El, Ei; lia).
    eexists _, s2. split; [reflexivity|]. split; [constructor; rewrite ?Ei, ?E2, El; [lia|simpl; lia]|].
    split_and!; auto; try lia; simpl in *; lia.
  - destruct Q as [-> Q]. eexists _, _. split; [reflexivity|].
    assert (drop_last (metas s1) = metas s) as E2 by (rewrite E1; apply drop_last_snoc).
    split; [constructor; unfold metas, items in *; simpl in *; rewrite E2; [done|lia]|].
    split; [done|]. split; [right; split; [done|exact E2]|]. simpl in *.
    split_and!; [done|lia|lia|lia].
Qed.

(** Filling the gap in the middle. *)
Lemma fill_poll_run i (s : S) :
  wf_server s → (i < length (metas s))%nat →
  when (i <? length (items s))%nat
    (deinit_from i 1;;
     when (i <? length (items s) - 1)%nat (b ← item_at (length (items s) - 1); edit_poll (<[i:=b]>));;
     edit_poll drop_last) s =
  Ok (tt, mkServer (m_metaItems s)
            (mkVec (if (i <? length (items s))%nat then swap_out i (items s) else items s) (cap (m_pollItems s)))).
Proof.
  intros W Hi. unfold when at 1. destruct (Nat.ltb_spec i (length (items s))) as [L|L]; [|by destruct s as [? []]].
  rewrite (bind_Ok _ _ _ _ _ (deinit_run s i 1 W ltac:(lia))).
  destruct (lookup_lt_is_Some_2 (items s) (length (items s) - 1)) as [b Eb]; [lia|].
  assert (last (items s) = Some b) as El by (rewrite last_lookup, <-Nat.sub_1_r; done).
  destruct (Nat.ltb_spec i (length (items s) - 1)) as [L'|L']; simpl.
  - erewrite bind_Ok by (rewrite (bind_Ok _ _ _ _ _ (item_at_run _ b s Eb)); reflexivity).
    unfold edit_poll, modify, swap_out. rewrite El. done.
  - erewrite bind_Ok by reflexivity. assert (i = length (items s) - 1)%nat as -> by lia. by rewrite swap_out_last.
Qed.

Lemma remove_last_run (s : S) :
  wf_server s → (0 < length (metas s))%nat →
  server_remove_last 1 s =
  Ok (tt, mkServer (mkVec (drop_last (metas s)) (cap (m_metaItems s)))
            (mkVec (take (length (metas s) - 1) (items s)) (cap (m_pollItems s)))).
Proof.
  intros W L. pose proof (sv_follow s W) as F. unfold server_remove_last. erewrite bind_Ok by reflexivity.
  destruct (Nat.leb_spec (length (metas s)) 1) as [L1|L1].
  - unfold server_clear. erewrite bind_Ok by reflexivity. erewrite bind_Ok by (apply deinit_run; [done|lia]).
    erewrite bind_Ok by reflexivity. unfold edit_poll, modify, drop_last. simpl.
    replace (length (metas s) - 1)%nat with 0%nat by lia. done.
  - rewrite (bind_Ok _ _ _ _ _ (deinit_run s _ _ W (le_n _))).
    erewrite bind_Ok by reflexivity. unfold when, drop_last. destruct (Nat.ltb_spec (length (metas s) - 1) (length (items s))).
    + done.
    + rewrite (take_ge (items s)) by lia. destruct s as [? []]. done.
Qed.

(** [remove] takes the last one that matches, and puts the last one in its place,
    in either list. *)
Lemma server_remove_run p c (s : S) :
  wf_server s →
  match find_last (m_of p c) (metas s) (length (metas s)) with
  | None => server_remove p c s = Ok (ESRCH, s)
  | Some i => ∃ s', server_remove p c s = Ok (0%Z, s') ∧ wf_server s' ∧ metas s' = swap_out i (metas s) ∧
      items s' = (if (i <? length (items s))%nat then swap_out i (items s) else items s) ∧
      cap (m_metaItems s') = cap (m_metaItems s) ∧ cap (m_pollItems s') = cap (m_pollItems s)
  end.
Proof.
  intros W. destruct (W) as [W1 W2]. pose proof (find_last_spec (m_of p c) (metas s) (length (metas s)) (le_n _)) as F.
  unfold server_remove. rewrite (bind_Ok _ _ s s s) by done. cbv zeta. fold (m_of p c).
  destruct (find_last (m_of p c) (metas s) (length (metas s))) as [i|]; [|done]. destruct F as (Hi & Ei & _).
  set (s1 := mkServer (mkVec (swap_out i (metas s)) (cap (m_metaItems s)))
    (mkVec (if (i <? length (items s))%nat then swap_out i (items s) else items s) (cap (m_pollItems s)))).
  assert (wf_server s1) as W1'.
  { constructor; unfold metas, items; simpl; rewrite swap_out_length; [|fold (metas s); lia].
    destruct (Nat.ltb_spec i (length (items s))); rewrite ?swap_out_length; unfold items, metas in *; lia. }
  exists s1. split; [|done]. erewrite bind_Ok.
  { erewrite bind_Ok by reflexivity. erewrite bind_Ok by (apply zth_assert_true, Nat.leb_le, W1'). reflexivity. }
  destruct (Nat.ltb_spec i (length (metas s) - 1)) as [L|L].
  - rewrite (bind_Ok _ _ _ _ _ (fill_poll_run i s W Hi)).
    destruct (lookup_lt_is_Some_2 (metas s) (length (metas s) - 1)) as [z Ez]; [lia|].
    erewrite bind_Ok by (apply meta_at_run; exact Ez). erewrite bind_Ok by reflexivity.
    assert (last (metas s) = Some z) as El by (rewrite last_lookup, <-Nat.sub_1_r; done).
    unfold edit_meta, modify, s1, swap_out. by rewrite El.
  - assert (i = length (metas s) - 1)%nat as -> by lia. rewrite (remove_last_run s W) by lia.
    unfold s1. rewrite swap_out_last. do 3 f_equal.
    destruct (Nat.ltb_spec (length (metas s) - 1) (length (items s))).
    + assert (length (items s) = length (metas s)) as E by lia. rewrite <-E, swap_out_last. done.
    + by rewrite (take_ge (items s)) by lia.
Qed.
End ServerLemmas.

(** ** Poll items and pollables *)

(** Every poll item is that of the pollable next to it. *)
Definition in_sync (pm : gmap addr Pollable) (s : Server pollfd) : Prop :=
  ∀ i x, items s !! i = Some x → ∃ m p, metas s !! i = Some m ∧ pm !! m_pollable m = Some p ∧ poll_init p x = (0%Z, x).

Definition registered (pm : gmap addr Pollable) (s : Server pollfd) : Prop :=
  ∀ m, m ∈ metas s → is_Some (pm !! m_pollable m).

Definition synced (pm : gmap addr Pollable) (s : Server pollfd) : Prop :=
  wf_server s ∧ in_sync pm s ∧ registered pm s.

Lemma add_synced pm (s s' : Server pollfd) p c :
  synced pm s → is_Some (pm !! p) → wf_server s' → items s' = items s →
  metas s' = metas s ++ [mkMeta p c] ∨ metas s' = metas s → synced pm s'.
Proof.
  intros (W & Y & R) Hp W' Ei Em. split; [done|]. split.
  - intros i x. rewrite Ei. intros E. destruct (Y i x E) as (m & q & E1 & E2 & E3). exists m, q.
    split; [|done]. destruct Em as [->| ->]; [by apply lookup_app_l_Some|done].
  - intros m Hm. destruct Em as [->| ->] in Hm; [|auto]. apply elem_of_app in Hm as [Hm|Hm]; [auto|].
    apply list_elem_of_singleton in Hm as ->. done.
Qed.

(** Taking one out keeps the rest together when all items are there, or when it is
    not before the last item. *)
Lemma remove_synced pm (s s' : Server pollfd) i :
  synced pm s → wf_server s' → (i < length (metas s))%nat →
  metas s' = swap_out i (metas s) →
  items s' = (if (i <? length (items s))%nat then swap_out i (items s) else items s) →
  length (items s) = length (metas s) ∨ (length (items s) ≤ S i)%nat → synced pm s'.
Proof.
  intros (W & Y & R) W' Hi Em Ei Hs. pose proof (sv_follow s W) as F. split; [done|]. split.
  - intros j x. rewrite Ei. intros E.
    assert (j < length (items s) ∧ (i < length (items s) → j < length (items s) - 1))%nat as [Hj Hj'].
    { apply lookup_lt_Some in E. destruct (Nat.ltb_spec i (length (items s))); rewrite ?swap_out_length in E; lia. }
    destruct (decide (i < length (items s))%nat) as [L|L].
    + rewrite (proj2 (Nat.ltb_lt _ _)) in E by done. rewrite swap_out_lookup in E by lia.
      assert (j < length (metas s) - 1)%nat by lia. rewrite Em, swap_out_lookup by lia.
      revert E. destruct (decide (j = i)) as [->|]; intros E; [|by apply Y].
      destruct Hs as [Hs|Hs]; [|lia]. rewrite last_lookup in E. rewrite last_lookup, <-Hs. by apply Y.
    + rewrite (proj2 (Nat.ltb_ge _ _)) in E by lia. destruct (Y j x E) as (m & q & E1 & E2 & E3). exists m, q.
      split; [|done]. rewrite Em, swap_out_lookup by lia. rewrite decide_False by lia. done.
  - intros m Hm. apply R. destruct (lookup_lt_is_Some_2 _ _ Hi) as [x Ex].
    rewrite (swap_out_perm i x _ Ex), <-Em. by right.
Qed.

Section PollLemmas.
Context `{Config} (grow : nat → nat).

Lemma with_server_run {A} (m : M (Server pollfd) A) (s : PW) a v :
  m (server s) = Ok (a, v) → with_server m s = Ok (a, mkPW v (pollables s) (clients s) (wakes s)).
Proof. unfold with_server. by intros ->. Qed.

(** The items that are new become those of their pollables. *)
Lemma init_loop_run n i (s : PW) :
  registered (pollables s) (server s) → (i + n)%nat = length (metas (server s)) → length (items (server s)) = (i + n)%nat →
  (∀ j x, (j < i)%nat → items (server s) !! j = Some x → ∃ m p, metas (server s) !! j = Some m ∧
     pollables s !! m_pollable m = Some p ∧ poll_init p x = (0%Z, x)) →
  ∃ v, init_loop poll_init i n s = Ok (0%Z, mkPW v (pollables s) (clients s) (wakes s)) ∧
    m_metaItems v = m_metaItems (server s) ∧ cap (m_pollItems v) = cap (m_pollItems (server s)) ∧
    length (items v) = (i + n)%nat ∧ in_sync (pollables s) v ∧ take i (items v) = take i (items (server s)).
Proof.
  revert i s. induction n as [|n IH]; intros i s R L1 L2 Y; simpl.
  - exists (server s). destruct s as [v pm cl ws]. simpl in *. split_and!; try done.
    intros j x E. apply Y; [|done]. apply lookup_lt_Some in E. lia.
  - destruct (lookup_lt_is_Some_2 (metas (server s)) i) as [m Em]; [lia|].
    destruct (lookup_lt_is_Some_2 (items (server s)) i) as [x Ex]; [lia|].
    destruct (R m) as [p Ep]; [by eapply list_elem_of_lookup_2|].
    rewrite (bind_Ok _ _ _ _ _ (with_server_run _ s _ _ (meta_at_run i m _ Em))).
    set (s0 := mkPW (server s) (pollables s) (clients s) (wakes s)).
    assert (s0 = s) as -> by by destruct s.
    erewrite bind_Ok by (unfold pollable; rewrite Ep; reflexivity).
    rewrite (bind_Ok _ _ _ _ _ (with_server_run _ s _ _ (item_at_run i x _ Ex))).
    destruct (poll_init p x) as [res y] eqn:Ei. assert (res = 0%Z) as -> by by injection Ei.
    erewrite bind_Ok by reflexivity. simpl.
    set (s1 := mkPW _ _ _ _).
    destruct (IH (S i) s1) as (v & Q & V1 & V2 & V3 & V4 & V5); [done|change (metas (server s1)) with (metas (server s)); lia|..].
    { unfold s1. simpl. unfold items. simpl. rewrite length_insert. unfold items in L2. lia. }
    { intros j z Hj. unfold s1, items at 1. simpl. intros E.
      destruct (decide (j = i)) as [->|Hne].
      - rewrite list_lookup_insert_eq in E by (apply lookup_lt_Some in Ex; done). injection E as <-.
        exists m, p. split_and!; [done|done|]. by injection Ei as <-.
      - rewrite list_lookup_insert_ne in E by done. apply Y; [lia|done]. }
    exists v. rewrite Q. split_and!; try done; [lia|].
    assert (take i (items s1.(server)) = take i (items (server s))) as T.
    { unfold s1, items. simpl. by rewrite take_insert_ge. }
    rewrite <-T. pose proof (f_equal (take i) V5) as V6. by rewrite !take_take, !Nat.min_l in V6 by lia.
Qed.

Lemma mirror_run ok (s : PW) :
  synced (pollables s) (server s) →
  ∃ v, mirror grow poll_init ok s = Ok (0%Z, mkPW v (pollables s) (clients s) (wakes s)) ∧
    synced (pollables s) v ∧ metas v = metas (server s) ∧ length (items v) = length (metas v) ∧
    take (length (items (server s))) (items v) = items (server s).
Proof.
  intros (W & Y & R). unfold mirror. erewrite bind_Ok by reflexivity. pose proof W as [W1 W2].
  set (v1 := mkServer (m_metaItems (server s))
    (mkVec (resize (length (metas (server s))) pollfd0 (items (server s))) (cap (m_pollItems (server s))))).
  erewrite bind_Ok.
  2: { apply with_server_run. unfold on_poll, vector_resize, vector_reserve.
    rewrite (proj2 (Nat.leb_le _ _)) by done. simpl. reflexivity. }
  fold (items (server s)). fold v1. cbn beta iota.
  set (s1 := mkPW v1 _ _ _).
  destruct (init_loop_run (length (metas (server s)) - length (items (server s))) (length (items (server s))) s1)
    as (v & Q & V1 & V2 & V3 & V4 & V5); [done|unfold metas; simpl; unfold metas in *; lia|..].
  { unfold s1, items at 1. simpl. rewrite length_resize. lia. }
  { intros j x Hj. unfold s1, items at 1. simpl. rewrite lookup_resize by lia. apply Y. }
  rewrite (bind_Ok _ _ _ _ _ Q). erewrite bind_Ok by reflexivity.
  assert (metas v = metas (server s)) as Em by (unfold metas; by rewrite V1).
  erewrite bind_Ok by (apply zth_assert_true, Nat.eqb_eq; simpl; rewrite V3, Em; lia).
  exists v. split; [reflexivity|]. split.
  { split; [|split; [done|]]. - constructor; [rewrite V3, Em; lia|rewrite Em, V2; done]. - intros m. rewrite Em. apply R. }
  split_and!; [done|rewrite V3, Em; lia|]. rewrite V5.
  change (items (server s1)) with (resize (length (metas (server s))) pollfd0 (items (server s))).
  rewrite resize_ge by done. by rewrite take_app_length.
Qed.

(** A subclass that cannot make an item. *)
Lemma init_loop_fails i n (s : PW) m p x :
  metas (server s) !! i = Some m → pollables s !! m_pollable m = Some p → items (server s) !! i = Some x →
  init_loop no_init i (S n) s = Ok (EINVAL, mkPW (mkServer (m_metaItems (server s))
    (mkVec (take i (<[i:=x]> (items (server s)))) (cap (m_pollItems (server s))))) (pollables s) (clients s) (wakes s)).
Proof.
  intros Em Ep Ex. simpl. rewrite (bind_Ok _ _ _ _ _ (with_server_run _ s _ _ (meta_at_run i m _ Em))).
  erewrite bind_Ok by (unfold pollable; simpl; rewrite Ep; reflexivity).
  erewrite bind_Ok by (apply with_server_run; apply item_at_run; exact Ex). done.
Qed.

Lemma mirror_fails ok (s : PW) :
  wf_server (server s) → registered (pollables s) (server s) → (length (items (server s)) < length (metas (server s)))%nat →
  EnableAssert = true → mirror grow no_init ok s = Fault AssertFailed.
Proof.
  intros [W1 W2] R L A. unfold mirror. erewrite bind_Ok by reflexivity.
  erewrite bind_Ok.
  2: { apply with_server_run. unfold on_poll, vector_resize, vector_reserve.
    rewrite (proj2 (Nat.leb_le _ _)) by done. simpl. reflexivity. }
  cbn beta iota. set (s1 := mkPW _ _ _ _).
  destruct (length (metas (server s)) - length (items (server s)))%nat as [|n] eqn:En; [lia|].
  destruct (lookup_lt_is_Some_2 (metas (server s)) (length (items (server s)))) as [m Em]; [lia|].
  destruct (lookup_lt_is_Some_2 (items (server s1)) (length (items (server s)))) as [x Ex].
  { change (items (server s1)) with (resize (length (metas (server s))) pollfd0 (items (server s))). by rewrite length_resize. }
  destruct (R m) as [p Ep]; [by eapply list_elem_of_lookup_2|].
  rewrite (bind_Ok _ _ _ _ _ (init_loop_fails _ n s1 m p x Em Ep Ex)). erewrite bind_Ok by reflexivity.
  erewrite bind_Fault; [done|]. apply zth_assert_false; [done|]. apply Nat.eqb_neq.
  change (length (metas (server s)) ≠ length (take (length (items (server s))) (<[length (items (server s)):=x]> (items (server s1))))).
  rewrite length_take. lia.
Qed.
End PollLemmas.

(** ** Events *)

(** Of what has been reported for the registered ones: what is for client [c], and
    whom it wakes. *)
Definition fired (c : addr) (h : list (MetaItem * Z)) : list addr :=
  omap (λ '(m, r), if negb (r =? 0)%Z && bool_decide (m_client m = Some c) then Some (m_pollable m) else None) h.

Definition wake_for (cl : gmap addr Client) (e : MetaItem * Z) : option wake :=
  let '(m, r) := e in
  if (r =? 0)%Z then None
  else
    c ← m_client m;
    x ← cl !! c;
    if negb (ts_isNull (c_timeout x)) then Some (WakeWaitable c) else ResumeFiber <$> c_fiber x.

Definition got (l : list addr) (x : Client) : Client :=
  mkClient (c_timeout x) (c_fiber x) (m_pollables x) (mkVec (contents (m_result x) ++ l) (cap (m_result x))).

(** [s'] is [s] after the events [h]. *)
Record reported (h : list (MetaItem * Z)) (s s' : PW) : Prop := {
  rep_server : server s' = server s;
  rep_client c : clients s' !! c = got (fired c h) <$> clients s !! c;
  rep_wakes : wakes s' = wakes s ++ omap (wake_for (clients s)) h;
  rep_pollable q p : pollables s !! q = Some p → ∃ r, pollables s' !! q = Some (set_revents r p);
  rep_revents k m r : h !! k = Some (m, r) → r ≠ 0%Z → is_Some (pollables s !! m_pollable m) →
    (∀ j m' r', (k < j)%nat → h !! j = Some (m', r') → m_pollable m' ≠ m_pollable m) →
    ∃ p', pollables s' !! m_pollable m = Some p' ∧ revents p' = r;
  rep_other q : (∀ m r, (m, r) ∈ h → m_pollable m ≠ q) → pollables s' !! q = pollables s !! q
}.

Lemma got_nil x : got [] x = x.
Proof. destruct x as [t f v [l n]]. unfold got. simpl. by rewrite app_nil_r. Qed.

Lemma got_got l1 l2 x : got l2 (got l1 x) = got (l1 ++ l2) x.
Proof. unfold got. simpl. by rewrite <-(assoc_L (++)). Qed.

Lemma reported_none h s : (∀ m r, (m, r) ∈ h → r = 0%Z) → reported h s s.
Proof.
  intros Z0. assert (∀ c, fired c h = []) as F.
  { intros c. induction h as [|[m r] h IH]; [done|]. unfold fired. simpl. rewrite (Z0 m r) by auto with zth. simpl.
    apply IH. intros m' r' Hm. apply (Z0 m'). auto with zth. }
  constructor; [done|..].
  - intros c. rewrite F. destruct (clients s !! c) as [x|]; simpl; [by rewrite got_nil|done].
  - assert (omap (wake_for (clients s)) h = []) as ->; [|by rewrite app_nil_r].
    clear F. induction h as [|[m r] h IH]; [done|]. simpl. rewrite (Z0 m r) by auto with zth. simpl.
    apply IH. intros m' r' Hm. apply (Z0 m'). auto with zth.
  - intros q p E. exists (revents p). by destruct p.
  - intros k m r E Hr. destruct Hr. apply (Z0 m). by eapply list_elem_of_lookup_2.
  - done.
Qed.

Lemma reported_cons e h s s1 s' : reported [e] s s1 → reported h s1 s' → reported (e :: h) s s'.
Proof.
  destruct e as [m0 r0]. intros [A1 A2 A3 A4 A5 A6] [B1 B2 B3 B4 B5 B6]. constructor.
  - congruence.
  - intros c. rewrite B2, A2. destruct (clients s !! c) as [x|]; [|done]. simpl. rewrite got_got. f_equal. f_equal.
    unfold fired. simpl. by destruct (negb (r0 =? 0)%Z && _).
  - rewrite B3, A3, <-(assoc_L (++)). f_equal.
    assert (∀ e, wake_for (clients s1) e = wake_for (clients s) e) as Ew.
    { intros [m r]. unfold wake_for. destruct (r =? 0)%Z; [done|]. destruct (m_client m) as [c|]; [|done]. simpl.
      rewrite A2. by destruct (clients s !! c). }
    assert (omap (wake_for (clients s1)) h = omap (wake_for (clients s)) h) as ->.
    { apply list_omap_ext. apply Forall2_same_length_lookup. split; [done|]. intros i x y E1 E2.
      rewrite Ew. congruence. }
    cbn [omap list_omap]. by destruct (wake_for (clients s) (m0, r0)).
  - intros q p E. destruct (A4 q p E) as [r E1]. destruct (B4 q _ E1) as [r' E2]. exists r'. rewrite E2. by destruct p.
  - intros [|k] m r E Hr Hs Hd; simpl in E.
    + injection E as -> ->. destruct (A5 0%nat m r eq_refl Hr Hs) as (p' & E1 & E2).
      { intros [|[|j]] m' r' Hj; simpl; try lia; done. }
      exists p'. split; [|done]. rewrite B6; [done|]. intros m' r' [j Ej]%list_elem_of_lookup_1.
      by apply (Hd (S j) m' r'); [lia|].
    + apply (B5 k m r E Hr).
      * destruct Hs as [p Ep]. destruct (A4 _ _ Ep) as [r' Er]. by eexists.
      * intros j m' r' Hj Ej. apply (Hd (S j) m' r'); [lia|done].
  - intros q Hq. rewrite B6, A6; [done|..].
    + intros m r Hm%list_elem_of_singleton. injection Hm as -> ->. apply (Hq m0 r0). auto with zth.
    + intros m r Hm. apply (Hq m r). auto with zth.
Qed.

Section Events.
Context `{Config} (grow : nat → nat).

(** There is room for all results. *)
Definition room (h : list (MetaItem * Z)) (s : PW) : Prop := ∀ c x,
  clients s !! c = Some x → (length (contents (m_result x)) + length (fired c h) ≤ cap (m_result x))%nat.

Definition known (s : PW) : Prop :=
  registered (pollables s) (server s) ∧ ∀ m c, m ∈ metas (server s) → m_client m = Some c → is_Some (clients s !! c).

Lemma event_run ok r i m (s : PW) :
  known s → metas (server s) !! i = Some m → room [(m, r)] s →
  ∃ s', event grow ok r i s = Ok (tt, s') ∧ reported [(m, r)] s s'.
Proof.
  intros [R C] Em Rm. assert (m ∈ metas (server s)) as Hm by by eapply list_elem_of_lookup_2.
  destruct (R m Hm) as [p Ep]. unfold event. erewrite bind_Ok by reflexivity.
  erewrite bind_Ok by (apply zth_assert_true, Nat.ltb_lt; by apply lookup_lt_is_Some_1).
  rewrite (bind_Ok _ _ _ _ _ (with_server_run _ s _ _ (meta_at_run i m _ Em))).
  erewrite bind_Ok by (unfold pollable; simpl; rewrite Ep; reflexivity).
  erewrite bind_Ok by reflexivity. simpl.
  set (s1 := mkPW (server s) (<[m_pollable m:=set_revents r p]> (pollables s)) (clients s) (wakes s)).
  change (∃ s', when (negb (r =? 0)%Z) (match m_client m with Some c => client_event grow ok c (m_pollable m) | None => mret tt end) s1 =
    Ok (tt, s') ∧ reported [(m, r)] s s').
  assert (∀ s', server s' = server s → pollables s' = pollables s1 →
    (∀ c, clients s' !! c = got (fired c [(m, r)]) <$> clients s !! c) →
    wakes s' = wakes s ++ omap (wake_for (clients s)) [(m, r)] → reported [(m, r)] s s') as K.
  { intros s' K1 K2 K3 K4. constructor; [done|done|done|..].
    - intros q p' E. rewrite K2. simpl. destruct (decide (q = m_pollable m)) as [->|Hne].
      + rewrite lookup_insert_eq. exists r. by simplify_eq.
      + rewrite lookup_insert_ne by done. exists (revents p'). rewrite E. by destruct p'.
    - intros [|k] m' r' E; [|done]. injection E as <- <-. intros _ _ _. rewrite K2. simpl. rewrite lookup_insert_eq. by eexists.
    - intros q Hq. rewrite K2. simpl. rewrite lookup_insert_ne; [done|]. apply (Hq m r). auto with zth. }
  assert (∀ c, clients s !! c = got [] <$> clients s !! c) as Gn.
  { intros c. destruct (clients s !! c) as [x|]; simpl; [by rewrite got_nil|done]. }
  destruct (Z.eqb_spec r 0) as [->|Hr]; simpl.
  { exists s1. split; [done|]. apply K; [done|done|exact Gn|]. simpl. by rewrite app_nil_r. }
  destruct (m_client m) as [c|] eqn:Ec.
  2: { exists s1. split; [done|]. apply K; [done|done| |].
    - intros c. unfold fired. simpl. rewrite Ec, andb_false_r. apply Gn.
    - simpl. rewrite (proj2 (Z.eqb_neq _ _)), Ec by done. simpl. by rewrite app_nil_r. }
  destruct (C m c Hm Ec) as [x Ex]. unfold client_event.
  erewrite bind_Ok by (unfold client; simpl; rewrite Ex; reflexivity).
  assert (∀ c', fired c' [(m, r)] = if bool_decide (c' = c) then [m_pollable m] else []) as Fc.
  { intros c'. unfold fired. simpl. rewrite (proj2 (Z.eqb_neq _ _)), Ec by done. simpl.
    destruct (decide (c' = c)) as [->|Hne]; [by rewrite !bool_decide_true|by rewrite !bool_decide_false by congruence]. }
  pose proof (Rm c x Ex) as Rc. rewrite Fc, bool_decide_true in Rc by done. simpl in Rc.
  unfold vector_push_back, vector_reserve. rewrite (proj2 (Nat.leb_le _ _)) by lia. simpl.
  change (mkClient (c_timeout x) (c_fiber x) (m_pollables x) (mkVec (contents (m_result x) ++ [m_pollable m]) (cap (m_result x))))
    with (got [m_pollable m] x).
  erewrite bind_Ok by reflexivity. unfold wake_up, modify.
  assert (∀ c', <[c:=got [m_pollable m] x]> (clients s) !! c' = got (fired c' [(m, r)]) <$> clients s !! c') as Gc.
  { intros c'. rewrite Fc. destruct (decide (c' = c)) as [->|Hne].
    - by rewrite lookup_insert_eq, bool_decide_true, Ex.
    - rewrite lookup_insert_ne, bool_decide_false by done. apply Gn. }
  assert (wake_for (clients s) (m, r) = if negb (ts_isNull (c_timeout x)) then Some (WakeWaitable c) else ResumeFiber <$> c_fiber x) as Ew.
  { simpl. rewrite (proj2 (Z.eqb_neq _ _)), Ec by done. simpl. by rewrite Ex. }
  destruct (negb (ts_isNull (c_timeout x))); [|destruct (c_fiber x) as [g|]]; (eexists; split; [reflexivity|]);
    (apply K; [done|done|exact Gc|]); cbn [omap list_omap]; rewrite Ew; simpl; by rewrite ?app_nil_r.
Qed.
End Events.

(** What the items say, next to what is registered. *)
Definition hits (ms : list MetaItem) (l : list pollfd) : list (MetaItem * Z) :=
  zip ms ((λ x, revents_of (f_revents x)) <$> l).

Definition busy (l : list pollfd) : Z := Z.of_nat (length (filter (λ x, f_revents x ≠ 0%Z) l)).

Lemma fired_cons c e h : fired c (e :: h) = fired c [e] ++ fired c h.
Proof. destruct e as [m r]. unfold fired. simpl. by destruct (negb (r =? 0)%Z && _). Qed.

Lemma known_reported h s s' : known s → reported h s s' → known s'.
Proof.
  intros [R C] P. split.
  - intros m. rewrite (rep_server _ _ _ P). intros Hm. destruct (R m Hm) as [p Ep].
    destruct (rep_pollable _ _ _ P _ _ Ep) as [r E]. by eexists.
  - intros m c. rewrite (rep_server _ _ _ P), (rep_client _ _ _ P). intros Hm Hc. destruct (C m c Hm Hc) as [x ->]. by eexists.
Qed.

Lemma room_cons e h s : room (e :: h) s → room [e] s ∧ ∀ s1, reported [e] s s1 → room h s1.
Proof.
  intros R. split.
  - intros c x E. specialize (R c x E). rewrite fired_cons, length_app in R. lia.
  - intros s1 P c x. rewrite (rep_client _ _ _ P). destruct (clients s !! c) as [y|] eqn:E; [|done]. intros Ey.
    change (Some (got (fired c [e]) y) = Some x) in Ey. apply (inj Some) in Ey as <-.
    specialize (R c y E). rewrite fired_cons, length_app in R.
    unfold got. cbn [m_result contents cap]. rewrite length_app. lia.
Qed.

Lemma busy_none l : busy l = 0%Z → ∀ x, x ∈ l → f_revents x = 0%Z.
Proof.
  intros B x Hx. destruct (decide (f_revents x = 0%Z)); [done|].
  assert (x ∈ filter (λ x, f_revents x ≠ 0%Z) l) as Hf by by apply list_elem_of_filter.
  unfold busy in B. destruct (filter _ l); [by apply elem_of_nil in Hf|done].
Qed.

Lemma hits_none ms l : (∀ x, x ∈ l → f_revents x = 0%Z) → ∀ m r, (m, r) ∈ hits ms l → r = 0%Z.
Proof.
  intros Z0 m r Hm. unfold hits in Hm. apply elem_of_zip_r in Hm. apply list_elem_of_fmap in Hm as (x & -> & Hx). by rewrite Z0.
Qed.

Section Loop.
Context `{Config} (grow : nat → nat).

Lemma events_loop_run ok l i (s : PW) :
  known s → (i + length l ≤ length (metas (server s)))%nat → room (hits (drop i (metas (server s))) l) s →
  ∃ s', events_loop grow ok (busy l) i l s = Ok (tt, s') ∧ reported (hits (drop i (metas (server s))) l) s s'.
Proof.
  revert i s. induction l as [|x l IH]; intros i s K L Rm; simpl.
  - exists s. split; [done|]. apply reported_none. apply hits_none. by intros x Hx%elem_of_nil.
  - destruct (Z.ltb_spec 0 (busy (x :: l))) as [B|B].
    2: { exists s. split; [done|]. apply reported_none, hits_none, busy_none. unfold busy in *. lia. }
    simpl in L. destruct (lookup_lt_is_Some_2 (metas (server s)) i) as [m Em]; [lia|].
    assert (hits (drop i (metas (server s))) (x :: l) =
      (m, revents_of (f_revents x)) :: hits (drop (S i) (metas (server s))) l) as Eh.
    { unfold hits. by rewrite (drop_S _ m i Em). }
    rewrite Eh in Rm |- *. apply room_cons in Rm as [R1 R2].
    assert ((if negb (f_revents x =? 0)%Z then revents_of (f_revents x) else 0%Z) = revents_of (f_revents x)) as Er.
    { destruct (Z.eqb_spec (f_revents x) 0) as [->|]; done. }
    rewrite Er. destruct (event_run grow ok _ i m s K Em R1) as (s1 & Q & P). rewrite (bind_Ok _ _ _ _ _ Q).
    assert ((if negb (f_revents x =? 0)%Z then busy (x :: l) - 1 else busy (x :: l))%Z = busy l) as ->.
    { unfold busy. rewrite filter_cons. destruct (Z.eqb_spec (f_revents x) 0) as [E|E]; simpl.
      - by rewrite decide_False by tauto.
      - rewrite decide_True by done. simpl. lia. }
    pose proof (R2 s1 P) as R3. rewrite <-(rep_server _ _ _ P) in R3 |- *.
    destruct (IH (S i) s1) as (s' & Q' & P'); [by eapply known_reported|rewrite (rep_server _ _ _ P); lia|done|].
    exists s'. split; [done|]. eapply reported_cons; [|exact P']. exact P.
Qed.

(** The system's answer: for every item, and the number of those with something. *)
Record answers (l : list pollfd) (a : sys_poll) : Prop := {
  ans_length : length (s_revents a) = length l;
  ans_res : s_res a = busy (fill l (s_revents a))
}.

Lemma fill_length l r : length r = length l → length (fill l r) = length l.
Proof. intros E. unfold fill. rewrite length_zip_with, E. lia. Qed.

Lemma fill_synced pm (v : Server pollfd) r :
  synced pm v → length r = length (items v) →
  synced pm (mkServer (m_metaItems v) (mkVec (fill (items v) r) (cap (m_pollItems v)))).
Proof.
  intros ([W1 W2] & Y & R) E. split; [|split; [|done]].
  - constructor; [|done]. change (length (fill (items v) r) ≤ length (metas v))%nat. by rewrite fill_length.
  - intros i x. change (items _) with (fill (items v) r) at 1. unfold fill. rewrite lookup_zip_with.
    destruct (items v !! i) as [y|] eqn:Ey; [|done]. simpl. destruct (r !! i) as [z|]; [|done]. intros [= <-].
    destruct (Y i y Ey) as (m & p & E1 & E2 & E3). exists m, p. split; [done|]. split; [done|].
    unfold poll_init in *. injection E3 as E4. by rewrite <-E4.
Qed.

(** Every client has room for all that it registered. *)
Definition roomy (s : PW) : Prop := ∀ c x, clients s !! c = Some x →
  (length (contents (m_result x)) + length (filter (λ m, m_client m = Some c) (metas (server s))) ≤ cap (m_result x))%nat.

Lemma fired_bound c h : (length (fired c h) ≤ length (filter (λ m, m_client m = Some c) h.*1))%nat.
Proof.
  induction h as [|[m r] h IH]; [done|]. rewrite fired_cons, length_app, fmap_cons.
  assert (length (fired c [(m, r)]) ≤ if decide (m_client m = Some c) then 1 else 0)%nat as L.
  { unfold fired. simpl. destruct (decide (m_client m = Some c)) as [E|E].
    - destruct (negb (r =? 0)%Z && _); simpl; lia.
    - by rewrite bool_decide_false, andb_false_r by done. }
  destruct (decide (m_client m = Some c)) as [E|E]; [rewrite filter_cons_True by done|rewrite filter_cons_False by done]; cbn [length]; lia.
Qed.

Lemma roomy_room h (s : PW) : roomy s → h.*1 = metas (server s) → room h s.
Proof. intros R E c x Ex. specialize (R c x Ex). rewrite <-E in R. pose proof (fired_bound c h). lia. Qed.

(** A poll of the server: all items are there, and what the system says of them
    goes to the clients. *)
Lemma server_poll_run ok1 ok2 sys (s : PW) :
  synced (pollables s) (server s) → known s → metas (server s) ≠ [] → roomy s → (∀ l, answers l (sys l)) →
  ∃ l v s', server_poll grow poll_init sys ok1 ok2 s = Ok (0%Z, s') ∧
    length l = length (metas (server s)) ∧
    (∀ i x, l !! i = Some x → ∃ m p, metas (server s) !! i = Some m ∧ pollables s !! m_pollable m = Some p ∧
       poll_init p x = (0%Z, x)) ∧
    metas v = metas (server s) ∧ length (items v) = length (metas v) ∧ synced (pollables s) v ∧
    reported (zip (metas v) (revents_of <$> s_revents (sys l))) (mkPW v (pollables s) (clients s) (wakes s)) s'.
Proof.
  intros Y K Hne Rm Sys. unfold server_poll.
  destruct (mirror_run grow ok1 s Y) as (v & Q & Y1 & E1 & L1 & _). rewrite (bind_Ok _ _ _ _ _ Q). cbn [Z.eqb].
  set (s1 := mkPW v _ _ _).
  erewrite bind_Ok by (apply with_server_run; unfold server_empty; erewrite bind_Ok by reflexivity; reflexivity).
  change (server s1) with v. rewrite bool_decide_false by by rewrite E1. cbn beta iota.
  destruct (Sys (items v)) as [A1 A2]. pose proof Y1 as (_ & S1 & _).
  set (v2 := mkServer (m_metaItems v) (mkVec (fill (items v) (s_revents (sys (items v)))) (cap (m_pollItems v)))).
  set (s2 := mkPW v2 (pollables s) (clients s) (wakes s)).
  assert (hits (metas v) (fill (items v) (s_revents (sys (items v)))) = zip (metas v) (revents_of <$> s_revents (sys (items v)))) as Eh.
  { unfold hits. f_equal. apply list_eq. intros i. unfold fill. rewrite !list_lookup_fmap, lookup_zip_with.
    destruct (items v !! i) as [x|] eqn:Ex; simpl; [by destruct (s_revents _ !! i)|].
    apply lookup_ge_None_1 in Ex. by rewrite (lookup_ge_None_2 (s_revents _)) by lia. }
  assert (∃ s', doPoll grow ok2 sys s1 = Ok (0%Z, s') ∧ reported (zip (metas v) (revents_of <$> s_revents (sys (items v)))) s2 s') as (s' & R & P).
  { unfold doPoll. erewrite bind_Ok by reflexivity. change (server s1) with v. cbv zeta.
    rewrite (proj2 (Z.ltb_ge _ _)) by (rewrite A2; unfold busy; lia).
    erewrite bind_Ok by reflexivity. change (mkPW _ _ _ _) with s2.
    destruct (Z.eqb_spec (s_res (sys (items v))) 0) as [Ez|Ez].
    - exists s2. split; [done|]. apply reported_none. rewrite <-Eh. apply hits_none, busy_none. congruence.
    - erewrite bind_Ok by reflexivity. change (items (server s2)) with (fill (items v) (s_revents (sys (items v)))).
      rewrite A2. destruct (events_loop_run ok2 (fill (items v) (s_revents (sys (items v)))) 0 s2) as (s' & R & P).
      + destruct K as [K1 K2]. split; [intros m; change (metas (server s2)) with (metas v); rewrite E1; apply K1|].
        intros m c. change (metas (server s2)) with (metas v). rewrite E1. apply K2.
      + rewrite fill_length by done. change (metas (server s2)) with (metas v). lia.
      + rewrite drop_0. change (metas (server s2)) with (metas v). rewrite Eh. apply roomy_room.
        * intros c x. change (metas (server s2)) with (metas v). rewrite E1. apply Rm.
        * change (metas (server s2)) with (metas v). apply fst_zip. rewrite length_fmap, A1. lia.
      + rewrite (bind_Ok _ _ _ _ _ R). exists s'. split; [done|]. rewrite drop_0 in P.
        change (metas (server s2)) with (metas v) in P. by rewrite Eh in P. }
  exists (items v), v2, s'. split; [exact R|]. split; [by rewrite L1, E1|].
  split; [intros i x E; rewrite <-E1; by apply S1|]. split; [exact E1|].
  split; [change (length (fill (items v) (s_revents (sys (items v)))) = length (metas v)); by rewrite fill_length|].
  split; [by apply fill_synced|done].
Qed.
End Loop.

(** ** Registering and unregistering *)

Definition of_client (c : ptr) (l : list addr) : list MetaItem := (λ p, mkMeta p c) <$> l.

Lemma find_last_snoc (m : MetaItem) l : find_last m (l ++ [m]) (length (l ++ [m])) = Some (length l).
Proof.
  pose proof (find_last_spec m (l ++ [m]) _ (le_n _)) as F. rewrite length_app in *. simpl in *.
  assert ((l ++ [m]) !! length l = Some m) as E by by apply list_lookup_middle.
  destruct (find_last m (l ++ [m]) (length l + 1)) as [i|]; [|by destruct (F (length l)); [lia|]].
  destruct F as (F1 & F2 & F3). destruct (decide (i = length l)) as [->|]; [done|]. destruct (F3 (length l)); [lia|done].
Qed.

Section Registering.
Context `{Config} (grow : nat → nat).

(** The last one that was added goes without a trace. *)
Lemma remove_added {I} p c (s : Server I) ms :
  wf_server s → metas s = ms ++ [mkMeta p c] →
  ∃ s', server_remove p c s = Ok (0%Z, s') ∧ wf_server s' ∧ metas s' = ms ∧ items s' = take (length ms) (items s) ∧
    cap (m_metaItems s') = cap (m_metaItems s) ∧ cap (m_pollItems s') = cap (m_pollItems s).
Proof.
  intros W E. pose proof (server_remove_run p c s W) as R. unfold m_of in R. rewrite E, find_last_snoc in R.
  destruct R as (s' & Q & W' & Em & Ei & C1 & C2). exists s'. split_and!; try done.
  - rewrite Em. assert (length ms = length (ms ++ [mkMeta p c]) - 1)%nat as -> by (rewrite length_app; simpl; lia).
    by rewrite swap_out_last, drop_last_snoc.
  - rewrite Ei. pose proof (sv_follow s W) as F. rewrite E, length_app in F. simpl in F.
    destruct (Nat.ltb_spec (length ms) (length (items s))) as [L|L]; [|by rewrite take_ge by lia].
    assert (length ms = length (items s) - 1)%nat as -> by lia. by rewrite swap_out_last.
Qed.

Lemma register_all_run ok c l i (s : PW) :
  wf_server (server s) → (∀ j, ok j = (true, true)) →
  ∃ v, register_all grow ok c l i s = Ok (tt, mkPW v (pollables s) (clients s) (wakes s ++ replicate (length l) ResumeWaiter)) ∧
    wf_server v ∧ metas v = metas (server s) ++ of_client (Some c) l ∧ items v = items (server s).
Proof.
  revert i s. induction l as [|p l IH]; intros i s W O; simpl.
  - exists (server s). rewrite !app_nil_r. by destruct s.
  - destruct (server_add_run grow true true p (Some c) (server s) W) as (r & v & Q & W1 & Ei & Em & R0 & _).
    assert (r = 0%Z) as -> by by apply R0. destruct Em as [[_ Em]|[? _]]; [|done].
    assert (register grow (ok i) c p s = Ok (0%Z, mkPW v (pollables s) (clients s) (wakes s ++ [ResumeWaiter]))) as Rg.
    { unfold register. rewrite O. by rewrite (bind_Ok _ _ _ _ _ (with_server_run _ s _ _ Q)). }
    rewrite (bind_Ok _ _ _ _ _ Rg).
    destruct (IH (S i) (mkPW v (pollables s) (clients s) (wakes s ++ [ResumeWaiter])) W1 O) as (v' & Q' & W' & Em' & Ei').
    exists v'. rewrite Q'. simpl in *. split; [by rewrite <-(assoc_L (++))|]. split; [done|].
    rewrite Em', Em, <-(assoc_L (++)), Ei', Ei. done.
Qed.

Lemma unregister_all_run c l (s : PW) ms :
  wf_server (server s) → metas (server s) = ms ++ of_client (Some c) (rev l) →
  ∃ v, unregister_all c l s = Ok (tt, mkPW v (pollables s) (clients s) (wakes s)) ∧
    wf_server v ∧ metas v = ms ∧ items v = take (length ms) (items (server s)).
Proof.
  revert s. induction l as [|p l IH]; intros s W E; simpl.
  - unfold of_client in E. simpl in E. rewrite app_nil_r in E. exists (server s). split; [by destruct s|].
    split; [done|]. split; [done|]. pose proof (sv_follow _ W) as F. rewrite E in F. by rewrite take_ge.
  - simpl in E. unfold of_client in E. rewrite fmap_app, (assoc_L (++)) in E. simpl in E.
    destruct (remove_added p (Some c) (server s) _ W E) as (v & Q & W1 & Em & Ei & _).
    rewrite (bind_Ok _ _ _ _ _ (with_server_run _ s _ _ Q)).
    destruct (IH (mkPW v (pollables s) (clients s) (wakes s)) W1 Em) as (v' & Q' & W' & Em' & Ei').
    exists v'. split; [exact Q'|]. split; [done|]. split; [done|]. rewrite Ei'. simpl. rewrite Ei, take_take, Nat.min_l; [done|].
    rewrite length_app. lia.
Qed.

Lemma take_synced pm (v v' : Server pollfd) n :
  synced pm v → wf_server v' → metas v' = take n (metas v) → items v' = take n (items v) → synced pm v'.
Proof.
  intros (W & Y & R) W' Em Ei. split; [done|]. split.
  - intros i x. rewrite Ei. intros E. apply lookup_take_Some in E as [E Hi]. destruct (Y i x E) as (m & p & E1 & E2 & E3).
    exists m, p. split; [|done]. rewrite Em. by rewrite lookup_take_lt.
  - intros m. rewrite Em. intros Hm%elem_of_take. destruct Hm as (i & E & _). apply R. by eapply list_elem_of_lookup_2.
Qed.
End Registering.

(** ** Migration *)

Section Migration.
Context `{Config} {I : Type} (grow : nat → nat) (ok : nat → bool * bool) (left : nat → nat).

Abbreviation Store := (gmap addr (Server I)).

Lemma on_server_run {A} q (m : M (Server I) A) (s : Store) v a v' :
  s !! q = Some v → m v = Ok (a, v') → on_server q m s = Ok (a, <[q:=v']> s).
Proof. unfold on_server. intros -> ->. done. Qed.

Lemma server_reserve_run ok1 ok2 n (v : Server I) :
  wf_server v → ∃ b v', server_reserve grow ok1 ok2 n v = Ok (b, v') ∧ wf_server v' ∧ metas v' = metas v ∧ items v' = items v ∧
    (b = true → (length (metas v) + n ≤ cap (m_metaItems v'))%nat ∧ (cap (m_metaItems v') ≤ cap (m_pollItems v'))%nat) ∧
    (ok1 = true → ok2 = true → b = true).
Proof.
  intros [W1 W2]. unfold server_reserve. erewrite bind_Ok by reflexivity.
  pose proof (vector_reserve_spec grow ok1 (length (metas v) + n) (m_metaItems v)) as R.
  assert (on_meta (vector_reserve grow ok1 (length (metas v) + n)) v =
    match vector_reserve grow ok1 (length (metas v) + n) (m_metaItems v) with
    | Some w => Ok (true, mkServer w (m_pollItems v)) | None => Ok (false, v) end) as P by done.
  destruct (vector_reserve grow ok1 _ _) as [w|]; rewrite (bind_Ok _ _ _ _ _ P).
  2: { destruct R as [-> _]. by exists false, v. }
  destruct R as (R1 & R2 & R3). set (v1 := mkServer w (m_pollItems v)). erewrite bind_Ok by reflexivity.
  assert (metas v1 = metas v) as E1 by (unfold metas; simpl; done).
  pose proof (vector_reserve_spec grow ok2 (cap (m_metaItems v1)) (m_pollItems v1)) as Q.
  unfold on_poll. destruct (vector_reserve grow ok2 (cap (m_metaItems v1)) (m_pollItems v1)) as [u|].
  - destruct Q as (Q1 & Q2 & Q3). eexists true, _. split; [reflexivity|].
    assert (∀ x : Server I, x = mkServer w u → metas x = metas v ∧ items x = items v) as K.
    { intros x ->. unfold metas, items in *. simpl. by rewrite R1, Q1. }
    destruct (K _ eq_refl) as [K1 K2]. split; [constructor; change (m_metaItems v1) with w; rewrite K1, ?K2; [done|simpl in *; lia]|].
    split_and!; [done|done|intros _; simpl in *; done|done].
  - destruct Q as [-> _]. exists false, v1. split; [done|].
    split; [constructor; rewrite E1; done|]. by split_and!.
Qed.

Lemma server_clear_run (v : Server I) :
  wf_server v → server_clear v = Ok (tt, mkServer (mkVec [] (cap (m_metaItems v))) (mkVec [] (cap (m_pollItems v)))).
Proof.
  intros W. unfold server_clear. erewrite bind_Ok by reflexivity. erewrite bind_Ok by (apply deinit_run; [done|lia]). done.
Qed.

Lemma migrate_loop_run q all l i (s : Store) v :
  s !! q = Some v → wf_server v → (length (metas v) + length l ≤ cap (m_metaItems v))%nat →
  (length (metas v) + length l ≤ cap (m_pollItems v))%nat →
  ∃ v', migrate_loop grow ok q all l i s = Ok (0%Z, <[q:=v']> s) ∧ wf_server v' ∧ metas v' = metas v ++ l ∧ items v' = items v.
Proof.
  revert i s v. induction l as [|m l IH]; intros i s v E W C1 C2; simpl in *.
  - exists v. rewrite insert_id, app_nil_r by done. done.
  - destruct (server_add_run grow (ok (S i)).1 (ok (S i)).2 (m_pollable m) (m_client m) v W) as (r & v1 & Q & W1 & Ei & Em & _ & R0 & G1 & G2).
    assert (r = 0%Z) as -> by (apply R0; lia). destruct Em as [[_ Em]|[? _]]; [|done].
    rewrite (bind_Ok _ _ _ _ _ (on_server_run q _ s v _ _ E Q)). cbn [Z.eqb].
    assert (metas v1 = metas v ++ [m]) as Em' by (rewrite Em; by destruct m).
    assert (length (metas v1) = S (length (metas v))) as El by (rewrite Em', length_app; simpl; lia).
    destruct (IH (S i) (<[q:=v1]> s) v1) as (v' & Q' & W' & Em2 & Ei2); [by rewrite lookup_insert_eq|done|lia|lia|].
    exists v'. rewrite Q', insert_insert_eq. split; [done|]. split; [done|].
    rewrite Em2, Em', <-(assoc_L (++)), Ei2, Ei. done.
Qed.

(** All that is registered goes over, or nothing does. *)
Lemma migration_run this p (s : Store) a b :
  this ≠ p → s !! this = Some a → s !! p = Some b → wf_server a → wf_server b →
  ∃ res a' b', server_migrateTo grow ok left this p s = Ok (res, <[p:=b']> (<[this:=a']> s)) ∧ wf_server a' ∧ wf_server b' ∧
    items b' = items b ∧
    (res = 0%Z ∧ metas a' = [] ∧ metas b' = metas b ++ metas a ∨ res = ENOMEM ∧ a' = a ∧ metas b' = metas b) ∧
    (ok 0 = (true, true) → res = 0%Z).
Proof.
  intros Hne Ea Eb Wa Wb. unfold server_migrateTo.
  rewrite (bind_Ok _ _ _ _ _ (on_server_run this (gets metas) s a (metas a) a Ea eq_refl)). rewrite insert_id by done.
  destruct (server_reserve_run (ok 0).1 (ok 0).2 (length (metas a)) b Wb) as (r & b1 & Q & W1 & Em & Ei & C & O).
  rewrite (bind_Ok _ _ _ _ _ (on_server_run p _ s b _ _ Eb Q)). destruct r.
  2: { exists ENOMEM, a, b1. rewrite (insert_id s this) by done. split_and!; try done; [by right|].
    intros Eo. rewrite Eo in O. by specialize (O eq_refl eq_refl). }
  destruct (C eq_refl) as [C1 C2]. rewrite <-Em in C1.
  destruct (migrate_loop_run p (metas a) (metas a) 0 (<[p:=b1]> s) b1) as (b2 & Q2 & W2 & Em2 & Ei2);
    [by rewrite lookup_insert_eq|done|lia|lia|].
  rewrite (bind_Ok _ _ _ _ _ Q2). cbn [Z.eqb]. rewrite insert_insert_eq.
  assert ((server_clear;; release left) a = Ok (tt, mkServer (mkVec [] (left (cap (m_metaItems a)))) (mkVec [] (left (cap (m_pollItems a)))))) as Q3.
  { by rewrite (bind_Ok _ _ _ _ _ (server_clear_run a Wa)). }
  assert (<[p:=b2]> s !! this = Some a) as Ea' by by rewrite lookup_insert_ne.
  rewrite (bind_Ok _ _ _ _ _ (on_server_run this _ _ a _ _ Ea' Q3)).
  eexists 0%Z, _, b2. split; [by rewrite insert_insert_ne by done|].
  split; [constructor; unfold items, metas; simpl; lia|]. split; [done|]. split; [by rewrite Ei2|].
  split; [|done]. left. split; [done|]. split; [done|]. by rewrite Em2, Em.
Qed.
End Migration.

(** ** The server as the waiter sees it *)

Definition poll_store `{Config} {I : Type} (grow : nat → nat) (ok : nat → bool * bool) (left : nat → nat) (n1 n2 : nat) :
    PollerStore (Server I) := {|
  p_empty v := bool_decide (metas v = []);
  p_new := mkServer (mkVec [] n1) (mkVec [] n2);
  p_migrateTo this p := server_migrateTo grow ok left this p;
  p_wf := wf_server
|}.

Lemma poll_store_laws `{Config} {I : Type} grow ok left n1 n2 :
  PollerStoreLaws (H := poll_store (I := I) grow ok left n1 n2) (Server I).
Proof.
  split; simpl; [|done|constructor; unfold metas, items; simpl; lia].
  intros this p s a b Hne Ea Eb Wa Wb.
  destruct (migration_run grow ok left this p s a b Hne Ea Eb Wa Wb) as (res & a' & b' & Q & Wa' & Wb' & _ & M & _).
  exists res, a', b'. split; [done|]. split; [done|]. split; [done|].
  destruct M as [(-> & E1 & E2)|(-> & -> & E2)]; split; try done.
  intros _. rewrite E1, E2. split; [done|]. destruct (metas b), (metas a); done.
Qed.

(** ** A poll of a client *)

Section ClientPoll.
Context `{Config} (grow : nat → nat).

Lemma fired_absent c h : (∀ e, e ∈ h → m_client e.1 ≠ Some c) → fired c h = [].
Proof.
  induction h as [|[m r] h IH]; intros N; [done|]. rewrite fired_cons, IH by (intros e He; apply N; auto with zth).
  unfold fired. simpl. rewrite bool_decide_false, andb_false_r; [done|]. apply (N (m, r)). auto with zth.
Qed.

Lemma fired_app c h1 h2 : fired c (h1 ++ h2) = fired c h1 ++ fired c h2.
Proof. induction h1 as [|e h1 IH]; [done|]. rewrite <-app_comm_cons, (fired_cons c e (h1 ++ h2)), (fired_cons c e h1), IH. by rewrite (assoc_L (++)). Qed.

(** The pollables for which the system said something. *)
Definition ready (l : list addr) (rs : list Z) : list addr :=
  omap (λ '(p, r), if (revents_of r =? 0)%Z then None else Some p) (zip l rs).

Lemma fired_own c l rs : fired c (zip (of_client (Some c) l) (revents_of <$> rs)) = ready l rs.
Proof.
  revert rs. induction l as [|p l IH]; intros rs; [done|]. destruct rs as [|r rs]; [done|].
  cbn [of_client fmap list_fmap zip zip_with]. rewrite fired_cons. unfold of_client in IH. rewrite IH.
  unfold fired, ready. simpl. rewrite bool_decide_true by done. by destruct (revents_of r =? 0)%Z.
Qed.

Lemma zip_split_app {A B} (l1 l2 : list A) (rs : list B) :
  zip (l1 ++ l2) rs = zip l1 (take (length l1) rs) ++ zip l2 (drop (length l1) rs).
Proof. revert rs. induction l1 as [|x l1 IH]; intros [|r rs]; simpl; try done; [by destruct l2|by rewrite IH]. Qed.

Lemma filter_own c l : length (filter (λ m, m_client m = Some c) (of_client (Some c) l)) = length l.
Proof. induction l as [|p l IH]; [done|]. unfold of_client. rewrite fmap_cons, filter_cons_True by done. simpl. f_equal. apply IH. Qed.

Lemma filter_other c c' l : c' ≠ c → filter (λ m, m_client m = Some c') (of_client (Some c) l) = [].
Proof. intros Hne. apply filter_none. intros m Hm. apply list_elem_of_fmap in Hm as (p & -> & _). simpl. congruence. Qed.

(** A client that may poll: it has nothing registered, and memory for its result. *)
Record may_poll (s : PW) (c : addr) (x : Client) : Prop := {
  mp_synced : synced (pollables s) (server s);
  mp_known : known s;
  mp_roomy : roomy s;
  mp_client : clients s !! c = Some x;
  mp_fresh m : m ∈ metas (server s) → m_client m ≠ Some c;
  mp_some : contents (m_pollables x) ≠ [];
  mp_pollables p : p ∈ contents (m_pollables x) → is_Some (pollables s !! p);
  mp_room : (length (contents (m_pollables x)) ≤ cap (m_result x))%nat
}.

(** The client when its pollables are with the server. *)
Definition waiting (x : Client) : Client := mkClient null_ts nullptr (m_pollables x) (mkVec [] (cap (m_result x))).

Lemma ready_to_poll (s : PW) c x v ws :
  may_poll s c x → wf_server v → metas v = metas (server s) ++ of_client (Some c) (contents (m_pollables x)) →
  items v = items (server s) →
  let s1 := mkPW v (pollables s) (<[c:=waiting x]> (clients s)) ws in
  synced (pollables s1) (server s1) ∧ known s1 ∧ roomy s1.
Proof.
  intros [(W & Y & R) [K1 K2] Rm Ec Fr Sm Ps Rr] Wv Em Ei s1.
  assert (∀ m, m ∈ metas v → m ∈ metas (server s) ∨ ∃ p, p ∈ contents (m_pollables x) ∧ m = mkMeta p (Some c)) as In.
  { intros m. rewrite Em. intros [Hm|Hm]%elem_of_app; [by left|right]. apply list_elem_of_fmap in Hm as (p & -> & Hp). by exists p. }
  split; [|split].
  - split; [done|]. split.
    + intros i y. simpl. rewrite Ei. intros E. destruct (Y i y E) as (m & p & E1 & E2 & E3). exists m, p. split; [|done].
      rewrite Em. by apply lookup_app_l_Some.
    + intros m Hm. destruct (In m Hm) as [Hm'|(p & Hp & ->)]; [auto|simpl; auto].
  - split.
    + intros m Hm. destruct (In m Hm) as [Hm'|(p & Hp & ->)]; [auto|simpl; auto].
    + intros m c' Hm Hc. simpl. destruct (decide (c' = c)) as [->|Hne]; [rewrite lookup_insert_eq; by eexists|].
      rewrite lookup_insert_ne by done. destruct (In m Hm) as [Hm'|(p & Hp & ->)]; [eauto|]. simpl in Hc. congruence.
  - intros c' y. simpl. destruct (decide (c' = c)) as [->|Hne].
    + rewrite lookup_insert_eq. intros [= <-]. rewrite Em, filter_app, length_app, filter_own, filter_none; [simpl; lia|].
      by intros m Hm%Fr.
    + rewrite lookup_insert_ne by done. intros Ey. rewrite Em, filter_app, filter_other, app_nil_r by done. by apply Rm.
Qed.
End ClientPoll.

Section PollRun.
Context `{Config} (grow : nat → nat).

Lemma client_run c x (s : PW) : clients s !! c = Some x → client c s = Ok (x, s).
Proof. unfold client. by intros ->. Qed.

(** Events change nothing of what the items follow. *)
Lemma reported_synced (s : PW) v ws h s' cl :
  synced (pollables s) v → reported h (mkPW v (pollables s) cl ws) s' → synced (pollables s') v.
Proof.
  intros (W & Y & R) P. split; [done|]. split.
  - intros i y E. destruct (Y i y E) as (m & p & E1 & E2 & E3). destruct (rep_pollable _ _ _ P _ _ E2) as [r Er].
    exists m, (set_revents r p). by split_and!.
  - intros m Hm. destruct (R m Hm) as [p Ep]. destruct (rep_pollable _ _ _ P _ _ Ep) as [r Er]. by eexists.
Qed.

(** Every pollable has the answer of the last of its items in [revents]. *)
Definition told (h : list (MetaItem * Z)) (pm : gmap addr Pollable) : Prop :=
  ∀ k m r, h !! k = Some (m, r) → r ≠ 0%Z → (∀ j m' r', (k < j)%nat → h !! j = Some (m', r') → m_pollable m' ≠ m_pollable m) →
    revents <$> pm !! m_pollable m = Some r.

Lemma reported_told (s : PW) v ws rs s' cl :
  synced (pollables s) v → reported (zip (metas v) rs) (mkPW v (pollables s) cl ws) s' → told (zip (metas v) rs) (pollables s').
Proof.
  intros (_ & _ & R) P k m r E Hr L. destruct (rep_revents _ _ _ P k m r E Hr) as (p' & -> & Er); [|done|simpl; by rewrite Er].
  apply R. apply list_elem_of_lookup_2 in E. by apply elem_of_zip_l in E.
Qed.

(** The client that polls is not woken by what it has itself. *)
Lemma wakes_of_others cl c x h rs l :
  (∀ m r, (m, r) ∈ h → m_client m ≠ Some c) →
  omap (wake_for (<[c:=waiting x]> cl)) (h ++ zip (of_client (Some c) l) rs) = omap (wake_for cl) h.
Proof.
  intros Fr. rewrite omap_app. assert (omap (wake_for (<[c:=waiting x]> cl)) (zip (of_client (Some c) l) rs) = []) as ->.
  { revert rs. induction l as [|p l IH]; intros [|r rs]; try done. cbn -[wake_for]. unfold wake_for at 1.
    destruct (r =? 0)%Z; [apply IH|]. cbn [m_client]. unfold mbind, option_bind. rewrite lookup_insert_eq. apply IH. }
  rewrite app_nil_r. apply list_omap_ext, Forall2_same_length_lookup. split; [done|]. intros i [m r] e E1 E2.
  rewrite E1 in E2. injection E2 as <-. apply list_elem_of_lookup_2, Fr in E1. unfold wake_for. destruct (r =? 0)%Z; [done|].
  destruct (m_client m) as [c'|]; [|done]. unfold mbind, option_bind. rewrite lookup_insert_ne by congruence. done.
Qed.

(** Where the fiber goes with what it got. *)
Definition next_step (l : list addr) (timeout_ms : Z) (now : Timestamp) : poll_step :=
  if bool_decide (l = []) then
    if (timeout_ms =? 0)%Z then Completed 0
    else if (timeout_ms <? 0)%Z then Suspends 0
    else WaitsUntil (m_t (Time.add (interval (tv_sec now) (tv_nsec now) false)
      (interval (Z.quot timeout_ms 1000) (Z.rem (timeout_ms * 1000000) 1000000000) false))) 0
  else Completed 0.

(** What the poll of the client [c] leaves, before its fiber goes anywhere: the items [its]
    were polled, and everybody got what was answered. *)
Record polled sys (s : PW) c x (its : list pollfd) (s1 : PW) (x1 : Client) : Prop := {
  po_length : length its = length (metas (server s) ++ of_client (Some c) (contents (m_pollables x)));
  po_items i y : its !! i = Some y → ∃ m p,
    (metas (server s) ++ of_client (Some c) (contents (m_pollables x))) !! i = Some m ∧
    pollables s !! m_pollable m = Some p ∧ poll_init p y = (0%Z, y);
  po_metas : metas (server s1) = metas (server s) ++ of_client (Some c) (contents (m_pollables x));
  po_synced : synced (pollables s1) (server s1);
  po_client : clients s1 !! c = Some x1;
  po_pollables : m_pollables x1 = m_pollables x;
  po_result : contents (m_result x1) = ready (contents (m_pollables x)) (drop (length (metas (server s))) (s_revents (sys its)));
  po_others c' y : c' ≠ c → clients s !! c' = Some y →
    clients s1 !! c' = Some (got (fired c' (zip (metas (server s)) (revents_of <$> s_revents (sys its)))) y);
  po_told : told (zip (metas (server s) ++ of_client (Some c) (contents (m_pollables x))) (revents_of <$> s_revents (sys its)))
    (pollables s1);
  po_wakes : wakes s1 = wakes s ++ replicate (length (contents (m_pollables x))) ResumeWaiter ++
    omap (wake_for (clients s)) (zip (metas (server s)) (revents_of <$> s_revents (sys its)))
}.

(** All that happened to the registered items was reported. *)
Lemma reported_polled sys (s : PW) c x its v ws s3 :
  may_poll s c x → ws = wakes s ++ replicate (length (contents (m_pollables x))) ResumeWaiter →
  let ms := metas (server s) in
  let l := contents (m_pollables x) in
  let rs := s_revents (sys its) in
  length its = length (ms ++ of_client (Some c) l) →
  (∀ i y, its !! i = Some y → ∃ m p, (ms ++ of_client (Some c) l) !! i = Some m ∧ pollables s !! m_pollable m = Some p ∧
     poll_init p y = (0%Z, y)) →
  metas v = ms ++ of_client (Some c) l → synced (pollables s) v →
  reported (zip (metas v) (revents_of <$> rs)) (mkPW v (pollables s) (<[c:=waiting x]> (clients s)) ws) s3 →
  polled sys s c x its s3 (got (ready l (drop (length ms) rs)) (waiting x)).
Proof.
  intros P -> ms l rs Li Ii Em Y3 P3. pose proof (mp_fresh _ _ _ P) as Fr.
  assert (zip (metas v) (revents_of <$> rs) =
    zip ms (revents_of <$> rs) ++ zip (of_client (Some c) l) (revents_of <$> drop (length ms) rs)) as Ez.
  { rewrite Em, zip_split_app, fmap_drop. f_equal. by rewrite <-(app_nil_r ms) at 3; rewrite zip_split_app, app_nil_r. }
  constructor; try done.
  - by rewrite (rep_server _ _ _ P3).
  - rewrite (rep_server _ _ _ P3). exact (reported_synced s v _ _ s3 _ Y3 P3).
  - rewrite (rep_client _ _ _ P3), Ez, fired_app, fired_own, fired_absent; [simpl; by rewrite lookup_insert_eq|].
    intros [m r] He. apply elem_of_zip_l in He. by apply Fr.
  - intros c' y Hne Ey. rewrite (rep_client _ _ _ P3), Ez, fired_app.
    rewrite (fired_absent c' (zip (of_client _ _) _)), app_nil_r; [cbn [clients]; by rewrite lookup_insert_ne, Ey|].
    intros [m r] He. apply elem_of_zip_l in He. apply list_elem_of_fmap in He as (p & -> & _). simpl. congruence.
  - pose proof (reported_told s v _ _ s3 _ Y3 P3) as T. by rewrite Em in T.
  - rewrite (rep_wakes _ _ _ P3), Ez. cbn [wakes clients]. rewrite (wakes_of_others (clients s) c x _ _ l); [by rewrite <-(assoc_L (++))|].
    intros m r ?%elem_of_zip_l. by apply Fr.
Qed.

(** The client is registered, and the server polls. *)
Lemma poll_round_run {A} sys ok1 ok2 (s : PW) c x (K : Z → M PW A) :
  may_poll s c x → (∀ l, answers l (sys l)) →
  ∃ its s1 x1,
    (register_all grow (λ _, (true, true)) c (contents (m_pollables x)) 0;; set_wait c null_ts nullptr;;
     res ← server_poll grow poll_init sys ok1 ok2; K res)
      (mkPW (server s) (pollables s) (<[c:=mkClient (c_timeout x) (c_fiber x) (m_pollables x) (mkVec [] (cap (m_result x)))]> (clients s))
        (wakes s)) = K 0%Z s1 ∧ polled sys s c x its s1 x1.
Proof.
  intros P Sys. pose proof P as [Y K0 Rm Ec Fr Sm Ps Rr]. destruct Y as (W & _). set (s0 := mkPW _ _ _ _).
  destruct (register_all_run grow (λ _, (true, true)) c (contents (m_pollables x)) 0 s0 W) as (v & Q & Wv & Em & Ei); [done|].
  rewrite (bind_Ok _ _ _ _ _ Q). simpl in Em, Ei. set (ws := wakes s0 ++ _).
  set (s2 := mkPW v (pollables s) (<[c:=waiting x]> (clients s)) ws).
  assert (set_wait c null_ts nullptr (mkPW v (pollables s0) (clients s0) ws) = Ok (tt, s2)) as Qw.
  { unfold set_wait. erewrite bind_Ok by (apply client_run; simpl; apply lookup_insert_eq).
    unfold set_client, modify, s2. simpl. by rewrite insert_insert_eq. }
  rewrite (bind_Ok _ _ _ _ _ Qw).
  destruct (ready_to_poll s c x v ws P Wv Em Ei) as (Y2 & K2 & R2). fold s2 in Y2, K2, R2.
  destruct (server_poll_run grow ok1 ok2 sys s2 Y2 K2) as (its & v3 & s3 & Q3 & L3 & I3 & E3 & LI3 & Y3 & P3);
    [change (metas (server s2)) with (metas v); rewrite Em; intros E; apply app_eq_nil in E as [_ E];
       apply fmap_nil_inv in E; done|done|done|].
  change (metas (server s2)) with (metas v) in *. rewrite Em in *.
  rewrite (bind_Ok _ _ _ _ _ Q3). exists its, s3. eexists. split; [done|]. by eapply reported_polled.
Qed.

(** The fiber is going to wait, with the time-out [t] or as [g]. *)
Lemma polled_wait sys (s : PW) c x its s1 x1 t g :
  polled sys s c x its s1 x1 →
  ∃ s2, set_wait c t g s1 = Ok (tt, s2) ∧ polled sys s c x its s2 (mkClient t g (m_pollables x1) (m_result x1)).
Proof.
  intros [P1 P2 P3 P4 P5 P6 P7 P8 P9 P10]. eexists. split; [unfold set_wait; by rewrite (bind_Ok _ _ _ _ _ (client_run c x1 s1 P5))|].
  constructor; try done; simpl.
  - apply lookup_insert_eq.
  - intros c' y Hne Ey. rewrite lookup_insert_ne by done. by apply P8.
Qed.

Lemma poll_start_run sys ok1 ok2 (s : PW) c f x timeout_ms now :
  may_poll s c x → (∀ l, answers l (sys l)) →
  ∃ its s1 x1, polled sys s c x its s1 x1 ∧
    poll_start grow poll_init sys (λ _, (true, true)) ok1 ok2 c f timeout_ms now s =
      Ok (next_step (contents (m_result x1)) timeout_ms now, s1) ∧
    (∀ res, next_step (contents (m_result x1)) timeout_ms now = Suspends res → c_fiber x1 = Some f ∧ c_timeout x1 = null_ts) ∧
    (∀ t res, next_step (contents (m_result x1)) timeout_ms now = WaitsUntil t res → c_timeout x1 = t).
Proof.
  intros P Sys. unfold poll_start. rewrite (bind_Ok _ _ _ _ _ (client_run c x s (mp_client _ _ _ P))). erewrite bind_Ok by reflexivity.
  rewrite bool_decide_false by apply P.
  match goal with |- context [server_poll _ _ _ _ _ ≫= ?K] =>
    destruct (poll_round_run sys ok1 ok2 s c x K P Sys) as (its & s1 & x1 & R & Po) end.
  rewrite R. clear R. cbv beta. rewrite (bind_Ok _ _ _ _ _ (client_run c x1 s1 (po_client _ _ _ _ _ _ _ Po))).
  unfold next_step. destruct (bool_decide (contents (m_result x1) = [])) eqn:B; cbn [negb].
  2: { exists its, s1, x1. rewrite B. by split_and!. }
  rewrite (proj2 (andb_false_iff _ _)) by (left; done).
  destruct (timeout_ms =? 0)%Z eqn:T0; [exists its, s1, x1; rewrite B; by split_and!|].
  destruct (timeout_ms <? 0)%Z eqn:T1.
  - destruct (polled_wait _ _ _ _ _ _ _ null_ts (Some f) Po) as (s2 & Q2 & Po2). rewrite (bind_Ok _ _ _ _ _ Q2).
    eexists _, _, _. split; [exact Po2|]. cbn [m_result]. rewrite B. by split_and!.
  - rewrite (bind_Ok _ _ _ _ _ (Waiter.ts_add_positive now (interval (Z.quot timeout_ms 1000) (Z.rem (timeout_ms * 1000000) 1000000000) false) s1 eq_refl)).
    set (t := m_t _). destruct (polled_wait _ _ _ _ _ _ _ t nullptr Po) as (s2 & Q2 & Po2). rewrite (bind_Ok _ _ _ _ _ Q2).
    eexists _, _, _. split; [exact Po2|]. cbn [m_result]. rewrite B. split_and!; try done. by intros t' res [= <- _].
Qed.

(** ...and back: what was registered is gone. *)
Lemma poll_finish_run (s : PW) c x res ms :
  synced (pollables s) (server s) → clients s !! c = Some x →
  metas (server s) = ms ++ of_client (Some c) (contents (m_pollables x)) →
  ∃ s', poll_finish c res s = Ok (if bool_decide (contents (m_result x) = []) && (res =? 0)%Z then EAGAIN else res, s') ∧
    metas (server s') = ms ∧ synced (pollables s') (server s') ∧ clients s' = clients s ∧ pollables s' = pollables s.
Proof.
  intros Y Ec Em. pose proof Y as (W & _). unfold poll_finish. rewrite (bind_Ok _ _ _ _ _ (client_run c x s Ec)).
  destruct (unregister_all_run c (rev (contents (m_pollables x))) s ms W) as (v & Q & Wv & Ev & Iv); [by rewrite rev_involutive|].
  rewrite (bind_Ok _ _ _ _ _ Q). eexists. split; [reflexivity|]. simpl. split; [done|]. split; [|done].
  apply (take_synced _ (server s) v (length ms) Y Wv); [|done]. by rewrite Em, take_app_length, Ev.
Qed.
End PollRun.

(** What the server holds in the example of C39: three pollables. *)
Definition example_pollables : gmap addr Pollable :=
  list_to_map [(1, mkPollable None 10 PollIn 0); (2, mkPollable None 20 PollIn 0); (3, mkPollable None 30 PollIn 0)]%positive.

Definition empty_server {I : Type} : Server I := mkServer (mkVec [] 4) (mkVec [] 4).

Definition example_world : PW := mkPW empty_server example_pollables ∅ [].

(** Two are added and polled, a third is added, the first removed, and polled again. *)
Definition example_removal `{Config} (grow : nat → nat) : M PW Z :=
  with_server (server_add grow true true 1 None);; with_server (server_add grow true true 2 None);;
  mirror grow poll_init true;;
  with_server (server_add grow true true 3 None);; with_server (server_remove 1 None);;
  mirror grow poll_init true.

Lemma removal_run `{Config} grow :
  example_removal grow example_world =
    Ok (0%Z, mkPW (mkServer (mkVec [mkMeta 3 None; mkMeta 2 None] 4) (mkVec [mkPollfd 20 POLLIN 0; mkPollfd 20 POLLIN 0] 4))
      example_pollables ∅ []).
Proof. destruct H as [[] ?]; by vm_compute. Qed.

(** C39: the registrations of a poll server.  Its poll items follow what is
    registered: [add] appends or reports [ENOMEM], [mirror] makes the missing items,
    [remove] takes one matching out of both lists, and a migration moves
    everything or nothing.  But [remove] moves the last of either list into the gap:
    when the items are not all there yet, it may leave one next to the pollable of
    another, which then gets the events of the wrong file descriptor; and [mirror]
    asserts when an item cannot be made, although it is to report the error. *)
Theorem poll_server_registrations `{Config} grow pm (s : Server pollfd) :
  synced pm s →
  (∀ ok1 ok2 p c, is_Some (pm !! p) → ∃ r s', server_add grow ok1 ok2 p c s = Ok (r, s') ∧ synced pm s' ∧ items s' = items s ∧
     (r = 0%Z ∧ metas s' = metas s ++ [mkMeta p c] ∨ r = ENOMEM ∧ metas s' = metas s) ∧ (ok1 = true → ok2 = true → r = 0%Z)) ∧
  (∀ p c, mkMeta p c ∉ metas s → server_remove p c s = Ok (ESRCH, s)) ∧
  (∀ p c, mkMeta p c ∈ metas s → ∃ s', server_remove p c s = Ok (0%Z, s') ∧ wf_server s' ∧
     metas s ≡ₚ mkMeta p c :: metas s' ∧
     (length (items s) = length (metas s) → synced pm s' ∧ length (items s') = length (metas s'))) ∧
  (∀ ok cl ws, ∃ v, mirror grow poll_init ok (mkPW s pm cl ws) = Ok (0%Z, mkPW v pm cl ws) ∧ synced pm v ∧
     metas v = metas s ∧ length (items v) = length (metas v)) ∧
  (∀ ok left st this p b, this ≠ p → st !! this = Some s → st !! p = Some b → synced pm b →
     ∃ res a' b', server_migrateTo grow ok left this p st = Ok (res, <[p:=b']> (<[this:=a']> st)) ∧
       (res = 0%Z ∧ metas a' = [] ∧ metas b' = metas b ++ metas s ∨ res = ENOMEM ∧ a' = s ∧ metas b' = metas b) ∧
       synced pm b') ∧
  (∃ s', example_removal grow example_world = Ok (0%Z, s') ∧ metas (server s') = [mkMeta 3 None; mkMeta 2 None] ∧
     f_fd <$> items (server s') = [20; 20]%Z ∧ p_fd <$> pollables s' !! 3%positive = Some 30%Z) ∧
  (EnableAssert = true → (length (items s) < length (metas s))%nat → ∀ ok cl ws,
     mirror grow no_init ok (mkPW s pm cl ws) = Fault AssertFailed).
Proof.
  intros Y. pose proof Y as (W & S1 & R). split; [|split; [|split; [|split; [|split; [|split]]]]].
  - intros ok1 ok2 p c Hp. destruct (server_add_run grow ok1 ok2 p c s W) as (r & s' & Q & W' & Ei & Em & O & _).
    exists r, s'. split; [done|]. split; [|done]. apply (add_synced pm s s' p c); try done. destruct Em as [[_ ?]|[_ ?]]; auto.
  - intros p c N. pose proof (server_remove_run p c s W) as Q. pose proof (find_last_spec (m_of p c) (metas s) _ (le_n _)) as F.
    destruct (find_last _ _ _) as [i|]; [|done]. destruct F as (_ & E & _). destruct N. by eapply list_elem_of_lookup_2.
  - intros p c [j Ej]%list_elem_of_lookup_1. pose proof (server_remove_run p c s W) as Q.
    pose proof (find_last_spec (m_of p c) (metas s) _ (le_n _)) as F.
    destruct (find_last _ _ _) as [i|]; [|by destruct (F j); [by apply lookup_lt_Some in Ej|]].
    destruct F as (Hi & E & _), Q as (s' & Q & W' & Em & Ei & _). exists s'. split; [done|]. split; [done|].
    split; [rewrite Em; by apply swap_out_perm|]. intros L. split.
    + apply (remove_synced pm s s' i); auto.
    + rewrite Em, Ei, (proj2 (Nat.ltb_lt _ _)), !swap_out_length by lia. lia.
  - intros ok cl ws. destruct (mirror_run grow ok (mkPW s pm cl ws) Y) as (v & Q & Y' & Em & L & _). by exists v.
  - intros ok left st this p b Hne Es Eb (Wb & Sb & Rb).
    destruct (migration_run grow ok left this p st s b Hne Es Eb W Wb) as (res & a' & b' & Q & _ & W' & Ei & M & _).
    exists res, a', b'. split; [done|]. split; [done|]. split; [done|].
    assert (∃ l, metas b' = metas b ++ l ∧ ∀ m, m ∈ l → m ∈ metas s) as (l & El & Hl).
    { destruct M as [(_ & _ & ->)|(_ & _ & ->)]; [by exists (metas s)|]. exists []. rewrite app_nil_r. split; [done|]. by intros m ?%elem_of_nil. }
    split.
    + intros i x. rewrite Ei. intros E. destruct (Sb i x E) as (m & q & E1 & E2 & E3). exists m, q. split; [|done].
      rewrite El. by apply lookup_app_l_Some.
    + intros m. rewrite El. intros [Hm|Hm]%elem_of_app; auto.
  - eexists. split; [apply removal_run|]. done.
  - intros A L ok cl ws. by apply mirror_fails.
Qed.

(** C40: [poll] of a client of which nothing is with the server yet.  All that is
    registered is polled.  Every pollable has its answer in [revents] ([told]), every client
    gets those of its own with an answer, and another client is woken for each of them:
    its waitable when it waits with a time-out, its fiber otherwise ([wake_for]).
    The caller goes on at once when it got something or does not want to wait, or gives up
    the processor until the time or until an event; then its pollables are taken out of the
    server, which holds what it held before, and [errno] is [EAGAIN] when there is nothing.
    A file descriptor that is not open ([POLLNVAL]) is not reported.  There is memory for
    everything here ([may_poll]). *)
Theorem client_poll `{Config} grow sys ok1 ok2 (s : PW) c f x timeout_ms now :
  may_poll s c x → (∀ l, answers l (sys l)) →
  (∃ its s1 x1,
    let ms := metas (server s) in
    let l := contents (m_pollables x) in
    let rs := s_revents (sys its) in
    poll_start grow poll_init sys (λ _, (true, true)) ok1 ok2 c f timeout_ms now s =
      Ok (next_step (contents (m_result x1)) timeout_ms now, s1) ∧
    (∀ i y, its !! i = Some y → ∃ m p, (ms ++ of_client (Some c) l) !! i = Some m ∧ pollables s !! m_pollable m = Some p ∧
       f_fd y = p_fd p) ∧
    length its = length (ms ++ of_client (Some c) l) ∧
    clients s1 !! c = Some x1 ∧ contents (m_result x1) = ready l (drop (length ms) rs) ∧
    (∀ c' y, c' ≠ c → clients s !! c' = Some y → clients s1 !! c' = Some (got (fired c' (zip ms (revents_of <$> rs))) y)) ∧
    told (zip (ms ++ of_client (Some c) l) (revents_of <$> rs)) (pollables s1) ∧
    wakes s1 = wakes s ++ replicate (length l) ResumeWaiter ++ omap (wake_for (clients s)) (zip ms (revents_of <$> rs)) ∧
    (∀ res, next_step (contents (m_result x1)) timeout_ms now = Suspends res → c_fiber x1 = Some f ∧ c_timeout x1 = null_ts) ∧
    (∀ t res, next_step (contents (m_result x1)) timeout_ms now = WaitsUntil t res → c_timeout x1 = t) ∧
    ∃ s2, poll_finish c 0 s1 = Ok (if bool_decide (contents (m_result x1) = []) then EAGAIN else 0%Z, s2) ∧
      metas (server s2) = ms ∧ synced (pollables s2) (server s2) ∧ clients s2 = clients s1 ∧ pollables s2 = pollables s1) ∧
  revents_of POLLNVAL = 0%Z.
Proof.
  intros P Sys. split; [|done].
  destruct (poll_start_run grow sys ok1 ok2 s c f x timeout_ms now P Sys)
    as (its & s1 & x1 & [L I Em Y Ec Ep Er Eo T Wk] & Q & E1 & E2).
  exists its, s1, x1. split; [exact Q|]. split.
  { intros i y E. destruct (I i y E) as (m & p & I1 & I2 & I3). exists m, p. split_and!; [done|done|].
    injection I3 as I3. by rewrite <-I3. }
  do 8 (split; [done|]).
  rewrite <-Ep in Em. destruct (poll_finish_run s1 c x1 0 _ Y Ec Em) as (s2 & Q2 & M2 & Y2 & C2 & P2).
  exists s2. rewrite andb_true_r in Q2. by split_and!.
Qed.

(** *** Witnesses *)

Lemma empty_synced pm : synced pm (empty_server (I := pollfd)).
Proof.
  split; [constructor; unfold metas, items; simpl; lia|]. split; [by intros i x|]. by intros m Hm%elem_of_nil.
Qed.

Lemma poll_server_registrations_witness :
  ∃ r s', server_add (H := debug_config) id true true 1 None (empty_server (I := pollfd)) = Ok (r, s') ∧ r = 0%Z.
Proof.
  destruct (poll_server_registrations (H := debug_config) id example_pollables empty_server) as (A & _); [apply empty_synced|].
  destruct (A true true 1%positive None) as (r & s' & Q & _ & _ & _ & R); [by eexists|]. exists r, s'. auto.
Defined.

Definition example_client : Client := mkClient null_ts nullptr (mkVec [2]%positive 3) (mkVec [] 3).
(** The fiber 4 waits for the client 8, of which the pollable 1 is registered. *)
Definition example_waiter : Client := mkClient null_ts (Some 4%positive) (mkVec [1]%positive 1) (mkVec [] 1).
Definition example_server : Server pollfd := mkServer (mkVec [mkMeta 1 (Some 8%positive)] 4) (mkVec [] 4).
Definition example_poll : PW :=
  mkPW example_server example_pollables (<[8%positive := example_waiter]> {[9%positive := example_client]}) [].

(** Every descriptor can be read. *)
Definition all_in (l : list pollfd) : sys_poll := mkSys (Z.of_nat (length l)) 0 (replicate (length l) POLLIN).

Lemma all_in_answers l : answers l (all_in l).
Proof.
  constructor; simpl; [apply length_replicate|]. unfold busy. f_equal.
  rewrite filter_all; [by rewrite fill_length by apply length_replicate|].
  intros x [i E]%list_elem_of_lookup_1. unfold fill in E. rewrite lookup_zip_with in E.
  destruct (l !! i) as [y|] eqn:Ey; [|done]. simpl in E.
  rewrite lookup_replicate_2 in E by by apply lookup_lt_Some in Ey. by injection E as <-.
Qed.

Lemma example_clients c x : clients example_poll !! c = Some x → c = 8%positive ∧ x = example_waiter ∨ c = 9%positive ∧ x = example_client.
Proof.
  unfold example_poll. cbn [clients]. rewrite lookup_insert_Some, lookup_singleton_Some. intros [[<- <-]|[_ [<- <-]]]; auto.
Qed.

Lemma example_may_poll : may_poll example_poll 9 example_client.
Proof.
  assert (∀ m, m ∈ metas (server example_poll) → m = mkMeta 1 (Some 8%positive)) as M by by intros m ->%list_elem_of_singleton.
  assert (registered (pollables example_poll) (server example_poll)) as R by (intros m ->%M; by eexists).
  constructor; try done.
  - split; [constructor; unfold metas, items; simpl; lia|]. by split.
  - split; [done|]. intros m c ->%M [= <-]. by eexists.
  - intros c x [[-> ->]|[-> ->]]%example_clients; unfold metas; simpl; lia.
  - by intros m ->%M.
  - intros p ->%list_elem_of_singleton. by eexists.
  - simpl. lia.
Qed.

Lemma client_poll_witness :
  ∃ s1 s2, poll_start (H := debug_config) id poll_init all_in (λ _, (true, true)) true true 9 1 0 (mkTs 5 0) example_poll =
    Ok (Completed 0, s1) ∧ wakes s1 = [ResumeWaiter; ResumeFiber 4%positive] ∧
    (revents <$> pollables s1 !! 1%positive) = Some (revents_of POLLIN) ∧
    poll_finish (H := debug_config) 9 0 s1 = Ok (0%Z, s2).
Proof.
  destruct (client_poll (H := debug_config) id all_in true true example_poll 9 1 example_client 0 (mkTs 5 0)) as (C & _).
  - apply example_may_poll.
  - apply all_in_answers.
  - destruct C as (its & s1 & x1 & Q & _ & L & _ & Er & _ & T & Wk & _ & _ & s2 & Q2 & _).
    assert (length its = 2%nat) as L2 by exact L. clear L. destruct its as [|y [|y' [|? ?]]]; try discriminate L2. clear L2.
    assert (contents (m_result x1) = [2]%positive) as E by by rewrite Er.
    rewrite E in Q, Q2. exists s1, s2. split; [exact Q|]. split; [exact Wk|]. split; [|exact Q2].
    apply (T 0%nat (mkMeta 1 (Some 8%positive))); [done|done|]. intros [|[|j]] m r Hj; [lia| |done]. by intros [= <- _].
Defined.
