(* ===== verification/SyncBase.v ===== *)
(** * Blocking and unblocking of fibers (libzth/sync.h)

    [SynchronizerBase], on which the mutex, the semaphore and the others are
    built: a fiber that blocks leaves the worker's run queue for a queue of the
    synchronizer; an alarm clock of the waiter ends the wait after some time.
    Sync.v builds the primitives on the queues alone. *)

From stdpp Require Import base gmap list sorting.
From S2P Require Import Prelude IntrusiveList AATree Time Hook Fiber Worker Waiter.

Set Default Proof Using "Type".

#[local] Arguments timeTo : simpl never.
#[local] Arguments Time.add : simpl never.
#[local] Arguments ts_add : simpl never.

(** ** Data *)

(** [AlarmClock]: its [TimedWaitable] part is an object of the waiter. *)
Record Alarm := mkAlarm { m_q : nat; a_fiber : addr; m_rang : bool }.

(** The queues of a [Synchronizer<Size>] and the alarm clocks on the stacks of
    the fibers. *)
Record SEnv := mkSEnv { m_queue : list (list addr); alarms : gmap addr Alarm }.

Inductive block_result :=
| NotInFiber                                (** the exception [not_in_fiber] *)
| Blocked (r : Worker.sched_result).

Section SynchronizerBase.
Context `{Config} {P : Type} `{Waiter.PollerStore P}.
Context (context_create : addr → Z) (later : Timestamp).

Abbreviation St := (Waiter.WS SEnv P).

(** [queue(q)]. *)
Definition queue (q : nat) : M St (list addr) :=
  e ← gets Waiter.env;
  zth_assert (q <? length (m_queue e))%nat;;
  match m_queue e !! q with Some l => mret l | None => fail NullDeref end.

Definition set_queue (q : nat) (l : list addr) : M St unit :=
  e ← gets Waiter.env;
  modify (Waiter.set_env (mkSEnv (<[q:=l]> (m_queue e)) (alarms e))).

Definition queue_op (op : list_op) (q : nat) : M St unit :=
  l ← queue q;
  match spec_op op l with Some l' => set_queue q l' | None => fail AssertFailed end.

Definition enqueue (f : addr) (q : nat) : M St unit := queue_op (PushBack f) q.

(** [wakeup], which derived classes override. *)
Definition wakeup (f : addr) (prio : bool) : M St unit :=
  Waiter.with_worker (Worker.update_fiber f Fiber.wakeup;; Worker.add f prio).

(** [block]. *)
Definition block (q : nat) (now now2 : Timestamp) : M St block_result :=
  cur ← Waiter.with_worker (gets Worker.m_currentFiber);
  match cur with
  | None => mret NotInFiber
  | Some f =>
      Waiter.with_worker (Worker.release f);;
      enqueue f q;;
      Waiter.with_worker (Worker.update_fiber f (Fiber.nap null_ts));;
      r ← Waiter.with_worker (Worker.schedule context_create later None now now2);
      mret (Blocked r)
  end.

Definition unblock (f : addr) (q : nat) (prio : bool) : M St bool :=
  l ← queue q;
  if bool_decide (f ∈ l) then queue_op (Erase f) q;; wakeup f prio;; mret true else mret false.

Definition unblockFirst (q : nat) (prio : bool) : M St ptr :=
  l ← queue q;
  match l with
  | [] => mret nullptr
  | f :: _ => queue_op PopFront q;; wakeup f prio;; mret (Some f)
  end.

(** The loop of [unblockAll]. *)
Fixpoint unblock_loop (fuel : nat) (q : nat) (prio : bool) : M St unit :=
  match fuel with
  | O => fail OutOfFuel
  | S fuel =>
      l ← queue q;
      match l with
      | [] => mret tt
      | f :: _ => queue_op PopFront q;; wakeup f prio;; unblock_loop fuel q prio
      end
  end.

Definition unblockAll (q : nat) (prio : bool) : M St bool :=
  l ← queue q;
  match l with
  | [] => mret false
  | _ => unblock_loop (S (length l)) q prio;; mret true
  end.

(** *** With a time-out *)

Definition alarm (x : addr) : M St Alarm := λ s,
  match alarms (Waiter.env s) !! x with Some a => Ok (a, s) | None => Fault NullDeref end.

Definition set_alarm (x : addr) (a : Alarm) : M St unit :=
  e ← gets Waiter.env; modify (Waiter.set_env (mkSEnv (m_queue e) (<[x:=a]> (alarms e)))).

(** [AlarmClock::poll]. *)
Definition alarm_poll (x : addr) (now : Timestamp) : M St bool :=
  o ← Waiter.obj x;
  if negb (ts_le (Waiter.m_timeout o) now) then mret false
  else
    a ← alarm x;
    rang ← unblock (a_fiber a) (m_q a) false;
    set_alarm x (mkAlarm (m_q a) (a_fiber a) rang);;
    mret true.

(** The constructor of the alarm clock at [x]. *)
Definition new_alarm (x : addr) (q : nat) (f : addr) (timeout : Timestamp) : M St unit :=
  modify (λ s, Waiter.set_objs (<[x:=Waiter.mkWt Waiter.Derived timeout nullptr]> (Waiter.objs s)) s);;
  set_alarm x (mkAlarm q f false).

(** [block_], up to its call of [schedule]. *)
Definition block_start (x : addr) (timeout now now2 : Timestamp) (q : nat) : M St block_result :=
  cur ← Waiter.with_worker (gets Worker.m_currentFiber);
  match cur with
  | None => mret NotInFiber
  | Some f =>
      Waiter.with_worker (Worker.release f);;
      queue_op (PushBack f) q;;
      Waiter.with_worker (Worker.update_fiber f (Fiber.nap null_ts));;
      new_alarm x q f timeout;;
      Waiter.scheduleTask x;;
      r ← Waiter.with_worker (Worker.schedule context_create later None now now2);
      mret (Blocked r)
  end.

(** [block_], when the fiber runs again: [true] when it was unblocked by
    request. *)
Definition block_finish (x : addr) : M St bool :=
  Waiter.unscheduleTask x;; a ← alarm x; mret (negb (m_rang a)).

(** [blockUntil] and [blockFor]: the answer at once, or the result of
    [block_start]. *)
Definition blockUntil (x : addr) (timeout now now2 : Timestamp) (q : nat) : M St (bool + block_result) :=
  if ts_le timeout now then mret (inl true)
  else r ← block_start x timeout now now2 q; mret (inr r).

Definition blockFor (x : addr) (timeout : TimeInterval) (now now2 : Timestamp) (q : nat) : M St (bool + block_result) :=
  if isNegative timeout || isNull timeout then mret (inl true)
  else t ← ts_add now timeout; r ← block_start x t now now2 q; mret (inr r).
End SynchronizerBase.


(** ** Well-formed synchronizers *)

(** Every blocked fiber is asleep and waits in one place of one queue. *)
Record wf_sync {P} (s : Waiter.WS SEnv P) : Prop := {
  ws_worker : Worker.wf_worker (Waiter.worker s);
  ws_asleep f : f ∈ concat (m_queue (Waiter.env s)) → Worker.asleep (Waiter.worker s) f;
  ws_nodup : NoDup (concat (m_queue (Waiter.env s)))
}.

Lemma queue_split (qs : list (list addr)) q l :
  qs !! q = Some l →
  ∃ A B, concat qs = A ++ l ++ B ∧ ∀ l', concat (<[q:=l']> qs) = A ++ l' ++ B.
Proof.
  intros E. exists (concat (take q qs)), (concat (drop (S q) qs)).
  assert (q < length qs)%nat as L by by apply lookup_lt_is_Some_1.
  split.
  - rewrite <-(take_drop_middle qs q l E) at 1. by rewrite concat_app.
  - intros l'. rewrite (insert_take_drop qs q l') by done. by rewrite concat_app.
Qed.

Section Lemmas.
Context `{Config} {P : Type} `{Waiter.PollerStore P}.

Abbreviation St := (Waiter.WS SEnv P).

Definition with_queue (q : nat) (l : list addr) (s : St) : St :=
  Waiter.set_env (mkSEnv (<[q:=l]> (m_queue (Waiter.env s))) (alarms (Waiter.env s))) s.

Lemma queue_run q l (s : St) : m_queue (Waiter.env s) !! q = Some l → queue q s = Ok (l, s).
Proof.
  intros E. unfold queue. erewrite bind_Ok by reflexivity.
  erewrite bind_Ok; [by rewrite E|]. apply zth_assert_true, Nat.ltb_lt. by apply lookup_lt_is_Some_1.
Qed.

Lemma queue_op_run op q l l' (s : St) :
  m_queue (Waiter.env s) !! q = Some l → spec_op op l = Some l' → queue_op op q s = Ok (tt, with_queue q l' s).
Proof. intros E Q. unfold queue_op. rewrite (bind_Ok _ _ _ _ _ (queue_run q l s E)), Q. done. Qed.

Lemma with_queue_lookup q l l' (s : St) :
  m_queue (Waiter.env s) !! q = Some l → m_queue (Waiter.env (with_queue q l' s)) !! q = Some l'.
Proof. intros E. simpl. apply list_lookup_insert_eq. by apply lookup_lt_is_Some_1. Qed.

(** [f] was taken from queue [q], in which [l] is left, and made ready. *)
Definition released (f : addr) (q : nat) (l : list addr) (prio : bool) (s : St) : St :=
  Waiter.set_worker (Worker.awake (Waiter.worker s) f prio) (with_queue q l s).

(** What that means: [f] is ready, at the back of the run queue or at its front, and nothing
    else moved. *)
Record made_ready (f : addr) (q : nat) (l : list addr) (prio : bool) (s s' : St) : Prop := {
  mr_queue : m_queue (Waiter.env s') = <[q:=l]> (m_queue (Waiter.env s));
  mr_run : Worker.m_runnableQueue (Waiter.worker s') =
    (if prio then f :: Worker.m_runnableQueue (Waiter.worker s) else Worker.m_runnableQueue (Waiter.worker s) ++ [f]);
  mr_suspended : Worker.m_suspendedQueue (Waiter.worker s') = Worker.m_suspendedQueue (Waiter.worker s);
  mr_ready : ∃ x, Worker.fibers (Waiter.worker s') !! f = Some x ∧ state x = Ready ∧ stateNext x = Ready;
  mr_others g : g ≠ f → Worker.fibers (Waiter.worker s') !! g = Worker.fibers (Waiter.worker s) !! g
}.

Lemma released_made_ready f q l k prio (s : St) :
  wf_sync s → m_queue (Waiter.env s) !! q = Some k → f ∈ k → made_ready f q l prio s (released f q l prio s).
Proof using H.
  intros [W A N] E Hf. destruct (queue_split _ _ _ E) as (A0 & B0 & Ec & _).
  assert (Worker.asleep (Waiter.worker s) f) as As by (apply A; rewrite Ec; set_solver).
  destruct (Worker.woken_up _ f prio W As) as (_ & _ & R). destruct As as ((x & Ex & _) & _).
  constructor; simpl; [done| | |exact R|].
  - unfold Worker.awake. rewrite Ex. simpl. by destruct prio.
  - by destruct (Worker.awake_fields (Waiter.worker s) f prio f) as (_ & -> & _).
  - intros g Hg. by destruct (Worker.awake_fields (Waiter.worker s) f prio g) as (-> & _).
Qed.

Lemma released_run op f q l1 l2 prio (s : St) :
  wf_sync s → m_queue (Waiter.env s) !! q = Some (l1 ++ f :: l2) →
  spec_op op (l1 ++ f :: l2) = Some (l1 ++ l2) →
  (queue_op op q;; wakeup f prio) s = Ok (tt, released f q (l1 ++ l2) prio s) ∧
  wf_sync (released f q (l1 ++ l2) prio s) ∧
  m_queue (Waiter.env (released f q (l1 ++ l2) prio s)) !! q = Some (l1 ++ l2) ∧
  ∃ x, Worker.fibers (Waiter.worker (released f q (l1 ++ l2) prio s)) !! f = Some x ∧ state x = Ready.
Proof.
  intros [W A N] E O. destruct (queue_split _ _ _ E) as (A0 & B0 & Ec & Ei).
  assert (f ∈ concat (m_queue (Waiter.env s))) as Hf by (rewrite Ec; set_solver).
  destruct (Worker.woken_up _ f prio W (A f Hf)) as (R & W' & x & Ex & Sx & _).
  split; [|split; [|split]].
  - erewrite bind_Ok by by apply queue_op_run with (l := l1 ++ f :: l2).
    unfold wakeup, Waiter.with_worker. simpl. by rewrite R.
  - assert (concat (m_queue (Waiter.env s)) ≡ₚ f :: A0 ++ (l1 ++ l2) ++ B0) as Pm.
    { rewrite Ec, <-(Permutation_middle l1 l2). simpl. by rewrite <-Permutation_middle. }
    rewrite Pm in N. apply NoDup_cons in N as [Nf N].
    constructor; simpl; rewrite ?Ei; [done| |done].
    intros g Hg. apply Worker.asleep_awake; [by intros ->|]. apply A. rewrite Pm. auto with zth.
  - by apply (with_queue_lookup q _ _ s E).
  - by exists x.
Qed.

Lemma unblockFirst_run q l prio (s : St) :
  wf_sync s → m_queue (Waiter.env s) !! q = Some l →
  unblockFirst q prio s =
    Ok (match l with [] => (nullptr, s) | f :: l' => (Some f, released f q l' prio s) end).
Proof.
  intros W E. unfold unblockFirst. rewrite (bind_Ok _ _ _ _ _ (queue_run q l s E)).
  destruct l as [|f l]; [done|]. destruct (released_run PopFront f q [] l prio s W E eq_refl) as (R & _).
  rewrite <-bind_assoc. by rewrite (bind_Ok _ _ _ _ _ R).
Qed.

Lemma unblock_run f q l prio (s : St) :
  wf_sync s → m_queue (Waiter.env s) !! q = Some l →
  unblock f q prio s =
    Ok (if bool_decide (f ∈ l) then (true, released f q (filter (λ x, x ≠ f) l) prio s) else (false, s)).
Proof.
  intros W E. unfold unblock. rewrite (bind_Ok _ _ _ _ _ (queue_run q l s E)).
  destruct (bool_decide (f ∈ l)) eqn:B; [|done]. apply bool_decide_eq_true in B.
  assert (NoDup l) as Nl.
  { destruct (queue_split _ _ _ E) as (A0 & B0 & Ec & _). pose proof (ws_nodup s W) as N. rewrite Ec in N.
    apply NoDup_app in N as (_ & _ & N). by apply NoDup_app in N as (N & _ & _). }
  assert (spec_op (Erase f) l = Some (filter (λ x, x ≠ f) l)) as Eo by (simpl; by rewrite decide_True).
  apply list_elem_of_split in B as (l1 & l2 & ->). rewrite filter_removed in * by done.
  destruct (released_run (Erase f) f q l1 l2 prio s W E Eo) as (R & _).
  rewrite <-bind_assoc. by rewrite (bind_Ok _ _ _ _ _ R).
Qed.

Lemma released_wf f q l prio (s : St) :
  wf_sync s → m_queue (Waiter.env s) !! q = Some l → f ∈ l → wf_sync (released f q (filter (λ x, x ≠ f) l) prio s).
Proof using H.
  intros W E B. assert (NoDup l) as Nl.
  { destruct (queue_split _ _ _ E) as (A0 & B0 & Ec & _). pose proof (ws_nodup s W) as N. rewrite Ec in N.
    apply NoDup_app in N as (_ & _ & N). by apply NoDup_app in N as (N & _ & _). }
  assert (spec_op (Erase f) l = Some (filter (λ x, x ≠ f) l)) as Eo by (simpl; by rewrite decide_True).
  apply list_elem_of_split in B as (l1 & l2 & ->). rewrite filter_removed in * by done.
  by destruct (released_run (Erase f) f q l1 l2 prio s W E Eo) as (_ & W' & _).
Qed.

(** The fibers [l] were made ready one after the other. *)
Fixpoint released_all (l : list addr) (q : nat) (prio : bool) (s : St) : St :=
  match l with
  | [] => s
  | f :: l => released_all l q prio (released f q l prio s)
  end.

Lemma unblock_loop_run l q prio (s : St) fuel :
  wf_sync s → m_queue (Waiter.env s) !! q = Some l → (length l < fuel)%nat →
  unblock_loop fuel q prio s = Ok (tt, released_all l q prio s) ∧ wf_sync (released_all l q prio s).
Proof.
  revert s fuel. induction l as [|f l IH]; intros s fuel W E L; (destruct fuel as [|fuel]; [simpl in L; lia|]); simpl.
  - rewrite (bind_Ok _ _ _ _ _ (queue_run q [] s E)). done.
  - destruct (released_run PopFront f q [] l prio s W E eq_refl) as (R & W' & E' & _).
    rewrite (bind_Ok _ _ _ _ _ (queue_run q (f :: l) s E)), <-bind_assoc, (bind_Ok _ _ _ _ _ R).
    apply IH; [done|done|simpl in L; lia].
Qed.

Lemma released_all_fields l q prio (s : St) :
  NoDup l → (∀ f, f ∈ l → ∃ x, Worker.fibers (Waiter.worker s) !! f = Some x ∧ state x = Waiting ∧ stateNext x = Ready) →
  m_queue (Waiter.env s) !! q = Some l →
  let s' := released_all l q prio s in
  m_queue (Waiter.env s') = <[q:=[]]> (m_queue (Waiter.env s)) ∧
  Worker.m_runnableQueue (Waiter.worker s') =
    (if prio then rev l ++ Worker.m_runnableQueue (Waiter.worker s) else Worker.m_runnableQueue (Waiter.worker s) ++ l) ∧
  Worker.m_suspendedQueue (Waiter.worker s') = Worker.m_suspendedQueue (Waiter.worker s) ∧
  (∀ f, f ∈ l → ∃ x, Worker.fibers (Waiter.worker s') !! f = Some x ∧ state x = Ready) ∧
  (∀ f, f ∉ l → Worker.fibers (Waiter.worker s') !! f = Worker.fibers (Waiter.worker s) !! f).
Proof.
  revert s. induction l as [|f l IH]; intros s N F E; simpl.
  - rewrite list_insert_id by done. rewrite app_nil_r. split_and!; [done|by destruct prio|done|by intros f ?%elem_of_nil|done].
  - apply NoDup_cons in N as [Nf N]. assert (Ef := E). apply (with_queue_lookup q _ l) in Ef.
    destruct (F f) as (x & Ex & Sx & Nx); [auto with zth|].
    assert (∀ g, g ≠ f → Worker.fibers (Worker.awake (Waiter.worker s) f prio) !! g = Worker.fibers (Waiter.worker s) !! g) as Fo
      by (intros g; apply Worker.awake_fields).
    destruct (IH (released f q l prio s)) as (I1 & I2 & I3 & I4 & I5); [done| |done|].
    + intros g Hg. simpl. rewrite Fo by (intros ->; done). apply F. auto with zth.
    + rewrite I1, I2, I3. simpl. rewrite list_insert_insert_eq. split_and!; [done| | | |].
      * unfold Worker.awake. rewrite Ex. simpl. destruct prio; by rewrite <-(assoc_L (++)).
      * by destruct (Worker.awake_fields (Waiter.worker s) f prio f) as (_ & -> & _).
      * intros g [->|Hg]%elem_of_cons; [|by apply I4]. rewrite I5 by done. simpl. unfold Worker.awake. rewrite Ex. simpl.
        rewrite lookup_insert_eq. eexists. split; [reflexivity|]. destruct x; simpl in *; by subst.
      * intros g [Hg Hg']%not_elem_of_cons. rewrite I5 by done. simpl. by apply Fo.
Qed.
End Lemmas.

Section Blocking.
Context `{Config} {P : Type} `{Waiter.PollerStore P}.
Context (context_create : addr → Z) (later : Timestamp).

Abbreviation St := (Waiter.WS SEnv P).

(** The current fiber [f] went from the run queue, in which [l] is left, to the
    end of queue [q]. *)
Definition enqueued (f : addr) (y : Fiber) (l : list addr) (q : nat) (ql : list addr) (s : St) : St :=
  Waiter.set_worker (Worker.napped (Waiter.worker s) f y null_ts l) (with_queue q (ql ++ [f]) s).

(** [f] runs in its own context, on [s], and may block on queue [q]. *)
Record may_block (s : St) (f : addr) (y : Fiber) (l1 l2 : list addr) (q : nat) (ql : list addr) (now : Timestamp) : Prop := {
  mb_wf : wf_sync s;
  mb_current : Worker.m_currentFiber (Waiter.worker s) = Some f;
  mb_queue : Worker.m_runnableQueue (Waiter.worker s) = l1 ++ f :: l2;
  mb_fiber : Worker.fibers (Waiter.worker s) !! f = Some y;
  mb_state : state y = Running;
  mb_sync : m_queue (Waiter.env s) !! q = Some ql;
  mb_live : Waiter.others_live context_create f (Waiter.worker s);
  mb_sched : Worker.may_schedule (Waiter.worker s) now;
  mb_now : Time.good_now now;
  mb_later : Time.good_now later
}.

Lemma enqueued_wf s f y l1 l2 q ql now :
  may_block s f y l1 l2 q ql now →
  f ∉ concat (m_queue (Waiter.env s)) ∧ wf_sync (enqueued f y (l1 ++ l2) q ql s) ∧
  Worker.asleep (Waiter.worker (enqueued f y (l1 ++ l2) q ql s)) f ∧
  Waiter.others_live context_create f (Waiter.worker (enqueued f y (l1 ++ l2) q ql s)) ∧
  f ∉ Worker.m_runnableQueue (Waiter.worker (enqueued f y (l1 ++ l2) q ql s)).
Proof.
  intros [[W A N] Ec Er Ey Sy Eq L M Gn Gl].
  destruct (Worker.napped_asleep _ f y null_ts l1 l2 W Er Ey Sy) as (W' & Af & A').
  destruct (queue_split _ _ _ Eq) as (A0 & B0 & Ecq & Ei).
  assert (f ∉ concat (m_queue (Waiter.env s))) as Hf by (intros Hf%A; by apply A' in Hf as [? _]).
  assert (concat (<[q:=ql ++ [f]]> (m_queue (Waiter.env s))) ≡ₚ f :: concat (m_queue (Waiter.env s))) as Pm.
  { rewrite Ei, Ecq, <-(Permutation_cons_append ql f). simpl. by rewrite <-Permutation_middle. }
  split; [done|]. split; [|split; [done|split]].
  - constructor; simpl; [done| |rewrite Pm; by apply NoDup_cons].
    intros g. rewrite Pm. intros [->|Hg]%elem_of_cons; [done|]. by apply A', A.
  - intros n Hn Hnf. simpl in Hn. destruct (L n) as (z & Ez & Cz); [rewrite Er; set_solver|done|].
    exists z. simpl. by rewrite lookup_insert_ne.
  - by destruct Af as (_ & _ & Hq & _); set_solver.
Qed.

(** [block], up to its call of [schedule]. *)
Lemma release_enqueue_run s f y l1 l2 q ql now :
  may_block s f y l1 l2 q ql now →
  (Waiter.with_worker (Worker.release f);; queue_op (PushBack f) q;;
   Waiter.with_worker (Worker.update_fiber f (Fiber.nap null_ts))) s = Ok (tt, enqueued f y (l1 ++ l2) q ql s).
Proof.
  intros B. destruct (enqueued_wf s f y l1 l2 q ql now B) as (Hf & _). destruct B as [[W A N] Ec Er Ey Sy Eq _ _ _ _].
  pose proof (Worker.wf_nodup _ W) as Hnd. rewrite Er in Hnd.
  apply NoDup_cons in Hnd as [_ Hnd]. apply NoDup_app in Hnd as [Hnd _].
  erewrite bind_Ok.
  2:{ apply Waiter.with_worker_run. unfold Worker.release. rewrite (bind_Ok _ _ _ _ _ (Worker.fiber_at_run f _ y Ey)).
      rewrite Sy. apply Worker.on_runnable_run. rewrite Er. by apply Worker.spec_erase. }
  erewrite bind_Ok.
  2:{ apply (queue_op_run _ q ql (ql ++ [f])); [exact Eq|]. simpl. rewrite decide_False; [done|].
      destruct (queue_split _ _ _ Eq) as (A0 & B0 & Ecq & _). rewrite Ecq in Hf. set_solver. }
  erewrite Waiter.with_worker_run by (apply Worker.update_fiber_run; exact Ey). done.
Qed.

Lemma block_run s f y l1 l2 q ql now now2 :
  may_block s f y l1 l2 q ql now →
  ∃ next s', block context_create later q now now2 s = Ok (Blocked (Worker.Switched next), s') ∧
    next = default (Worker.m_workerFiber (Waiter.worker s)) (head (l1 ++ l2)) ∧
    m_queue (Waiter.env s') = <[q:=ql ++ [f]]> (m_queue (Waiter.env s)) ∧
    Worker.m_runnableQueue (Waiter.worker s') = match l1 ++ l2 with [] => [] | n :: rest => rest ++ [n] end ∧
    wf_sync (Waiter.set_worker (Worker.arrive (Waiter.worker s')) s').
Proof.
  intros B. destruct (enqueued_wf s f y l1 l2 q ql now B) as (Hf & W1 & A1 & L1 & N1).
  pose proof (release_enqueue_run s f y l1 l2 q ql now B) as R. destruct B as [W Ec Er Ey Sy Eq L M Gn Gl].
  set (s1 := enqueued f y (l1 ++ l2) q ql s) in *.
  destruct (Worker.schedule_away_any context_create later (Waiter.worker s1) now now2 f (ws_worker _ W1) M)
    as (w2 & Q & W3 & A3 & Er3); [exact Ec|done|done|done| |].
  { intros n Hn. apply L1; [done|]. by intros ->. }
  exists (default (Worker.m_workerFiber (Waiter.worker s)) (head (l1 ++ l2))), (Waiter.set_worker w2 s1).
  split; [|split_and!; try done].
  - unfold block. erewrite bind_Ok by (apply Waiter.with_worker_run; reflexivity). rewrite Waiter.set_worker_id, Ec.
    unfold enqueue. rewrite (bind_three _ _ _ _ _ _ _ R). by erewrite bind_Ok by apply Waiter.with_worker_run, Q.
  - constructor; simpl; [done| |apply W1]. intros g Hg. by apply A3, W1.
Qed.
(** *** Time-outs *)

(** [f] is blocked on queue [q] with the alarm clock [x]. *)
Record alarmed (s : Waiter.WS SEnv P) (x : addr) (q : nat) (f : addr) (timeout : Timestamp) : Prop := {
  al_obj : Waiter.objs s !! x = Some (Waiter.mkWt Waiter.Derived timeout nullptr);
  al_alarm : alarms (Waiter.env s) !! x = Some (mkAlarm q f false)
}.

Lemma alarm_poll_early s x q f timeout now :
  alarmed s x q f timeout → ts_le timeout now = false → alarm_poll x now s = Ok (false, s).
Proof using H. clear context_create later.
  intros [O A] T. unfold alarm_poll. rewrite (bind_Ok _ _ _ _ _ (Waiter.obj_run x s _ O)). simpl. by rewrite T.
Qed.

Lemma alarm_poll_run s x q f timeout now l :
  wf_sync s → alarmed s x q f timeout → m_queue (Waiter.env s) !! q = Some l → ts_le timeout now = true →
  ∃ s', alarm_poll x now s = Ok (true, s') ∧ alarms (Waiter.env s') !! x = Some (mkAlarm q f (bool_decide (f ∈ l))) ∧
    m_queue (Waiter.env s') = <[q:=filter (λ g, g ≠ f) l]> (m_queue (Waiter.env s)) ∧
    Waiter.m_waiting s' = Waiter.m_waiting s ∧
    Waiter.worker s' = (if bool_decide (f ∈ l) then Worker.awake (Waiter.worker s) f false else Waiter.worker s).
Proof using H. clear context_create later.
  intros W [O A] Eq T. unfold alarm_poll. rewrite (bind_Ok _ _ _ _ _ (Waiter.obj_run x s _ O)). simpl. rewrite T. simpl.
  erewrite bind_Ok by (unfold alarm; rewrite A; reflexivity).
  pose proof (unblock_run f q l false s W Eq) as U. simpl. destruct (bool_decide (f ∈ l)) eqn:B.
  - rewrite (bind_Ok _ _ _ _ _ U). eexists. split; [reflexivity|]. simpl. by rewrite lookup_insert_eq.
  - rewrite (bind_Ok _ _ _ _ _ U). eexists. split; [reflexivity|]. simpl. rewrite lookup_insert_eq.
    apply bool_decide_eq_false in B. rewrite filter_absent by done. by rewrite list_insert_id.
Qed.

Lemma block_finish_run (s : Waiter.WS SEnv P) x a :
  alarms (Waiter.env s) !! x = Some a →
  block_finish x s = Ok (negb (m_rang a), Waiter.set_waiting (filter (λ e, e ≠ x) (Waiter.m_waiting s)) s).
Proof. clear context_create later.
  intros A. unfold block_finish, Waiter.unscheduleTask. rewrite bind_assoc. erewrite bind_Ok by reflexivity.
  destruct (bool_decide (x ∈ Waiter.m_waiting s)) eqn:B.
  - apply bool_decide_eq_true in B. simpl. rewrite (bind_Ok _ _ _ _ _ (Waiter.waiting_erase_run x s B)).
    erewrite bind_Ok by (unfold alarm; simpl; rewrite A; reflexivity). done.
  - apply bool_decide_eq_false in B. simpl. erewrite bind_Ok by reflexivity.
    erewrite bind_Ok by (unfold alarm; rewrite A; reflexivity). rewrite filter_absent by done. by destruct s.
Qed.

(** [block_], up to its call of [schedule]: on queue [q], with the alarm clock
    in the waiter's list. *)
Definition timed (x : addr) (q : nat) (f : addr) (timeout : Timestamp) (s : St) : St :=
  let o := <[x:=Waiter.mkWt Waiter.Derived timeout nullptr]> (Waiter.objs s) in
  Waiter.set_waiting (ins (H := Waiter.by_timeout o) x (Waiter.m_waiting s))
    (Waiter.set_env (mkSEnv (m_queue (Waiter.env s)) (<[x:=mkAlarm q f false]> (alarms (Waiter.env s)))) (Waiter.set_objs o s)).

Lemma block_start_run s f y l1 l2 q ql x timeout now now2 :
  may_block s f y l1 l2 q ql now → x ∉ Waiter.m_waiting s → Waiter.waiter_ok s → (∀ g, context_create g = 0%Z) →
  ∃ next s', block_start context_create later x timeout now now2 q s = Ok (Blocked (Worker.Switched next), s') ∧
    m_queue (Waiter.env s') = <[q:=ql ++ [f]]> (m_queue (Waiter.env s)) ∧ x ∈ Waiter.m_waiting s' ∧
    alarmed s' x q f timeout ∧ wf_sync (Waiter.set_worker (Worker.arrive (Waiter.worker s')) s').
Proof.
  intros B Hx K C. destruct (enqueued_wf s f y l1 l2 q ql now B) as (Hf & W1 & A1 & L1 & N1).
  pose proof (release_enqueue_run s f y l1 l2 q ql now B) as R. destruct B as [W Ec Er Ey Sy Eq L M Gn Gl].
  set (s1 := timed x q f timeout (enqueued f y (l1 ++ l2) q ql s)).
  assert (Waiter.waiter_ok s1) as K1.
  { intros g Hg. destruct (K g Hg) as (z & Ez & Sz). simpl. destruct (decide (g = f)) as [->|Hgf].
    - rewrite lookup_insert_eq. eexists. split; [done|]. destruct A1 as ((z' & Ez' & Sz' & _) & _). simpl in Ez'.
      rewrite lookup_insert_eq in Ez'. injection Ez' as <-. congruence.
    - rewrite lookup_insert_ne by done. by exists z. }
  destruct (Waiter.resume_waiter_ok context_create s1 f (ws_worker _ W1) K1 C L1)
    as (w' & k & Q1 & Ww & Eq1 & Ec1 & Ee1 & Ed1 & _ & A2 & L2).
  assert (f ∉ Worker.m_runnableQueue w') as Nf by (destruct (A2 f A1) as (_ & _ & Hq & _); set_solver).
  destruct (Worker.schedule_away_any context_create later w' now now2 f Ww) as (w2 & Q & W3 & A3 & _);
    [unfold Worker.may_schedule; rewrite Ee1, Ed1; exact M|rewrite Ec1; exact Ec|done|done|done| |].
  { intros n Hn. apply L2; [done|]. by intros ->. }
  eexists _, (Waiter.set_worker w2 (Waiter.set_worker w' s1)). split; [|split_and!].
  - unfold block_start. erewrite bind_Ok by (apply Waiter.with_worker_run; reflexivity).
    rewrite Waiter.set_worker_id, Ec. rewrite (bind_three _ _ _ _ _ _ _ R).
    unfold new_alarm. rewrite bind_assoc. erewrite bind_Ok by reflexivity.
    erewrite bind_Ok by reflexivity. unfold Waiter.scheduleTask. rewrite bind_assoc.
    erewrite bind_Ok by by apply Waiter.waiting_insert_run.
    erewrite bind_Ok by exact Q1. by erewrite bind_Ok by apply Waiter.with_worker_run, Q.
  - done.
  - simpl. rewrite (ins_Permutation x). auto with zth.
  - constructor; simpl; by rewrite lookup_insert_eq.
  - constructor; simpl; [done| |apply W1]. intros g Hg. apply A3, A2. by apply W1.
Qed.
End Blocking.

(** ** The properties *)

(** C27: blocking and unblocking.  The fiber that blocks goes from the run queue
    to the end of the synchronizer's queue and the processor to the next fiber;
    the first of the queue, all of them in order, or a given one are made ready again, and
    put at the back of the run queue (at the front with priority); all other fibers stay
    where they are, so that nothing is lost or in two queues. *)
Theorem sync_block_unblock `{Config} {P} `{Waiter.PollerStore P} ctx later (s : Waiter.WS SEnv P) q l now :
  wf_sync s → m_queue (Waiter.env s) !! q = Some l →
  (∀ f y l1 l2 now2, may_block ctx later s f y l1 l2 q l now →
   ∃ next s', block ctx later q now now2 s = Ok (Blocked (Worker.Switched next), s') ∧
     next = default (Worker.m_workerFiber (Waiter.worker s)) (head (l1 ++ l2)) ∧
     m_queue (Waiter.env s') = <[q:=l ++ [f]]> (m_queue (Waiter.env s)) ∧
     Worker.m_runnableQueue (Waiter.worker s') = match l1 ++ l2 with [] => [] | n :: rest => rest ++ [n] end ∧
     wf_sync (Waiter.set_worker (Worker.arrive (Waiter.worker s')) s')) ∧
  (∀ prio, l = [] → unblockFirst q prio s = Ok (nullptr, s) ∧ unblockAll q prio s = Ok (false, s)) ∧
  (∀ prio f l', l = f :: l' → ∃ s', unblockFirst q prio s = Ok (Some f, s') ∧ wf_sync s' ∧ made_ready f q l' prio s s') ∧
  (∀ prio, l ≠ [] → ∃ s', unblockAll q prio s = Ok (true, s') ∧ wf_sync s' ∧
     m_queue (Waiter.env s') = <[q:=[]]> (m_queue (Waiter.env s)) ∧
     Worker.m_runnableQueue (Waiter.worker s') =
       (if prio then rev l ++ Worker.m_runnableQueue (Waiter.worker s)
        else Worker.m_runnableQueue (Waiter.worker s) ++ l) ∧
     Worker.m_suspendedQueue (Waiter.worker s') = Worker.m_suspendedQueue (Waiter.worker s) ∧
     (∀ f, f ∈ l → ∃ x, Worker.fibers (Waiter.worker s') !! f = Some x ∧ state x = Ready) ∧
     (∀ f, f ∉ l → Worker.fibers (Waiter.worker s') !! f = Worker.fibers (Waiter.worker s) !! f)) ∧
  (∀ prio f, f ∉ l → unblock f q prio s = Ok (false, s)) ∧
  (∀ prio f, f ∈ l → ∃ s', unblock f q prio s = Ok (true, s') ∧ wf_sync s' ∧
     made_ready f q (filter (λ x, x ≠ f) l) prio s s').
Proof.
  intros W E. split_and!.
  - intros f y l1 l2 now2 B. by apply (block_run ctx later s f y l1 l2 q l now now2).
  - intros prio ->. rewrite (unblockFirst_run q [] prio s W E). split; [done|].
    unfold unblockAll. by rewrite (bind_Ok _ _ _ _ _ (queue_run q [] s E)).
  - intros prio f l' ->. destruct (released_run PopFront f q [] l' prio s W E eq_refl) as (_ & W' & _).
    exists (released f q l' prio s). rewrite (unblockFirst_run q (f :: l') prio s W E). split_and!; [done|done|].
    apply (released_made_ready f q l' (f :: l')); [done|done|auto with zth].
  - intros prio Hl. destruct (queue_split _ _ _ E) as (A & B & Ec & _).
    destruct (unblock_loop_run l q prio s (S (length l)) W E ltac:(lia)) as [R W'].
    destruct (released_all_fields l q prio s) as (F1 & F2 & F3 & F4 & F5); [| |done|].
    { pose proof (ws_nodup s W) as N. rewrite Ec in N. apply NoDup_app in N as (_ & _ & N). by apply NoDup_app in N as (N & _). }
    { intros f Hf. destruct (ws_asleep s W f) as ((x & Ex & Sx & Nx & _) & _); [rewrite Ec; set_solver|by exists x]. }
    exists (released_all l q prio s). split; [|by split_and!]. unfold unblockAll.
    rewrite (bind_Ok _ _ _ _ _ (queue_run q l s E)). destruct l; [done|]. by rewrite (bind_Ok _ _ _ _ _ R).
  - intros prio f Hf. by rewrite (unblock_run f q l prio s W E), bool_decide_false.
  - intros prio f Hf. rewrite (unblock_run f q l prio s W E), bool_decide_true by done. eexists. split; [reflexivity|]. split.
    + by apply (released_wf f q l).
    + by apply (released_made_ready f q _ l).
Qed.

(** Blocking with a time-out.  The alarm clock does nothing before its time;
    then it takes the fiber from the queue, makes it ready, and the fiber reports
    that it timed out; when the fiber was unblocked by request before, the alarm
    clock finds nothing to do and the fiber reports that.  Either way the alarm
    clock is out of the waiter's list afterwards.  But a time-out that has passed
    at the call is reported as if the fiber had been unblocked by request. *)
Theorem sync_timed_block `{Config} {P} `{Waiter.PollerStore P} ctx later (s : Waiter.WS SEnv P) x q f timeout l now :
  wf_sync s → alarmed s x q f timeout → m_queue (Waiter.env s) !! q = Some l → f ∈ l →
  (ts_le timeout now = false → alarm_poll x now s = Ok (false, s)) ∧
  (ts_le timeout now = true → ∃ s1 s2,
     alarm_poll x now s = Ok (true, s1) ∧ wf_sync s1 ∧ m_queue (Waiter.env s1) !! q = Some (filter (λ g, g ≠ f) l) ∧
     Worker.m_runnableQueue (Waiter.worker s1) = Worker.m_runnableQueue (Waiter.worker s) ++ [f] ∧
     block_finish x s1 = Ok (false, s2) ∧ x ∉ Waiter.m_waiting s2) ∧
  (∀ prio l', l = f :: l' → ∃ s1 s2,
     unblockFirst q prio s = Ok (Some f, s1) ∧ block_finish x s1 = Ok (true, s2) ∧ x ∉ Waiter.m_waiting s2 ∧
     (ts_le timeout now = true → ∃ s3 s4, alarm_poll x now s1 = Ok (true, s3) ∧
        m_queue (Waiter.env s3) = m_queue (Waiter.env s1) ∧ Waiter.worker s3 = Waiter.worker s1 ∧
        block_finish x s3 = Ok (true, s4))) ∧
  (∀ now2, (ts_le timeout now = true → blockUntil ctx later x timeout now now2 q s = Ok (inl true, s)) ∧
     (∀ dt, isNegative dt || isNull dt = true → blockFor ctx later x dt now now2 q s = Ok (inl true, s))).
Proof.
  intros W A E Hf.
  assert (∀ (st : Waiter.WS SEnv P), x ∉ filter (λ e, e ≠ x) (Waiter.m_waiting st)) as Nx.
  { intros st Hx. apply list_elem_of_filter in Hx as [Hx _]. done. }
  split_and!.
  - intros T. by apply (alarm_poll_early s x q f timeout now).
  - intros T. destruct (alarm_poll_run s x q f timeout now l W A E T) as (s1 & R & Al & Eq & Ew & Eo).
    rewrite bool_decide_true in Al, Eo by done.
    pose proof (unblock_run f q l false s W E) as U. rewrite bool_decide_true in U by done.
    apply list_elem_of_split in Hf as (l1 & l2 & ->).
    assert (NoDup (l1 ++ f :: l2)) as Nl.
    { destruct (queue_split _ _ _ E) as (A0 & B0 & Ec & _). pose proof (ws_nodup s W) as N. rewrite Ec in N.
      apply NoDup_app in N as (_ & _ & N). by apply NoDup_app in N as (N & _ & _). }
    rewrite filter_removed in * by done.
    destruct (released_run (Erase f) f q l1 l2 false s W E) as (_ & W' & E' & y & Ey & Sy).
    { simpl. rewrite decide_True by auto with zth. by rewrite filter_removed. }
    exists s1. eexists. split; [exact R|]. split; [|split_and!].
    + destruct W' as [V1 V2 V3]. simpl in V1, V2, V3. constructor; rewrite ?Eo, ?Eq; done.
    + rewrite Eq. apply list_lookup_insert_eq. by apply lookup_lt_is_Some_1.
    + rewrite Eo. unfold Worker.awake. destruct (ws_asleep s W f) as ((z & Ez & _) & _); [|by rewrite Ez].
      destruct (queue_split _ _ _ E) as (A0 & B0 & Ec & _). rewrite Ec. set_solver.
    + by apply block_finish_run with (a := mkAlarm q f true).
    + apply Nx.
  - intros prio l' ->. destruct (released_run PopFront f q [] l' prio s W E eq_refl) as (_ & W' & E' & _).
    destruct A as [O A]. set (s1 := released f q l' prio s) in *.
    assert (alarmed s1 x q f timeout) as A1 by by constructor.
    exists s1. eexists. split; [by rewrite (unblockFirst_run q (f :: l') prio s W E)|].
    split; [by apply block_finish_run with (a := mkAlarm q f false)|]. split; [apply Nx|].
    intros T. destruct (alarm_poll_run s1 x q f timeout now l' W' A1 E' T) as (s3 & R & Al & Eq & Ew & Eo).
    assert (f ∉ l') as Nf.
    { pose proof (ws_nodup s W) as N. destruct (queue_split _ _ _ E) as (A0 & B0 & Ec & _). rewrite Ec in N.
      apply NoDup_app in N as (_ & _ & N). apply NoDup_app in N as (N & _ & _). by apply NoDup_cons in N as [? _]. }
    rewrite bool_decide_false in Al, Eo by done. rewrite filter_absent in Eq by done.
    rewrite list_insert_id in Eq by done.
    exists s3. eexists. split; [exact R|]. split_and!; [done|done|].
    by apply block_finish_run with (a := mkAlarm q f false).
  - intros now2. split; [unfold blockUntil; by intros ->|]. intros dt D. unfold blockFor. by rewrite D.
Qed.

(** *** Witnesses: fiber 2 runs, fiber 7 is blocked on queue 0 with alarm clock
    10. *)

Definition example_sync : Waiter.WS SEnv (list addr) :=
  Waiter.mkWS Waiter.example_wworker {[10%positive := Waiter.mkWt Waiter.Derived (mkTs 3 0) nullptr]} [10]%positive
    nullptr nullptr nullptr ∅ (mkSEnv [[7]%positive; []] {[10%positive := mkAlarm 0 7 false]}).

Lemma example_sync_wf : wf_sync example_sync.
Proof.
  constructor; simpl.
  - apply Waiter.example_wworker_wf.
  - intros f Hf. apply elem_of_cons in Hf as [->|Hf]; [apply Waiter.example_asleep|by apply elem_of_nil in Hf].
  - repeat constructor. set_solver.
Qed.

#[local] Existing Instance Waiter.example_store.

Lemma sync_block_unblock_witness :
  ∃ next s', block (H := debug_config) (λ _, 0%Z) (mkTs 7 0) 0 (mkTs 7 0) (mkTs 7 0) example_sync =
    Ok (Blocked (Worker.Switched next), s') ∧ next = 6%positive.
Proof.
  destruct (sync_block_unblock (H := debug_config) (λ _, 0%Z) (mkTs 7 0) example_sync 0 [7]%positive (mkTs 7 0))
    as (B & _); [apply example_sync_wf|done|].
  destruct (B 2%positive example_running [] [6]%positive (mkTs 7 0)) as (next & s' & Q & Hn & _).
  - constructor; try done; [apply example_sync_wf| |by vm_compute; intuition discriminate..].
    intros n Hn Hne. simpl in Hn. repeat (apply elem_of_cons in Hn as [->|Hn]); [done| |by apply elem_of_nil in Hn].
    eexists. split; [reflexivity|by left].
  - by exists next, s'.
Defined.

Lemma sync_timed_block_witness :
  ∃ s1 s2, alarm_poll (H := debug_config) 10 (mkTs 5 0) example_sync = Ok (true, s1) ∧
    block_finish 10 s1 = Ok (false, s2).
Proof.
  destruct (sync_timed_block (H := debug_config) (λ _, 0%Z) (mkTs 7 0) example_sync 10 0 7 (mkTs 3 0) [7]%positive (mkTs 5 0))
    as (_ & T & _); [apply example_sync_wf|by constructor|done|auto with zth|].
  destruct T as (s1 & s2 & Q1 & _ & _ & _ & Q2 & _); [done|]. by exists s1, s2.
Defined.
