(* ===== verification/Sync.v ===== *)
(** * Synchronization primitives (libzth/sync.h)

    Mutex, semaphore, signal, future, mailbox and gate, as the cooperative
    fibers of one worker use them.  A call runs without interruption until it
    returns or blocks; a blocked call goes on when its fiber was taken from the
    queue again, which for a [while(...) block()] is at the head of the loop.  A
    system is a primitive together with the place at which every fiber is in its
    call, and a run of it any interleaving of such pieces.  How a fiber gets into
    and out of a queue is in SyncBase.v; here, [woken] are the fibers that were
    made ready, in order. *)

From stdpp Require Import functions base gmap list.
From S2P Require Import Prelude Time.

Set Default Proof Using "Type".

(** ** The synchronizer *)

Record Obj {D : Type} := mkObj { queues : list (list addr); woken : list addr; data : D }.
Arguments Obj : clear implicits.
Arguments mkObj {D}.

Section Synchronizer.
Context `{Config} {D : Type}.

Definition set_data (d : D) : M (Obj D) unit := modify (λ o, mkObj (queues o) (woken o) d).

Definition get_queue (q : nat) : M (Obj D) (list addr) := λ o,
  match queues o !! q with Some l => Ok (l, o) | None => Fault NullDeref end.
Definition set_queue (q : nat) (l : list addr) : M (Obj D) unit :=
  modify (λ o, mkObj (<[q:=l]> (queues o)) (woken o) (data o)).

(** The overridable [wakeup]: what a derived class does with the item. *)
Definition wake (on_wakeup : addr → nat → D → D) (f : addr) (q : nat) : M (Obj D) unit :=
  modify (λ o, mkObj (queues o) (woken o ++ [f]) (on_wakeup f q (data o))).

(** [block], in fiber [f]. *)
Definition block (f : addr) (q : nat) : M (Obj D) unit := l ← get_queue q; set_queue q (l ++ [f]).

Definition unblockFirst (on_wakeup : addr → nat → D → D) (q : nat) : M (Obj D) ptr :=
  l ← get_queue q;
  match l with
  | [] => mret nullptr
  | f :: l => set_queue q l;; wake on_wakeup f q;; mret (Some f)
  end.

Fixpoint wake_all (on_wakeup : addr → nat → D → D) (l : list addr) (q : nat) : M (Obj D) unit :=
  match l with
  | [] => mret tt
  | f :: l => set_queue q l;; wake on_wakeup f q;; wake_all on_wakeup l q
  end.

Definition unblockAll (on_wakeup : addr → nat → D → D) (q : nat) : M (Obj D) bool :=
  l ← get_queue q;
  match l with [] => mret false | _ => wake_all on_wakeup l q;; mret true end.

(** [unblock], for a time-out: not woken by request. *)
Definition unblock (f : addr) (q : nat) : M (Obj D) bool :=
  l ← get_queue q;
  if bool_decide (f ∈ l) then set_queue q (filter (λ g, g ≠ f) l);; mret true else mret false.
End Synchronizer.

(** [wakeup] as it is in the base class. *)
Definition plain {D : Type} (f : addr) (q : nat) (d : D) : D := d.

(** ** Systems of fibers *)

Record Sys {D Pc G : Type} := mkSys { obj : Obj D; pcs : addr → Pc; ghost : G }.
Arguments Sys : clear implicits.
Arguments mkSys {D Pc G}.

Definition with_obj {D Pc G A : Type} (m : M (Obj D) A) : M (Sys D Pc G) A := λ s,
  match m (obj s) with
  | Ok (a, o) => Ok (a, mkSys o (pcs s) (ghost s))
  | Fault e => Fault e
  end.
Definition goto {D Pc G : Type} (f : addr) (p : Pc) : M (Sys D Pc G) unit :=
  modify (λ s, mkSys (obj s) (<[f:=p]> (pcs s)) (ghost s)).
Definition ghost_step {D Pc G : Type} (g : G → G) : M (Sys D Pc G) unit :=
  modify (λ s, mkSys (obj s) (pcs s) (g (ghost s))).

Definition queued {D Pc G : Type} (s : Sys D Pc G) (q : nat) : list addr := default [] (queues (obj s) !! q).

(** Where a fiber is, after one of them moved. *)
Ltac fn_cases :=
  repeat match goal with
    | |- context [<[?f:=_]> _ ?f] => rewrite fn_lookup_insert
    | H : context [<[?f:=_]> _ ?f] |- _ => rewrite fn_lookup_insert in H
    | |- context [<[?f:=_]> _ ?h] =>
        destruct (decide (h = f)) as [->|?]; [rewrite fn_lookup_insert in *|rewrite fn_lookup_insert_ne in * by done]
    | H : context [<[?f:=_]> _ ?h] |- _ =>
        destruct (decide (h = f)) as [->|?]; [rewrite fn_lookup_insert in *|rewrite fn_lookup_insert_ne in * by done]
    end.

Lemma same_run {S A} (m : M S A) s a a' s1 s2 : m s = Ok (a, s1) → m s = Ok (a', s2) → s1 = s2.
Proof. intros R1 R2. rewrite R1 in R2. by injection R2. Qed.

(** Runs of systems of fibers are those of the prelude. *)
Export Runs.

Lemma with_obj_run {D Pc G A} (m : M (Obj D) A) (s : Sys D Pc G) a o :
  m (obj s) = Ok (a, o) → with_obj m s = Ok (a, mkSys o (pcs s) (ghost s)).
Proof. unfold with_obj. by intros ->. Qed.

Lemma wake_all_run {D} h l (q : nat) (o : Obj D) :
  wake_all h l q o =
    Ok (tt, mkObj (match l with [] => queues o | _ => <[q:=[]]> (queues o) end) (woken o ++ l)
              (fold_left (λ d f, h f q d) l (data o))).
Proof.
  revert o. induction l as [|f l IH]; intros o; simpl; [rewrite app_nil_r; by destruct o|].
  do 2 (erewrite bind_Ok by reflexivity). rewrite IH. simpl. rewrite <-(assoc_L (++)). simpl.
  destruct l; [done|]. by rewrite list_insert_insert_eq.
Qed.

(** The operations on a given queue. *)
Lemma fold_left_plain {D : Type} (l : list addr) (q : nat) (d : D) : fold_left (λ d f, plain f q d) l d = d.
Proof. by induction l. Qed.

Section QueueRuns.
Context {D : Type} (h : addr → nat → D → D).

Lemma get_queue_run q l (o : Obj D) : queues o !! q = Some l → get_queue q o = Ok (l, o).
Proof. unfold get_queue. by intros ->. Qed.

Lemma take_out_run f q l (o : Obj D) :
  queues o !! q = Some l → f ∈ l →
  unblock f q o = Ok (true, mkObj (<[q:=filter (λ g, g ≠ f) l]> (queues o)) (woken o) (data o)).
Proof. intros E Hf. unfold unblock. by rewrite (bind_Ok _ _ _ _ _ (get_queue_run q l o E)), bool_decide_true. Qed.

Lemma take_first_run q l (o : Obj D) :
  queues o !! q = Some l →
  unblockFirst h q o =
    Ok (match l with
        | [] => (nullptr, o)
        | f :: l => (Some f, mkObj (<[q:=l]> (queues o)) (woken o ++ [f]) (h f q (data o)))
        end).
Proof. intros E. unfold unblockFirst. rewrite (bind_Ok _ _ _ _ _ (get_queue_run q l o E)). by destruct l. Qed.

Lemma unblockAll_run q l (o : Obj D) :
  queues o !! q = Some l →
  unblockAll h q o =
    Ok (match l with
        | [] => (false, o)
        | _ => (true, mkObj (<[q:=[]]> (queues o)) (woken o ++ l) (fold_left (λ d f, h f q d) l (data o)))
        end).
Proof.
  intros E. unfold unblockAll. rewrite (bind_Ok _ _ _ _ _ (get_queue_run q l o E)). destruct l as [|f l]; [done|].
  by rewrite (bind_Ok _ _ _ _ _ (wake_all_run h (f :: l) q o)).
Qed.
End QueueRuns.

(** ** Mutex *)

Module Mutex.
Section Operations.
Context `{Config}.

(** [m_locked] is the data.  [lock] is what a fiber does from the head of the
    loop; [false] when it blocks. *)
Definition lock (f : addr) : M (Obj bool) bool :=
  l ← gets data;
  if l : bool then block f 0;; mret false else set_data true;; mret true.

Definition trylock : M (Obj bool) bool :=
  l ← gets data;
  if l : bool then mret false else set_data true;; mret true.

(** [trylock(timeout)] from the head of the loop, where the clock reads
    [clock i], [clock (i + 1)], ... each time [blockUntil] is called:
    [Some b] when it returns [b], [None] when it blocks. *)
Fixpoint trylock_until (fuel : nat) (f : addr) (timeout : Timestamp) (clock : nat → Timestamp) (i : nat)
    : M (Obj bool) (option bool) :=
  match fuel with
  | O => fail OutOfFuel
  | S fuel =>
      l ← gets data;
      if l : bool then
        if ts_le timeout (clock i) then trylock_until fuel f timeout clock (S i)   (* [blockUntil] returned [true] *)
        else block f 0;; mret None
      else set_data true;; mret (Some true)
  end.

(** ...and when [blockUntil] blocked and the fiber runs again: whether it was
    unblocked by request. *)
Definition trylock_woken (fuel : nat) (f : addr) (timeout : Timestamp) (clock : nat → Timestamp) (i : nat)
    (unblocked : bool) : M (Obj bool) (option bool) :=
  if unblocked then trylock_until fuel f timeout clock i else mret (Some false).

Definition unlock : M (Obj bool) unit :=
  l ← gets data;
  zth_assert l;;
  set_data false;;
  unblockFirst plain 0;; mret tt.

End Operations.

(** *** The system *)

(** [Waiting]: blocked, or on its way back to the head of the loop. *)
Inductive Pc := Idle | Waiting | Owner.

#[export] Instance Pc_eq_dec : EqDecision Pc.
Proof. solve_decision. Defined.

Abbreviation System := (Sys bool Pc unit).

Inductive label :=
| Lock (f : addr) | Retry (f : addr) | Trylock (f : addr) | Timeout (f : addr) | Unlock (f : addr).

Definition enabled (l : label) (s : System) : bool :=
  match l with
  | Lock f | Trylock f => bool_decide (pcs s f = Idle)
  | Retry f => bool_decide (pcs s f = Waiting) && bool_decide (f ∉ queued s 0)
  | Timeout f => bool_decide (pcs s f = Waiting) && bool_decide (f ∈ queued s 0)
  | Unlock f => bool_decide (pcs s f = Owner)
  end.

Definition step `{Config} (l : label) : M System unit :=
  match l with
  | Lock f | Retry f => b ← with_obj (lock f); goto f (if b : bool then Owner else Waiting)
  | Trylock f => b ← with_obj trylock; goto f (if b : bool then Owner else Idle)
  | Timeout f => with_obj (unblock f 0);; goto f Idle
  | Unlock f => with_obj unlock;; goto f Idle
  end.

Definition init : System := mkSys (mkObj [[]] [] false) (λ _, Idle) tt.

(** Who is in the queue waits; the mutex is locked when a fiber owns it, and
    then there is one such fiber; and while it is free, one that waits is on its
    way. *)
Record good (ql : list addr) (d : bool) (p : addr → Pc) : Prop := {
  good_nodup : NoDup ql;
  good_waiting f : f ∈ ql → p f = Waiting;
  good_locked : d = true ↔ ∃ f, p f = Owner;
  good_owner f g : p f = Owner → p g = Owner → f = g;
  good_wakeup : d = false → ql ≠ [] → ∃ f, p f = Waiting ∧ f ∉ ql
}.

Definition inv (s : System) : Prop := ∃ ql w d p, s = mkSys (mkObj [ql] w d) p tt ∧ good ql d p.

Lemma good_idle : good [] false (λ _, Idle).
Proof. constructor; try done; [constructor|by intros f Hf%elem_of_nil|]. split; [done|]. by intros []. Qed.

Lemma good_free ql p f : good ql false p → p f ≠ Owner.
Proof. intros G Hf. by assert (false = true) by (apply (good_locked _ _ _ G); eauto). Qed.

(** A fiber that does not own the mutex goes where it does not either. *)
Lemma good_move ql ql' d p f pc :
  good ql d p → p f ≠ Owner → pc ≠ Owner → NoDup ql' → (∀ g, g ∈ ql' → g = f ∧ pc = Waiting ∨ g ∈ ql ∧ g ≠ f) →
  (d = false → ql' ≠ [] → ∃ g, g ∉ ql' ∧ (g = f ∧ pc = Waiting ∨ g ≠ f ∧ p g = Waiting)) → good ql' d (<[f:=pc]> p).
Proof.
  intros [G1 G2 G3 G4 G5] Hf Hpc N Hq Hw. constructor; [done|..].
  - intros g Hg. destruct (Hq g Hg) as [[-> ->]|[Hg' Hne]]; fn_cases; auto; done.
  - rewrite G3. split; intros [g Hg]; exists g; fn_cases; congruence.
  - intros g h Hg Hh. fn_cases; try congruence. auto.
  - intros Hd Hne. destruct (Hw Hd Hne) as (g & Hg & [[-> ->]|[Hgf Hp]]); exists g || exists f; split; try done;
      fn_cases; done.
Qed.

(** A fiber gets the mutex. *)
Lemma good_lock ql p f : good ql false p → f ∉ ql → good ql true (<[f:=Owner]> p).
Proof.
  intros G Hf. pose proof (good_free ql p) as F. destruct G as [G1 G2 G3 G4 G5] eqn:EG. constructor; [done|..].
  - intros g Hg. fn_cases; auto; done.
  - split; [|done]. intros _. exists f. fn_cases; done.
  - intros g h Hg Hh. fn_cases; try done; try (by destruct (F g G)); by destruct (F h G).
  - done.
Qed.

(** A fiber gives it back; the first of the queue is on its way. *)
Lemma good_unlock ql p f :
  good ql true p → p f = Owner → good (tail ql) false (<[f:=Idle]> p).
Proof.
  intros [G1 G2 G3 G4 G5] Hf. assert (f ∉ ql) as Nf by (intros Hq%G2; congruence). constructor.
  - destruct ql; [done|]. by apply NoDup_cons in G1 as [_ ?].
  - intros g Hg. assert (g ∈ ql) by (destruct ql; simpl in *; auto with zth). fn_cases; [done|auto].
  - split; [done|]. intros [g Hg]. fn_cases; [done|]. by destruct (G4 f g Hf Hg).
  - intros g h Hg Hh. fn_cases; try done. by destruct (G4 f g Hf Hg).
  - intros _. destruct ql as [|e ql]; [done|]. intros _. exists e. apply NoDup_cons in G1 as [? _].
    split; [|done]. fn_cases; [set_solver|]. apply G2. auto with zth.
Qed.

Lemma inv_lock `{Config} f s :
  inv s → pcs s f ≠ Owner → f ∉ queued s 0 →
  ∃ s', (b ← with_obj (lock f); goto f (if b : bool then Owner else Waiting)) s = Ok (tt, s') ∧ inv s'.
Proof.
  intros (ql & w & d & p & -> & G) Hf Hq. unfold queued in *. simpl in *. destruct d.
  - eexists. split; [reflexivity|]. eexists (ql ++ [f]), w, _, _. split; [reflexivity|].
    apply (good_move ql); try done; [by apply NoDup_snoc, Hq; apply G|].
    intros g [Hg|Hg]%elem_of_app; [right; split; [done|by intros ->]|left; set_solver].
  - eexists. split; [reflexivity|]. eexists ql, w, _, _. split; [reflexivity|]. by apply good_lock.
Qed.

Lemma mutex_inv_step `{Config} l s : inv s → enabled l s = true → ∃ s', step l s = Ok (tt, s') ∧ inv s'.
Proof.
  intros I E. destruct l as [f|f|f|f|f]; simpl in E; rewrite ?andb_true_iff, ?bool_decide_eq_true in E.
  - apply inv_lock; [done|congruence|]. destruct I as (ql & w & d & p & -> & G). unfold queued. simpl in *.
    intros Hf%(good_waiting _ _ _ G). congruence.
  - destruct E as [E1 E2]. apply inv_lock; [done|congruence|done].
  - destruct I as (ql & w & d & p & -> & G). simpl in *. destruct d.
    + eexists. split; [reflexivity|]. eexists ql, w, _, _. split; [reflexivity|]. simpl.
      apply (good_move ql); try done; [congruence|apply G|]. intros g Hg. right. split; [done|].
      intros ->. apply (good_waiting _ _ _ G) in Hg. congruence.
    + eexists. split; [reflexivity|]. eexists ql, w, _, _. split; [reflexivity|]. apply good_lock; [done|].
      intros Hg%(good_waiting _ _ _ G). congruence.
  - destruct I as (ql & w & d & p & -> & G), E as [E1 E2]. unfold queued in *. simpl in *.
    erewrite bind_Ok by (apply with_obj_run, (take_out_run f 0 ql); done).
    eexists. split; [reflexivity|]. eexists (filter (λ g, g ≠ f) ql), w, _, _. split; [reflexivity|]. simpl.
    apply (good_move ql); try done; [congruence|by apply NoDup_filter, G|..].
    + intros g [Hg Hg']%list_elem_of_filter. by right.
    + intros Hd Hne. destruct (good_wakeup _ _ _ G Hd) as (g & Hg & Hq).
      { intros ->. done. }
      exists g. split; [rewrite list_elem_of_filter; tauto|]. right. split; [by intros ->|done].
  - destruct I as (ql & w & d & p & -> & G). simpl in *.
    assert (d = true) as -> by (apply (good_locked _ _ _ G); eauto).
    assert (with_obj unlock (mkSys (mkObj [ql] w true) p tt) = Ok (tt, mkSys (match ql with
      [] => mkObj [[]] w false | e :: ql => mkObj [ql] (w ++ [e]) false end) p tt)) as Q.
    { apply with_obj_run. unfold unlock. simpl. erewrite bind_Ok by reflexivity.
      erewrite bind_Ok by by apply zth_assert_true. erewrite bind_Ok by reflexivity. by destruct ql. }
    rewrite (bind_Ok _ _ _ _ _ Q).
    destruct ql as [|e ql]; (eexists; split; [reflexivity|]; eexists _, _, _, _; split; [reflexivity|]).
    + apply (good_unlock []); done.
    + apply (good_unlock (e :: ql)); done.
Qed.
Lemma mutex_init_inv : inv init.
Proof. eexists [], [], _, _. split; [reflexivity|apply good_idle]. Qed.
End Mutex.

(** ** Semaphore *)

Module Semaphore.

Record Sem := mkSem { m_count : Z; m_unblockAll : bool }.

Definition count_max : Z := 2 ^ 32 - 1.

Section Operations.
Context `{Config}.

Definition set_unblockAll (b : bool) : M (Obj Sem) unit := d ← gets data; set_data (mkSem (m_count d) b).
Definition set_count (n : Z) : M (Obj Sem) unit := d ← gets data; set_data (mkSem n (m_unblockAll d)).

(** [acquire], from the head of the loop; [false] when the fiber blocks. *)
Definition acquire (f : addr) (count : Z) : M (Obj Sem) bool :=
  d ← gets data;
  if (m_count d <? count)%Z then
    when (1 <? count)%Z (set_unblockAll true);; block f 0;; mret false
  else
    set_count (u32 (m_count d - count));;
    d ← gets data;
    when ((0 <? m_count d)%Z && negb (m_unblockAll d)) (unblockFirst plain 0;; mret tt);;
    mret true.

Definition release (count : Z) : M (Obj Sem) unit :=
  d ← gets data;
  let sum := u32 (m_count d + count) in
  zth_assert (m_count d <=? sum)%Z;;
  set_count (if (sum <? m_count d)%Z then count_max else sum);;
  d ← gets data;
  when (0 <? m_count d)%Z
    (if negb (m_unblockAll d) then unblockFirst plain 0;; mret tt
     else b ← unblockAll plain 0; when (negb b) (set_unblockAll false)).

Definition value : M (Obj Sem) Z := gets (λ o, m_count (data o)).
End Operations.

(** *** The system: a fiber waits for a number of units, or does not. *)

Inductive Pc := Idle | Waiting (count : Z).

#[export] Instance Pc_eq_dec : EqDecision Pc.
Proof. solve_decision. Defined.

(** The units released and acquired so far. *)
Abbreviation System := (Sys Sem Pc (Z * Z)).

Inductive label := Acquire (f : addr) (count : Z) | Retry (f : addr) | Release (count : Z).

Definition waiting_for (p : Pc) : Z := match p with Idle => 0 | Waiting n => n end.

Definition enabled (l : label) (s : System) : bool :=
  match l with
  | Acquire f n => bool_decide (pcs s f = Idle) && (0 <=? n)%Z && (n <=? count_max)%Z
  | Retry f => negb (bool_decide (pcs s f = Idle)) && bool_decide (f ∉ queued s 0)
  | Release n => (0 <=? n)%Z && (m_count (data (obj s)) + n <=? count_max)%Z
  end.

Definition try_acquire `{Config} (f : addr) (n : Z) : M System unit :=
  b ← with_obj (acquire f n);
  if b : bool then goto f Idle;; ghost_step (λ '(r, a), (r, a + n)%Z) else goto f (Waiting n).

Definition step `{Config} (l : label) : M System unit :=
  match l with
  | Acquire f n => try_acquire f n
  | Retry f => p ← gets pcs; try_acquire f (waiting_for (p f))
  | Release n => with_obj (release n);; ghost_step (λ '(r, a), (r + n, a)%Z)
  end.

Definition init (n : Z) : System := mkSys (mkObj [[]] [] (mkSem n false)) (λ _, Idle) (0, 0)%Z.

(** Nothing is lost or made up; who is in the queue waits. *)
Record good (n : Z) (s : System) : Prop := {
  sem_queue : ∃ ql w d, obj s = mkObj [ql] w d ∧ NoDup ql ∧ ∀ f, f ∈ ql → pcs s f ≠ Idle;
  sem_count : (0 ≤ m_count (data (obj s)) ≤ count_max)%Z;
  sem_sum : (m_count (data (obj s)) + snd (ghost s) = n + fst (ghost s))%Z;
  sem_units f : (0 ≤ waiting_for (pcs s f) ≤ count_max)%Z
}.

(** With requests for one unit only: no free unit while all that wait are
    blocked. *)
Record awake (s : System) : Prop := {
  sem_first : m_unblockAll (data (obj s)) = false;
  sem_unit f : pcs s f ≠ Idle → pcs s f = Waiting 1;
  sem_pending : (0 < m_count (data (obj s)))%Z → queued s 0 ≠ [] → ∃ f, pcs s f ≠ Idle ∧ f ∉ queued s 0
}.

Definition single (l : label) : Prop := match l with Acquire _ n => n = 1%Z | _ => True end.

(** What the pieces of [acquire] and [release] do, on the only queue. *)
Lemma acquire_run `{Config} f n ql w d :
  (0 ≤ n ≤ count_max)%Z → (0 ≤ m_count d ≤ count_max)%Z →
  acquire f n (mkObj [ql] w d) =
    Ok (if (m_count d <? n)%Z then (false, mkObj [ql ++ [f]] w (mkSem (m_count d) ((1 <? n)%Z || m_unblockAll d)))
        else
          let d' := mkSem (m_count d - n) (m_unblockAll d) in
          (true, match ql with
                 | e :: ql' => if (0 <? m_count d')%Z && negb (m_unblockAll d') then mkObj [ql'] (w ++ [e]) d'
                               else mkObj [ql] w d'
                 | [] => mkObj [ql] w d'
                 end)).
Proof.
  intros Hn Hd. unfold acquire, count_max in *. erewrite bind_Ok by reflexivity. simpl.
  destruct (Z.ltb_spec (m_count d) n) as [L|L].
  - destruct d, (1 <? n)%Z; reflexivity.
  - erewrite bind_Ok by reflexivity. erewrite bind_Ok by reflexivity. simpl. rewrite u32_small by lia.
    destruct ((0 <? m_count d - n)%Z && negb (m_unblockAll d)); simpl; [|by destruct ql].
    by destruct ql.
Qed.

Lemma sem_release_run `{Config} n ql w d :
  (0 ≤ n)%Z → (0 ≤ m_count d)%Z → (m_count d + n ≤ count_max)%Z →
  release n (mkObj [ql] w d) =
    Ok (tt, let d' := mkSem (m_count d + n) (m_unblockAll d) in
        if (0 <? m_count d')%Z then
          match ql with
          | [] => mkObj [[]] w (mkSem (m_count d + n) false)
          | e :: ql' => if m_unblockAll d then mkObj [[]] (w ++ ql) d' else mkObj [ql'] (w ++ [e]) d'
          end
        else mkObj [ql] w d').
Proof.
  intros Hn Hc Hd. unfold release, count_max in *. erewrite bind_Ok by reflexivity. simpl. rewrite u32_small by lia.
  erewrite bind_Ok by (apply zth_assert_true, Z.leb_le; lia).
  rewrite (proj2 (Z.ltb_ge _ _)) by lia. do 2 (erewrite bind_Ok by reflexivity). simpl.
  destruct (0 <? m_count d + n)%Z; simpl; [|done]. destruct (m_unblockAll d) eqn:U; simpl.
  - destruct ql as [|e ql]; [done|].
    erewrite bind_Ok by (rewrite (unblockAll_run plain 0 (e :: ql)) by done; reflexivity). simpl.
    by rewrite fold_left_plain.
  - destruct ql; simpl; [|done]. by destruct d; simpl in *; subst.
Qed.

(** More than the counter can hold. *)
Lemma release_overflow `{Config} n (o : Obj Sem) :
  (0 ≤ n ≤ count_max)%Z → (0 ≤ m_count (data o) ≤ count_max)%Z → (count_max < m_count (data o) + n)%Z → queues o = [[]] →
  if EnableAssert then release n o = Fault AssertFailed
  else release n o = Ok (tt, mkObj [[]] (woken o) (mkSem count_max false)).
Proof.
  intros Hn Hd L Eq. unfold count_max in *.
  assert (u32 (m_count (data o) + n) < m_count (data o))%Z as Lt.
  { unfold u32. replace (_ + n)%Z with (m_count (data o) + n - 2 ^ 32 + 1 * 2 ^ 32)%Z by lia.
    rewrite Z_mod_plus_full, Z.mod_small; lia. }
  unfold release. erewrite bind_Ok by reflexivity. simpl. destruct EnableAssert eqn:E.
  + erewrite bind_Fault; [done|]. apply zth_assert_false; [done|]. by apply Z.leb_gt.
  + erewrite bind_Ok by (apply zth_assert_guard; by rewrite E). rewrite (proj2 (Z.ltb_lt _ _)) by done.
    destruct o as [qs w d]. simpl in *. subst qs. by destruct d as [c []].
Qed.

(** [f] goes to place [pc], or the sequence of fibers in the queue to [ql']. *)
Lemma good_step n ql ql' w w' d d' p f pc r a r' a' :
  good n (mkSys (mkObj [ql] w d) p (r, a)) → NoDup ql' → (∀ g, g ∈ ql' → g = f ∧ pc ≠ Idle ∨ g ∈ ql ∧ g ≠ f) →
  (0 ≤ m_count d' ≤ count_max)%Z → (m_count d' + a' = n + r')%Z → (0 ≤ waiting_for pc ≤ count_max)%Z →
  good n (mkSys (mkObj [ql'] w' d') (<[f:=pc]> p) (r', a')).
Proof.
  intros [(ql0 & w0 & d0 & Eo & N & Q) C S U] N' Q' C' S' U'. simpl in *. injection Eo as <- <- <-.
  constructor; simpl; [|done|done|].
  - exists ql', w', d'. split; [done|]. split; [done|]. intros g Hg.
    destruct (Q' g Hg) as [[-> ?]|[Hg' Hne]]; fn_cases; auto.
  - intros g. fn_cases; [done|apply U].
Qed.

Lemma good_destruct n s :
  good n s → ∃ ql w d p r a, s = mkSys (mkObj [ql] w d) p (r, a) ∧ NoDup ql ∧ ∀ f, f ∈ ql → p f ≠ Idle.
Proof.
  destruct s as [o p [r a]]. intros [(ql & w & d & Eo & N & Q) _ _ _]. simpl in *. subst o.
  by exists ql, w, d, p, r, a.
Qed.

Lemma try_acquire_good `{Config} n s f k :
  good n s → f ∉ queued s 0 → (0 ≤ k ≤ count_max)%Z →
  ∃ s', try_acquire f k s = Ok (tt, s') ∧ good n s' ∧ (k = 1%Z → awake s → awake s').
Proof.
  intros G Hf Hk. destruct (good_destruct n s G) as (ql & w & d & p & r & a & -> & N & Q).
  unfold queued in Hf. simpl in Hf. pose proof (sem_count _ _ G) as C. pose proof (sem_sum _ _ G) as S. simpl in C, S.
  unfold try_acquire. pose proof (acquire_run f k ql w d Hk C) as R.
  destruct (Z.ltb_spec (m_count d) k) as [L|L].
  - rewrite (bind_Ok _ _ _ _ _ (with_obj_run (acquire f k) (mkSys (mkObj [ql] w d) p (r, a)) _ _ R)).
    eexists. split; [reflexivity|]. split.
    + apply (good_step n ql (ql ++ [f]) w w d _ p f (Waiting k) r a); try done; [by apply NoDup_snoc|].
      intros g [Hg|Hg]%elem_of_app; [right; split; [done|by intros ->]|left; set_solver].
    + intros -> [A1 A2 A3]. simpl in *. constructor; simpl; [by rewrite A1| |lia].
      intros g. fn_cases; [done|apply A2].
  - rewrite (bind_Ok _ _ _ _ _ (with_obj_run (acquire f k) (mkSys (mkObj [ql] w d) p (r, a)) _ _ R)).
    eexists. split; [reflexivity|]. unfold goto, ghost_step, modify. simpl.
    set (o := match ql with [] => _ | _ => _ end).
    assert (∃ ql' w', o = mkObj [ql'] w' (mkSem (m_count d - k) (m_unblockAll d)) ∧ ql' `suffix_of` ql ∧
      ((0 < m_count d - k)%Z → m_unblockAll d = false → ql' = tail ql)) as (ql' & w' & -> & Sf & Tl).
    { subst o. destruct ql as [|e ql]; [by exists [], w|]. simpl. destruct ((0 <? m_count d - k)%Z && _) eqn:B.
      - exists ql, (w ++ [e]). split; [done|]. split; [by exists [e]|done].
      - exists (e :: ql), w. split; [done|]. split; [done|]. intros P U. rewrite U, andb_true_r in B. lia. }
    assert (NoDup ql' ∧ ∀ g, g ∈ ql' → g ∈ ql) as [N' Sub].
    { destruct Sf as [k0 ->]. apply NoDup_app in N as (_ & _ & N). split; [done|]. auto with zth. }
    split.
    + apply (good_step n ql ql' w w' d _ p f Idle r a); try done; simpl; [|lia..].
      intros g Hg. right. split; [auto|]. intros ->. auto.
    + intros -> [A1 A2 A3]. simpl in *. constructor; simpl; [done| |].
      * intros g. fn_cases; [done|apply A2].
      * unfold queued. simpl. intros P Hne. rewrite (Tl P A1) in *. destruct ql as [|e rest]; [done|].
        simpl in *. apply NoDup_cons in N as [Ne N]. exists e. rewrite fn_lookup_insert_ne by set_solver.
        split; [apply Q; auto with zth|done].
Qed.
Lemma step_good `{Config} n l s :
  good n s → enabled l s = true →
  ∃ s', step l s = Ok (tt, s') ∧ good n s' ∧ (single l → awake s → awake s').
Proof.
  intros G E. destruct l as [f k|f|k]; simpl in E.
  - rewrite !andb_true_iff, bool_decide_eq_true, !Z.leb_le in E. destruct E as [[E1 E2] E3].
    destruct (try_acquire_good n s f k G) as (s' & Q & G' & A); [|lia|by exists s'].
    destruct (good_destruct n s G) as (ql & w & d & p & r & a & -> & N & Q). intros Hf%Q. done.
  - rewrite andb_true_iff, negb_true_iff, bool_decide_eq_false, bool_decide_eq_true in E. destruct E as [E1 E2].
    destruct (try_acquire_good n s f (waiting_for (pcs s f)) G E2) as (s' & Q & G' & A); [apply G|].
    exists s'. split; [exact Q|]. split; [done|]. intros _ A'. apply A; [|done]. by rewrite (sem_unit s A' f E1).
  - rewrite andb_true_iff, !Z.leb_le in E. destruct E as [E1 E2].
    pose proof (sem_count _ _ G) as C. pose proof (sem_sum _ _ G) as S. pose proof (sem_units _ _ G) as U.
    destruct (good_destruct n s G) as (ql & w & d & p & r & a & -> & N & Q). simpl in *.
    pose proof (sem_release_run k ql w d E1 (proj1 C) E2) as R. simpl in R.
    rewrite (bind_Ok _ _ _ _ _ (with_obj_run (release k) (mkSys (mkObj [ql] w d) p (r, a)) _ _ R)).
    eexists. split; [reflexivity|]. unfold ghost_step, modify. simpl.
    set (o := if (0 <? m_count d + k)%Z then _ else _).
    assert (∃ ql' w' b, o = mkObj [ql'] w' (mkSem (m_count d + k) b) ∧ NoDup ql' ∧ (∀ g, g ∈ ql' → g ∈ ql) ∧
      (m_unblockAll d = false → b = false ∧ ((0 < m_count d + k)%Z → ql' = tail ql))) as (ql' & w' & b & -> & N' & Sub & Tl).
    { subst o. destruct (Z.ltb_spec 0 (m_count d + k)) as [L|L].
      - destruct ql as [|e ql]; [by eexists [], w, false|]. apply NoDup_cons in N as [_ N].
        destruct (m_unblockAll d).
        + eexists [], _, true. split; [done|]. split; [constructor|]. split; [by intros g Hg%elem_of_nil|done].
        + eexists ql, _, false. split; [done|]. split; [done|]. split; [auto with zth|done].
      - eexists ql, w, _. split; [done|]. split; [done|]. split; [done|]. intros ->. split; [done|lia]. }
    split.
    + constructor; simpl; [|lia|lia|done]. exists ql', w', (mkSem (m_count d + k) b). split; [done|]. split; [done|]. auto.
    + intros _ [A1 A2 A3]. simpl in *. destruct (Tl A1) as [-> Tl']. constructor; simpl; [done|done|].
      unfold queued. simpl. intros P Hne. rewrite (Tl' P) in *. destruct ql as [|e ql]; [done|]. simpl in *.
      apply NoDup_cons in N as [Ne N]. exists e. split; [apply Q; auto with zth|done].
Qed.

Lemma init_good n : (0 ≤ n ≤ count_max)%Z → good n (init n) ∧ awake (init n).
Proof.
  intros Hn. split; constructor; simpl; try done.
  exists [], [], (mkSem n false). split; [done|]. split; [constructor|by intros f Hf%elem_of_nil].
Qed.

(** Fibers 1 and 2 wait for a unit, two are released and wake 1; fiber 3 asks for
    five before 1 runs; then 1 takes its unit. *)
Definition swallowed : list label := [Acquire 1 1; Acquire 2 1; Release 2; Acquire 3 5; Retry 1].

Definition swallowed_end : System :=
  mkSys (mkObj [[2; 3]%positive] [1%positive] (mkSem 1 true))
    (<[1%positive:=Idle]> (<[3%positive:=Waiting 5]> (<[2%positive:=Waiting 1]> (<[1%positive:=Waiting 1]> (λ _, Idle)))))
    (2, 1)%Z.

Lemma swallowed_run `{Config} :
  legalb enabled step swallowed (init 0) = true ∧ run step swallowed (init 0) = Ok (tt, swallowed_end).
Proof. destruct H as [[] ?]; by vm_compute. Qed.
End Semaphore.

(** ** Signal *)

Module Signal.
Section Operations.
Context `{Config}.

Inductive waits := Blocks | Yields.

(** [wait], up to where the fiber gives up the processor, and from there; the
    data is [m_signalled]. *)
Definition wait_enter (f : addr) : M (Obj Z) waits :=
  n ← gets data; if (n =? 0)%Z then block f 0;; mret Blocks else mret Yields.
Definition wait_exit : M (Obj Z) unit :=
  n ← gets data; when (0 <? n)%Z (set_data (n - 1))%Z.

(** [wait(timeout)]: [Some b] when it returns [b] at once. *)
Definition wait_until (f : addr) (timeout now : Timestamp) : M (Obj Z) (option bool) :=
  n ← gets data;
  if (n =? 0)%Z then
    if ts_le timeout now then wait_exit;; mret (Some true)
    else block f 0;; mret None
  else mret None.
(** ...and when it goes on: [rang] when the time was over. *)
Definition wait_until_exit (rang : bool) : M (Obj Z) bool :=
  if rang then mret false else wait_exit;; mret true.

Definition signal (queue queueEveryTime : bool) : M (Obj Z) unit :=
  r ← unblockFirst plain 0;
  n ← gets data;
  when (ptr_eqb r nullptr && queue && (0 <=? n)%Z)
    (when ((n =? 0)%Z || queueEveryTime) (set_data (s32 (n + 1)));;
     n ← gets data; zth_assert (0 <? n)%Z).

Definition signalAll (queue : bool) : M (Obj Z) unit :=
  unblockAll plain 0;; when queue (set_data (-1))%Z.

Definition reset : M (Obj Z) unit := set_data 0%Z.

Lemma signal_empty_run (w : list addr) (n : Z) (every : bool) :
  (n < 2 ^ 31 - 1)%Z → signal true every (mkObj [[]] w n) =
    Ok (tt, mkObj [[]] w (if (0 <=? n)%Z && ((n =? 0)%Z || every) then n + 1 else n)%Z).
Proof.
  intros L. unfold signal. erewrite bind_Ok by reflexivity. erewrite bind_Ok by reflexivity. simpl.
  destruct (Z.leb_spec 0 n) as [N|N]; simpl; [|done]. destruct ((n =? 0)%Z || every) eqn:B; simpl.
  - erewrite bind_Ok by reflexivity. erewrite bind_Ok by reflexivity. simpl. rewrite s32_small by lia.
    apply zth_assert_true, Z.ltb_lt. lia.
  - apply orb_false_iff in B as [B _]. apply Z.eqb_neq in B. erewrite bind_Ok by reflexivity.
    erewrite bind_Ok by reflexivity. apply zth_assert_true, Z.ltb_lt. simpl. lia.
Qed.
End Operations.
End Signal.

(** ** Optional *)

Record Optional {V : Type} := mkOpt { o_value : option V; o_exception : ptr }.
Arguments Optional : clear implicits.
Arguments mkOpt {V}.

Definition opt_valid {V} (o : Optional V) : bool :=
  match o_value o with Some _ => true | None => negb (ptr_eqb (o_exception o) nullptr) end.
Definition opt_reset {V} (o : Optional V) : Optional V := mkOpt None nullptr.
Definition opt_set {V} (v : V) (o : Optional V) : Optional V := mkOpt (Some v) nullptr.
Definition opt_set_exception {V} (e : addr) (o : Optional V) : Optional V := mkOpt None (Some e).

(** What reading it gives: the value, or the exception that is thrown again. *)
Inductive result (V : Type) := Value (v : V) | Rethrow (e : addr).
Arguments Value {V}.
Arguments Rethrow {V}.

Definition opt_value `{Config} {S V} (o : Optional V) : M S (result V) :=
  zth_assert (opt_valid o);;
  match o_exception o, o_value o with
  | Some e, _ => mret (Rethrow e)
  | None, Some v => mret (Value v)
  | None, None => fail NullDeref
  end.

(** [Optional<void>]: a new value does not drop the exception. *)
Record OptionalVoid := mkOptV { m_set : bool; v_exception : ptr }.
Definition optv_valid (o : OptionalVoid) : bool := m_set o || negb (ptr_eqb (v_exception o) nullptr).
Definition optv_reset (o : OptionalVoid) : OptionalVoid := mkOptV false nullptr.
Definition optv_set (o : OptionalVoid) : OptionalVoid := mkOptV true (v_exception o).
Definition optv_set_exception (e : addr) (o : OptionalVoid) : OptionalVoid := mkOptV (m_set o) (Some e).
Definition optv_value `{Config} {S} (o : OptionalVoid) : M S (result unit) :=
  zth_assert (optv_valid o);;
  match v_exception o with Some e => mret (Rethrow e) | None => mret (Value tt) end.

(** What a future or a mailbox is given: a value or an exception. *)
Definition opt_put {V} (r : result V) (o : Optional V) : Optional V :=
  match r with Value v => opt_set v o | Rethrow e => opt_set_exception e o end.

Lemma opt_put_valid {V} (r : result V) o : opt_valid (opt_put r o) = true.
Proof. by destruct r. Qed.

Lemma opt_put_value `{Config} {S V} (r : result V) o (s : S) : opt_value (opt_put r o) s = Ok (r, s).
Proof. unfold opt_value. erewrite bind_Ok by apply zth_assert_true, opt_put_valid. by destruct r. Qed.

(** ** Future *)

Module Future.
Section Future.
Context `{Config} {V : Type}.

(** [wait]; [false] when it blocks, after which it returns. *)
Definition wait (f : addr) : M (Obj (Optional V)) bool :=
  o ← gets data; if opt_valid o then mret true else block f 0;; mret false.

Definition set (r : result V) : M (Obj (Optional V)) unit :=
  o ← gets data;
  zth_assert (negb (opt_valid o));;
  set_data (opt_put r o);;
  unblockAll plain 0;; mret tt.

Definition valid : M (Obj (Optional V)) bool := o ← gets data; mret (opt_valid o).

Definition value : M (Obj (Optional V)) (result V) := o ← gets data; opt_value o.

(** *** The system: the fibers call [value()]; the results they got. *)
Abbreviation System := (Sys (Optional V) bool (list (addr * result V))).

Inductive label := Get (f : addr) | Return (f : addr) | Set_ (r : result V).

(** [pcs s f]: [f] is in [value()]. *)
Definition enabled (l : label) (s : System) : bool :=
  match l with
  | Get f => negb (pcs s f)
  | Return f => pcs s f && bool_decide (f ∉ queued s 0)
  | Set_ _ => negb (opt_valid (data (obj s)))
  end.

Definition got (f : addr) : M System unit :=
  r ← with_obj value; goto f false;; ghost_step (λ l, l ++ [(f, r)]).

Definition step (l : label) : M System unit :=
  match l with
  | Get f => b ← with_obj (wait f); if b : bool then got f else goto f true
  | Return f => got f
  | Set_ r => with_obj (set r)
  end.

Definition init : System := mkSys (mkObj [[]] [] (mkOpt None nullptr)) (λ _, false) [].

(** What is in the future, after it was set to [sr]. *)
Definition filled (sr : option (result V)) : Optional V :=
  match sr with None => mkOpt None nullptr | Some r => opt_put r (mkOpt None nullptr) end.

#[local] Arguments filled : simpl never.

(** Before the future is set, who is in [value()] is in the queue, and nobody got
    a result; afterwards the queue is empty and all results are what was set. *)
Definition inv (s : System) : Prop :=
  ∃ ql w sr p g, s = mkSys (mkObj [ql] w (filled sr)) p g ∧ NoDup ql ∧ (∀ f, f ∈ ql → p f = true) ∧
    match sr with
    | None => g = [] ∧ ∀ f, p f = true → f ∈ ql
    | Some r => ql = [] ∧ ∀ f r', (f, r') ∈ g → r' = r
    end.

Lemma filled_valid sr : opt_valid (filled sr) = bool_decide (is_Some sr).
Proof. by destruct sr as [[]|]. Qed.

Lemma value_run r (w : list addr) (ql : list addr) :
  value (mkObj [ql] w (filled (Some r))) = Ok (r, mkObj [ql] w (filled (Some r))).
Proof. unfold value. erewrite bind_Ok by reflexivity. apply opt_put_value. Qed.

Lemma set_run r (ql w : list addr) :
  set r (mkObj [ql] w (filled None)) = Ok (tt, mkObj [[]] (w ++ ql) (filled (Some r))).
Proof.
  unfold set. erewrite bind_Ok by reflexivity. erewrite bind_Ok by by apply zth_assert_true.
  erewrite bind_Ok by reflexivity. destruct ql as [|e ql]; [by rewrite app_nil_r|].
  erewrite bind_Ok by (rewrite (unblockAll_run plain 0 (e :: ql)) by done; reflexivity).
  simpl. rewrite fold_left_plain. by destruct r.
Qed.

Lemma got_inv f r w p g :
  (∀ h r', (h, r') ∈ g → r' = r) →
  ∃ s', got f (mkSys (mkObj [[]] w (filled (Some r))) p g) = Ok (tt, s') ∧ inv s'.
Proof.
  intros Hg. unfold got.
  rewrite (bind_Ok _ _ _ _ _ (with_obj_run value (mkSys (mkObj [[]] w (filled (Some r))) p g) _ _ (value_run r w []))).
  eexists. split; [reflexivity|]. eexists [], w, (Some r), _, _. split; [reflexivity|]. split; [constructor|].
  split; [by intros h Hh%elem_of_nil|]. split; [done|].
  intros h r' [Hr|Hr]%elem_of_app; [by apply Hg in Hr|]. apply list_elem_of_singleton in Hr. by injection Hr.
Qed.

Lemma future_inv_step l s : inv s → enabled l s = true → ∃ s', step l s = Ok (tt, s') ∧ inv s'.
Proof.
  intros (ql & w & sr & p & g & -> & N & Q & I) E. destruct l as [f|f|r]; simpl in E.
  - apply negb_true_iff in E. destruct sr as [r|].
    + destruct I as [-> I]. destruct (got_inv f r w p g I) as (s' & R & I'). exists s'. split; [|done].
      simpl. assert (wait f (mkObj [[]] w (filled (Some r))) = Ok (true, mkObj [[]] w (filled (Some r)))) as R'.
      { unfold wait. erewrite bind_Ok by reflexivity. simpl. by rewrite filled_valid. }
      by rewrite (bind_Ok _ _ _ _ _ (with_obj_run (wait f) (mkSys (mkObj [[]] w (filled (Some r))) p g) _ _ R')).
    + destruct I as [-> I]. eexists. split; [reflexivity|]. eexists (ql ++ [f]), w, None, _, _. split; [reflexivity|].
      split; [apply NoDup_snoc; [done|]; intros Hf%Q; congruence|]. split; [|split; [done|]].
      * intros h [Hh|Hh]%elem_of_app; fn_cases; auto. set_solver.
      * intros h Hh. fn_cases; [auto with zth|]. apply elem_of_app. auto.
  - rewrite andb_true_iff, bool_decide_eq_true in E. destruct E as [Ep Eq]. unfold queued in Eq. simpl in *.
    destruct sr as [r|]; [|by destruct I as [_ I]; destruct (Eq (I f Ep))].
    destruct I as [-> I]. by apply got_inv.
  - simpl in E. rewrite negb_true_iff, filled_valid in E. apply bool_decide_eq_false in E.
    destruct sr as [|]; [by destruct E|]. destruct I as [-> I].
    simpl. rewrite (with_obj_run (set r) (mkSys (mkObj [ql] w (filled None)) p []) _ _ (set_run r ql w)).
    eexists. split; [reflexivity|]. eexists [], (w ++ ql), (Some r), _, _. split; [reflexivity|].
    split; [constructor|]. split; [by intros h Hh%elem_of_nil|]. split; [done|]. by intros h r' Hh%elem_of_nil.
Qed.

Lemma future_init_inv : inv init.
Proof. eexists [], [], None, _, []. split; [reflexivity|]. split; [constructor|]. split; [by intros f Hf%elem_of_nil|done]. Qed.
End Future.
End Future.

(** ** Properties *)

(** C29: the mutex is locked exactly while one fiber owns it, whatever the order in
    which the fibers lock, try, time out, retry and unlock; no step faults.  While
    it is free and fibers are in the queue, another fiber is on its way to take it,
    and it gets it when it runs. *)
Theorem mutex_exclusion `{Config} (ls : list Mutex.label) :
  legal Mutex.enabled Mutex.step ls Mutex.init →
  ∃ s : Mutex.System, run Mutex.step ls Mutex.init = Ok (tt, s) ∧
    (data (obj s) = true ↔ ∃ f, pcs s f = Mutex.Owner) ∧
    (∀ f g, pcs s f = Mutex.Owner → pcs s g = Mutex.Owner → f = g) ∧
    NoDup (queued s 0) ∧ (∀ f, f ∈ queued s 0 → pcs s f = Mutex.Waiting) ∧
    (data (obj s) = false → queued s 0 ≠ [] → ∃ f s', Mutex.enabled (Mutex.Retry f) s = true ∧
       Mutex.step (Mutex.Retry f) s = Ok (tt, s') ∧ pcs s' f = Mutex.Owner).
Proof.
  intros Lg. destruct (run_always _ _ Mutex.inv ls _ Mutex.mutex_inv_step Mutex.mutex_init_inv Lg) as (s & R & I).
  exists s. split; [done|]. destruct I as (ql & w & d & p & -> & [G1 G2 G3 G4 G5]). unfold queued. simpl.
  split_and!; [done..|]. intros -> Hne. destruct (G5 eq_refl Hne) as (f & Hf & Hq).
  exists f. eexists. split; [by rewrite !bool_decide_true|]. split; [reflexivity|]. simpl. apply fn_lookup_insert.
Qed.

(** C30: [trylock] with a time-out locks a free mutex, blocks on a locked one until
    the time-out, and gives up when the alarm went off.  But when the mutex is
    locked and the time-out has passed already, [blockUntil] answers at once and
    with [true], so the loop goes around for as long as the clock is past the
    time-out: the call does not return, and as it does not yield either, the owner
    never unlocks. *)
Theorem trylock_until_spec f timeout clock ql w :
  (∀ i fuel, Mutex.trylock_until (S fuel) f timeout clock i (mkObj [ql] w false) =
     Ok (Some true, mkObj [ql] w true)) ∧
  (∀ i fuel, ts_le timeout (clock i) = false →
     Mutex.trylock_until (S fuel) f timeout clock i (mkObj [ql] w true) = Ok (None, mkObj [ql ++ [f]] w true)) ∧
  (∀ i fuel o, Mutex.trylock_woken fuel f timeout clock i false o = Ok (Some false, o)) ∧
  (∀ i, (∀ j, i ≤ j → ts_le timeout (clock j) = true) →
     ∀ fuel, Mutex.trylock_until fuel f timeout clock i (mkObj [ql] w true) = Fault OutOfFuel).
Proof.
  split_and!; [done| |done|].
  - intros i fuel T. simpl. erewrite bind_Ok by reflexivity. simpl. by rewrite T.
  - intros i T fuel. revert i T. induction fuel as [|fuel IH]; intros i T; [done|]. simpl.
    erewrite bind_Ok by reflexivity. simpl. rewrite T by done. apply IH. intros j Hj. apply T. lia.
Qed.

(** C31: the units of a semaphore are conserved: in every run the count is within
    [unsigned int], and what was acquired and what is left is what there was and
    what was released.  When all requests are for one unit, no free unit is left
    while all waiting fibers are blocked.  With requests for more units this can
    happen: the waiter for five units swallows the wake-up of the one for one unit.
    A [release] beyond the maximum asserts, or saturates. *)
Theorem semaphore_conserves `{Config} :
  (∀ n ls, (0 ≤ n ≤ Semaphore.count_max)%Z → legal Semaphore.enabled Semaphore.step ls (Semaphore.init n) →
     ∃ s : Semaphore.System, run Semaphore.step ls (Semaphore.init n) = Ok (tt, s) ∧
       (Semaphore.m_count (data (obj s)) + snd (ghost s) = n + fst (ghost s))%Z ∧
       (0 ≤ Semaphore.m_count (data (obj s)) ≤ Semaphore.count_max)%Z ∧
       NoDup (queued s 0) ∧ (∀ f, f ∈ queued s 0 → pcs s f ≠ Semaphore.Idle) ∧
       (Forall Semaphore.single ls → (0 < Semaphore.m_count (data (obj s)))%Z → queued s 0 ≠ [] →
          ∃ f, pcs s f ≠ Semaphore.Idle ∧ f ∉ queued s 0)) ∧
  (legal Semaphore.enabled Semaphore.step Semaphore.swallowed (Semaphore.init 0) ∧
   ∃ s : Semaphore.System, run Semaphore.step Semaphore.swallowed (Semaphore.init 0) = Ok (tt, s) ∧
     Semaphore.m_count (data (obj s)) = 1%Z ∧ queued s 0 = [2; 3]%positive ∧
     pcs s 2%positive = Semaphore.Waiting 1 ∧ ∀ e, pcs s e ≠ Semaphore.Idle → e ∈ queued s 0) ∧
  (∀ n (o : Obj Semaphore.Sem), (0 ≤ n ≤ Semaphore.count_max)%Z →
     (0 ≤ Semaphore.m_count (data o) ≤ Semaphore.count_max)%Z →
     (Semaphore.count_max < Semaphore.m_count (data o) + n)%Z → queues o = [[]] →
     if EnableAssert then Semaphore.release n o = Fault AssertFailed
     else Semaphore.release n o = Ok (tt, mkObj [[]] (woken o) (Semaphore.mkSem Semaphore.count_max false))).
Proof.
  split; [|split].
  - intros n ls Hn Lg. destruct (Semaphore.init_good n Hn) as [G A].
    destruct (run_always Semaphore.enabled Semaphore.step (Semaphore.good n) ls (Semaphore.init n)) as (s & R & G').
    { intros l s Gs E. destruct (Semaphore.step_good n l s Gs E) as (s' & ? & ? & _). by exists s'. }
    { done. }
    { done. }
    exists s. split; [done|]. destruct G' as [(ql & w & d & Eo & N & Q) C S U].
    assert (queued s 0 = ql) as Eq by (unfold queued; by rewrite Eo). rewrite Eq.
    refine (conj S (conj C (conj N (conj Q _)))). intros Sg P Hne.
    destruct (run_invariant Semaphore.enabled Semaphore.step Semaphore.single
      (λ s, Semaphore.good n s ∧ Semaphore.awake s) ls (Semaphore.init n)) as (s2 & R2 & _ & A2); [|done..|].
    { intros l s2 Q2 [Gs As] E. destruct (Semaphore.step_good n l s2 Gs E) as (s' & ? & ? & ?). exists s'. auto. }
    pose proof (same_run _ _ _ _ _ _ R2 R) as ->.
    pose proof (Semaphore.sem_pending s A2) as Pd.
    rewrite Eq in Pd. exact (Pd P Hne).
  - destruct Semaphore.swallowed_run as [Lg R]. split; [by apply legalb_legal|].
    exists Semaphore.swallowed_end. split; [done|]. split_and!; [done..|].
    intros e. unfold queued, Semaphore.swallowed_end. simpl. fn_cases; first [done | auto with zth].
  - intros n o. apply Semaphore.release_overflow.
Qed.

(** C32: what a signal does.  [wait] blocks while nothing is signalled; [signal]
    wakes the first waiting fiber, or else remembers one signal, or each one when
    asked to; after [signalAll] nobody waits until [reset].  But a [wait] that goes
    on takes a remembered signal whether or not it was woken by one: a second signal
    that is given before the woken fiber runs is dropped, and one remembered signal
    lets several fibers pass that came before the first of them goes on.  [wait]
    with a time that has passed says it was signalled. *)
Theorem signal_spec `{Config} f g ql w n timeout now every :
  (Signal.wait_enter f (mkObj [ql] w n) =
     Ok (if (n =? 0)%Z then (Signal.Blocks, mkObj [ql ++ [f]] w n) else (Signal.Yields, mkObj [ql] w n))) ∧
  (Signal.wait_exit (mkObj [ql] w n) = Ok (tt, mkObj [ql] w (if (0 <? n)%Z then n - 1 else n)%Z)) ∧
  (Signal.signal true every (mkObj [f :: ql] w n) = Ok (tt, mkObj [ql] (w ++ [f]) n)) ∧
  ((n < 2 ^ 31 - 1)%Z → Signal.signal true every (mkObj [[]] w n) =
     Ok (tt, mkObj [[]] w (if (0 <=? n)%Z && ((n =? 0)%Z || every) then n + 1 else n)%Z)) ∧
  (∃ n', Signal.signalAll true (mkObj [ql] w n) = Ok (tt, mkObj [[]] (w ++ ql) n') ∧ n' = (-1)%Z ∧
     Signal.wait_enter g (mkObj [[]] (w ++ ql) n') = Ok (Signal.Yields, mkObj [[]] (w ++ ql) n') ∧
     Signal.wait_exit (mkObj [[]] (w ++ ql) n') = Ok (tt, mkObj [[]] (w ++ ql) n')) ∧
  ((Signal.signal true false;; Signal.signal true false;; Signal.wait_exit;; Signal.wait_enter g)
     (mkObj [[f]] w 0%Z) = Ok (Signal.Blocks, mkObj [[g]] (w ++ [f]) 0%Z)) ∧
  ((Signal.wait_enter f;; r ← Signal.wait_enter g; Signal.wait_exit;; Signal.wait_exit;; mret r)
     (mkObj [[]] w 1%Z) = Ok (Signal.Yields, mkObj [[]] w 0%Z)) ∧
  (ts_le timeout now = true → Signal.wait_until f timeout now (mkObj [ql] w 0%Z) = Ok (Some true, mkObj [ql] w 0%Z)).
Proof.
  split_and!.
  - unfold Signal.wait_enter. erewrite bind_Ok by reflexivity. simpl. by destruct (n =? 0)%Z.
  - unfold Signal.wait_exit. erewrite bind_Ok by reflexivity. simpl. by destruct (0 <? n)%Z.
  - done.
  - intros L. apply Signal.signal_empty_run, L.
  - exists (-1)%Z. split; [|done]. unfold Signal.signalAll. destruct ql as [|e ql]; [by rewrite app_nil_r|].
    erewrite bind_Ok by (rewrite (unblockAll_run plain 0 (e :: ql)) by done; reflexivity). simpl. done.
  - by destruct H as [[] ?].
  - done.
  - intros T. unfold Signal.wait_until. erewrite bind_Ok by reflexivity. simpl. by rewrite T.
Qed.

(** C33: a future is given one value (or exception), at most once, and everyone who
    asks for it gets that one: nobody returns before it is set, all that wait are
    made ready when it is, and setting it again asserts. *)
Theorem future_single_assignment `{Config} {V} (ls : list (Future.label (V := V))) :
  legal Future.enabled Future.step ls Future.init →
  ∃ s, run Future.step ls Future.init = Ok (tt, s) ∧
    (opt_valid (data (obj s)) = false → ghost s = [] ∧ ∀ f, pcs s f = true → f ∈ queued s 0) ∧
    (opt_valid (data (obj s)) = true →
       queued s 0 = [] ∧
       ∃ r, (∀ f r', (f, r') ∈ ghost s → r' = r) ∧
         (∀ f, Future.value (obj s) = Ok (r, obj s) ∧ Future.wait f (obj s) = Ok (true, obj s)) ∧
         (∀ r', EnableAssert = true → Future.set r' (obj s) = Fault AssertFailed)) ∧
    (∀ r, opt_valid (data (obj s)) = false → ∃ o, Future.set r (obj s) = Ok (tt, o) ∧
       woken o = woken (obj s) ++ queued s 0 ∧ queues o = [[]] ∧ Future.value o = Ok (r, o)).
Proof.
  intros Lg. destruct (run_always _ _ Future.inv ls _ Future.future_inv_step Future.future_init_inv Lg) as (s & R & I).
  exists s. split; [done|]. destruct I as (ql & w & sr & p & g & -> & N & Q & I). unfold queued. simpl.
  rewrite Future.filled_valid. split_and!.
  - intros ?%bool_decide_eq_false. destruct sr as [r|]; [by destruct H0|exact I].
  - intros V0. pose proof V0 as [r ->]%bool_decide_eq_true. destruct I as [-> I]. split; [done|].
    exists r. split_and!; [done| |].
    + intros f. split; [apply Future.value_run|]. unfold Future.wait. erewrite bind_Ok by reflexivity. by destruct r.
    + intros r' A. unfold Future.set. erewrite bind_Ok by reflexivity.
      erewrite bind_Fault; [done|]. apply zth_assert_false; [done|]. by destruct r.
  - intros r ?%bool_decide_eq_false. destruct sr as [|]; [by destruct H0|]. eexists. split; [apply Future.set_run|].
    split_and!; [done..|apply Future.value_run].
Qed.

(** *** Witnesses *)

Lemma mutex_exclusion_witness :
  ∃ s : Mutex.System,
    run (Mutex.step (H := debug_config)) [Mutex.Lock 1; Mutex.Lock 2; Mutex.Unlock 1; Mutex.Retry 2] Mutex.init = Ok (tt, s) ∧
    ∀ f g, pcs s f = Mutex.Owner → pcs s g = Mutex.Owner → f = g.
Proof.
  destruct (mutex_exclusion (H := debug_config) [Mutex.Lock 1; Mutex.Lock 2; Mutex.Unlock 1; Mutex.Retry 2])
    as (s & R & _ & U & _); [by apply legalb_legal; vm_compute|]. by exists s.
Defined.

Lemma trylock_until_spec_witness :
  Mutex.trylock_until 100 1 (mkTs 3 0) (λ _, mkTs 5 0) 0 (mkObj [[]] [] true) = Fault OutOfFuel.
Proof.
  destruct (trylock_until_spec 1 (mkTs 3 0) (λ _, mkTs 5 0) [] []) as (_ & _ & _ & L).
  apply (L 0). intros j _. by vm_compute.
Defined.

Lemma semaphore_conserves_witness :
  ∃ s : Semaphore.System,
    run (Semaphore.step (H := debug_config)) [Semaphore.Acquire 1 1; Semaphore.Release 2; Semaphore.Retry 1] (Semaphore.init 0) = Ok (tt, s) ∧
    (Semaphore.m_count (data (obj s)) + snd (ghost s) = 0 + fst (ghost s))%Z.
Proof.
  destruct (semaphore_conserves (H := debug_config)) as (C & _).
  destruct (C 0%Z [Semaphore.Acquire 1 1; Semaphore.Release 2; Semaphore.Retry 1]) as (s & R & E & _);
    [by vm_compute; split|by apply legalb_legal; vm_compute|]. by exists s.
Defined.

Lemma signal_spec_witness :
  Signal.wait_until 1 (mkTs 3 0) (mkTs 5 0) (mkObj [[]] [] 0%Z) = Ok (Some true, mkObj [[]] [] 0%Z).
Proof. apply (signal_spec (H := debug_config) 1 2 [] [] 0 (mkTs 3 0) (mkTs 5 0) true). by vm_compute. Defined.

Lemma future_single_assignment_witness :
  ∃ s,
    run (Future.step (H := debug_config)) [Future.Get 1; Future.Set_ (Value 7); Future.Return 1] Future.init = Ok (tt, s) ∧
    (opt_valid (data (obj s)) = false → ghost s = [] ∧ ∀ f, pcs s f = true → f ∈ queued s 0).
Proof.
  destruct (future_single_assignment (H := debug_config) (V := nat) [Future.Get 1; Future.Set_ (Value 7); Future.Return 1])
    as (s & R & E & _); [by apply legalb_legal; vm_compute|]. by exists s.
Defined.

