(* ===== verification/Mailbox.v ===== *)
(** * Mailbox and gate (libzth/sync.h)

    A mailbox holds one value; [put] waits until it is empty, [take] until it is
    full.  A gate is passed by a number of fibers at once.  Both are built on the
    synchronizer of Sync.v, in the same way. *)

From stdpp Require Import functions base gmap list.
From S2P Require Import Prelude Time Sync.

Set Default Proof Using "Type".

#[local] Arguments Future.filled : simpl never.

(** ** Mailbox *)

Module Mailbox.

Definition Queue_Put : nat := 0.
Definition Queue_Take : nat := 1.

(** [m_assigned] is the fiber that was woken to take a value. *)
Record Box {V : Type} := mkBox { m_value : Optional V; m_assigned : ptr }.
Arguments Box : clear implicits.
Arguments mkBox {V}.

Section Mailbox.
Context `{Config} {V : Type}.

Abbreviation O := (Obj (Box V)).

(** [wakeup(item, user, prio, q)]. *)
Definition on_wakeup (f : addr) (q : nat) (d : Box V) : Box V :=
  if (q =? Queue_Take)%nat then mkBox (m_value d) (Some f) else d.

Definition valid : M O bool := d ← gets data; mret (opt_valid (m_value d)).
Definition can_put : M O bool := v ← valid; mret (negb v).
Definition valid_for (assigned : addr) : M O bool :=
  d ← gets data; mret (opt_valid (m_value d) && (ptr_eqb (m_assigned d) nullptr || ptr_eqb (m_assigned d) (Some assigned))).
(** In fiber [f]. *)
Definition can_take (f : addr) : M O bool := valid_for f.

(** [wait] and [wait_empty], from the head of the loop; [false] when the fiber
    blocks. *)
Definition wait (f : addr) : M O bool :=
  v ← valid_for f; if v : bool then mret true else block f Queue_Take;; mret false.
Definition wait_empty (f : addr) : M O bool :=
  v ← valid; if v : bool then block f Queue_Put;; mret false else mret true.

Definition put_prepare (f : addr) : M O bool := wait_empty f.
Definition put_finalize : M O unit := unblockFirst on_wakeup Queue_Take;; mret tt.

(** [put] of a value or an exception; [false] when it blocks. *)
Definition put (f : addr) (r : result V) : M O bool :=
  b ← put_prepare f;
  if b : bool then
    d ← gets data;
    set_data (mkBox (opt_put r (m_value d)) (m_assigned d));;
    put_finalize;; mret true
  else mret false.

Definition take_prepare (assigned : addr) : M O bool := wait assigned.
Definition take_finalize : M O unit :=
  d ← gets data;
  set_data (mkBox (opt_reset (m_value d)) (m_assigned d));;
  unblockFirst on_wakeup Queue_Put;; mret tt.

(** [take]; [None] when it blocks. *)
Definition take (assigned : addr) : M O (option (result V)) :=
  b ← take_prepare assigned;
  if b : bool then
    d ← gets data;
    match o_exception (m_value d) with
    | Some e => take_finalize;; mret (Some (Rethrow e))
    | None => v ← opt_value (m_value d); take_finalize;; mret (Some v)
    end
  else mret None.

(** *** The system: what was put and what was taken so far *)

Inductive Pc := Idle | Putting (r : result V) | Taking.

Abbreviation System := (Sys (Box V) Pc (list (result V) * list (result V))).

Inductive label := Put (f : addr) (r : result V) | Take (f : addr) | Retry (f : addr).

Definition who (l : label) : addr := match l with Put f _ | Take f | Retry f => f end.
Definition is_idle (p : Pc) : bool := match p with Idle => true | _ => false end.

Definition enabled (l : label) (s : System) : bool :=
  match l with
  | Put f _ | Take f => is_idle (pcs s f)
  | Retry f => negb (is_idle (pcs s f)) && bool_decide (f ∉ queued s Queue_Put) && bool_decide (f ∉ queued s Queue_Take)
  end.

Definition try_put (f : addr) (r : result V) : M System unit :=
  b ← with_obj (put f r);
  if b : bool then goto f Idle;; ghost_step (λ '(ps, ts), (ps ++ [r], ts)) else goto f (Putting r).

Definition try_take (f : addr) : M System unit :=
  o ← with_obj (take f);
  match o with
  | Some r => goto f Idle;; ghost_step (λ '(ps, ts), (ps, ts ++ [r]))
  | None => goto f Taking
  end.

Definition step (l : label) : M System unit :=
  match l with
  | Put f r => try_put f r
  | Take f => try_take f
  | Retry f => p ← gets pcs; match p f with Idle => mret tt | Putting r => try_put f r | Taking => try_take f end
  end.

Definition init : System := mkSys (mkObj [[]; []] [] (mkBox (mkOpt None nullptr) nullptr)) (λ _, Idle) ([], []).

(** *** Runs of the operations *)

Definition may_take (f : addr) (a : ptr) : bool := ptr_eqb a nullptr || ptr_eqb a (Some f).

Lemma put_run f r q0 q1 w sr a :
  put f r (mkObj [q0; q1] w (mkBox (Future.filled sr) a)) =
    Ok (match sr, q1 with
        | Some _, _ => (false, mkObj [q0 ++ [f]; q1] w (mkBox (Future.filled sr) a))
        | None, [] => (true, mkObj [q0; []] w (mkBox (Future.filled (Some r)) a))
        | None, e :: q1 => (true, mkObj [q0; q1] (w ++ [e]) (mkBox (Future.filled (Some r)) (Some e)))
        end).
Proof. destruct sr as [[]|], q1, r; done. Qed.

Lemma take_run f q0 q1 w sr a :
  take f (mkObj [q0; q1] w (mkBox (Future.filled sr) a)) =
    Ok (match sr with
        | Some r =>
            if may_take f a then
              (Some r, match q0 with
                       | [] => mkObj [[]; q1] w (mkBox (Future.filled None) a)
                       | e :: q0 => mkObj [q0; q1] (w ++ [e]) (mkBox (Future.filled None) a)
                       end)
            else (None, mkObj [q0; q1 ++ [f]] w (mkBox (Future.filled sr) a))
        | None => (None, mkObj [q0; q1 ++ [f]] w (mkBox (Future.filled sr) a))
        end).
Proof.
  unfold take, take_prepare, wait. destruct sr as [r|]; [|done].
  assert (valid_for f (mkObj [q0; q1] w (mkBox (Future.filled (Some r)) a)) =
    Ok (may_take f a, mkObj [q0; q1] w (mkBox (Future.filled (Some r)) a))) as E by by destruct r.
  rewrite bind_assoc, (bind_Ok _ _ _ _ _ E). destruct (may_take f a); [|done]. simpl.
  erewrite bind_Ok by reflexivity. destruct r as [v|e].
  - erewrite bind_Ok by reflexivity. simpl. erewrite bind_Ok by apply (opt_put_value (Value v)). by destruct q0.
  - by destruct q0.
Qed.

(** *** What holds in every run *)

(** The values come out in the order in which they were put, at most one is
    inside; who is in a queue is in the call that waits there; and while the mailbox
    is empty, not all that want to put are blocked. *)
Record good (q0 q1 : list addr) (sr : option (result V)) (p : addr → Pc) (ps ts : list (result V)) : Prop := {
  box_fifo : ps = ts ++ option_list sr;
  box_nodup0 : NoDup q0;
  box_nodup1 : NoDup q1;
  box_put f : f ∈ q0 → ∃ r, p f = Putting r;
  box_take f : f ∈ q1 → p f = Taking;
  box_wakeup : sr = None → q0 ≠ [] → ∃ f r, p f = Putting r ∧ f ∉ q0
}.

Definition inv (s : System) : Prop := ∃ q0 q1 w sr a p ps ts,
  s = mkSys (mkObj [q0; q1] w (mkBox (Future.filled sr) a)) p (ps, ts) ∧ good q0 q1 sr p ps ts.

Lemma inv_put f r s :
  inv s → f ∉ queued s Queue_Put → f ∉ queued s Queue_Take → ∃ s', try_put f r s = Ok (tt, s') ∧ inv s'.
Proof.
  intros (q0 & q1 & w & sr & a & p & ps & ts & -> & [G1 G2 G3 G4 G5 G6]). unfold queued, Queue_Put, Queue_Take. simpl.
  intros N0 N1. unfold try_put.
  pose proof (put_run f r q0 q1 w sr a) as R. destruct sr as [r0|]; [|assert (ps = ts) as -> by (by rewrite G1, app_nil_r); destruct q1 as [|e q1]];
    rewrite (bind_Ok _ _ _ _ _ (with_obj_run (put f r) (mkSys _ p _) _ _ R)).
  - eexists. split; [reflexivity|]. eexists (q0 ++ [f]), q1, w, (Some r0), a, _, ps, ts. split; [reflexivity|]. simpl.
    constructor; [done|by apply NoDup_snoc|done|..|done].
    + intros g [Hg|Hg]%elem_of_app; fn_cases; eauto. set_solver.
    + intros g Hg. fn_cases; [done|auto].
  - eexists. split; [reflexivity|]. eexists q0, [], _, (Some r), _, _, _, _. split; [reflexivity|]. simpl.
    constructor; [done|done|done|intros g Hg; fn_cases; [done|auto]|by intros g Hg%elem_of_nil|done].
  - eexists. split; [reflexivity|]. eexists q0, q1, _, (Some r), _, _, _, _. split; [reflexivity|]. simpl.
    apply NoDup_cons in G3 as [_ ?].
    constructor; [done|done|done|intros g Hg; fn_cases; [done|auto]|intros g Hg; fn_cases|done].
    + by destruct N1; auto with zth.
    + apply G5. auto with zth.
Qed.

Lemma inv_take f s :
  inv s → f ∉ queued s Queue_Put → f ∉ queued s Queue_Take →
  (pcs s f = Idle ∨ pcs s f = Taking) → ∃ s', try_take f s = Ok (tt, s') ∧ inv s'.
Proof.
  intros (q0 & q1 & w & sr & a & p & ps & ts & -> & [G1 G2 G3 G4 G5 G6]). unfold queued, Queue_Put, Queue_Take. simpl.
  intros N0 N1 Hp. unfold try_take.
  assert (∀ g r, p g = Putting r → g ≠ f) as Hf by (intros g r Hg ->; destruct Hp; congruence).
  pose proof (take_run f q0 q1 w sr a) as R.
  assert (good q0 (q1 ++ [f]) sr (<[f:=Taking]> p) ps ts) as B.
  { constructor; [done|done|by apply NoDup_snoc|..].
    - intros g Hg. fn_cases; [done|auto].
    - intros g [Hg|Hg]%elem_of_app; fn_cases; auto. set_solver.
    - intros Hs Hne. destruct (G6 Hs Hne) as (g & r & Hg & Hq). exists g, r. split; [|done].
      rewrite fn_lookup_insert_ne; [done|]. intros ->. by eapply Hf. }
  destruct sr as [r|]; [destruct (may_take f a)|];
    rewrite (bind_Ok _ _ _ _ _ (with_obj_run (take f) (mkSys _ p (ps, ts)) _ _ R)).
  - destruct q0 as [|e q0]; (eexists; split; [reflexivity|]); eexists _, q1, _, None, a, _, _, _; (split; [reflexivity|]); simpl.
    all: constructor; [by rewrite app_nil_r| |done| |intros g Hg; fn_cases; [done|auto]|].
    + constructor.
    + by intros g Hg%elem_of_nil.
    + done.
    + by apply NoDup_cons in G2 as [_ ?].
    + intros g Hg. fn_cases; [set_solver|]. apply G4. auto with zth.
    + intros _ _. destruct (G4 e) as [r' E]; [auto with zth|]. exists e, r'. apply NoDup_cons in G2 as [? _].
      split; [|done]. rewrite fn_lookup_insert_ne; [done|]. intros ->. by eapply Hf.
  - eexists. split; [reflexivity|]. by eexists _, _, _, (Some r), _, _, _, _.
  - eexists. split; [reflexivity|]. by eexists _, _, _, None, _, _, _, _.
Qed.

Lemma idle_outside s f : inv s → pcs s f = Idle → f ∉ queued s Queue_Put ∧ f ∉ queued s Queue_Take.
Proof.
  intros (q0 & q1 & w & sr & a & p & ps & ts & -> & G) Hf. unfold queued. simpl in *.
  split; intros Hq; [destruct (box_put _ _ _ _ _ _ G f Hq) as [r E]|pose proof (box_take _ _ _ _ _ _ G f Hq) as E];
    by rewrite Hf in E.
Qed.

Lemma mailbox_inv_step l s : inv s → enabled l s = true → ∃ s', step l s = Ok (tt, s') ∧ inv s'.
Proof.
  intros I E. destruct l as [f r|f|f]; simpl in *.
  - destruct (idle_outside s f I) as [? ?]; [by destruct (pcs s f)|]. by apply inv_put.
  - assert (pcs s f = Idle) as Hf by by destruct (pcs s f).
    destruct (idle_outside s f I Hf) as [? ?]. apply inv_take; auto.
  - rewrite !andb_true_iff, !bool_decide_eq_true in E. destruct E as [[E N0] N1].
    erewrite bind_Ok by reflexivity. destruct (pcs s f) eqn:P; [done|by apply inv_put|]. apply inv_take; auto.
Qed.

Lemma mailbox_init_inv : inv init.
Proof.
  eexists [], [], [], None, nullptr, _, [], []. split; [reflexivity|]. constructor; try done; try constructor.
  all: by intros f Hf%elem_of_nil.
Qed.

(** *** A fiber that was woken and is gone *)

(** The value in the mailbox is reserved for [t]. *)
Definition reserved (t : addr) (r : result V) (ts : list (result V)) (s : System) : Prop := ∃ q0 q1 w p ps,
  s = mkSys (mkObj [q0; q1] w (mkBox (Future.filled (Some r)) (Some t))) p (ps, ts).

Lemma reserved_step t r ts l s :
  reserved t r ts s → who l ≠ t → ∃ s', step l s = Ok (tt, s') ∧ reserved t r ts s'.
Proof.
  intros (q0 & q1 & w & p & ps & ->) Hl.
  assert (∀ f, may_take f (Some t) = bool_decide (Some t = Some f)) as Hm by done.
  assert (∀ f r', ∃ s', try_put f r' (mkSys (mkObj [q0; q1] w (mkBox (Future.filled (Some r)) (Some t))) p (ps, ts)) =
    Ok (tt, s') ∧ reserved t r ts s') as Pt.
  { intros f r'. unfold try_put.
    rewrite (bind_Ok _ _ _ _ _ (with_obj_run (put f r') (mkSys _ p (ps, ts)) _ _ (put_run f r' q0 q1 w (Some r) (Some t)))).
    eexists. split; [reflexivity|]. by eexists _, _, _, _, _. }
  assert (∀ f, f ≠ t → ∃ s', try_take f (mkSys (mkObj [q0; q1] w (mkBox (Future.filled (Some r)) (Some t))) p (ps, ts)) =
    Ok (tt, s') ∧ reserved t r ts s') as Tk.
  { intros f Hf. unfold try_take.
    pose proof (take_run f q0 q1 w (Some r) (Some t)) as R. rewrite Hm, bool_decide_false in R by congruence.
    rewrite (bind_Ok _ _ _ _ _ (with_obj_run (take f) (mkSys _ p (ps, ts)) _ _ R)). eexists. split; [reflexivity|]. by eexists _, _, _, _, _. }
  destruct l as [f r'|f|f]; simpl in *; [apply Pt|by apply Tk|].
  erewrite bind_Ok by reflexivity. simpl. destruct (p f); [|apply Pt|by apply Tk].
  eexists. split; [reflexivity|]. by eexists _, _, _, _, _.
Qed.

(** Fiber 1 waits for a value, is woken and takes it; fiber 2 puts another one. *)
Definition stranding (v1 v2 : V) : list label := [Take 1; Put 2 (Value v1); Retry 1; Put 2 (Value v2)].

Definition stranded (v1 v2 : V) : System :=
  mkSys (mkObj [[]; []] [1%positive] (mkBox (mkOpt (Some v2) nullptr) (Some 1%positive)))
    (<[2%positive:=Idle]> (<[1%positive:=Idle]> (<[2%positive:=Idle]> (<[1%positive:=Taking]> (λ _, Idle)))))
    ([Value v1; Value v2], [Value v1]).

End Mailbox.

Lemma stranding_run `{Config} {V : Type} (v1 v2 : V) :
  legalb enabled step (stranding v1 v2) init = true ∧ run step (stranding v1 v2) init = Ok (tt, stranded v1 v2).
Proof. destruct H as [[] ?]; by vm_compute. Qed.
End Mailbox.

(** ** Gate *)

Module Gate.

Record Counts := mkCounts { m_count : Z; m_current : Z }.

Section Operations.
Context `{Config}.

Definition count : M (Obj Counts) Z := d ← gets data; mret (m_count d).
Definition current : M (Obj Counts) Z := d ← gets data; mret (m_current d).

Definition pass : M (Obj Counts) bool :=
  d ← gets data;
  let next := u64 (m_current d + 1) in
  if (m_count d <=? next)%Z then
    set_data (mkCounts (m_count d) (u64 (next - m_count d)));;
    unblockAll plain 0;; mret true
  else set_data (mkCounts (m_count d) next);; mret false.

(** [wait]: [false] when the fiber blocks, after which it returns. *)
Definition wait (f : addr) : M (Obj Counts) bool :=
  b ← pass; if b : bool then mret true else block f 0;; mret false.
End Operations.

(** *** The system: a fiber that waits came when the gate had been opened a
    number of times. *)

Inductive Pc := Outside | Waiting (opened : Z).

(** The number of times a fiber came, and of times the gate was opened. *)
Abbreviation System := (Sys Counts Pc (Z * Z)).

Inductive label := Pass | Wait (f : addr) | Return (f : addr).

Definition is_outside (p : Pc) : bool := match p with Outside => true | _ => false end.

Definition enabled (l : label) (s : System) : bool :=
  match l with
  | Pass => true
  | Wait f => is_outside (pcs s f)
  | Return f => negb (is_outside (pcs s f)) && bool_decide (f ∉ queued s 0)
  end.

Definition came (b : bool) : M System unit := ghost_step (λ '(a, n), (a + 1, if b then n + 1 else n)%Z).

Definition step `{Config} (l : label) : M System unit :=
  match l with
  | Pass => b ← with_obj pass; came b
  | Wait f => b ← with_obj (wait f); g ← gets ghost; goto f (if b : bool then Outside else Waiting (snd g));; came b
  | Return f => goto f Outside
  end.

Definition init (n : Z) : System := mkSys (mkObj [[]] [] (mkCounts n 0)) (λ _, Outside) (0, 0)%Z.

(** The gate was opened once for every [m_count] that came, and [m_current] came
    since.  In the queue are those that wait for the next time; the others that
    wait may go. *)
Record good (n : Z) (ql : list addr) (c : Z) (p : addr → Pc) (a o : Z) : Prop := {
  gate_current : (0 ≤ c < n)%Z;
  gate_came : (a = o * n + c)%Z;
  gate_queue : (Z.of_nat (length ql) ≤ c)%Z;
  gate_nodup : NoDup ql;
  gate_blocked f : f ∈ ql → p f = Waiting o;
  gate_free f g : p f = Waiting g → f ∉ ql → (g < o)%Z
}.

Definition inv (n : Z) (s : System) : Prop := ∃ ql w c p a o,
  s = mkSys (mkObj [ql] w (mkCounts n c)) p (a, o) ∧ good n ql c p a o.

Lemma pass_run `{Config} ql w n c :
  (0 ≤ c < n)%Z → (n < 2 ^ 64)%Z →
  pass (mkObj [ql] w (mkCounts n c)) =
    Ok (bool_decide (c + 1 = n)%Z,
        if bool_decide (c + 1 = n)%Z then mkObj [[]] (w ++ ql) (mkCounts n 0) else mkObj [ql] w (mkCounts n (c + 1))).
Proof.
  intros Hc Hn. unfold pass. erewrite bind_Ok by reflexivity. simpl. rewrite u64_small by lia.
  destruct (Z.leb_spec n (c + 1)).
  - rewrite bool_decide_true by lia. erewrite bind_Ok by reflexivity. rewrite u64_small by lia.
    replace (c + 1 - n)%Z with 0%Z by lia. destruct ql as [|e ql]; [by rewrite app_nil_r|].
    erewrite bind_Ok by (rewrite (unblockAll_run plain 0 (e :: ql)) by done; reflexivity). simpl.
    by rewrite fold_left_plain.
  - by rewrite bool_decide_false by lia.
Qed.

Lemma pass_open `{Config} ql w c :
  pass (mkObj [ql] w (mkCounts 0 c)) = Ok (true, mkObj [[]] (w ++ ql) (mkCounts 0 (u64 (u64 (c + 1) - 0)))).
Proof.
  unfold pass. erewrite bind_Ok by reflexivity. simpl. rewrite (proj2 (Z.leb_le _ _)) by (unfold u64; by apply Z.mod_pos_bound).
  erewrite bind_Ok by reflexivity. destruct ql as [|e ql]; [by rewrite app_nil_r|].
  erewrite bind_Ok by (rewrite (unblockAll_run plain 0 (e :: ql)) by done; reflexivity). simpl.
  by rewrite fold_left_plain.
Qed.

Lemma gate_inv_step `{Config} n l s : (n < 2 ^ 64)%Z → inv n s → enabled l s = true → ∃ s', step l s = Ok (tt, s') ∧ inv n s'.
Proof.
  intros Hn (ql & w & c & p & a & o & -> & [G1 G2 G3 G4 G5 G6]) E. pose proof (pass_run ql w n c G1 Hn) as R.
  destruct l as [|f|f]; simpl in E.
  - simpl. rewrite (bind_Ok _ _ _ _ _ (with_obj_run pass (mkSys _ p (a, o)) _ _ R)).
    eexists. split; [reflexivity|]. case_bool_decide.
    + eexists [], _, _, p, _, _. split; [reflexivity|]. constructor; simpl; [lia|lia|lia|constructor|by intros f Hf%elem_of_nil|].
      intros f g Hf _. destruct (decide (f ∈ ql)) as [Hq|Hq]; [apply G5 in Hq|by pose proof (G6 f g Hf Hq); lia].
      assert (g = o) by congruence. lia.
    + eexists ql, _, _, p, _, _. split; [reflexivity|]. constructor; simpl; [lia|lia|lia|done|done|done].
  - assert (p f = Outside) as Hf by by destruct (p f).
    assert (f ∉ ql) as Nf by (intros Hq%G5; congruence).
    assert (wait f (mkObj [ql] w (mkCounts n c)) = Ok (bool_decide (c + 1 = n)%Z,
      if bool_decide (c + 1 = n)%Z then mkObj [[]] (w ++ ql) (mkCounts n 0) else mkObj [ql ++ [f]] w (mkCounts n (c + 1)))) as Rw.
    { unfold wait. rewrite (bind_Ok _ _ _ _ _ R). by case_bool_decide. }
    simpl. rewrite (bind_Ok _ _ _ _ _ (with_obj_run (wait f) (mkSys _ p (a, o)) _ _ Rw)).
    eexists. split; [reflexivity|]. clear R Rw. case_bool_decide.
    + eexists [], _, _, _, _, _. split; [reflexivity|].
      constructor; simpl; [lia|lia|lia|constructor|by intros g Hg%elem_of_nil|].
      intros h g Hh _. fn_cases; [done|]. destruct (decide (h ∈ ql)) as [Hq|Hq]; [apply G5 in Hq|by pose proof (G6 h g Hh Hq); lia].
      assert (g = o) by congruence. lia.
    + eexists (ql ++ [f]), _, _, _, _, _. split; [reflexivity|].
      constructor; simpl; [lia|lia|rewrite length_app; simpl; lia|by apply NoDup_snoc|..].
      * intros h [Hh|Hh]%elem_of_app; fn_cases; auto. set_solver.
      * intros h g Hh Hq. fn_cases; [set_solver|]. apply (G6 h g Hh). set_solver.
  - rewrite andb_true_iff, bool_decide_eq_true in E. destruct E as [E Eq]. unfold queued in Eq. simpl in *.
    eexists. split; [reflexivity|]. eexists ql, _, _, _, _, _. split; [reflexivity|].
    constructor; simpl; [done..| |].
    + intros h Hh. fn_cases; [done|auto].
    + intros h g Hh Hq. fn_cases; [done|eauto].
Qed.

Lemma gate_init_inv n : (0 < n)%Z → inv n (init n).
Proof.
  intros Hn. eexists [], [], 0%Z, _, 0%Z, 0%Z. split; [reflexivity|]. constructor; simpl; try lia; try done; [constructor|].
  by intros f Hf%elem_of_nil.
Qed.
End Gate.

(** ** Properties *)

(** C34: what is taken from a mailbox is what was put, in that order, with at most
    one value inside, however the calls interleave; no step faults, and while the
    mailbox is empty and fibers wait to put, one of them is on its way.  But the
    reservation of the value for the fiber that was woken to take it is never given
    up: when that fiber took its value and does not come back, a value that is put
    next stays there for good, whatever the other fibers do. *)
Theorem mailbox_fifo `{Config} {V : Type} :
  (∀ ls : list (Mailbox.label (V := V)), legal Mailbox.enabled Mailbox.step ls Mailbox.init →
     ∃ s c, run Mailbox.step ls Mailbox.init = Ok (tt, s) ∧
       Mailbox.m_value (data (obj s)) = Future.filled c ∧ fst (ghost s) = snd (ghost s) ++ option_list c ∧
       Mailbox.can_put (obj s) = Ok (bool_decide (c = None), obj s) ∧
       (∀ f, f ∈ queued s Mailbox.Queue_Put → ∃ r, pcs s f = Mailbox.Putting r) ∧
       (∀ f, f ∈ queued s Mailbox.Queue_Take → pcs s f = Mailbox.Taking) ∧
       (c = None → queued s Mailbox.Queue_Put ≠ [] →
          ∃ f r, pcs s f = Mailbox.Putting r ∧ f ∉ queued s Mailbox.Queue_Put) ∧
       (∀ f r, c = Some r → Mailbox.can_take f (obj s) = Ok (true, obj s) →
          ∃ o, Mailbox.take f (obj s) = Ok (Some r, o) ∧ Mailbox.can_put o = Ok (true, o))) ∧
  (∀ v1 v2 : V, ∃ s0, 
     legal Mailbox.enabled Mailbox.step (Mailbox.stranding v1 v2) Mailbox.init ∧
     run Mailbox.step (Mailbox.stranding v1 v2) Mailbox.init = Ok (tt, s0) ∧
     pcs s0 1%positive = Mailbox.Idle ∧
     ∀ ls, Forall (λ l, Mailbox.who l ≠ 1%positive) ls → legal Mailbox.enabled Mailbox.step ls s0 →
       ∃ s, run Mailbox.step ls s0 = Ok (tt, s) ∧ snd (ghost s) = [Value v1] ∧
         Mailbox.m_value (data (obj s)) = Future.filled (Some (Value v2))).
Proof.
  split.
  - intros ls Lg. destruct (run_always _ _ Mailbox.inv ls _ Mailbox.mailbox_inv_step Mailbox.mailbox_init_inv Lg) as (s & R & I).
    destruct I as (q0 & q1 & w & sr & a & p & ps & ts & -> & [G1 G2 G3 G4 G5 G6]).
    eexists _, sr. split; [exact R|]. unfold queued. simpl. split_and!; [done|done| |done..|].
    + by destruct sr as [[]|].
    + intros f r -> Ht. pose proof (Mailbox.take_run f q0 q1 w (Some r) a) as T.
      assert (Mailbox.may_take f a = true) as Hm by (destruct r; injection Ht; done).
      rewrite Hm in T. eexists. split; [exact T|]. by destruct q0.
  - intros v1 v2. destruct (Mailbox.stranding_run v1 v2) as (Lg & R). exists (Mailbox.stranded v1 v2).
    split; [by apply legalb_legal|]. split; [done|]. split; [done|]. intros ls F L.
    destruct (run_invariant Mailbox.enabled Mailbox.step (λ l, Mailbox.who l ≠ 1%positive)
      (Mailbox.reserved 1 (Value v2) [Value v1]) ls (Mailbox.stranded v1 v2)) as (s & Rs & I); [|by eexists _, _, _, _, _|done..|].
    { intros l s Hl I _. by apply Mailbox.reserved_step. }
    exists s. split; [done|]. by destruct I as (? & ? & ? & ? & ? & ->).
Qed.

(** C35: a gate for [n] fibers opens once for every [n] that come, whether they
    pass or wait, and counts the others.  Nobody that waits goes on before the gate
    opened after it came; when it opens, all that wait may go.  A gate for no
    fibers is open. *)
Theorem gate_opens `{Config} :
  (∀ n ls, (0 < n < 2 ^ 64)%Z → legal Gate.enabled Gate.step ls (Gate.init n) →
     ∃ s : Gate.System, run Gate.step ls (Gate.init n) = Ok (tt, s) ∧
       let '(came, opened) := ghost s in
       opened = (came / n)%Z ∧ Gate.current (obj s) = Ok ((came `mod` n)%Z, obj s) ∧
       NoDup (queued s 0) ∧ (Z.of_nat (length (queued s 0)) ≤ came `mod` n)%Z ∧
       (∀ f, f ∈ queued s 0 → pcs s f = Gate.Waiting opened) ∧
       (∀ f g, pcs s f = Gate.Waiting g → (Gate.enabled (Gate.Return f) s = true ↔ (g < opened)%Z))) ∧
  (∀ f ql w c, ∃ o, Gate.wait f (mkObj [ql] w (Gate.mkCounts 0 c)) = Ok (true, o) ∧ woken o = w ++ ql).
Proof.
  split.
  - intros n ls Hn Lg.
    destruct (run_always Gate.enabled Gate.step (Gate.inv n) ls (Gate.init n)) as (s & R & I); [|apply Gate.gate_init_inv, Hn|done|].
    { intros l s I E. apply Gate.gate_inv_step; [lia|done|done]. }
    exists s. split; [done|]. destruct I as (ql & w & c & p & a & o & -> & [G1 G2 G3 G4 G5 G6]). unfold queued. simpl.
    assert (c = a `mod` n)%Z as -> by (apply (Z.mod_unique_pos _ _ o); lia).
    split_and!; [apply (Z.div_unique_pos _ _ _ (a `mod` n)%Z); lia|done..|].
    intros f g Hf. rewrite Hf. simpl. rewrite bool_decide_eq_true. split; [by apply G6|]. intros Hg Hq%G5.
    assert (g = o) by congruence. lia.
  - intros f ql w c. unfold Gate.wait. rewrite (bind_Ok _ _ _ _ _ (Gate.pass_open ql w c)). by eexists.
Qed.

(** *** Witnesses *)

Lemma mailbox_fifo_witness :
  ∃ s c, run (Mailbox.step (H := debug_config)) [Mailbox.Put 1 (Value 5); Mailbox.Take 2] Mailbox.init = Ok (tt, s) ∧
    Mailbox.m_value (data (obj s)) = Future.filled (V := nat) c ∧ fst (ghost s) = snd (ghost s) ++ option_list c.
Proof.
  destruct (mailbox_fifo (H := debug_config) (V := nat)) as (F & _).
  destruct (F [Mailbox.Put 1 (Value 5); Mailbox.Take 2]) as (s & c & R & Q1 & Q2 & _); [by apply legalb_legal; vm_compute|].
  by exists s, c.
Defined.

Lemma gate_opens_witness :
  ∃ s : Gate.System, run (Gate.step (H := debug_config)) [Gate.Wait 1; Gate.Wait 2; Gate.Return 1] (Gate.init 2) = Ok (tt, s) ∧
    NoDup (queued s 0).
Proof.
  destruct (gate_opens (H := debug_config)) as (G & _).
  destruct (G 2%Z [Gate.Wait 1; Gate.Wait 2; Gate.Return 1]) as (s & R & Q); [by vm_compute|by apply legalb_legal; vm_compute|].
  exists s. split; [done|]. destruct (ghost s). apply Q.
Defined.

