(* ===== verification/CApi.v ===== *)
(** * The C interface of the synchronization primitives (libzth/sync.h)

    A C handle is a structure with a pointer [p] to an object that [_init] makes and
    [_destroy] deletes; the functions check the handle, call the object, and turn
    the answer into an error code. *)

From stdpp Require Import base gmap list.
From S2P Require Import Prelude Time Fiber Sync Mailbox.

Set Default Proof Using "Type".

(** The other error numbers of errno.h. *)
Definition EBUSY : Z := 16.
Definition EDOM : Z := 33.
Definition EOVERFLOW : Z := 75.

(** [None]: the pointer to the handle is null; [Some None]: its [p] is. *)
Definition handle (D : Type) : Type := option (option (Obj D)).

(** How [new] ends. *)
Inductive alloc := Allocated | BadAlloc | OtherException.

(** A call returns a code and what it stores through its second pointer, or the
    fiber gives up the processor in it. *)
Inductive c_result := Returns (code : Z) (out : option Z) | Blocks.

Definition ret (code : Z) : c_result := Returns code None.

(** ** The common parts *)

Section Common.
Context `{Config} {D : Type}.

Definition c_new (o : Obj D) (a : alloc) : M (handle D) c_result :=
  match a with
  | Allocated => put (Some (Some o));; mret (ret 0)
  | BadAlloc => mret (ret ENOMEM)
  | OtherException => mret (ret EAGAIN)
  end.

Definition c_init (o : Obj D) (a : alloc) : M (handle D) c_result :=
  h ← get;
  match h with Some None => c_new o a | _ => mret (ret EINVAL) end.

(** The destructor of the synchronizer checks that nobody waits. *)
Definition c_destroy : M (handle D) c_result :=
  h ← get;
  match h with
  | None => mret (ret EINVAL)
  | Some None => mret (ret 0)
  | Some (Some o) => zth_assert (forallb (λ l, bool_decide (l = [])) (queues o));; put (Some None);; mret (ret 0)
  end.

Definition c_call (m : M (Obj D) c_result) : M (handle D) c_result := λ h,
  match h with
  | Some (Some o) => match m o with Ok (r, o) => Ok (r, Some (Some o)) | Fault e => Fault e end
  | _ => Ok (ret EINVAL, h)
  end.

(** With a pointer for the result, which is not null. *)
Definition c_call_out (value : bool) (m : M (Obj D) c_result) : M (handle D) c_result :=
  if value then c_call m else mret (ret EINVAL).
End Common.

(** The functions exist in a fiber [f]; one that blocked goes on with the same
    piece as the C++ function: from the head of its loop, or with the
    [_resume] given here. *)
Section Functions.
Context `{Config}.

(** *** zth_mutex_t *)

Definition zth_mutex_init : alloc → M (handle bool) c_result := c_init (mkObj [[]] [] false).
Definition zth_mutex_destroy : M (handle bool) c_result := c_destroy.
Definition zth_mutex_lock (f : addr) : M (handle bool) c_result :=
  c_call (b ← Mutex.lock f; mret (if b : bool then ret 0 else Blocks)).
Definition zth_mutex_trylock : M (handle bool) c_result :=
  c_call (b ← Mutex.trylock; mret (ret (if b : bool then 0 else EBUSY)%Z)).
Definition zth_mutex_unlock : M (handle bool) c_result := c_call (Mutex.unlock;; mret (ret 0)).

(** *** zth_sem_t *)

Definition size_max : Z := 2 ^ 64 - 1.

Definition zth_sem_init (value : Z) (a : alloc) : M (handle Semaphore.Sem) c_result :=
  h ← get;
  match h with
  | Some None =>
      if (Semaphore.count_max <? value)%Z then mret (ret EDOM)
      else c_new (mkObj [[]] [] (Semaphore.mkSem (u32 value) false)) a
  | _ => mret (ret EINVAL)
  end.
Definition zth_sem_destroy : M (handle Semaphore.Sem) c_result := c_destroy.
Definition zth_sem_getvalue (value : bool) : M (handle Semaphore.Sem) c_result :=
  c_call_out value (n ← Semaphore.value; mret (Returns 0 (Some n))).
Definition zth_sem_post : M (handle Semaphore.Sem) c_result :=
  c_call (n ← Semaphore.value;
          if (n =? size_max)%Z then mret (ret EOVERFLOW) else Semaphore.release 1;; mret (ret 0)).
Definition zth_sem_wait (f : addr) : M (handle Semaphore.Sem) c_result :=
  c_call (b ← Semaphore.acquire f 1; mret (if b : bool then ret 0 else Blocks)).
Definition zth_sem_trywait (f : addr) : M (handle Semaphore.Sem) c_result :=
  c_call (n ← Semaphore.value;
          if (n =? 0)%Z then mret (ret EAGAIN)
          else b ← Semaphore.acquire f 1; mret (if b : bool then ret 0 else Blocks)).

(** *** zth_cond_t *)

Definition zth_cond_init : alloc → M (handle Z) c_result := c_init (mkObj [[]] [] 0%Z).
Definition zth_cond_destroy : M (handle Z) c_result := c_destroy.
Definition zth_cond_signal : M (handle Z) c_result := c_call (Signal.signal true false;; mret (ret 0)).
Definition zth_cond_broadcast : M (handle Z) c_result := c_call (Signal.signalAll false;; mret (ret 0)).
Definition zth_cond_wait (f : addr) : M (handle Z) c_result := c_call (Signal.wait_enter f;; mret Blocks).
Definition zth_cond_wait_resume : M (handle Z) c_result := c_call (Signal.wait_exit;; mret (ret 0)).

(** *** zth_future_t; [uintptr_t] values *)

Definition zth_future_init : alloc → M (handle (Optional Z)) c_result := c_init (mkObj [[]] [] (mkOpt None nullptr)).
Definition zth_future_destroy : M (handle (Optional Z)) c_result := c_destroy.
Definition zth_future_valid : M (handle (Optional Z)) c_result :=
  c_call (v ← Future.valid; mret (ret (if v : bool then 0 else EAGAIN)%Z)).
Definition zth_future_set (value : Z) : M (handle (Optional Z)) c_result :=
  c_call (v ← Future.valid;
          if v : bool then mret (ret EAGAIN) else Future.set (Value value);; mret (ret 0)).

(** The functions are [noexcept]: an exception ends the program. *)
Definition deliver {D} (r : result Z) : M (Obj D) c_result :=
  match r with Value v => mret (Returns 0 (Some v)) | Rethrow _ => fail Aborted end.

Definition zth_future_get (f : addr) (value : bool) : M (handle (Optional Z)) c_result :=
  c_call_out value (b ← Future.wait f; if b : bool then r ← Future.value; deliver r else mret Blocks).
Definition zth_future_get_resume : M (handle (Optional Z)) c_result := c_call (r ← Future.value; deliver r).
Definition zth_future_wait (f : addr) : M (handle (Optional Z)) c_result :=
  c_call (b ← Future.wait f; mret (if b : bool then ret 0 else Blocks)).

(** *** zth_gate_t *)

Definition zth_gate_init (count : Z) : alloc → M (handle Gate.Counts) c_result := c_init (mkObj [[]] [] (Gate.mkCounts count 0)).
Definition zth_gate_destroy : M (handle Gate.Counts) c_result := c_destroy.
Definition zth_gate_pass : M (handle Gate.Counts) c_result :=
  c_call (b ← Gate.pass; mret (ret (if b : bool then 0 else EBUSY)%Z)).
Definition zth_gate_wait (f : addr) : M (handle Gate.Counts) c_result :=
  c_call (b ← Gate.wait f; mret (if b : bool then ret 0 else Blocks)).

(** *** zth_mailbox_t; [uintptr_t] values *)

Definition zth_mailbox_init : alloc → M (handle (Mailbox.Box Z)) c_result :=
  c_init (mkObj [[]; []] [] (Mailbox.mkBox (mkOpt None nullptr) nullptr)).
Definition zth_mailbox_destroy : M (handle (Mailbox.Box Z)) c_result := c_destroy.
Definition zth_mailbox_can_take (f : addr) : M (handle (Mailbox.Box Z)) c_result :=
  c_call (b ← Mailbox.can_take f; mret (ret (if b : bool then 0 else EAGAIN)%Z)).
Definition zth_mailbox_can_put : M (handle (Mailbox.Box Z)) c_result :=
  c_call (b ← Mailbox.can_put; mret (ret (if b : bool then 0 else EAGAIN)%Z)).
Definition zth_mailbox_put (f : addr) (value : Z) : M (handle (Mailbox.Box Z)) c_result :=
  c_call (b ← Mailbox.put f (Value value); mret (if b : bool then ret 0 else Blocks)).
Definition zth_mailbox_take (f : addr) (value : bool) : M (handle (Mailbox.Box Z)) c_result :=
  c_call_out value (o ← Mailbox.take f; match o with Some r => deliver r | None => mret Blocks end).
End Functions.

(** ** Properties *)

(** A handle without an object, and a call that refuses it. *)
Definition dead {D} (h : handle D) : bool := match h with Some (Some _) => false | _ => true end.
Definition refuses {D} (m : M (handle D) c_result) : Prop := ∀ h, dead h = true → m h = Ok (ret EINVAL, h).

Lemma c_call_refuses {D} (m : M (Obj D) c_result) : refuses (c_call m).
Proof. by intros [[]|]. Qed.

Lemma c_call_out_refuses {D} (b : bool) (m : M (Obj D) c_result) : refuses (c_call_out b m).
Proof. destruct b; [apply c_call_refuses|done]. Qed.

(** Making and deleting the object. *)
Record lifecycle `{Config} {D} (init : alloc → M (handle D) c_result) (destroy : M (handle D) c_result) : Prop := {
  life_init : ∃ o, init Allocated (Some None) = Ok (ret 0, Some (Some o)) ∧ Forall (λ l, l = []) (queues o);
  life_fail a : a ≠ Allocated → init a (Some None) = Ok (ret (if a is BadAlloc then ENOMEM else EAGAIN), Some None);
  life_twice a o : init a (Some (Some o)) = Ok (ret EINVAL, Some (Some o));
  life_null a : init a None = Ok (ret EINVAL, None) ∧ destroy None = Ok (ret EINVAL, None);
  life_destroy o : Forall (λ l, l = []) (queues o) → destroy (Some (Some o)) = Ok (ret 0, Some None);
  life_again : destroy (Some None) = Ok (ret 0, Some None);
  life_waiting o : EnableAssert = true → Exists (λ l, l ≠ []) (queues o) → destroy (Some (Some o)) = Fault AssertFailed
}.

Lemma all_empty {D} (o : Obj D) :
  forallb (λ l, bool_decide (l = [])) (queues o) = bool_decide (Forall (λ l, l = []) (queues o)).
Proof.
  induction (queues o) as [|l qs IH]; simpl; [done|]. rewrite IH.
  apply eq_true_iff_eq. rewrite andb_true_iff, !bool_decide_eq_true, Forall_cons. done.
Qed.

Lemma c_lifecycle `{Config} {D} (o : Obj D) : Forall (λ l, l = []) (queues o) → lifecycle (c_init o) c_destroy.
Proof.
  intros F. constructor; try done.
  - by exists o.
  - by intros [].
  - intros o' F'. unfold c_destroy. erewrite bind_Ok by reflexivity. cbn beta iota.
    erewrite bind_Ok; [done|]. apply zth_assert_true. by rewrite all_empty, bool_decide_true.
  - intros o' A E. unfold c_destroy. erewrite bind_Ok by reflexivity. cbn beta iota.
    erewrite bind_Fault; [done|]. apply zth_assert_false; [done|]. rewrite all_empty, bool_decide_false; [done|].
    by apply Exists_not_Forall.
Qed.

Lemma lifecycle_ext `{Config} {D} (init init' : alloc → M (handle D) c_result) destroy :
  (∀ a h, init a h = init' a h) → lifecycle init' destroy → lifecycle init destroy.
Proof.
  intros E [L1 L2 L3 L4 L5 L6 L7]. constructor; try done.
  - destruct L1 as (o & R & F). exists o. by rewrite E.
  - intros a Ha. rewrite E. auto.
  - intros a o. rewrite E. auto.
  - intros a. rewrite E. auto.
Qed.

(** The C functions refuse a null pointer and a handle that is not initialized
    with [EINVAL]; [_init] makes the object once, or reports [ENOMEM] or [EAGAIN];
    [_destroy] deletes it, may be repeated, and asserts that nobody waits. *)
Theorem c_handles `{Config} f v count (b : bool) :
  Forall refuses [zth_mutex_lock f; zth_mutex_trylock; zth_mutex_unlock] ∧
  Forall refuses [zth_sem_getvalue b; zth_sem_post; zth_sem_wait f; zth_sem_trywait f] ∧
  Forall refuses [zth_cond_signal; zth_cond_broadcast; zth_cond_wait f] ∧
  Forall refuses [zth_future_valid; zth_future_set v; zth_future_get f b; zth_future_wait f] ∧
  Forall refuses [zth_gate_pass; zth_gate_wait f] ∧
  Forall refuses [zth_mailbox_can_take f; zth_mailbox_can_put; zth_mailbox_put f v; zth_mailbox_take f b] ∧
  lifecycle zth_mutex_init zth_mutex_destroy ∧
  ((v ≤ Semaphore.count_max)%Z → lifecycle (zth_sem_init v) zth_sem_destroy) ∧
  ((Semaphore.count_max < v)%Z → ∀ a, zth_sem_init v a (Some None) = Ok (ret EDOM, Some None)) ∧
  lifecycle zth_cond_init zth_cond_destroy ∧ lifecycle zth_future_init zth_future_destroy ∧
  lifecycle (zth_gate_init count) zth_gate_destroy ∧ lifecycle zth_mailbox_init zth_mailbox_destroy.
Proof.
  do 6 (split; [repeat (apply Forall_cons; split; [first [apply c_call_refuses|apply c_call_out_refuses]|]); by apply Forall_nil|]).
  split; [by apply c_lifecycle; repeat constructor|]. split; [|split].
  - intros Hv. apply (lifecycle_ext _ (c_init (mkObj [[]] [] (Semaphore.mkSem (u32 v) false))));
      [|by apply c_lifecycle; repeat constructor].
    intros a h. unfold zth_sem_init, c_init. erewrite !bind_Ok by reflexivity. by rewrite (proj2 (Z.ltb_ge _ _)).
  - intros Hv a. unfold zth_sem_init. erewrite bind_Ok by reflexivity. by rewrite (proj2 (Z.ltb_lt _ _)).
  - do 3 (split; [by apply c_lifecycle; repeat constructor|]). apply c_lifecycle. repeat constructor.
Qed.

Lemma c_call_run {D} (m : M (Obj D) c_result) (o o' : Obj D) r :
  m o = Ok (r, o') → c_call m (Some (Some o)) = Ok (r, Some (Some o')).
Proof. simpl. by intros ->. Qed.

Lemma acquire_one `{Config} f n ql w :
  (1 ≤ n ≤ Semaphore.count_max)%Z →
  ∃ o, Semaphore.acquire f 1 (mkObj [ql] w (Semaphore.mkSem n false)) = Ok (true, o) ∧ Semaphore.m_count (data o) = (n - 1)%Z.
Proof.
  intros Hn. pose proof (Semaphore.acquire_run f 1 ql w (Semaphore.mkSem n false) ltac:(done)) as R. simpl in R.
  rewrite (proj2 (Z.ltb_ge _ _)) in R by lia. rewrite R by lia. eexists. split; [reflexivity|].
  destruct ql; [done|]. by destruct ((0 <? n - 1)%Z && _).
Qed.

(** A sequence of calls on one handle, and their results. *)
Fixpoint calls {D} (cs : list (M (handle D) c_result)) : M (handle D) (list c_result) :=
  match cs with [] => mret [] | c :: cs => r ← c; rs ← calls cs; mret (r :: rs) end.

(** C37: what the C functions report.  A mutex that is locked is [EBUSY]; a
    semaphore gives back the value it was made with, [trywait] takes a unit or says
    [EAGAIN], but [post] never says [EOVERFLOW], as it compares the 32-bit count
    with the 64-bit maximum: at its maximum the count stays, and the call is said to
    have succeeded (or asserts).  A future and a mailbox give back what was put in,
    and a future takes no second value; a gate is [EBUSY] until enough fibers came. *)
Theorem c_functions `{Config} f n v ql w :
  calls [zth_mutex_trylock; zth_mutex_trylock; zth_mutex_lock f] (Some (Some (mkObj [[]] w false))) =
    Ok ([ret 0; ret EBUSY; Blocks], Some (Some (mkObj [[f]] w true))) ∧
  ((0 ≤ n ≤ Semaphore.count_max)%Z →
     (∃ h, calls [zth_sem_init n Allocated; zth_sem_getvalue true] (Some None) = Ok ([ret 0; Returns 0 (Some n)], h)) ∧
     (∃ o, zth_sem_trywait f (Some (Some (mkObj [ql] w (Semaphore.mkSem n false)))) =
        Ok (if (n =? 0)%Z then ret EAGAIN else ret 0, Some (Some o)) ∧ Semaphore.m_count (data o) = Z.max 0 (n - 1)) ∧
     (∀ b r h, zth_sem_post (Some (Some (mkObj [ql] w (Semaphore.mkSem n b)))) = Ok (r, h) → r = ret 0)) ∧
  zth_sem_post (Some (Some (mkObj [[]] w (Semaphore.mkSem Semaphore.count_max false)))) =
    (if EnableAssert then Fault AssertFailed
     else Ok (ret 0, Some (Some (mkObj [[]] w (Semaphore.mkSem Semaphore.count_max false))))) ∧
  (∃ h, calls [zth_future_init Allocated; zth_future_valid; zth_future_set v; zth_future_set n; zth_future_get f true] (Some None) =
     Ok ([ret 0; ret EAGAIN; ret 0; ret EAGAIN; Returns 0 (Some v)], h)) ∧
  (∃ h, calls [zth_mailbox_init Allocated; zth_mailbox_can_take f; zth_mailbox_put f v; zth_mailbox_can_put;
               zth_mailbox_can_take f; zth_mailbox_take f true; zth_mailbox_can_put] (Some None) =
     Ok ([ret 0; ret EAGAIN; ret 0; ret EAGAIN; ret 0; Returns 0 (Some v); ret 0], h)) ∧
  (∃ h, calls [zth_gate_init 2 Allocated; zth_gate_pass; zth_gate_wait f; zth_gate_pass] (Some None) =
     Ok ([ret 0; ret EBUSY; ret 0; ret EBUSY], h)).
Proof.
  assert (∀ b, Semaphore.value (mkObj [ql] w (Semaphore.mkSem n b)) = Ok (n, mkObj [ql] w (Semaphore.mkSem n b))) as Vn by done.
  split; [done|]. split; [intros Hn; split_and!|split_and!].
  - eexists. simpl. unfold zth_sem_init. rewrite bind_assoc. erewrite bind_Ok by reflexivity.
    cbn beta iota. rewrite (proj2 (Z.ltb_ge _ _)) by apply Hn. simpl.
    unfold Semaphore.count_max in Hn. rewrite u32_small by lia. reflexivity.
  - destruct (Z.eqb_spec n 0) as [->|Hz]; [by eexists|].
    destruct (acquire_one f n ql w) as (o & R & C); [lia|]. exists o. split; [|lia].
    apply c_call_run. rewrite (bind_Ok _ _ _ _ _ (Vn false)), (proj2 (Z.eqb_neq _ _)) by done.
    by rewrite (bind_Ok _ _ _ _ _ R).
  - intros b r h. unfold zth_sem_post, c_call. rewrite (bind_Ok _ _ _ _ _ (Vn b)), (proj2 (Z.eqb_neq _ _)).
    + unfold mbind, M_bind. destruct (Semaphore.release 1 _) as [[? ?]|]; [|done]. by intros [= <- _].
    + unfold size_max, Semaphore.count_max in *. lia.
  - pose proof (Semaphore.release_overflow 1 (mkObj [[]] w (Semaphore.mkSem Semaphore.count_max false))) as R.
    simpl in R. unfold zth_sem_post, c_call. erewrite bind_Ok by reflexivity.
    rewrite (proj2 (Z.eqb_neq _ _)) by (by vm_compute). destruct EnableAssert.
    + by rewrite (bind_Fault _ _ _ _ (R ltac:(by vm_compute) ltac:(by vm_compute) ltac:(by vm_compute) eq_refl)).
    + by rewrite (bind_Ok _ _ _ _ _ (R ltac:(by vm_compute) ltac:(by vm_compute) ltac:(by vm_compute) eq_refl)).
  - destruct H as [[] ?]; by eexists.
  - destruct H as [[] ?]; by eexists.
  - by eexists.
Qed.

(** *** Witnesses *)

Lemma c_handles_witness : lifecycle (H := debug_config) (zth_sem_init 3) (zth_sem_destroy (H := debug_config)).
Proof. apply (c_handles (H := debug_config) 1 3 1 true). by vm_compute. Defined.

Lemma c_functions_witness :
  ∃ h, calls [zth_sem_init 3 Allocated; zth_sem_getvalue true] (Some None) = Ok ([ret 0; Returns 0 (Some 3%Z)], h).
Proof.
  destruct (c_functions (H := debug_config) 1 3 7 [] []) as (_ & S & _).
  destruct S as (R & _); [by vm_compute|exact R].
Defined.
