(* ===== verification/Shared.v ===== *)
(** * Reference counting (libzth/util.h, [RefCounted]; libzth/sync.h, [SharedPointer]
      and [SharedReference])

    An object that is [RefCounted] is deleted when the last one that uses it does not
    use it any more.  A [SharedPointer] uses the object it points to.  Shared pointers
    are variables of the program or members of objects; the latter are destroyed with
    the object, which may delete further objects.  The classes of the program are
    given by an instance of [Objects]. *)

From stdpp Require Import base gmap gmultiset list.
From Stdlib Require Import ZArith Lia.
From S2P Require Import Prelude Sync.

Definition size_max : Z := 2 ^ 64 - 1.

(** What the classes are: [K] are the places that hold a shared pointer, [S] is what
    the objects hold besides.  [owner] is the object of which a place is a member;
    [members] are the places of an object, in the order in which its destructor
    destroys them; [destructor] is what that does besides.  The members of an object
    point to objects of classes of a lower [level], so ownership has no cycles. *)
Class Objects (K S : Type) := {
  owner : K → option addr;
  members : addr → list K;
  level : addr → nat;
  destructor : addr → S → S;
  members_owner k a : k ∈ members a ↔ owner k = Some a;
  members_nodup a : NoDup (members a);
}.

(** [m_count] of the objects that exist, and the shared pointers that exist. *)
Record Heap {K S : Type} `{Countable K} := mkHeap { m_count : gmap addr Z; m_object : gmap K ptr; contents : S }.
Arguments Heap K S {_ _}.
Arguments mkHeap {K S _ _}.

(** ** Operations *)

Section Operations.
Context `{Config} {K S : Type} `{Countable K} `{!Objects K S}.

Definition get_count (a : addr) : M (Heap K S) Z := λ s,
  match m_count s !! a with Some c => Ok (c, s) | None => Fault NullDeref end.
Definition set_count (a : addr) (c : Z) : M (Heap K S) unit :=
  modify (λ s, mkHeap (<[a:=c]> (m_count s)) (m_object s) (contents s)).
Definition get (k : K) : M (Heap K S) ptr := λ s,
  match m_object s !! k with Some p => Ok (p, s) | None => Fault NullDeref end.
Definition put (k : K) (p : ptr) : M (Heap K S) unit := λ s,
  match m_object s !! k with
  | Some _ => Ok (tt, mkHeap (m_count s) (<[k:=p]> (m_object s)) (contents s))
  | None => Fault NullDeref
  end.

Definition used (a : addr) : M (Heap K S) unit :=
  c ← get_count a; zth_assert (c <? size_max)%Z;; set_count a (u64 (c + 1)).

Definition refs (a : addr) : M (Heap K S) Z := get_count a.

Definition used_ptr (p : ptr) : M (Heap K S) unit := match p with Some a => used a | None => mret tt end.

(** [reset] of a shared pointer; [unused] is that of the object it points to. *)
Definition reset_with (unused : addr → M (Heap K S) bool) (k : K) (object : ptr) : M (Heap K S) unit :=
  used_ptr object;;
  p ← get k;
  (match p with Some a => unused a;; mret tt | None => mret tt end);;
  put k object.

Definition end_with (unused : addr → M (Heap K S) bool) (k : K) : M (Heap K S) unit :=
  reset_with unused k nullptr;;
  modify (λ s, mkHeap (m_count s) (delete k (m_object s)) (contents s)).

Fixpoint end_members (unused : addr → M (Heap K S) bool) (l : list K) : M (Heap K S) unit :=
  match l with [] => mret tt | k :: l => end_with unused k;; end_members unused l end.

(** [cleanup]: [delete this]. *)
Definition cleanup_with (unused : addr → M (Heap K S) bool) (a : addr) : M (Heap K S) unit :=
  end_members unused (members a);;
  modify (λ s, mkHeap (m_count s) (m_object s) (destructor a (contents s)));;
  c ← get_count a; zth_assert (c =? 0)%Z;;
  modify (λ s, mkHeap (delete a (m_count s)) (m_object s) (contents s)).

(** [unused]; the recursion is through the members of objects that are deleted. *)
Fixpoint unused_fuel (fuel : nat) (a : addr) : M (Heap K S) bool :=
  match fuel with
  | O => fail OutOfFuel
  | Datatypes.S n =>
      c ← get_count a; zth_assert (0 <? c)%Z;;
      let c := u64 (c - 1) in
      set_count a c;;
      if (0 <? c)%Z then mret false else cleanup_with (unused_fuel n) a;; mret true
  end.

Definition unused (a : addr) : M (Heap K S) bool := unused_fuel (Datatypes.S (level a)) a.

(** [new T]: the count is 0, the members are null; [f] is what the constructor does to
    the rest. *)
Fixpoint begin_members (l : list K) (m : gmap K ptr) : gmap K ptr :=
  match l with [] => m | k :: l => <[k:=nullptr]> (begin_members l m) end.
Definition new_object (a : addr) (f : S → S) : M (Heap K S) unit :=
  modify (λ s, mkHeap (<[a:=0%Z]> (m_count s)) (begin_members (members a) (m_object s)) (f (contents s))).

(** *** [SharedPointer] *)

Definition reset (k : K) (object : ptr) : M (Heap K S) unit := reset_with unused k object.
Definition sp_destroy (k : K) : M (Heap K S) unit := end_with unused k.

Definition begin (k : K) (object : ptr) : M (Heap K S) unit :=
  modify (λ s, mkHeap (m_count s) (<[k:=object]> (m_object s)) (contents s)).

Definition sp_construct (k : K) (object : ptr) : M (Heap K S) unit := begin k object;; used_ptr object.
Definition sp_copy (k p : K) : M (Heap K S) unit := object ← get p; begin k object;; used_ptr object.

Definition release (k : K) : M (Heap K S) ptr := object ← get k; put k nullptr;; mret object.

Definition sp_assign_object (k : K) (object : ptr) : M (Heap K S) unit := reset k object.
Definition sp_assign (k p : K) : M (Heap K S) unit := object ← get p; reset k object.
Definition sp_assign_move (k p : K) : M (Heap K S) unit :=
  reset k nullptr;; object ← release p; put k object.
Definition sp_move (k p : K) : M (Heap K S) unit := begin k nullptr;; sp_assign_move k p.

(** [operator*] and [operator->]: the object. *)
Definition sp_deref (k : K) : M (Heap K S) addr :=
  p ← get k; zth_assert (negb (ptr_eqb p nullptr));;
  match p with Some a => mret a | None => fail NullDeref end.

(** *** [SharedReference]: a shared pointer that is there to be followed. *)

Definition sr_default (k : K) : M (Heap K S) unit := sp_construct k nullptr.
Definition sr_construct (k : K) (object : addr) : M (Heap K S) unit := sp_construct k (Some object).
Definition sr_copy (k p : K) : M (Heap K S) unit := sp_copy k p.
Definition sr_from_pointer (k p : K) : M (Heap K S) unit := sp_copy k p.
Definition sr_reset (k : K) : M (Heap K S) unit := reset k nullptr.
Definition sr_assign (k p : K) : M (Heap K S) unit := sp_assign k p.
Definition sr_move_pointer (k p : K) : M (Heap K S) unit := sp_move k p.
Definition sr_assign_move (k p : K) : M (Heap K S) unit := sp_assign_move k p.
Definition sr_move (k p : K) : M (Heap K S) unit := sp_construct k nullptr;; sr_assign_move k p.
Definition sr_valid (k : K) : M (Heap K S) bool := p ← get k; mret (negb (ptr_eqb p nullptr)).
Definition sr_get (k : K) : M (Heap K S) addr :=
  b ← sr_valid k; zth_assert b;; p ← get k;
  match p with Some a => mret a | None => fail NullDeref end.
End Operations.

(** ** Counting *)

Section Laws.
Context `{Config} {K S : Type} `{Countable K} `{!Objects K S}.
Implicit Types (s : Heap K S) (D : gset K) (X F : gset addr) (E : gmultiset addr).

(** The shared pointers to [a], without those in [D], which are being changed. *)
Definition pointers D (a : addr) (m : gmap K ptr) : nat := size (filter (λ kp, kp.1 ∉ D ∧ kp.2 = Some a) m).

Definition one_if (P : Prop) `{!Decision P} : nat := if decide P then 1 else 0.

Lemma pointers_ext D D' a m m' :
  (∀ k, k ∉ D ∧ m !! k = Some (Some a) ↔ k ∉ D' ∧ m' !! k = Some (Some a)) → pointers D a m = pointers D' a m'.
Proof.
  intros Q. unfold pointers. f_equal. apply map_filter_strong_ext. intros k p. simpl.
  specialize (Q k). destruct (decide (p = Some a)) as [->|]; [|naive_solver]. naive_solver.
Qed.

Lemma pointers_split D a m k :
  k ∉ D → pointers D a m = (pointers ({[k]} ∪ D) a m + one_if (m !! k = Some (Some a)))%nat.
Proof.
  intros Hk. rewrite (pointers_ext ({[k]} ∪ D) D a m (delete k m)).
  2:{ intros j. rewrite lookup_delete_Some, not_elem_of_union, not_elem_of_singleton. naive_solver. }
  unfold one_if. destruct (m !! k) as [p|] eqn:Ek.
  - rewrite <-(insert_delete_id m k p Ek) at 1. unfold pointers.
    assert (filter (λ kp : K * ptr, kp.1 ∉ D ∧ kp.2 = Some a) (delete k m) !! k = None) as N.
    { apply map_lookup_filter_None. left. apply lookup_delete_eq. }
    destruct (decide (p = Some a)) as [->|Hp].
    + rewrite map_filter_insert_True by done. rewrite map_size_insert_None by done. rewrite decide_True by done. lia.
    + rewrite map_filter_insert_False by naive_solver. rewrite delete_delete_eq, decide_False by congruence. lia.
  - rewrite decide_False by done. rewrite delete_id by done. lia.
Qed.

Lemma pointers_insert_in D a m k p : k ∈ D → pointers D a (<[k:=p]> m) = pointers D a m.
Proof.
  intros Hk. apply pointers_ext. intros j. rewrite lookup_insert_Some. split; [|naive_solver].
  intros [Hj [[-> _]|[_ Hm]]]; done.
Qed.

Lemma pointers_delete_in D a m k : k ∈ D → pointers D a (delete k m) = pointers D a m.
Proof. intros Hk. apply pointers_ext. intros j. rewrite lookup_delete_Some. naive_solver. Qed.

Lemma pointers_insert D a m k p :
  k ∉ D → pointers D a (<[k:=p]> m) = (pointers ({[k]} ∪ D) a m + one_if (p = Some a))%nat.
Proof.
  intros Hk. rewrite (pointers_split _ _ _ k) by done. rewrite pointers_insert_in by set_solver. f_equal.
  unfold one_if. rewrite lookup_insert_eq. destruct (decide (p = Some a)), (decide (Some p = Some (Some a))); congruence.
Qed.

Lemma pointers_delete D a m k : k ∉ D → pointers D a (delete k m) = pointers ({[k]} ∪ D) a m.
Proof.
  intros Hk. rewrite (pointers_split _ _ _ k) by done. rewrite pointers_delete_in by set_solver.
  unfold one_if. rewrite lookup_delete_eq. rewrite decide_False by done. lia.
Qed.

(** A use of what a pointer points to. *)
Definition hold (p : ptr) : gmultiset addr := match p with Some a => {[+ a +]} | None => ∅ end.

Lemma multiplicity_hold a p : multiplicity a (hold p) = one_if (p = Some a).
Proof.
  unfold one_if. destruct p as [b|].
  - unfold hold. rewrite multiplicity_singleton. destruct (decide (a = b)), (decide (Some b = Some a)); congruence.
  - destruct (decide (None = Some a)); [done|]. apply multiplicity_empty.
Qed.

(** *** The invariant: [E] are the uses that are not shared pointers, [X] the objects
    that are being deleted, [F] those that were not used yet. *)
Record inv D X E F s : Prop := {
  inv_count a c : m_count s !! a = Some c → c = Z.of_nat (pointers D a (m_object s) + multiplicity a E) ∧ (c ≤ size_max)%Z;
  inv_live k a : k ∉ D → m_object s !! k = Some (Some a) → is_Some (m_count s !! a);
  inv_held a : a ∈ E → is_Some (m_count s !! a);
  inv_level k o a : owner k = Some o → m_object s !! k = Some (Some a) → (level a < level o)%nat;
  inv_owner k o : owner k = Some o → is_Some (m_object s !! k) → is_Some (m_count s !! o);
  inv_members k o : owner k = Some o → o ∉ X → is_Some (m_count s !! o) → is_Some (m_object s !! k);
  inv_used a : m_count s !! a = Some 0%Z → a ∈ X ∪ F
}.

(** [k] is not a member of an object of a level of at most [l]. *)
Definition above (l : nat) (k : K) : Prop := match owner k with Some o => (l < level o)%nat | None => True end.

(** The objects of [dead] were deleted, and their members with them; the pointers of
    [C] may have changed. *)
Record frame (C : gset K) s s' (dead : list addr) : Prop := {
  frame_contents : contents s' = fold_left (λ r x, destructor x r) dead (contents s);
  frame_nodup : NoDup dead;
  frame_dead x : x ∈ dead → m_count s' !! x = None ∧ is_Some (m_count s !! x);
  frame_count x : x ∉ dead → is_Some (m_count s' !! x) ↔ is_Some (m_count s !! x);
  frame_object k : k ∉ C → m_object s' !! k = m_object s !! k ∨
    m_object s' !! k = None ∧ ∃ o, owner k = Some o ∧ o ∈ dead
}.

Lemma heap_frame_refl C s : frame C s s [].
Proof. split; [done|constructor|by intros x Hx%elem_of_nil|done|auto]. Qed.

(** The counts of objects and the pointers of [C] changed. *)
Lemma frame_same C s s' :
  contents s' = contents s → (∀ x, is_Some (m_count s' !! x) ↔ is_Some (m_count s !! x)) →
  (∀ k, k ∉ C → m_object s' !! k = m_object s !! k) → frame C s s' [].
Proof. intros A B Q. split; [done|constructor|by intros x Hx%elem_of_nil|auto|auto]. Qed.

Lemma heap_frame_trans C1 C2 s1 s2 s3 d1 d2 : frame C1 s1 s2 d1 → frame C2 s2 s3 d2 → frame (C1 ∪ C2) s1 s3 (d1 ++ d2).
Proof.
  intros [A1 A2 A3 A4 A5] [B1 B2 B3 B4 B5].
  assert (∀ x, x ∈ d1 → x ∉ d2) as Dj.
  { intros x [X1 _]%A3 [_ X2]%B3. rewrite X1 in X2. by destruct X2. }
  split.
  - by rewrite B1, A1, fold_left_app.
  - apply NoDup_app. auto.
  - intros x [Hx|Hx]%elem_of_app.
    + split; [|by apply A3]. destruct (A3 x Hx) as [N _]. apply eq_None_not_Some. rewrite (B4 x) by auto. by rewrite N; intros [].
    + split; [by apply B3|]. apply (A4 x); [intros Y; by apply (Dj x)|by apply B3].
  - intros x [Hx1 Hx2]%not_elem_of_app. by rewrite (B4 x), (A4 x).
  - intros k [Hk1 Hk2]%not_elem_of_union. destruct (B5 k Hk2) as [->|[N (o & O1 & O2)]].
    + destruct (A5 k Hk1) as [->|[N (o & O1 & O2)]]; [auto|]. right. split; [done|]. exists o. set_solver.
    + right. split; [done|]. exists o. set_solver.
Qed.

(** The members of deleted objects are not among those that changed. *)
Lemma frame_weaken C C' s s' dead :
  frame C s s' dead → (∀ k, k ∈ C → k ∈ C' ∨ m_object s' !! k = None ∧ ∃ o, owner k = Some o ∧ o ∈ dead) → frame C' s s' dead.
Proof.
  intros [A1 A2 A3 A4 A5] Q. split; [done..|]. intros k Hk. destruct (decide (k ∈ C)) as [Hc|]; [|auto].
  destruct (Q k Hc) as [|?]; [done|]. auto.
Qed.

(** *** Steps of the operations *)

Lemma held_count D X E F s a :
  inv D X (E ⊎ {[+ a +]}) F s → ∃ c, m_count s !! a = Some c ∧ (0 < c <= size_max)%Z ∧
    c = Z.of_nat (pointers D a (m_object s) + multiplicity a E + 1).
Proof.
  intros I. destruct (inv_held _ _ _ _ _ I a) as [c Hc]; [multiset_solver|]. exists c.
  destruct (inv_count _ _ _ _ _ I a c Hc) as [E1 E2]. rewrite multiplicity_disj_union, multiplicity_singleton_eq in E1.
  split; [done|]. lia.
Qed.

(** The pointer at [k] is going to be changed: what it points to is held instead. *)
Lemma take_inv D X E F s k p :
  inv D X E F s → k ∉ D → m_object s !! k = Some p → inv ({[k]} ∪ D) X (E ⊎ hold p) F s.
Proof.
  intros I Hk Ek. split; [|intros j a Hj; apply I; set_solver| |apply I..].
  - intros a c Hc. destruct (inv_count _ _ _ _ _ I a c Hc) as [E1 E2]. split; [|done].
    rewrite multiplicity_disj_union, multiplicity_hold. rewrite (pointers_split _ _ _ k) in E1 by done.
    unfold one_if in *. rewrite Ek in E1. destruct (decide (Some p = Some (Some a))), (decide (p = Some a)); try congruence; lia.
  - intros a Ha. destruct (decide (a ∈ E)) as [|Hn]; [by apply I|].
    destruct p as [b|]; simpl in Ha; [|multiset_solver]. assert (a = b) as -> by multiset_solver. by eapply I.
Qed.

(** ... and it is changed to [p], which was held. *)
Lemma put_inv D X E F s k p :
  inv ({[k]} ∪ D) X (E ⊎ hold p) F s → k ∉ D → is_Some (m_object s !! k) →
  (∀ o a, owner k = Some o → p = Some a → (level a < level o)%nat) →
  inv D X E F (mkHeap (m_count s) (<[k:=p]> (m_object s)) (contents s)).
Proof.
  intros I Hk Sk Lv. split; simpl.
  - intros a c Hc. destruct (inv_count _ _ _ _ _ I a c Hc) as [E1 E2]. split; [|done].
    rewrite multiplicity_disj_union, multiplicity_hold in E1. rewrite pointers_insert by done. lia.
  - intros j a Hj. rewrite lookup_insert_Some. intros [[<- ->]|[Hne Ej]]; [|eapply I; [|done]; set_solver].
    apply I. simpl. multiset_solver.
  - intros a Ha. apply I. multiset_solver.
  - intros j o a Ho. rewrite lookup_insert_Some. intros [[<- ->]|[Hne Ej]]; [by eauto|]. by apply (inv_level _ _ _ _ _ I j).
  - intros j o Ho. rewrite lookup_insert_is_Some'. intros [<-|Ej]; by eapply (inv_owner _ _ _ _ _ I).
  - intros j o Ho Hx Hc. rewrite lookup_insert_is_Some'. right. by eapply (inv_members _ _ _ _ _ I).
  - apply I.
Qed.

(** ... or it ends. *)
Lemma delete_inv D X E F s k :
  inv ({[k]} ∪ D) X E F s → k ∉ D → (∀ o, owner k = Some o → o ∈ X) →
  inv D X E F (mkHeap (m_count s) (delete k (m_object s)) (contents s)).
Proof.
  intros I Hk Ho. split; simpl.
  - intros a c Hc. rewrite pointers_delete by done. by apply I.
  - intros j a Hj. rewrite lookup_delete_Some. intros [Hne Ej]. apply (inv_live _ _ _ _ _ I j); [set_solver|done].
  - apply I.
  - intros j o a Hj. rewrite lookup_delete_Some. intros [_ Ej]. by eapply (inv_level _ _ _ _ _ I).
  - intros j o Hj. rewrite lookup_delete_is_Some. intros [_ Ej]. by eapply (inv_owner _ _ _ _ _ I).
  - intros j o Hj Hx Hc. rewrite lookup_delete_is_Some. split; [intros <-; by apply Hx, Ho|]. by eapply (inv_members _ _ _ _ _ I).
  - apply I.
Qed.

(** A new shared pointer. *)
Lemma begin_inv D X E F s k p :
  inv D X (E ⊎ hold p) F s → m_object s !! k = None → k ∉ D → owner k = None →
  inv D X E F (mkHeap (m_count s) (<[k:=p]> (m_object s)) (contents s)).
Proof.
  intros I Hn Hk Ho. split; simpl.
  - intros a c Hc. destruct (inv_count _ _ _ _ _ I a c Hc) as [E1 E2]. split; [|done].
    rewrite multiplicity_disj_union, multiplicity_hold in E1. rewrite pointers_insert by done.
    rewrite <-(pointers_delete D), delete_id by done. lia.
  - intros j a Hj. rewrite lookup_insert_Some. intros [[<- ->]|[Hne Ej]]; [|by eapply (inv_live _ _ _ _ _ I)].
    apply I. simpl. multiset_solver.
  - intros a Ha. apply I. multiset_solver.
  - intros j o a Hj. rewrite lookup_insert_Some. intros [[<- ->]|[Hne Ej]]; [congruence|]. by apply (inv_level _ _ _ _ _ I j).
  - intros j o Hj. rewrite lookup_insert_is_Some'. intros [<-|Ej]; [congruence|]. by eapply (inv_owner _ _ _ _ _ I).
  - intros j o Hj Hx Hc. rewrite lookup_insert_is_Some'. right. by eapply (inv_members _ _ _ _ _ I).
  - apply I.
Qed.

Lemma used_run D X E F s a c :
  inv D X E F s → m_count s !! a = Some c → (c < size_max)%Z →
  used a s = Ok (tt, mkHeap (<[a:=(c + 1)%Z]> (m_count s)) (m_object s) (contents s)) ∧
  inv D X (E ⊎ {[+ a +]}) (F ∖ {[a]}) (mkHeap (<[a:=(c + 1)%Z]> (m_count s)) (m_object s) (contents s)).
Proof.
  intros I Ea Hc. destruct (inv_count _ _ _ _ _ I a c Ea) as [E1 E2]. split.
  - unfold used, get_count. erewrite bind_Ok by by rewrite Ea. erewrite bind_Ok by (apply zth_assert_true, Z.ltb_lt; lia).
    rewrite u64_small; [done|]. unfold size_max in *. lia.
  - split; simpl.
    + intros b d. rewrite lookup_insert_Some. rewrite multiplicity_disj_union. intros [[<- <-]|[Hne Hb]].
      * rewrite multiplicity_singleton_eq. lia.
      * rewrite multiplicity_singleton_ne by done. rewrite Nat.add_0_r. by apply I.
    + intros k b Hk Ek. rewrite lookup_insert_is_Some'. right. by eapply (inv_live _ _ _ _ _ I).
    + intros b Hb. rewrite lookup_insert_is_Some'. destruct (decide (a = b)); [auto|]. right. apply I. multiset_solver.
    + apply I.
    + intros k o Ho Ek. rewrite lookup_insert_is_Some'. right. by eapply (inv_owner _ _ _ _ _ I).
    + intros k o Ho Hx. rewrite lookup_insert_is_Some'. intros [<-|Hb]; eapply (inv_members _ _ _ _ _ I); eauto.
    + intros b. rewrite lookup_insert_Some. intros [[<- Hz]|[Hne Hb]]; [lia|]. apply (inv_used _ _ _ _ _ I) in Hb. set_solver.
Qed.

Lemma dec_inv D X X' E F s a c :
  inv D X (E ⊎ {[+ a +]}) F s → m_count s !! a = Some c → (0 < c - 1)%Z ∨ a ∈ X' → X ⊆ X' →
  inv D X' E F (mkHeap (<[a:=(c - 1)%Z]> (m_count s)) (m_object s) (contents s)).
Proof.
  intros I Ea Hc HX. split; simpl.
  - intros b d. rewrite lookup_insert_Some. destruct (inv_count _ _ _ _ _ I a c Ea) as [E1 E2].
    rewrite multiplicity_disj_union, multiplicity_singleton_eq in E1. intros [[<- <-]|[Hne Hb]]; [lia|].
    destruct (inv_count _ _ _ _ _ I b d Hb) as [B1 B2].
    rewrite multiplicity_disj_union, multiplicity_singleton_ne in B1 by done. lia.
  - intros k b Hk Ek. rewrite lookup_insert_is_Some'. right. by eapply (inv_live _ _ _ _ _ I).
  - intros b Hb. rewrite lookup_insert_is_Some'. right. apply (inv_held _ _ _ _ _ I). multiset_solver.
  - apply I.
  - intros k o Ho Ek. rewrite lookup_insert_is_Some'. right. by eapply (inv_owner _ _ _ _ _ I).
  - intros k o Ho Hx. rewrite lookup_insert_is_Some'. intros [<-|Hb]; eapply (inv_members _ _ _ _ _ I); eauto.
  - intros b. rewrite lookup_insert_Some. intros [[<- Hz]|[Hne Hb]]; [destruct Hc; [lia|set_solver]|].
    apply (inv_used _ _ _ _ _ I) in Hb. set_solver.
Qed.

Lemma erase_inv D X E F s a :
  inv D ({[a]} ∪ X) E F s → m_count s !! a = Some 0%Z → a ∉ X → (∀ k, owner k = Some a → m_object s !! k = None) →
  inv D X E F (mkHeap (delete a (m_count s)) (m_object s) (contents s)).
Proof.
  intros I Ea Hx Hm. destruct (inv_count _ _ _ _ _ I a _ Ea) as [E1 _].
  assert (∀ k, k ∉ D → m_object s !! k ≠ Some (Some a)) as Np.
  { intros k Hk Ek. rewrite (pointers_split _ _ _ k Hk) in E1. unfold one_if in E1. rewrite decide_True in E1 by done. lia. }
  split; simpl.
  - intros b c. rewrite lookup_delete_Some. intros [_ Hb]. by apply (inv_count _ _ _ _ _ I).
  - intros k b Hk Ek. rewrite lookup_delete_is_Some. split; [intros <-; by apply (Np k)|]. by eapply (inv_live _ _ _ _ _ I).
  - intros b Hb. rewrite lookup_delete_is_Some. split; [|by apply I]. intros <-. rewrite elem_of_multiplicity in Hb. lia.
  - apply I.
  - intros k o Ho Ek. rewrite lookup_delete_is_Some. split; [|by eapply (inv_owner _ _ _ _ _ I)].
    intros <-. rewrite (Hm k Ho) in Ek. by destruct Ek.
  - intros k o Ho Hx'. rewrite lookup_delete_is_Some. intros [Hne Hb]. eapply (inv_members _ _ _ _ _ I); [done| |done]. set_solver.
  - intros b. rewrite lookup_delete_Some. intros [Hne Hb]. apply (inv_used _ _ _ _ _ I) in Hb. set_solver.
Qed.

(** [u] is a right [unused] for the objects of a level below [n]. *)
Definition unused_ok (n : nat) (u : addr → M (Heap K S) bool) : Prop := ∀ a D X E F s,
  (level a < n)%nat → inv D X (E ⊎ {[+ a +]}) F s →
  (∀ x, x ∈ X → (level a < level x)%nat) → (∀ k, k ∈ D → above (level a) k) →
  ∃ b s' dead, u a s = Ok (b, s') ∧ inv D X E F s' ∧ frame ∅ s s' dead ∧ (∀ x, x ∈ dead → (level x <= level a)%nat).

(** The change of the pointer at [k], up to where the old object is not used any more. *)
Lemma drop_run n u D X E F s k p :
  unused_ok n u → inv D X E F s → k ∉ D → m_object s !! k = Some p →
  (∀ a, p = Some a → (level a < n)%nat ∧ above (level a) k ∧
     (∀ x, x ∈ X → (level a < level x)%nat) ∧ (∀ k, k ∈ D → above (level a) k)) →
  ∃ s' dead, (match p with Some a => u a;; mret tt | None => mret tt end) s = Ok (tt, s') ∧
    inv ({[k]} ∪ D) X E F s' ∧ m_object s' !! k = Some p ∧ frame ∅ s s' dead ∧
    (∀ x, x ∈ dead → ∃ a, p = Some a ∧ (level x <= level a)%nat).
Proof.
  intros U I Hk Ek L. pose proof (take_inv _ _ _ _ _ _ _ I Hk Ek) as I1. destruct p as [a|]; simpl in *.
  - destruct (L a eq_refl) as (L1 & L2 & L3 & L4).
    destruct (U a ({[k]} ∪ D) X E F s L1 I1 L3) as (b & s' & dead & R & I2 & Fr & Ld).
    { intros j [->%elem_of_singleton|]%elem_of_union; auto. }
    exists s', dead. rewrite (bind_Ok _ _ _ _ _ R). split_and!; [done..| |done|eauto].
    destruct (frame_object _ _ _ _ Fr k) as [->|[_ (o & Ho & Hd)]]; [set_solver|done|].
    unfold above in L2. rewrite Ho in L2. apply Ld in Hd. lia.
  - exists s, []. rewrite gmultiset_disj_union_right_id in I1. split_and!; [done..|apply heap_frame_refl|by intros x Hx%elem_of_nil].
Qed.

Lemma get_run s k p : m_object s !! k = Some p → get k s = Ok (p, s).
Proof. unfold get. by intros ->. Qed.

Lemma place_put_run s k p q : m_object s !! k = Some q → put k p s = Ok (tt, mkHeap (m_count s) (<[k:=p]> (m_object s)) (contents s)).
Proof. unfold put. by intros ->. Qed.

(** Following a pointer, or a reference: the object, or the assertion. *)
Lemma follow_run s k p :
  m_object s !! k = Some p →
  sp_deref k s = (match p with Some a => Ok (a, s) | None => Fault (if EnableAssert then AssertFailed else NullDeref) end) ∧
  sr_get k s = sp_deref k s.
Proof.
  intros Ek. unfold sp_deref, sr_get, sr_valid.
  rewrite !(bind_Ok _ _ _ _ _ (get_run s k p Ek)). rewrite bind_assoc, (bind_Ok _ _ _ _ _ (get_run s k p Ek)), bind_ret.
  destruct p as [a|]; simpl.
  - unfold zth_assert. rewrite andb_false_r. split; [done|]. by rewrite !bind_ret, (bind_Ok _ _ _ _ _ (get_run s k _ Ek)).
  - unfold zth_assert. destruct EnableAssert; [done|]. split; [done|]. simpl. by rewrite !bind_ret, (bind_Ok _ _ _ _ _ (get_run s k _ Ek)).
Qed.



(** What a pointer may point to for its change to be safe. *)
Definition droppable (n : nat) D X (k : K) (p : ptr) : Prop := ∀ a, p = Some a →
  (level a < n)%nat ∧ above (level a) k ∧ (∀ x, x ∈ X → (level a < level x)%nat) ∧ (∀ k, k ∈ D → above (level a) k).

Lemma end_with_run n u D X E F s k p :
  unused_ok n u → inv D X E F s → k ∉ D → m_object s !! k = Some p → droppable n D X k p →
  (∀ o, owner k = Some o → o ∈ X) →
  ∃ s' dead, end_with u k s = Ok (tt, s') ∧ inv D X E F s' ∧ frame {[k]} s s' dead ∧ m_object s' !! k = None ∧
    (∀ x, x ∈ dead → ∃ a, p = Some a ∧ (level x <= level a)%nat).
Proof.
  intros U I Hk Ek L Ho. destruct (drop_run n u D X E F s k p U I Hk Ek L) as (s1 & dead & R & I1 & E1 & Fr & Ld).
  exists (mkHeap (m_count s1) (delete k (m_object s1)) (contents s1)), dead. split_and!.
  - unfold end_with, reset_with. rewrite bind_assoc. erewrite bind_Ok by reflexivity.
    rewrite bind_assoc. rewrite (bind_Ok _ _ _ _ _ (get_run s k p Ek)). rewrite bind_assoc.
    rewrite (bind_Ok _ _ _ _ _ R), (bind_Ok _ _ _ _ _ (place_put_run s1 k nullptr p E1)).
    unfold modify. simpl. by rewrite delete_insert_eq.
  - by apply delete_inv.
  - assert (frame ({[k]} ∪ ∅) s (mkHeap (m_count s1) (delete k (m_object s1)) (contents s1)) (dead ++ [])) as Q.
    2:{ rewrite app_nil_r in Q. eapply frame_weaken; [exact Q|]. set_solver. }
    rewrite (union_comm_L _ ∅). eapply heap_frame_trans; [exact Fr|]. apply frame_same; [done..|].
    intros j Hj. simpl. apply lookup_delete_ne. set_solver.
  - simpl. apply lookup_delete_eq.
  - done.
Qed.

Lemma above_le l l' k : above l k → (l' <= l)%nat → above l' k.
Proof. unfold above. destruct (owner k); [lia|done]. Qed.

Lemma end_members_run n u a l D X E F s :
  unused_ok n u → (level a <= n)%nat → a ∈ X → NoDup l → (∀ x, x ∈ X → (level a <= level x)%nat) →
  (∀ k, k ∈ D → above (level a) k) → inv D X E F s →
  (∀ k, k ∈ l → owner k = Some a ∧ k ∉ D ∧ is_Some (m_object s !! k)) →
  ∃ s' dead, end_members u l s = Ok (tt, s') ∧ inv D X E F s' ∧ frame (list_to_set l) s s' dead ∧
    (∀ x, x ∈ dead → (level x < level a)%nat) ∧ (∀ k, k ∈ l → m_object s' !! k = None).
Proof.
  intros U Ln Ha N LX LD. revert s. induction l as [|k l IH]; intros s I Hl.
  { exists s, []. split_and!; [done..|apply heap_frame_refl|by intros x Hx%elem_of_nil|by intros x Hx%elem_of_nil]. }
  apply NoDup_cons in N as [Nk N]. destruct (Hl k) as (Hk & HD & [p Ep]); [auto with zth|].
  destruct (end_with_run n u D X E F s k p U I HD Ep) as (s1 & d1 & R1 & I1 & F1 & E1 & L1).
  { intros b ->. pose proof (inv_level _ _ _ _ _ I k a b Hk Ep). split; [lia|]. split; [unfold above; by rewrite Hk|].
    split; [intros x Hx%LX; lia|]. intros j Hj%LD. eapply above_le; [done|lia]. }
  { intros o. rewrite Hk. by intros [= <-]. }
  assert (∀ x, x ∈ d1 → (level x < level a)%nat) as L1'.
  { intros x Hx. destruct (L1 x Hx) as (b & -> & Hb). pose proof (inv_level _ _ _ _ _ I k a b Hk Ep). lia. }
  destruct (IH N s1 I1) as (s2 & d2 & R2 & I2 & F2 & L2 & E2).
  { intros j Hj. destruct (Hl j) as (Hj1 & Hj2 & Hj3); [auto with zth|]. split_and!; [done..|].
    destruct (frame_object _ _ _ _ F1 j) as [->|[_ (o & O1 & O2)]]; [|done|].
    - rewrite elem_of_singleton. by intros ->.
    - apply L1' in O2. rewrite Hj1 in O1. injection O1 as ->. lia. }
  exists s2, (d1 ++ d2). split_and!; [|done|by apply (heap_frame_trans _ _ _ _ _ _ _ F1 F2)| |].
  - simpl. by rewrite (bind_Ok _ _ _ _ _ R1).
  - intros x [Hx|Hx]%elem_of_app; auto.
  - intros j [->|Hj]%elem_of_cons; [|by apply E2].
    destruct (frame_object _ _ _ _ F2 k) as [->|[]]; [by rewrite elem_of_list_to_set|done..].
Qed.

(** Fewer pointers: nothing points to an object that is being deleted. *)
Lemma zero_count D X E F s s' a :
  inv D X E F s → inv D X E F s' → m_count s !! a = Some 0%Z → is_Some (m_count s' !! a) →
  (∀ k p, m_object s' !! k = Some p → m_object s !! k = Some p) → m_count s' !! a = Some 0%Z.
Proof.
  intros I I' Ea [c Ec] Q. rewrite Ec. f_equal. destruct (inv_count _ _ _ _ _ I' a c Ec) as [-> _].
  destruct (inv_count _ _ _ _ _ I a _ Ea) as [Q0 _].
  assert (pointers D a (m_object s') <= pointers D a (m_object s))%nat; [|lia].
  unfold pointers. apply map_subseteq_size, map_subseteq_spec. intros k p.
  rewrite !map_lookup_filter_Some. intros [Hk Hq]. auto.
Qed.

(** Deletion: of the members and what they kept alive, then of the object. *)
Lemma cleanup_run n u a D X E F s :
  unused_ok n u → (level a <= n)%nat → inv D ({[a]} ∪ X) E F s → m_count s !! a = Some 0%Z →
  (∀ k, owner k = Some a → is_Some (m_object s !! k)) →
  (∀ x, x ∈ X → (level a < level x)%nat) → (∀ k, k ∈ D → above (level a) k) →
  ∃ s' dead, cleanup_with u a s = Ok (tt, s') ∧ inv D X E F s' ∧ frame ∅ s s' dead ∧
    (∀ x, x ∈ dead → (level x <= level a)%nat).
Proof.
  intros U Ln I Ea Hm LX LD.
  destruct (end_members_run n u a (members a) D ({[a]} ∪ X) E F s) as (s2 & dead & R2 & I2 & F2 & L2 & E2);
    [done|lia|set_solver|apply members_nodup| |done|done| |].
  { intros x [->%elem_of_singleton|Hx%LX]%elem_of_union; lia. }
  { intros k Hk%members_owner. split; [done|]. split; [|by apply Hm].
    intros HkD%LD. unfold above in HkD. rewrite Hk in HkD. lia. }
  assert (a ∉ dead) as Hd by (intros Hx%L2; lia).
  assert (m_count s2 !! a = Some 0%Z) as Ea2.
  { apply (zero_count D ({[a]} ∪ X) E F s s2); [done..| |].
    { apply (frame_count _ _ _ _ F2 a Hd). by rewrite Ea. }
    intros k p Hk. destruct (decide (k ∈ members a)) as [Hk'%E2|Hk']; [congruence|].
    destruct (frame_object _ _ _ _ F2 k) as [Q|[Q _]]; [by rewrite elem_of_list_to_set|congruence..]. }
  eexists _, (dead ++ [a]). split_and!.
  - unfold cleanup_with. rewrite (bind_Ok _ _ _ _ _ R2). erewrite bind_Ok by reflexivity.
    erewrite bind_Ok by (unfold get_count; simpl; by rewrite Ea2). erewrite bind_Ok by by apply zth_assert_true. reflexivity.
  - simpl. assert (inv D ({[a]} ∪ X) E F (mkHeap (m_count s2) (m_object s2) (destructor a (contents s2)))) as I3 by (split; apply I2).
    refine (erase_inv _ _ _ _ _ a I3 Ea2 _ _); [by intros Hx%LX; lia|]. intros k Hk%members_owner. by apply E2.
  - eapply frame_weaken; [eapply heap_frame_trans; [exact F2|]|].
    + split; [reflexivity|apply NoDup_singleton| | |].
      * intros x ->%list_elem_of_singleton. simpl. rewrite lookup_delete_eq. by rewrite Ea2.
      * intros x Hx. simpl. rewrite lookup_delete_ne; [done|]. set_solver.
      * intros k Hk. left. reflexivity.
    + instantiate (1 := ∅). intros k Hk. right. assert (k ∈ members a) as Hk2 by set_solver. split; [by apply E2|].
      exists a. split; [by apply members_owner|]. set_solver.
  - intros x [Hx%L2|Hx]%elem_of_app; [lia|]. apply list_elem_of_singleton in Hx as ->. done.
Qed.

Lemma unused_fuel_ok n : unused_ok n (unused_fuel n).
Proof.
  induction n as [|n IH]; intros a D X E F s Hn I LX LD; [lia|].
  destruct (held_count _ _ _ _ _ _ I) as (c & Ec & Hc & _). simpl.
  assert (get_count a s = Ok (c, s)) as R by (unfold get_count; by rewrite Ec).
  rewrite (bind_Ok _ _ _ _ _ R). erewrite bind_Ok by (apply zth_assert_true, Z.ltb_lt; lia).
  erewrite bind_Ok by reflexivity. rewrite u64_small by (unfold size_max in *; lia).
  set (s1 := mkHeap _ _ _). assert (frame ∅ s s1 []) as F1.
  { apply frame_same; [done| |done]. intros x. simpl. rewrite lookup_insert_is_Some'. naive_solver. }
  destruct (Z.ltb_spec 0 (c - 1)) as [Hp|Hz].
  { exists false, s1, []. split; [done|]. split; [apply (dec_inv D X X E F s a c); auto|]. split; [done|]. by intros x Hx%elem_of_nil. }
  assert (c - 1 = 0)%Z as Hc0 by lia.
  destruct (cleanup_run n (unused_fuel n) a D X E F s1) as (s2 & dead & R2 & I2 & F2 & L2); [done|lia| | | |done|done|].
  { apply (dec_inv D X _ E F s a c I Ec); set_solver. }
  { simpl. by rewrite lookup_insert_eq, Hc0. }
  { intros k Hk. apply (inv_members _ _ _ _ _ I k a Hk); [by intros Hx%LX; lia|done]. }
  exists true, s2, dead. split; [by rewrite (bind_Ok _ _ _ _ _ R2)|]. split; [done|]. split; [|done].
  assert (frame (∅ ∪ ∅) s s2 ([] ++ dead)) as Q by by eapply heap_frame_trans. by rewrite union_empty_l_L in Q.
Qed.

Lemma unused_ok_all n : unused_ok n unused.
Proof. intros a D X E F s Hn. apply (unused_fuel_ok (Datatypes.S (level a))). lia. Qed.

(** *** The operations of the program *)

(** Between operations: no pointer is being changed and no object being deleted. *)
Abbreviation Inv := (inv ∅ ∅).

Definition uses (p : ptr) : gset addr := match p with Some a => {[ a ]} | None => ∅ end.

(** What [p] points to exists, and can be used once more. *)
Definition usable s (p : ptr) : bool :=
  match p with Some a => match m_count s !! a with Some c => (c <? size_max)%Z | None => false end | None => true end.

(** [k] may point to what [p] points to. *)
Definition fits (k : K) (p : ptr) : bool :=
  match owner k, p with Some o, Some a => (level a <? level o)%nat | _, _ => true end.

Lemma fits_level k p o a : fits k p = true → owner k = Some o → p = Some a → (level a < level o)%nat.
Proof. unfold fits. intros Q Ho Hp. rewrite Ho, Hp in Q. by apply Nat.ltb_lt. Qed.

Lemma inv_fits D X E F s k p : inv D X E F s → m_object s !! k = Some p → fits k p = true.
Proof.
  intros I Ek. unfold fits. destruct (owner k) as [o|] eqn:Ho, p as [a|]; try done.
  apply Nat.ltb_lt. by apply (inv_level _ _ _ _ _ I k).
Qed.

Lemma used_ptr_run D X E F s p :
  inv D X E F s → usable s p = true →
  ∃ s', used_ptr p s = Ok (tt, s') ∧ inv D X (E ⊎ hold p) (F ∖ uses p) s' ∧ m_object s' = m_object s ∧ frame ∅ s s' [].
Proof.
  intros I U. destruct p as [a|]; simpl in *.
  - destruct (m_count s !! a) as [c|] eqn:Ea; [|done]. apply Z.ltb_lt in U.
    destruct (used_run D X E F s a c I Ea U) as [R I']. eexists. split; [exact R|]. split; [done|]. split; [done|].
    apply frame_same; [done| |done]. intros x. simpl. rewrite lookup_insert_is_Some'. naive_solver.
  - exists s. rewrite gmultiset_disj_union_right_id, difference_empty_L. split_and!; [done..|apply heap_frame_refl].
Qed.

Lemma member_droppable E F s k p :
  Inv E F s → m_object s !! k = Some p → ∃ n, droppable n ∅ ∅ k p.
Proof.
  intros I Ek. exists (match p with Some a => Datatypes.S (level a) | None => O end). intros a ->. split; [lia|]. split; [|split].
  - unfold above. destruct (owner k) as [o|] eqn:Ho; [|done]. by apply (inv_level _ _ _ _ _ I k).
  - intros x Hx. set_solver.
  - intros j Hj. set_solver.
Qed.

(** [unused] of what was held. *)
Lemma unused_run E F s a :
  Inv (E ⊎ {[+ a +]}) F s →
  ∃ b s' dead, unused a s = Ok (b, s') ∧ Inv E F s' ∧ frame ∅ s s' dead ∧ (∀ x, x ∈ dead → (level x <= level a)%nat).
Proof.
  intros I. apply (unused_ok_all (Datatypes.S (level a)) a ∅ ∅ E F s); [lia|done| |]; intros x Hx; set_solver.
Qed.

Lemma reset_run E F s k p object :
  Inv E F s → m_object s !! k = Some p → usable s object = true → fits k object = true →
  ∃ s' dead, reset k object s = Ok (tt, s') ∧ Inv E (F ∖ uses object) s' ∧ m_object s' !! k = Some object ∧
    frame {[k]} s s' dead ∧ (∀ x, x ∈ dead → ∃ a, p = Some a ∧ (level x <= level a)%nat).
Proof.
  intros I Ek U Ft. destruct (used_ptr_run ∅ ∅ E F s object I U) as (s1 & R1 & I1 & O1 & F1).
  rewrite <-O1 in Ek. destruct (member_droppable _ _ s1 k p I1 Ek) as [n L].
  destruct (drop_run n unused ∅ ∅ _ _ s1 k p (unused_ok_all n) I1) as (s2 & dead & R2 & I2 & E2 & F2 & L2); [set_solver|done|done|].
  assert (Inv E (F ∖ uses object) (mkHeap (m_count s2) (<[k:=object]> (m_object s2)) (contents s2))) as I3.
  { refine (put_inv _ _ _ _ _ _ _ I2 _ _ _); [set_solver|done|]. intros o a Ho Ho'. by apply (fits_level k object). }
  eexists _, dead. split_and!; [|exact I3|simpl; apply lookup_insert_eq| |done].
  - unfold reset, reset_with. rewrite (bind_Ok _ _ _ _ _ R1), (bind_Ok _ _ _ _ _ (get_run s1 k p Ek)), (bind_Ok _ _ _ _ _ R2).
    apply (place_put_run s2 k object p E2).
  - assert (frame (∅ ∪ (∅ ∪ {[k]})) s (mkHeap (m_count s2) (<[k:=object]> (m_object s2)) (contents s2)) ([] ++ (dead ++ []))) as Q.
    { eapply heap_frame_trans; [exact F1|]. eapply heap_frame_trans; [exact F2|]. apply frame_same; [done..|].
      intros j Hj. simpl. apply lookup_insert_ne. set_solver. }
    rewrite app_nil_r, !union_empty_l_L in Q. exact Q.
Qed.

(** A null pointer is set. *)
Lemma reset_null_run E F s k a c :
  Inv E F s → m_object s !! k = Some nullptr → m_count s !! a = Some c → (c < size_max)%Z →
  reset k (Some a) s = Ok (tt, mkHeap (<[a:=(c + 1)%Z]> (m_count s)) (<[k:=Some a]> (m_object s)) (contents s)).
Proof.
  intros I Ek Ea Hc. destruct (used_run _ _ _ _ _ _ _ I Ea Hc) as [R _]. unfold reset, reset_with. simpl.
  rewrite (bind_Ok _ _ _ _ _ R). set (s1 := mkHeap _ _ _). assert (m_object s1 !! k = Some nullptr) as Ek1 by done.
  rewrite (bind_Ok _ _ _ _ _ (get_run s1 k _ Ek1)), bind_ret. by rewrite (place_put_run s1 k _ _ Ek1).
Qed.

Lemma destroy_run E F s k p :
  Inv E F s → m_object s !! k = Some p → owner k = None →
  ∃ s' dead, sp_destroy k s = Ok (tt, s') ∧ Inv E F s' ∧ m_object s' !! k = None ∧
    frame {[k]} s s' dead ∧ (∀ x, x ∈ dead → ∃ a, p = Some a ∧ (level x <= level a)%nat).
Proof.
  intros I Ek Ho. destruct (member_droppable _ _ s k p I Ek) as [n L].
  destruct (end_with_run n unused ∅ ∅ E F s k p (unused_ok_all n) I) as (s' & dead & R & I' & E' & Fr & Ld);
    [set_solver|done|done|congruence|]. eauto 10.
Qed.

Lemma sp_construct_run E F s k object :
  Inv E F s → m_object s !! k = None → owner k = None → usable s object = true →
  ∃ s', sp_construct k object s = Ok (tt, s') ∧ Inv E (F ∖ uses object) s' ∧ m_object s' !! k = Some object ∧ frame {[k]} s s' [].
Proof.
  intros I Ek Ho U. destruct (used_ptr_run ∅ ∅ E F s object I U) as (s1 & R1 & I1 & O1 & F1).
  assert (sp_construct k object s = Ok (tt, mkHeap (m_count s1) (<[k:=object]> (m_object s1)) (contents s1))) as R.
  { unfold sp_construct, begin. erewrite bind_Ok by reflexivity. destruct object as [a|]; simpl in *.
    - destruct (m_count s !! a) as [c|] eqn:Ea; [|done]. apply Z.ltb_lt in U.
      destruct (used_run ∅ ∅ E F s a c I Ea U) as [R2 _]. rewrite R2 in R1. injection R1 as <-. simpl.
      unfold used, get_count. simpl. erewrite bind_Ok by (simpl; by rewrite Ea).
      erewrite bind_Ok by (apply zth_assert_true, Z.ltb_lt; lia).
      destruct (inv_count _ _ _ _ _ I a c Ea) as [E1 E2]. rewrite u64_small; [done|]. unfold size_max in *. lia.
    - by injection R1 as ->. }
  exists (mkHeap (m_count s1) (<[k:=object]> (m_object s1)) (contents s1)). split_and!; [done| |apply lookup_insert_eq|].
  - apply begin_inv; [done|by rewrite O1|set_solver|done].
  - assert (frame (∅ ∪ {[k]}) s (mkHeap (m_count s1) (<[k:=object]> (m_object s1)) (contents s1)) ([] ++ [])) as Q.
    { eapply heap_frame_trans; [exact F1|]. apply frame_same; [done..|]. intros j Hj. apply lookup_insert_ne. set_solver. }
    by rewrite union_empty_l_L in Q.
Qed.

Lemma sp_release_run E F s k p :
  Inv E F s → m_object s !! k = Some p →
  release k s = Ok (p, mkHeap (m_count s) (<[k:=nullptr]> (m_object s)) (contents s)) ∧
  Inv (E ⊎ hold p) F (mkHeap (m_count s) (<[k:=nullptr]> (m_object s)) (contents s)).
Proof.
  intros I Ek. split.
  - unfold release. by rewrite (bind_Ok _ _ _ _ _ (get_run s k p Ek)), (bind_Ok _ _ _ _ _ (place_put_run s k nullptr p Ek)).
  - assert (inv ({[k]} ∪ ∅) ∅ ((E ⊎ hold p) ⊎ hold nullptr) F s) as I1.
    { simpl. rewrite gmultiset_disj_union_right_id. apply take_inv; [done|set_solver|done]. }
    refine (put_inv _ _ _ _ _ _ _ I1 _ _ _); [set_solver|by rewrite Ek|done].
Qed.

(** A null pointer gets what was held. *)
Lemma adopt_run E F s k p :
  Inv (E ⊎ hold p) F s → m_object s !! k = Some nullptr → fits k p = true →
  put k p s = Ok (tt, mkHeap (m_count s) (<[k:=p]> (m_object s)) (contents s)) ∧
  Inv E F (mkHeap (m_count s) (<[k:=p]> (m_object s)) (contents s)).
Proof.
  intros I Ek Ft. split; [by apply (place_put_run s k p nullptr)|].
  assert (inv ({[k]} ∪ ∅) ∅ (E ⊎ hold p) F s) as I1.
  { pose proof (take_inv _ _ _ _ _ k nullptr I ltac:(set_solver) Ek) as Q. simpl in Q. by rewrite gmultiset_disj_union_right_id in Q. }
  refine (put_inv _ _ _ _ _ _ _ I1 _ _ _); [set_solver|by rewrite Ek|]. intros o a Ho Ha. by apply (fits_level k p).
Qed.

(** [j] is not a member of what may be deleted with what [k] points to. *)
Definition survives s (k j : K) : bool :=
  match m_object s !! k, owner j with Some (Some a), Some o => (level a <? level o)%nat | _, _ => true end.

(** Move assignment; of a pointer to itself, it is a reset. *)
Lemma assign_move_run E F s k j p q :
  Inv E F s → m_object s !! k = Some p → m_object s !! j = Some q → fits k q = true → survives s k j = true →
  ∃ s' dead, sp_assign_move k j s = Ok (tt, s') ∧ Inv E F s' ∧
    m_object s' !! k = Some (if decide (k = j) then nullptr else q) ∧ (k ≠ j → m_object s' !! j = Some nullptr) ∧
    frame {[k; j]} s s' dead ∧ (∀ x, x ∈ dead → ∃ a, p = Some a ∧ (level x <= level a)%nat).
Proof.
  intros I Ek Ej Ft Sv. destruct (reset_run E F s k p nullptr I Ek) as (s1 & dead & R1 & I1 & E1 & F1 & L1);
    [done|unfold fits; by destruct (owner k)|]. simpl in I1. rewrite difference_empty_L in I1.
  set (q' := if decide (k = j) then nullptr else q).
  assert (m_object s1 !! j = Some q') as Ej1.
  { unfold q'. destruct (decide (k = j)) as [<-|Hne]; [done|]. rewrite <-Ej.
    destruct (frame_object _ _ _ _ F1 j) as [Q|[_ (o & Ho & Hd)]]; [set_solver|done|].
    destruct (L1 o Hd) as (a & -> & La). unfold survives in Sv. rewrite Ek, Ho in Sv. apply Nat.ltb_lt in Sv. lia. }
  destruct (sp_release_run E F s1 j q' I1 Ej1) as [R2 I2]. set (s2 := mkHeap _ _ _) in *.
  assert (m_object s2 !! k = Some nullptr) as Ek2.
  { simpl. destruct (decide (k = j)) as [<-|Hne]; [apply lookup_insert_eq|]. by rewrite lookup_insert_ne. }
  destruct (adopt_run E F s2 k q' I2 Ek2) as [R3 I3].
  { unfold q'. destruct (decide (k = j)); [|done]. unfold fits. by destruct (owner k). }
  eexists _, dead. split_and!; [|exact I3|apply lookup_insert_eq| | |done].
  - unfold sp_assign_move. by rewrite (bind_Ok _ _ _ _ _ R1), (bind_Ok _ _ _ _ _ R2).
  - intros Hne. simpl. rewrite lookup_insert_ne by done. apply lookup_insert_eq.
  - set (s3 := mkHeap _ _ _). assert (frame ({[k]} ∪ {[k; j]}) s s3 (dead ++ [])) as Q.
    { eapply heap_frame_trans; [exact F1|]. apply frame_same; [done..|]. intros i Hi. simpl.
      by rewrite !lookup_insert_ne by set_solver. }
    rewrite app_nil_r in Q. eapply frame_weaken; [exact Q|]. set_solver.
Qed.

Lemma begin_members_lookup (l : list K) (m : gmap K ptr) k :
  begin_members l m !! k = if decide (k ∈ l) then Some nullptr else m !! k.
Proof.
  induction l as [|j l IH]; [by destruct (decide (k ∈ [])) as [?%elem_of_nil|]|]. cbn [begin_members].
  destruct (decide (k = j)) as [->|Hne]; [rewrite lookup_insert_eq, decide_True; [done|set_solver]|].
  rewrite lookup_insert_ne, IH by done. destruct (decide (k ∈ l)); [rewrite decide_True by set_solver|rewrite decide_False by set_solver]; done.
Qed.

Lemma new_object_run E F s a f :
  Inv E F s → m_count s !! a = None →
  ∃ s', new_object a f s = Ok (tt, s') ∧ Inv E ({[a]} ∪ F) s' ∧ m_count s' = <[a:=0%Z]> (m_count s) ∧
    contents s' = f (contents s) ∧
    (∀ k, m_object s' !! k = if decide (owner k = Some a) then Some nullptr else m_object s !! k).
Proof.
  intros I Ea. eexists. split; [reflexivity|].
  assert (∀ k, begin_members (members a) (m_object s) !! k = if decide (owner k = Some a) then Some nullptr else m_object s !! k) as Q.
  { intros k. rewrite begin_members_lookup. destruct (decide (k ∈ members a)) as [Hm|Hm]; rewrite members_owner in Hm;
      [by rewrite decide_True|by rewrite decide_False]. }
  assert (∀ k, owner k = Some a → m_object s !! k = None) as Na.
  { intros k Hk. apply eq_None_not_Some. intros Hs%(inv_owner _ _ _ _ _ I k a Hk). rewrite Ea in Hs. by destruct Hs. }
  assert (∀ k b, begin_members (members a) (m_object s) !! k = Some (Some b) ↔ m_object s !! k = Some (Some b)) as Qs.
  { intros k b. rewrite Q. destruct (decide (owner k = Some a)) as [Hk|]; [|done]. by rewrite (Na k Hk). }
  assert (∀ b, pointers ∅ b (begin_members (members a) (m_object s)) = pointers ∅ b (m_object s)) as Qp.
  { intros b. apply pointers_ext. intros k. by rewrite Qs. }
  assert (∀ b, is_Some (m_count s !! b) → b ≠ a) as Nb by (intros b Hb ->; rewrite Ea in Hb; by destruct Hb).
  split; [|done]. split; simpl.
  - intros b c. rewrite Qp, lookup_insert_Some. intros [[<- <-]|[Hne Hb]]; [|by apply (inv_count _ _ _ _ _ I)].
    assert (multiplicity a E = 0%nat) as ->.
    { destruct (decide (a ∈ E)) as [Ha%(inv_held _ _ _ _ _ I)|Ha]; [rewrite Ea in Ha; by destruct Ha|].
      rewrite elem_of_multiplicity in Ha. lia. }
    assert (pointers ∅ a (m_object s) = 0%nat) as ->; [|unfold size_max; lia].
    unfold pointers. apply map_size_empty_iff, map_empty. intros k. apply map_lookup_filter_None. right. intros p Hk [_ Hp]. simpl in Hp. subst p.
    apply (inv_live _ _ _ _ _ I) in Hk; [|set_solver]. rewrite Ea in Hk. by destruct Hk.
  - intros k b Hk. rewrite Qs. intros Ek. rewrite lookup_insert_is_Some'. right. by apply (inv_live _ _ _ _ _ I k).
  - intros b Hb. rewrite lookup_insert_is_Some'. right. by apply (inv_held _ _ _ _ _ I).
  - intros k o b Ho. rewrite Qs. by apply (inv_level _ _ _ _ _ I).
  - intros k o Ho. rewrite Q, lookup_insert_is_Some'. destruct (decide (owner k = Some a)) as [Hk|Hk]; [left; congruence|].
    intros Hs. right. by apply (inv_owner _ _ _ _ _ I k).
  - intros k o Ho Hx. rewrite Q, lookup_insert_is_Some'. destruct (decide (owner k = Some a)) as [Hk|Hk]; [eauto|].
    intros [->|Hs]; [by destruct Hk|]. by apply (inv_members _ _ _ _ _ I k o).
  - intros b. rewrite lookup_insert_Some. intros [[<- _]|[Hne Hb]]; [set_solver|].
    apply (inv_used _ _ _ _ _ I) in Hb. set_solver.
Qed.

(** Construction from another pointer is construction from what it points to. *)
Lemma sp_copy_eq k j (s : Heap K S) p : m_object s !! j = Some p → sp_copy k j s = sp_construct k p s.
Proof. intros Ej. unfold sp_copy. by rewrite (bind_Ok _ _ _ _ _ (get_run s j p Ej)). Qed.

Lemma sp_assign_eq k j (s : Heap K S) p : m_object s !! j = Some p → sp_assign k j s = sp_assign_object k p s.
Proof. intros Ej. unfold sp_assign. by rewrite (bind_Ok _ _ _ _ _ (get_run s j p Ej)). Qed.
End Laws.

(** ** The system: a program that makes and uses objects *)

Module Program.
Section System.
Context `{Config} {K S : Type} `{Countable K} `{!Objects K S}.

Abbreviation Inv := (inv ∅ ∅).

(** With the uses that are not shared pointers, and the objects not used yet. *)
Record System := mkSystem { heap : Heap K S; holds : gmultiset addr; fresh : gset addr }.

Definition on_heap {A} (m : M (Heap K S) A) : M System A := λ s,
  match m (heap s) with Ok (a, h) => Ok (a, mkSystem h (holds s) (fresh s)) | Fault e => Fault e end.

Inductive label :=
| New (a : addr) (f : S → S)          (** [new T] *)
| Used (a : addr) | Unused (a : addr)
| Construct (k : K) (p : ptr)         (** [SharedPointer k(p)] *)
| Copy (k j : K) | Move (k j : K)     (** [SharedPointer k(j)], of [j] and of [std::move(j)] *)
| Assign (k : K) (p : ptr)            (** [k = p], [k.reset(p)] *)
| AssignCopy (k j : K) | AssignMove (k j : K)
| Release (k : K)
| End (k : K).                        (** the end of the scope of [k] *)

Definition begun (k : K) (s : System) : bool := bool_decide (is_Some (m_object (heap s) !! k)).
Definition variable (k : K) : bool := bool_decide (owner k = None).
Definition target (k : K) (s : System) : ptr := default nullptr (m_object (heap s) !! k).

(** What a program may do: objects that are used exist, and their counts do not
    overflow; only variables are begun and ended. *)
Definition enabled (l : label) (s : System) : bool :=
  match l with
  | New a f => bool_decide (m_count (heap s) !! a = None)
  | Used a => usable (heap s) (Some a)
  | Unused a => bool_decide (a ∈ holds s)
  | Construct k p => variable k && negb (begun k s) && usable (heap s) p
  | Copy k j => variable k && negb (begun k s) && begun j s && usable (heap s) (target j s)
  | Move k j => variable k && negb (begun k s) && begun j s
  | Assign k p => begun k s && usable (heap s) p && fits k p
  | AssignCopy k j => begun k s && begun j s && usable (heap s) (target j s) && fits k (target j s)
  | AssignMove k j => begun k s && begun j s && fits k (target j s) && survives (heap s) k j
  | Release k => begun k s
  | End k => variable k && begun k s
  end.

Definition hold_more (p : ptr) : M System unit := modify (λ s, mkSystem (heap s) (holds s ⊎ hold p) (fresh s)).
Definition hold_less (a : addr) : M System unit := modify (λ s, mkSystem (heap s) (holds s ∖ {[+ a +]}) (fresh s)).
Definition not_fresh (p : ptr) : M System unit := modify (λ s, mkSystem (heap s) (holds s) (fresh s ∖ uses p)).

Definition step (l : label) : M System unit :=
  match l with
  | New a f => on_heap (new_object a f);; modify (λ s, mkSystem (heap s) (holds s) ({[a]} ∪ fresh s))
  | Used a => on_heap (used a);; hold_more (Some a);; not_fresh (Some a)
  | Unused a => on_heap (unused a);; hold_less a
  | Construct k p => on_heap (sp_construct k p);; not_fresh p
  | Copy k j => p ← gets (target j); on_heap (sp_copy k j);; not_fresh p
  | Move k j => on_heap (sp_move k j)
  | Assign k p => on_heap (sp_assign_object k p);; not_fresh p
  | AssignCopy k j => p ← gets (target j); on_heap (sp_assign k j);; not_fresh p
  | AssignMove k j => on_heap (sp_assign_move k j)
  | Release k => p ← on_heap (release k); hold_more p
  | End k => on_heap (sp_destroy k)
  end.

Definition init (c : S) : System := mkSystem (mkHeap ∅ ∅ c) ∅ ∅.

Definition good (s : System) : Prop := Inv (holds s) (fresh s) (heap s).

Lemma sharing_init_good c : good (init c).
Proof.
  split; simpl; [|set_solver|multiset_solver| | | |]; intros *; rewrite ?lookup_empty; try done.
Qed.

Lemma on_heap_run {A} (m : M (Heap K S) A) s a h :
  m (heap s) = Ok (a, h) → on_heap m s = Ok (a, mkSystem h (holds s) (fresh s)).
Proof. unfold on_heap. by intros ->. Qed.

Lemma begun_target k (s : System) : begun k s = true → m_object (heap s) !! k = Some (target k s).
Proof. intros [p Ep]%bool_decide_eq_true. unfold target. by rewrite Ep. Qed.

Lemma not_begun k (s : System) : negb (begun k s) = true → m_object (heap s) !! k = None.
Proof. intros B%negb_true_iff%bool_decide_eq_false. by apply eq_None_not_Some. Qed.

Lemma move_run E F (s : Heap K S) k j q :
  Inv E F s → m_object s !! k = None → owner k = None → m_object s !! j = Some q →
  ∃ s' dead, sp_move k j s = Ok (tt, s') ∧ Inv E F s' ∧ m_object s' !! k = Some q ∧ m_object s' !! j = Some nullptr ∧
    frame {[k; j]} s s' dead.
Proof.
  intros I Ek Ho Ej. assert (k ≠ j) as Hne by congruence. set (s1 := mkHeap (m_count s) (<[k:=nullptr]> (m_object s)) (contents s)).
  assert (Inv E F s1) as I1.
  { apply begin_inv; [simpl; by rewrite gmultiset_disj_union_right_id|done|set_solver|done]. }
  destruct (assign_move_run E F s1 k j nullptr q I1) as (s2 & dead & R & I2 & E2 & E3 & F2 & _);
    [apply lookup_insert_eq|simpl; by rewrite lookup_insert_ne|unfold fits; by rewrite Ho|unfold survives; simpl; by rewrite lookup_insert_eq|].
  rewrite decide_False in E2 by done. exists s2, ([] ++ dead). split_and!; [exact R|done..|by apply E3|].
  assert (frame ({[k]} ∪ {[k; j]}) s s2 ([] ++ dead)) as Q.
  { eapply heap_frame_trans; [|exact F2]. apply frame_same; [done..|]. intros i Hi. simpl. apply lookup_insert_ne. set_solver. }
  eapply frame_weaken; [exact Q|]. set_solver.
Qed.

Lemma hold_move (E : gmultiset addr) a : a ∈ E → E = (E ∖ {[+ a +]}) ⊎ {[+ a +]}.
Proof. intros Ha. apply gmultiset_eq. intros x. rewrite multiplicity_disj_union, multiplicity_difference.
  rewrite elem_of_multiplicity in Ha. rewrite multiplicity_singleton. destruct (decide (x = a)) as [->|]; lia. Qed.

Lemma sharing_step_good l s : good s → enabled l s = true → ∃ s', step l s = Ok (tt, s') ∧ good s'.
Proof.
  intros I E. destruct l as [a f|a|a|k p|k j|k j|k p|k j|k j|k|k]; simpl in E;
    repeat match goal with Q : _ && _ = true |- _ => apply andb_true_iff in Q as [Q ?] end;
    repeat match goal with
      | Q : variable _ = true |- _ => apply bool_decide_eq_true in Q
      | Q : negb (begun _ _) = true |- _ => apply not_begun in Q
      | Q : begun _ _ = true |- _ => apply begun_target in Q
      end.
  - apply bool_decide_eq_true in E. destruct (new_object_run _ _ _ a f I E) as (h & R & I' & _).
    simpl. rewrite (bind_Ok _ _ _ _ _ (on_heap_run _ _ _ _ R)). by eexists.
  - unfold usable in E. destruct (m_count (heap s) !! a) as [c|] eqn:Ea; [|done]. apply Z.ltb_lt in E.
    destruct (used_run _ _ _ _ _ a c I Ea E) as [R I'].
    simpl. rewrite (bind_Ok _ _ _ _ _ (on_heap_run _ _ _ _ R)). by eexists.
  - apply bool_decide_eq_true in E. assert (Inv ((holds s ∖ {[+ a +]}) ⊎ {[+ a +]}) (fresh s) (heap s)) as I1 by by rewrite <-hold_move.
    destruct (unused_run _ _ _ a I1) as (b & h & dead & R & I' & _).
    simpl. rewrite (bind_Ok _ _ _ _ _ (on_heap_run _ _ _ _ R)). by eexists.
  - destruct (sp_construct_run _ _ _ k p I) as (h & R & I' & _); [done..|].
    simpl. rewrite (bind_Ok _ _ _ _ _ (on_heap_run _ _ _ _ R)). by eexists.
  - destruct (sp_construct_run _ _ _ k (target j s) I) as (h & R & I' & _); [done..|]. erewrite <-sp_copy_eq in R by done.
    simpl. erewrite bind_Ok by reflexivity. rewrite (bind_Ok _ _ _ _ _ (on_heap_run _ _ _ _ R)). by eexists.
  - destruct (move_run _ _ _ k j (target j s) I) as (h & dead & R & I' & _); [done..|].
    simpl. rewrite (on_heap_run _ _ _ _ R). by eexists.
  - destruct (reset_run _ _ _ k (target k s) p I) as (h & dead & R & I' & _); [done..|].
    simpl. rewrite (bind_Ok _ _ _ _ _ (on_heap_run _ _ _ _ R)). by eexists.
  - destruct (reset_run _ _ _ k (target k s) (target j s) I) as (h & dead & R & I' & _); [done..|].
    change (sp_assign_object k (target j s) (heap s) = Ok ((), h)) in R. erewrite <-sp_assign_eq in R by done.
    simpl. erewrite bind_Ok by reflexivity. rewrite (bind_Ok _ _ _ _ _ (on_heap_run _ _ _ _ R)). by eexists.
  - destruct (assign_move_run _ _ _ k j (target k s) (target j s) I) as (h & dead & R & I' & _); [done..|].
    simpl. rewrite (on_heap_run _ _ _ _ R). by eexists.
  - destruct (sp_release_run _ _ _ k (target k s) I) as [R I']; [done|].
    simpl. rewrite (bind_Ok _ _ _ _ _ (on_heap_run _ _ _ _ R)). by eexists.
  - destruct (destroy_run _ _ _ k (target k s) I) as (h & dead & R & I' & _); [done..|].
    simpl. rewrite (on_heap_run _ _ _ _ R). by eexists.
Qed.
End System.
End Program.

(** ** Properties *)

Import Program.

Section Properties.
Context `{Config} {K S : Type} `{Countable K} `{!Objects K S}.

(** C10: a program uses shared pointers to objects that own others, of a smaller level, so there
    are no cycles ([fits]), and does not move from a member of what may be deleted by that
    ([survives]; see [move_from_member]).  Then no step touches an object or a pointer that does
    not exist any more, and deleting an object never fails; the count of an object is the
    number of pointers to it and of other uses, no pointer dangles, and an object that was
    used and is not any more does not exist. *)
Theorem shared_pointers (ls : list (label (K := K) (S := S))) (c : S) :
  legal enabled step ls (init c) →
  ∃ s : System (K := K) (S := S), run step ls (init c) = Ok (tt, s) ∧
    (∀ a n, m_count (heap s) !! a = Some n → n = Z.of_nat (pointers ∅ a (m_object (heap s)) + multiplicity a (holds s))) ∧
    (∀ k a, m_object (heap s) !! k = Some (Some a) → is_Some (m_count (heap s) !! a)) ∧
    (∀ a, a ∉ fresh s → pointers ∅ a (m_object (heap s)) = 0%nat → a ∉ holds s → m_count (heap s) !! a = None).
Proof.
  intros Lg. destruct (run_always _ _ good ls _ sharing_step_good (sharing_init_good c) Lg) as (s & R & I). exists s. split_and!; [done|..].
  - intros a n Ha. by apply (inv_count _ _ _ _ _ I).
  - intros k a Ek. apply (inv_live _ _ _ _ _ I k); [set_solver|done].
  - intros a Hf Hp Hh. destruct (m_count (heap s) !! a) as [n|] eqn:Ea; [|done]. exfalso.
    destruct (inv_count _ _ _ _ _ I a n Ea) as [-> _]. apply Hf. rewrite elem_of_multiplicity in Hh.
    rewrite Hp in Ea. replace (multiplicity a (holds s)) with 0%nat in Ea by lia.
    apply (inv_used _ _ _ _ _ I) in Ea. set_solver.
Qed.
End Properties.

(** ** Examples: lists of objects *)

Module Example.

(** Variables, and the member [next] of an object; an object's [next] has a smaller
    number.  The destructors are logged. *)
Inductive place := Var (x : positive) | Next (a : addr).

#[export] Instance place_eq_dec : EqDecision place.
Proof. solve_decision. Defined.

#[export] Program Instance place_countable : Countable place := {|
  encode p := match p with Var x => xO x | Next a => xI a end;
  decode n := match n with xO x => Some (Var x) | xI a => Some (Next a) | xH => None end
|}.
Next Obligation. by intros []. Qed.

Definition place_owner (p : place) : option addr := match p with Var _ => None | Next a => Some a end.
Definition place_members (a : addr) : list place := [Next a].

Lemma place_members_owner k a : k ∈ place_members a ↔ place_owner k = Some a.
Proof. unfold place_members. rewrite list_elem_of_singleton. destruct k; simpl; naive_solver. Qed.

Lemma place_members_nodup a : NoDup (place_members a).
Proof. apply NoDup_singleton. Qed.

#[export] Instance list_objects : Objects place (list addr) := {|
  owner := place_owner; members := place_members; level := Pos.to_nat; destructor a l := l ++ [a];
  members_owner := place_members_owner; members_nodup := place_members_nodup
|}.

(** Three objects in a list, the second also used by another variable. *)
Definition make_list : list (label (K := place) (S := list addr)) :=
  [New 1 id; New 2 id; New 3 id; Construct (Var 1) (Some 3); Assign (Next 3) (Some 2); Assign (Next 2) (Some 1);
   Copy (Var 2) (Next 3)]%positive.

(** The outcome of [ls], after it was checked that it is legal. *)
Definition outcome_of `{Config} (ls : list (label (K := place) (S := list addr))) : bool * option fault * list addr :=
  match run step ls (init []) with
  | Ok (_, s) => (legalb enabled step ls (init []), None, contents (heap s))
  | Fault e => (legalb enabled step ls (init []), Some e, [])
  end.
End Example.

Import Example.

Lemma shared_pointers_witness :
  let _ := debug_config in
  outcome_of (make_list ++ [End (Var 1)]) = (true, None, [3%positive]) ∧
  outcome_of (make_list ++ [AssignMove (Var 1) (Var 2); Used 2; End (Var 1); Unused 2]) = (true, None, [3; 1; 2]%positive) ∧
  ∃ s, run step (make_list ++ [End (Var 1); End (Var 2)]) (init []) = Ok (tt, s) ∧ m_count (heap s) !! 1%positive = None.
Proof.
  intros cfg. split; [vm_compute; reflexivity|]. split; [vm_compute; reflexivity|].
  destruct (shared_pointers (H := cfg) (make_list ++ [End (Var 1); End (Var 2)]) []) as (s & R & _ & _ & Q);
    [apply legalb_legal; vm_compute; reflexivity|].
  exists s. split; [exact R|]. apply Q.
  - vm_compute in R. injection R as <-. vm_compute. intuition discriminate.
  - vm_compute in R. injection R as <-. vm_compute. reflexivity.
  - vm_compute in R. injection R as <-. rewrite elem_of_multiplicity. vm_compute. inversion 1.
Defined.

(** Moving a shared pointer to itself drops the object, and so does its last use. *)
Lemma self_move_drops `{Config} {K S : Type} `{Countable K} `{!Objects K S} E F (s : Heap K S) k p :
  inv ∅ ∅ E F s → m_object s !! k = Some p →
  ∃ s', sp_assign_move k k s = Ok (tt, s') ∧ m_object s' !! k = Some nullptr.
Proof.
  intros I Ek. destruct (assign_move_run E F s k k p p I) as (s' & dead & R & _ & E' & _); [done..| | |].
  - by apply (inv_fits ∅ ∅ E F s).
  - unfold survives. rewrite Ek. destruct p as [a|]; [|done]. destruct (owner k) as [o|] eqn:Ho; [|done].
    apply Nat.ltb_lt. by apply (inv_level _ _ _ _ _ I k).
  - exists s'. split; [done|]. by rewrite decide_True in E'.
Qed.

(** [p = p->next] leaves out the head of a list; [p = std::move(p->next)] deletes the
    head, and [next] with it, before it reads it. *)
Lemma move_from_member :
  let _ := debug_config in
  let head := [New 1 id; New 2 id; Construct (Var 1) (Some 2); Assign (Next 2) (Some 1)]%positive in
  outcome_of (head ++ [AssignCopy (Var 1) (Next 2)]%positive) = (true, None, [2%positive]) ∧
  (run step (head ++ [AssignMove (Var 1) (Next 2)]%positive) (init []) = Fault NullDeref).
Proof. split; vm_compute; reflexivity. Qed.
