(* ===== verification/Async.v ===== *)
(** * Asynchronous calls (libzth/async.h)

    A [TypedFiber] calls a function and puts what it returns or throws in the future
    that is registered with it.  It is reference counted: the worker uses it until it is
    dead, and so do the [fiber_type]s that a program has of it; the future is used by
    the fiber and by those who wait for it.  [joiner] waits for fibers and futures.
    Shared pointers are those of Shared.v, fibers those of Fiber.v, futures those of
    Sync.v, gates those of Mailbox.v.  A fiber that ran its function is one step here;
    between its switches, the steps of others can be taken.  The gate of a joiner is on the
    stack of the fiber that joins, and goes when that one is deleted ([free_stack]). *)

From stdpp Require Import functions base gmap gmultiset list.
From Stdlib Require Import ZArith Lia.
From S2P Require Import Prelude Time Hook Fiber Sync Mailbox Shared.

(** ** Data *)

(** The shared pointers: variables ([fiber_type] and references to futures), the local
    [f] of [operator*] when the fiber [c] runs it, and [m_future] of a typed fiber. *)
Inductive place := Var (x : positive) | Local (c : addr) | Future_of (a : addr).

#[export] Instance place_eq_dec : EqDecision place.
Proof. solve_decision. Defined.

Definition place_encode (p : place) : positive :=
  match p with Var x => xO x | Local c => xI (xO c) | Future_of a => xI (xI a) end.
Definition place_decode (n : positive) : option place :=
  match n with xO x => Some (Var x) | xI (xO c) => Some (Local c) | xI (xI a) => Some (Future_of a) | _ => None end.
Lemma place_decode_encode p : place_decode (place_encode p) = Some p.
Proof. by destruct p. Qed.

#[export] Instance place_countable : Countable place :=
  {| encode := place_encode; decode := place_decode; decode_encode := place_decode_encode |}.

(** An object is a typed fiber or a future: fibers have odd addresses here. *)
Definition is_fiber (a : addr) : bool := match a with xO _ => false | _ => true end.

(** What the objects hold, the gates of the joiners and the fibers on the stack of which they
    are, the fibers of the worker, and the [m_join] hooks of all joiners, newest first: the
    gate of the joiner, the future. *)
Record World {V : Type} := mkWorld {
  fibers : gmap addr Fiber;
  futures : gmap addr (Obj (Optional V));
  gates : gmap addr (Obj Gate.Counts);
  on_stack : gmap addr addr;
  runnable : list addr;
  m_join : list (addr * addr);
  failed : option fault     (** a destructor or a hook could not go on *)
}.
Arguments World : clear implicits.
Arguments mkWorld {V}.

Section World.
Context {V : Type}.
Implicit Types w : World V.

Definition with_fibers (x : gmap addr Fiber) w : World V := mkWorld x (futures w) (gates w) (on_stack w) (runnable w) (m_join w) (failed w).
Definition with_futures x w : World V := mkWorld (fibers w) x (gates w) (on_stack w) (runnable w) (m_join w) (failed w).
Definition with_gates x w : World V := mkWorld (fibers w) (futures w) x (on_stack w) (runnable w) (m_join w) (failed w).
Definition with_stacks x w : World V := mkWorld (fibers w) (futures w) (gates w) x (runnable w) (m_join w) (failed w).
Definition with_runnable x w : World V := mkWorld (fibers w) (futures w) (gates w) (on_stack w) x (m_join w) (failed w).
Definition with_join x w : World V := mkWorld (fibers w) (futures w) (gates w) (on_stack w) (runnable w) x (failed w).
Definition with_failed e w : World V := mkWorld (fibers w) (futures w) (gates w) (on_stack w) (runnable w) (m_join w) (Some e).
End World.

(** ** Destructors *)

(** [&passOnExit::atExit]; its argument is the gate. *)
Definition pass_hook : positive := 1.

Section Objects.
Context `{Config} {V : Type}.

(** [passOnExit::atExit], the only hook here. *)
Definition call_hook (h : Hookable) (w : World V) : World V :=
  match arg h with
  | Some g =>
      match gates w !! g with
      | Some o => match Gate.pass o with Ok (_, o) => with_gates (<[g:=o]> (gates w)) w | Fault e => with_failed e w end
      | None => with_failed NullDeref w
      end
  | None => with_failed NullDeref w
  end.

Definition call_hooks (l : Hook) (w : World V) : World V := fst (hook_once (λ h w, (call_hook h w, [])) (w, l)).

(** [context_destroy]: the stack of the fiber [a] is freed, and with it a joiner that is on
    it; its destructor is not called. *)
Definition free_stack (a : addr) (w : World V) : World V :=
  with_gates (filter (λ x, on_stack w !! x.1 ≠ Some a) (gates w)) (with_join (filter (λ p, on_stack w !! p.1 ≠ Some a) (m_join w)) w).

(** The destructor of a typed fiber, after that of [m_future]: that of [Fiber]. *)
Definition destroy_fiber (a : addr) (w : World V) : World V :=
  match fibers w !! a with
  | Some f =>
      match destruct_fiber f w with
      | Ok ((calls, _), _) => free_stack a (call_hooks calls (with_fibers (delete a (fibers w)) w))
      | Fault e => with_failed e w
      end
  | None => with_failed NullDeref w
  end.

Definition async_owner (k : place) : option addr :=
  match k with Future_of a => if is_fiber a then Some a else None | _ => None end.
Definition async_members (a : addr) : list place := if is_fiber a then [Future_of a] else [].
Definition async_level (a : addr) : nat := if is_fiber a then 1 else 0.
Definition async_destructor (a : addr) (w : World V) : World V :=
  if is_fiber a then destroy_fiber a w else with_futures (delete a (futures w)) w.

Lemma async_members_owner k a : k ∈ async_members a ↔ async_owner k = Some a.
Proof.
  unfold async_members. destruct (is_fiber a) eqn:Fa.
  - rewrite list_elem_of_singleton. split; [intros ->; simpl; by rewrite Fa|].
    destruct k as [| |b]; simpl; try done. destruct (is_fiber b); naive_solver.
  - rewrite elem_of_nil. destruct k as [| |b]; simpl; try done. destruct (is_fiber b) eqn:Fb; naive_solver congruence.
Qed.

Lemma async_members_nodup a : NoDup (async_members a).
Proof. unfold async_members. destruct (is_fiber a); [apply NoDup_singleton|constructor]. Qed.

#[export] Instance async_objects : Objects place (World V) := {|
  owner := async_owner; members := async_members; level := async_level; destructor := async_destructor;
  members_owner := async_members_owner; members_nodup := async_members_nodup
|}.
End Objects.

(** ** Typed fibers *)

Section Operations.
Context `{Config} {V : Type}.
(** The exception, and what the configuration says of new fibers. *)
Context (fiber_already_dead : addr) (min_timeslice dt_max : TimeInterval) (default_stack : Z).
Abbreviation Mem := (Heap place (World V)).

Definition on_world {A} (m : M (World V) A) : M Mem A := λ s,
  match m (contents s) with
  | Ok (a, w) => Ok (a, mkHeap (m_count s) (m_object s) w)
  | Fault e => Fault e
  end.

Definition fiber_at (a : addr) : M Mem Fiber := on_world (λ w,
  match fibers w !! a with Some f => Ok (f, w) | None => Fault NullDeref end).
Definition set_fiber (a : addr) (f : Fiber) : M Mem unit := on_world (modify (λ w, with_fibers (<[a:=f]> (fibers w)) w)).

(** A pointer that is followed. *)
Definition from_ptr {S : Type} (p : ptr) : M S addr := match p with Some a => mret a | None => fail NullDeref end.

Definition on_future {A} (f : addr) (m : M (Obj (Optional V)) A) : M Mem A := on_world (λ w,
  match futures w !! f with
  | Some o => match m o with Ok (a, o) => Ok (a, with_futures (<[f:=o]> (futures w)) w) | Fault e => Fault e end
  | None => Fault NullDeref
  end).

Definition on_gate {A} (g : addr) (m : M (Obj Gate.Counts) A) : M Mem A := on_world (λ w,
  match gates w !! g with
  | Some o => match m o with Ok (a, o) => Ok (a, with_gates (<[g:=o]> (gates w)) w) | Fault e => Fault e end
  | None => Fault NullDeref
  end).

Definition new_future (f : addr) : M Mem unit :=
  new_object f (λ w, with_futures (<[f:=mkObj [[]] [] (mkOpt None nullptr)]> (futures w)) w).

(** [setFuture], of a value or of an exception. *)
Definition setFuture (a : addr) (r : result V) : M Mem unit :=
  p ← get (Future_of a);
  match p with Some f => on_future f (Future.set r) | None => mret tt end.

Definition registerFuture (a future : addr) : M Mem unit :=
  reset (Future_of a) (Some future);;
  f ← fiber_at a;
  when (state_eqb (state f) Dead) (setFuture a (Rethrow fiber_already_dead)).

(** [withFuture]; [f] is the future it allocates. *)
Definition withFuture (a f : addr) : M Mem unit :=
  p ← get (Future_of a);
  match p with Some _ => mret tt | None => new_future f;; registerFuture a f end.

Definition future (a : addr) : M Mem ptr := get (Future_of a).

(** [entry] calls [entry_], which calls the function; [r] is what that returned or threw. *)
Definition entry (a : addr) (r : result V) : M Mem unit := setFuture a r.

(** [Fiber::fiberEntry_], from where the function is left. *)
Definition fiberEntry (a : addr) (r : result V) : M Mem unit :=
  entry a r;;
  f ← fiber_at a;
  let '(calls, f) := fiber_exit f in
  on_world (modify (call_hooks calls));;
  set_fiber a f.

(** [Fiber::kill]. *)
Definition kill_fiber (a : addr) : M Mem unit := f ← fiber_at a; set_fiber a (kill f).

(** [Worker::hatch]. *)
Definition hatch (a : addr) : M Mem unit :=
  f ← fiber_at a;
  zth_assert (state_eqb (state f) New);;
  used a;;
  on_world (modify (λ w, with_runnable (runnable w ++ [a]) w)).

(** [Worker::cleanup] of a fiber that is not the current one. *)
Definition cleanup (a : addr) : M Mem unit :=
  f ← fiber_at a;
  zth_assert (state_eqb (state f) Dead);;
  on_world (modify (λ w, with_runnable (filter (λ b, b ≠ a) (runnable w)) w));;
  unused a;; mret tt.

(** [TypedFiberFactory::operator()]: a new fiber, which is given to the worker. *)
Definition polish (a : addr) : M Mem unit := hatch a.
Definition factory_call (a : addr) : M Mem unit :=
  new_object a (λ w, with_fibers (<[a:=new_fiber min_timeslice dt_max default_stack]> (fibers w)) w);;
  polish a.

(** [zth::fiber(f, args...)]: the [fiber_type] that it returns is the variable [x]. *)
Definition fiber_call (a : addr) (x : positive) : M Mem unit :=
  factory_call a;; sp_construct (Var x) (Some a).

(** *** Manipulators *)

(** [operator<<] of [setStackSize]; [Some e] when it throws. *)
Definition set_stack (a : addr) (stack : Z) : M Mem (option Z) :=
  if (stack =? 0)%Z then mret None
  else
    f ← fiber_at a;
    let '(res, f) := setStackSize stack f in
    set_fiber a f;;
    mret (if (res =? 0)%Z then None else Some res).

Definition pass_on_exit (a g : addr) : M Mem unit := f ← fiber_at a; set_fiber a (atExit pass_hook (Some g) f).

(** [x << asFuture()], of which the result is the variable [y]. *)
Definition as_future (x y : positive) (f : addr) : M Mem unit :=
  a ← sp_deref (Var x);
  withFuture a f;;
  sr_from_pointer (Var y) (Future_of a).

(** [zth_fiber_create]; [alloc] is whether memory can be allocated.  No variable is
    left; the temporary one is [x]. *)
Definition zth_fiber_create (alloc : bool) (a : addr) (x : positive) (stack : Z) : M Mem Z :=
  if negb alloc then mret ENOMEM
  else
    fiber_call a x;;
    e ← set_stack a stack;
    sp_destroy (Var x);;
    mret (match e with Some e => e | None => 0%Z end).

(** *** [operator*] *)

(** Up to where the fiber [c] waits; [false] when it blocks. *)
Definition wait_local (c : addr) : M Mem bool := f ← sr_get (Local c); on_future f (Future.wait c).

Definition deref_start (c : addr) (x : positive) (f : addr) : M Mem bool :=
  a ← sp_deref (Var x);
  withFuture a f;;
  sr_from_pointer (Local c) (Future_of a);;
  wait_local c.

(** [**y] of a reference to a future. *)
Definition deref_future (c : addr) (y : positive) : M Mem bool := sr_copy (Local c) (Var y);; wait_local c.

Definition deref_finish (c : addr) : M Mem (result V) :=
  f ← sr_get (Local c);
  r ← on_future f Future.value;
  sp_destroy (Local c);;
  mret r.

(** *** [joiner] *)

(** The constructor, on the stack of the fiber [c]: the gate, for [n] fibers and futures and
    the joiner itself. *)
Definition joiner_new (c g : addr) (n : nat) : M Mem unit :=
  on_world (modify (λ w,
    with_gates (<[g:=mkObj [[]] [] (Gate.mkCounts (u64 (Z.of_nat n + 1)) 0)]> (gates w))
      (with_stacks (<[g:=c]> (on_stack w)) w))).

(** [joinable], of a fiber or of a future. *)
Definition joinable (x : positive) (g : addr) : M Mem addr :=
  a ← sp_deref (Var x);
  (if is_fiber a then pass_on_exit a g
   else used a;; on_world (modify (λ w, with_join ((g, a) :: m_join w) w)));;
  mret a.

Definition of_joiner (g : addr) (p : addr * addr) : bool := bool_decide (fst p = g).

(** The next hook of the joiner of [g]. *)
Definition next_join (g : addr) (w : World V) : option addr := snd <$> List.find (of_joiner g) (m_join w).

Fixpoint drop_join (g : addr) (l : list (addr * addr)) : list (addr * addr) :=
  match l with [] => [] | p :: l => if of_joiner g p then l else p :: drop_join g l end.

(** The hook of a future, called by [m_join.once]; [false] when it blocks. *)
Definition join_next (c g : addr) : M Mem bool :=
  n ← on_world (gets (next_join g));
  match n with
  | None => mret true
  | Some f =>
      b ← on_future f (Future.wait c);
      if b : bool then
        on_world (modify (λ w, with_join (drop_join g (m_join w)) w));;
        unused f;;
        on_gate g Gate.pass;;
        mret true
      else mret false
  end.

(** [m_gate.wait()], and the end of the joiner. *)
Definition joiner_wait (c g : addr) : M Mem bool := on_gate g (Gate.wait c).
Definition joiner_end (g : addr) : M Mem unit :=
  on_world (modify (λ w, with_gates (delete g (gates w)) (with_stacks (delete g (on_stack w)) w))).
End Operations.

(** ** The system: fibers that make asynchronous calls, wait for them and join them

    An address stands for one object: none is given out twice.  A fiber that is killed while
    it joins leaves a gate on its stack, which the exit hooks of others pass; when the worker
    deletes it, they would use what was freed.  That is not done here. *)

Section System.
Context `{Config} {V : Type}.
Context (fiber_already_dead : addr) (min_timeslice dt_max : TimeInterval) (default_stack : Z).
Abbreviation Mem := (Heap place (World V)).

(** Where a fiber is: in [operator*], for the result of the fiber [a] in the future [f];
    in [join], with the gate [g], the variables that are still to be added, and what
    was added. *)
Inductive Pc :=
| Idle
| Getting (a f : addr)
| Adding (g : addr) (xs : list positive) (ts : list addr)
| Joined (g : addr) (ts : list addr).

(** The gate of the joiner that a fiber has on its stack. *)
Definition gate_of (p : Pc) : option addr := match p with Adding g _ _ | Joined g _ => Some g | _ => None end.

(** The memory, where the fibers are, and what happened: the addresses that were used,
    the fibers of the futures, what their futures were given, what their functions
    returned, and the results of [operator*]: who got it, of which fiber. *)
Record System := mkAsync {
  mem : Mem; pcs : addr → Pc; ever : gset addr; origin : gmap addr addr;
  given : gmap addr (result V); returned : gmap addr (result V); results : list (addr * addr * result V)
}.

Inductive label :=
| Spawn (a : addr) (x : positive)            (** [auto x = zth::fiber(...)] *)
| Deref (c : addr) (x : positive) (f : addr) (** [*x], by the fiber [c] *)
| AsFuture (x y : positive) (f : addr)       (** [auto y = x << asFuture()] *)
| DerefFuture (c : addr) (y : positive)      (** [*y] of a future *)
| Get (c : addr)                             (** [operator*] returns *)
| Finish (a : addr) (r : result V)           (** the function of [a] returns, or throws *)
| Kill (a : addr) | Cleanup (a : addr)
| End (x : positive)                         (** the end of the scope of [x] *)
| Join (c g : addr) (xs : list positive)     (** [join(xs...)] *)
| Add (c : addr) | Next (c : addr) | Wait (c : addr) | Leave (c : addr).

Definition world (s : System) : World V := contents (mem s).
Definition target (k : place) (s : System) : ptr := default nullptr (m_object (mem s) !! k).
Definition begun (x : positive) (s : System) : bool := bool_decide (is_Some (m_object (mem s) !! Var x)).
Definition refers (fiber : bool) (x : positive) (s : System) : bool :=
  match target (Var x) s with Some a => Bool.eqb (is_fiber a) fiber | None => false end.
Definition is_new (fiber : bool) (a : addr) (s : System) : bool := Bool.eqb (is_fiber a) fiber && bool_decide (a ∉ ever s).
Definition is_idle (c : addr) (s : System) : bool := match pcs s c with Idle => true | _ => false end.

Definition waits_for (c f : addr) (w : World V) : bool :=
  match futures w !! f with Some o => bool_decide (c ∈ default [] (queues o !! 0)) | None => false end.
Definition waits_at (c g : addr) (w : World V) : bool :=
  match gates w !! g with Some o => bool_decide (c ∈ default [] (queues o !! 0)) | None => false end.

Definition state_of (a : addr) (s : System) : State := default Uninitialized (state <$> fibers (world s) !! a).

(** No count is at its maximum. *)
Definition room (s : System) : bool := bool_decide (map_Forall (λ _ n, (n < size_max)%Z) (m_count (mem s))).

(** The fiber that takes the step; it is neither dead nor deleted. *)
Definition actor (l : label) : option addr :=
  match l with
  | Deref c _ _ | DerefFuture c _ | Get c | Join c _ _ | Add c | Next c | Wait c | Leave c => Some c
  | _ => None
  end.
Definition lives (c : addr) (s : System) : bool :=
  match fibers (world s) !! c with Some f => negb (state_eqb (state f) Dead) | None => bool_decide (c ∉ ever s) end.

(** A fiber that blocks is not with the worker, so it is not cleaned up.  It may also not be
    when it was killed in a joiner: see [killed_joiner]. *)
Definition may_clean (a : addr) (s : System) : bool :=
  match pcs s a with Idle => true | Getting _ f => negb (waits_for a f (world s)) | _ => false end.

Definition enabled (l : label) (s : System) : bool :=
  room s && (match actor l with Some c => lives c s | None => true end) &&
  match l with
  | Spawn a x => is_new true a s && negb (begun x s)
  | Deref c x f => is_idle c s && refers true x s && is_new false f s
  | AsFuture x y f => refers true x s && is_new false f s && negb (begun y s)
  | DerefFuture c y => is_idle c s && refers false y s
  | Get c => match pcs s c with Getting a f => negb (waits_for c f (world s)) | _ => false end
  | Finish a r => negb (state_eqb (state_of a s) Dead) && negb (state_eqb (state_of a s) Uninitialized)
  | Kill a => negb (state_eqb (state_of a s) Uninitialized)
  | Cleanup a => state_eqb (state_of a s) Dead && bool_decide (a ∈ runnable (world s)) && may_clean a s
  | End x => begun x s
  | Join c g xs =>
      is_idle c s && bool_decide (gates (world s) !! g = None) && (Z.of_nat (length xs) + 1 <? 2 ^ 64)%Z
  | Add c => match pcs s c with Adding g (x :: xs) ts => negb (ptr_eqb (target (Var x) s) nullptr) | _ => false end
  | Next c =>
      match pcs s c with
      | Adding g [] ts => match next_join g (world s) with Some f => negb (waits_for c f (world s)) | None => false end
      | _ => false
      end
  | Wait c => match pcs s c with Adding g [] ts => ptr_eqb (next_join g (world s)) nullptr | _ => false end
  | Leave c => match pcs s c with Joined g ts => negb (waits_at c g (world s)) | _ => false end
  end.

(** A destructor that cannot go on ends the program. *)
Definition on_mem {A} (m : M Mem A) : M System A := λ s,
  match m (mem s) with
  | Ok (a, h) =>
      match failed (contents h) with
      | None => Ok (a, mkAsync h (pcs s) (ever s) (origin s) (given s) (returned s) (results s))
      | Some e => Fault e
      end
  | Fault e => Fault e
  end.

Definition goto (c : addr) (p : Pc) : M System unit :=
  modify (λ s, mkAsync (mem s) (<[c:=p]> (pcs s)) (ever s) (origin s) (given s) (returned s) (results s)).
Definition met (a : addr) : M System unit :=
  modify (λ s, mkAsync (mem s) (pcs s) ({[a]} ∪ ever s) (origin s) (given s) (returned s) (results s)).
Definition note_returned (a : addr) (r : result V) : M System unit :=
  modify (λ s, mkAsync (mem s) (pcs s) (ever s) (origin s) (given s) (<[a:=r]> (returned s)) (results s)).
Definition note_result (c a : addr) (r : result V) : M System unit :=
  modify (λ s, mkAsync (mem s) (pcs s) (ever s) (origin s) (given s) (returned s) (results s ++ [(c, a, r)])).

Definition opt_result (o : Optional V) : option (result V) :=
  match o_exception o with Some e => Some (Rethrow e) | None => Value <$> o_value o end.

(** What the future of [a] is, and what it was given. *)
Definition given_now (a : addr) (s : System) : option (addr * option (result V)) :=
  f ← target (Future_of a) s; o ← futures (world s) !! f; Some (f, opt_result (data o)).

Definition observe (a : addr) : M System unit := modify (λ s,
  match given_now a s with
  | Some (f, r) => mkAsync (mem s) (pcs s) (ever s) (<[f:=a]> (origin s))
                     (match r with Some r => <[a:=r]> (given s) | None => given s end) (returned s) (results s)
  | None => s
  end).

Definition step (l : label) : M System unit :=
  match l with
  | Spawn a x => on_mem (fiber_call min_timeslice dt_max default_stack a x);; met a
  | Deref c x f =>
      a ← gets (target (Var x)); a ← from_ptr a;
      on_mem (deref_start fiber_already_dead c x f);; met f;; observe a;;
      p ← gets (target (Local c)); f ← from_ptr p; goto c (Getting a f)
  | AsFuture x y f =>
      a ← gets (target (Var x)); a ← from_ptr a;
      on_mem (as_future fiber_already_dead x y f);; met f;; observe a
  | DerefFuture c y =>
      p ← gets (target (Var y)); f ← from_ptr p;
      on_mem (deref_future c y);;
      a ← gets (λ s, origin s !! f); a ← from_ptr a; goto c (Getting a f)
  | Get c =>
      p ← gets (λ s, pcs s c);
      match p with
      | Getting a f => r ← on_mem (deref_finish c); note_result c a r;; goto c Idle
      | _ => mret tt
      end
  | Finish a r => on_mem (fiberEntry a r);; note_returned a r;; observe a
  | Kill a => on_mem (kill_fiber a)
  | Cleanup a => on_mem (cleanup a)
  | End x => on_mem (sp_destroy (Var x))
  | Join c g xs => on_mem (joiner_new c g (length xs));; goto c (Adding g xs [])
  | Add c =>
      p ← gets (λ s, pcs s c);
      match p with
      | Adding g (x :: xs) ts => t ← on_mem (joinable x g); goto c (Adding g xs (t :: ts))
      | _ => mret tt
      end
  | Next c => p ← gets (λ s, pcs s c); match p with Adding g [] ts => on_mem (join_next c g);; mret tt | _ => mret tt end
  | Wait c =>
      p ← gets (λ s, pcs s c);
      match p with Adding g [] ts => on_mem (joiner_wait c g);; goto c (Joined g ts) | _ => mret tt end
  | Leave c =>
      p ← gets (λ s, pcs s c);
      match p with Joined g ts => on_mem (joiner_end g);; goto c Idle | _ => mret tt end
  end.

Definition init : System :=
  mkAsync (mkHeap ∅ ∅ (mkWorld ∅ ∅ ∅ ∅ [] [] None)) (λ _, Idle) ∅ ∅ ∅ ∅ [].
End System.

(** ** Counting hooks *)

Definition hooks_of (g : addr) (l : list Hookable) : nat := length (filter (λ h, arg h = Some g) l).

(** The exit hooks of all fibers that pass the gate [g]. *)
Definition pending (g : addr) (m : gmap addr Fiber) : nat := map_fold (λ _ f n, hooks_of g (exit_hook f) + n)%nat 0%nat m.

Definition joins_of (g : addr) (l : list (addr * addr)) : nat := length (filter (λ p, fst p = g) l).

Lemma pending_delete g m a f :
  m !! a = Some f → pending g m = (hooks_of g (exit_hook f) + pending g (delete a m))%nat.
Proof. intros E. unfold pending. rewrite (map_fold_delete_L _ _ a f m); [done| |done]. intros. lia. Qed.

Lemma pending_insert g m a f :
  pending g (<[a:=f]> m) = (hooks_of g (exit_hook f) + pending g (delete a m))%nat.
Proof. rewrite (pending_delete g (<[a:=f]> m) a f) by apply lookup_insert_eq. by rewrite delete_insert_eq. Qed.

Lemma pending_zero g m :
  (∀ t f, m !! t = Some f → ∀ k, k ∈ exit_hook f → arg k = Some g → False) → pending g m = 0%nat.
Proof.
  induction m as [|a f m Ea IH] using map_ind; intros Q; [apply map_fold_empty|].
  rewrite pending_insert, delete_id by done. rewrite IH.
  - assert (hooks_of g (exit_hook f) = 0%nat) as ->; [|done]. unfold hooks_of.
    rewrite filter_none; [done|]. intros k Hk Hg. by apply (Q a f (lookup_insert_eq _ _ _) k).
  - intros t f' Et. apply (Q t). rewrite lookup_insert_ne; [done|]. intros ->. congruence.
Qed.

Lemma hooks_of_in g l h : h ∈ l → arg h = Some g → (0 < hooks_of g l)%nat.
Proof.
  intros Hh Ha. unfold hooks_of. assert (h ∈ filter (λ h, arg h = Some g) l) as Q by by apply list_elem_of_filter.
  destruct (filter _ l); [by apply elem_of_nil in Q|simpl; lia].
Qed.

Lemma hooks_of_cons g h l : hooks_of g (h :: l) = (if decide (arg h = Some g) then S (hooks_of g l) else hooks_of g l).
Proof. unfold hooks_of. rewrite filter_cons. by destruct (decide _). Qed.

Lemma joins_of_cons g p l : joins_of g (p :: l) = (if decide (fst p = g) then S (joins_of g l) else joins_of g l).
Proof. unfold joins_of. rewrite filter_cons. by destruct (decide _). Qed.

(** ** The gates of joiners *)

Section Gates.
Context `{Config} {V : Type}.

(** The gate [g] of the fiber [c], when [hooks] fibers and [joins] futures are still to
    pass it. *)
Definition gate_ok (c : addr) (p : Pc) (hooks joins : nat) (o : Obj Gate.Counts) : Prop :=
  ∃ n cur w, (n < 2 ^ 64)%Z ∧ (0 <= cur)%Z ∧
  match p with
  | Adding _ xs _ => o = mkObj [[]] w (Gate.mkCounts n cur) ∧ (cur + Z.of_nat (hooks + joins + length xs + 1) = n)%Z
  | Joined _ _ => joins = 0%nat ∧
      match hooks with
      | O => o = mkObj [[]] w (Gate.mkCounts n 0)
      | S _ => o = mkObj [[c]] w (Gate.mkCounts n cur) ∧ (cur + Z.of_nat hooks = n)%Z
      end
  | _ => False
  end.

Record gates_ok (hooks : addr → nat) (l : list (addr * addr)) (gs : gmap addr (Obj Gate.Counts)) (ps : addr → Pc) : Prop := {
  gi_gate g o : gs !! g = Some o → ∃ c, gate_of (ps c) = Some g ∧ gate_ok c (ps c) (hooks g) (joins_of g l) o;
  gi_none g : gs !! g = None → hooks g = 0%nat ∧ joins_of g l = 0%nat;
  gi_pc c g : gate_of (ps c) = Some g → is_Some (gs !! g);
  gi_unique c c' g : gate_of (ps c) = Some g → gate_of (ps c') = Some g → c = c'
}.

Lemma gates_of_joiner hooks l gs ps c g o :
  gates_ok hooks l gs ps → gate_of (ps c) = Some g → gs !! g = Some o → gate_ok c (ps c) (hooks g) (joins_of g l) o.
Proof.
  intros G Hc Hg. destruct (gi_gate _ _ _ _ G g o Hg) as (c' & Hc' & Q). by rewrite (gi_unique _ _ _ _ G c c' g Hc Hc').
Qed.

(** A fiber or a future passes. *)
Lemma pass_ok c p hooks hooks' joins joins' o :
  gate_ok c p hooks joins o → (hooks + joins = S (hooks' + joins'))%nat → (joins' <= joins)%nat →
  match p with Joined _ _ => joins = joins' | _ => True end →
  ∃ b o', Gate.pass o = Ok (b, o') ∧ gate_ok c p hooks' joins' o'.
Proof.
  intros (n & cur & w & Hn & Hc & Q) E L Ej. destruct p as [| |g xs ts|g ts]; try done.
  - destruct Q as [-> Q]. rewrite Gate.pass_run by lia. rewrite bool_decide_eq_false_2 by lia. eexists _, _. split; [done|].
    exists n, (cur + 1)%Z, w. split; [done|]. split; [lia|]. split; [done|lia].
  - destruct Q as [-> Q]. destruct hooks as [|k]; [lia|]. destruct Q as [-> Q]. rewrite Gate.pass_run by lia.
    eexists _, _. split; [done|]. destruct joins' as [|]; [|done]. destruct hooks' as [|k'].
    + rewrite bool_decide_eq_true_2 by lia. exists n, 0%Z, (w ++ [c]). split_and!; [done..|lia|done|done].
    + rewrite bool_decide_eq_false_2 by lia. exists n, (cur + 1)%Z, w. split_and!; [done..|lia|done|done|lia].
Qed.

Lemma pass_gates hooks hooks' l l' gs ps g o :
  gates_ok hooks l gs ps → gs !! g = Some o →
  (∀ h, h ≠ g → hooks' h = hooks h ∧ joins_of h l' = joins_of h l) →
  (hooks g + joins_of g l = S (hooks' g + joins_of g l'))%nat → (joins_of g l' <= joins_of g l)%nat →
  (∀ c ts, ps c = Joined g ts → joins_of g l = joins_of g l') →
  ∃ b o', Gate.pass o = Ok (b, o') ∧ gates_ok hooks' l' (<[g:=o']> gs) ps.
Proof.
  intros G Eo Ne E L Ej. destruct (gi_gate _ _ _ _ G g o Eo) as (c & Hc & Q).
  destruct (pass_ok c (ps c) (hooks g) (hooks' g) (joins_of g l) (joins_of g l') o Q E L) as (b & o' & R & Q').
  { destruct (ps c) as [| |g' xs ts|g' ts] eqn:P; try done. injection Hc as ->. by apply (Ej c ts). }
  exists b, o'. split; [done|]. split.
  - intros h oh. rewrite lookup_insert_Some. intros [[<- <-]|[Hne Hh]]; [eauto|].
    destruct (Ne h) as [-> ->]; [done|]. by apply (gi_gate _ _ _ _ G).
  - intros h. rewrite lookup_insert_None. intros [Hh Hne]. destruct (Ne h) as [-> ->]; [done|]. by apply (gi_none _ _ _ _ G).
  - intros d h Hd. rewrite lookup_insert_is_Some'. right. by apply (gi_pc _ _ _ _ G d).
  - apply (gi_unique _ _ _ _ G).
Qed.

(** A hook that passes a gate. *)
Definition pass_of (h : Hookable) : Prop := ∃ g, h = mkHookable pass_hook (Some g).

(** The hooks of a fiber are called. *)
Lemma call_hooks_run calls ps hooks (w : World V) :
  gates_ok (λ g, hooks_of g calls + hooks g)%nat (m_join w) (gates w) ps → Forall pass_of calls →
  ∃ gs, call_hooks calls w = with_gates gs w ∧ gates_ok hooks (m_join w) gs ps ∧
    ∀ g, is_Some (gs !! g) → is_Some (gates w !! g).
Proof.
  unfold call_hooks, hook_once. simpl. rewrite hook_call_trace. simpl. intros G F. revert w G.
  induction F as [|h calls [g ->] F IH]; intros w G; simpl.
  - exists (gates w). split; [by destruct w|]. split; [exact G|done].
  - assert (is_Some (gates w !! g)) as [o Eo].
    { destruct (gates w !! g) eqn:Eo; [done|]. apply (gi_none _ _ _ _ G) in Eo as [Q _]. rewrite hooks_of_cons in Q.
      by rewrite decide_True in Q. }
    destruct (pass_gates _ (λ g, hooks_of g calls + hooks g)%nat (m_join w) (m_join w) (gates w) ps g o G Eo) as (b & o' & R & G').
    { intros h Hne. split; [|done]. rewrite hooks_of_cons. simpl. by rewrite decide_False by congruence. }
    { rewrite hooks_of_cons. simpl. by rewrite decide_True. }
    { done. }
    { done. }
    assert (call_hook (mkHookable pass_hook (Some g)) w = with_gates (<[g:=o']> (gates w)) w) as ->.
    { unfold call_hook. simpl. by rewrite Eo, R. }
    destruct (IH (with_gates (<[g:=o']> (gates w)) w) G') as (gs & -> & G2 & D). exists gs. split; [done|]. split; [done|].
    intros h Hh%D. simpl in Hh. apply lookup_insert_is_Some' in Hh as [<-|]; [by eexists|done].
Qed.
End Gates.

(** ** Deletion *)

Section Deletion.
Context `{Config} {V : Type}.
Abbreviation Mem := (Heap place (World V)).
Implicit Types (w : World V) (h : Mem).

(** A gate is on the stack of its joiner, which can be used: it is not deleted. *)
Record stacks_ok (fs : gmap addr Fiber) (ru : list addr) (gs : gmap addr (Obj Gate.Counts)) (st : gmap addr addr) (ps : addr → Pc) : Prop := {
  so_gate g : is_Some (gs !! g) → ∃ c, st !! g = Some c ∧ gate_of (ps c) = Some g;
  so_fiber a f : fs !! a = Some f → a ∈ ru ∨ state f = Dead ∧ gate_of (ps a) = None
}.

Record world_ok w (ps : addr → Pc) : Prop := {
  wo_fiber a f : fibers w !! a = Some f → fls f = nullptr ∧ cleanup_hook f = [] ∧ Forall pass_of (exit_hook f) ∧ state f ≠ Uninitialized;
  wo_lists : NoDup (runnable w) ∧ Forall (λ p, is_fiber (snd p) = false) (m_join w);
  wo_failed : failed w = None;
  wo_gates : gates_ok (λ g, pending g (fibers w)) (m_join w) (gates w) ps;
  wo_stacks : stacks_ok (fibers w) (runnable w) (gates w) (on_stack w) ps
}.

(** What deletion leaves of the world. *)
Record left w w' (dead : list addr) : Prop := {
  le_fiber a : is_fiber a = true → fibers w' !! a = if decide (a ∈ dead) then None else fibers w !! a;
  le_future a : is_fiber a = false → futures w' !! a = if decide (a ∈ dead) then None else futures w !! a;
  le_fibers a : is_fiber a = false → fibers w' !! a = fibers w !! a;
  le_futures a : is_fiber a = true → futures w' !! a = futures w !! a;
  le_runnable : runnable w' = runnable w;
  le_join : m_join w' = m_join w
}.

Lemma left_refl w : left w w [].
Proof. split; try done; intros a _; by rewrite decide_False by set_solver. Qed.

Lemma left_trans w1 w2 w3 d1 d2 : left w1 w2 d1 → left w2 w3 d2 → left w1 w3 (d1 ++ d2).
Proof.
  intros [A1 A2 A3 A4 A5 A6] [B1 B2 B3 B4 B5 B6].
  split; [intros a Ha; rewrite B1, A1 by done|intros a Ha; rewrite B2, A2 by done|intros a Ha; by rewrite B3, A3
    |intros a Ha; by rewrite B4, A4|congruence|congruence];
  repeat destruct (decide _); set_solver.
Qed.

(** Nothing of a joiner is on the stack of a fiber that is in none. *)
Lemma free_stack_none a w ps :
  gates_ok (λ g, pending g (fibers w)) (m_join w) (gates w) ps → stacks_ok (fibers w) (runnable w) (gates w) (on_stack w) ps →
  gate_of (ps a) = None → free_stack a w = w.
Proof.
  intros G S Pa. unfold free_stack.
  assert (∀ g, is_Some (gates w !! g) → on_stack w !! g ≠ Some a) as N.
  { intros g (c & Ec & Gc)%(so_gate _ _ _ _ _ S). congruence. }
  rewrite map_filter_id by (intros g o Eg; apply N; by eexists). rewrite filter_all; [by destruct w|].
  intros [g f] Hp. apply N. apply not_eq_None_Some. intros [_ J]%(gi_none _ _ _ _ G).
  assert ((g, f) ∈ filter (λ p, fst p = g) (m_join w)) as Hf by by apply list_elem_of_filter.
  unfold joins_of in J. simpl in J. apply nil_length_inv in J. rewrite J in Hf. by apply elem_of_nil in Hf.
Qed.

Lemma destroy_fiber_run w ps a f :
  world_ok w ps → fibers w !! a = Some f → a ∉ runnable w →
  ∃ gs, destroy_fiber a w = with_gates gs (with_fibers (delete a (fibers w)) w) ∧
    world_ok (with_gates gs (with_fibers (delete a (fibers w)) w)) ps.
Proof.
  intros W Ea. destruct (wo_fiber _ _ W a f Ea) as (Ff & Fc & Fp & Fs).
  unfold destroy_fiber. rewrite Ea. unfold destruct_fiber.
  erewrite bind_Ok.
  2:{ apply zth_assert_true, ptr_eqb_true. rewrite <-Ff. destruct f as [[] ? ? ? ? ? ? ? ? ? ? ?]; done. }
  simpl. rewrite Fc, app_nil_r.
  destruct (call_hooks_run (exit_hook f) ps (λ g, pending g (delete a (fibers w))) (with_fibers (delete a (fibers w)) w)) as (gs & -> & G & Gs).
  { simpl. destruct (wo_gates _ _ W) as [G1 G2 G3 G4].
    split; [intros g o Hg|intros g Hg|done|done]; rewrite <-(pending_delete g (fibers w) a f Ea); auto. }
  { done. }
  destruct (wo_stacks _ _ W) as [S1 S2]. destruct (S2 a f Ea) as [?|[_ Pa]]; [done|].
  assert (world_ok (with_gates gs (with_fibers (delete a (fibers w)) w)) ps) as W'.
  { split; simpl; [|apply W|apply W|done|].
    - intros b fb. rewrite lookup_delete_Some. intros [_ Eb]. by apply (wo_fiber _ _ W b).
    - split; [by intros g Hg%Gs; apply S1|]. intros b fb. rewrite lookup_delete_Some. intros [_ Eb]. by apply S2. }
  exists gs. split; [|done]. by apply (free_stack_none _ _ ps); [apply W'..|].
Qed.

Lemma destructor_run w ps a :
  world_ok w ps → (is_fiber a = true → is_Some (fibers w !! a) ∧ a ∉ runnable w) →
  world_ok (async_destructor a w) ps ∧ left w (async_destructor a w) [a].
Proof.
  intros W Ea. unfold async_destructor. destruct (is_fiber a) eqn:Fa.
  - destruct (Ea eq_refl) as [[f Ef] Na]. destruct (destroy_fiber_run w ps a f W Ef Na) as (gs & -> & W'). split; [done|].
    split; simpl; try done; intros b Hb.
    + destruct (decide (b ∈ [a])) as [->%list_elem_of_singleton|Hn]; [apply lookup_delete_eq|]. apply lookup_delete_ne. set_solver.
    + rewrite decide_False; [done|]. rewrite list_elem_of_singleton. congruence.
    + apply lookup_delete_ne. congruence.
  - split; [split; apply W|]. split; simpl; try done; intros b Hb.
    + rewrite decide_False; [done|]. rewrite list_elem_of_singleton. congruence.
    + destruct (decide (b ∈ [a])) as [->%list_elem_of_singleton|Hn]; [apply lookup_delete_eq|]. apply lookup_delete_ne. set_solver.
    + apply lookup_delete_ne. congruence.
Qed.

Lemma destructors_run dead w ps :
  world_ok w ps → NoDup dead → (∀ a, a ∈ dead → is_fiber a = true → is_Some (fibers w !! a) ∧ a ∉ runnable w) →
  world_ok (fold_left (λ w a, async_destructor a w) dead w) ps ∧ left w (fold_left (λ w a, async_destructor a w) dead w) dead.
Proof.
  intros W N. revert w W. induction N as [|a dead Ha N IH]; intros w W Ea; simpl; [split; [done|apply left_refl]|].
  destruct (destructor_run w ps a W) as [W1 L1]; [apply Ea; set_solver|].
  destruct (IH _ W1) as [W2 L2].
  { intros b Hb Fb. rewrite (le_fiber _ _ _ L1), (le_runnable _ _ _ L1) by done. rewrite decide_False; [apply Ea; set_solver|]. set_solver. }
  split; [done|]. by apply (left_trans _ _ _ [a] dead L1 L2).
Qed.

(** *** The memory, in which [E] are the uses of the worker and of the joiners *)
Record mem_ok (E : gmultiset addr) h (ps : addr → Pc) : Prop := {
  mo_heap : inv ∅ ∅ E ∅ h;
  mo_fiber a : is_Some (fibers (contents h) !! a) ↔ is_fiber a = true ∧ is_Some (m_count h !! a);
  mo_future a : is_Some (futures (contents h) !! a) ↔ is_fiber a = false ∧ is_Some (m_count h !! a);
  mo_world : world_ok (contents h) ps
}.

Lemma mem_frame E E' C h h' ps dead :
  mem_ok E h ps → (∀ a, a ∈ runnable (contents h) → a ∈ E') → inv ∅ ∅ E' ∅ h' → frame C h h' dead →
  mem_ok E' h' ps ∧ left (contents h) (contents h') dead.
Proof.
  intros [I Mf Mu W] Ru I' Fr. destruct (destructors_run dead (contents h) ps W) as [W' L]; [apply Fr| |].
  { intros a Ha Fa. destruct (frame_dead _ _ _ _ Fr a Ha) as [Na Ca]. split; [by apply Mf|].
    intros [n Hn]%Ru%(inv_held _ _ _ _ _ I'). congruence. }
  pose proof (frame_contents _ _ _ _ Fr) as Ec. simpl in Ec. rewrite <-Ec in W', L. split; [|done]. split; [done| | |done].
  - intros a. destruct (is_fiber a) eqn:Fa.
    + rewrite (le_fiber _ _ _ L a Fa). destruct (decide (a ∈ dead)) as [Hd|Hd].
      * destruct (frame_dead _ _ _ _ Fr a Hd) as [-> _]. split; [by intros []|by intros [_ []]].
      * by rewrite Mf, Fa, (frame_count _ _ _ _ Fr a Hd).
    + rewrite (le_fibers _ _ _ L a Fa), Mf, Fa. split; by intros [].
  - intros a. destruct (is_fiber a) eqn:Fa.
    + rewrite (le_futures _ _ _ L a Fa), Mu, Fa. split; by intros [].
    + rewrite (le_future _ _ _ L a Fa). destruct (decide (a ∈ dead)) as [Hd|Hd].
      * destruct (frame_dead _ _ _ _ Fr a Hd) as [-> _]. split; [by intros []|by intros [_ []]].
      * by rewrite Mu, Fa, (frame_count _ _ _ _ Fr a Hd).
Qed.
End Deletion.

(** ** The invariant *)

Section Invariant.
Context `{Config} {V : Type} (fiber_already_dead : addr).
Abbreviation Mem := (Heap place (World V)).
Implicit Types (w : World V) (h : Mem) (s : System (V := V)).

(** What a future holds, as in Sync.v. *)
#[local] Abbreviation filled := Future.filled.

#[local] Arguments Future.filled : simpl never.

Lemma filled_result (sr : option (result V)) : opt_result (filled sr) = sr.
Proof. by destruct sr as [[]|]. Qed.

(** The fiber is dead, or was deleted. *)
Definition ended (a : addr) w : Prop := ∀ f, fibers w !! a = Some f → state f = Dead.

(** A living fiber has not got a result yet if it has no future; if it has one, that is
    the only one, and it holds what was given for the fiber. *)
Record values_ok h (ps : addr → Pc) (ever : gset addr) (origin : gmap addr addr) (given returned : gmap addr (result V))
    (results : list (addr * addr * result V)) : Prop := {
  v_future f o : futures (contents h) !! f = Some o → ∃ a sr ql wk, o = mkObj [ql] wk (filled sr) ∧
    origin !! f = Some a ∧ given !! a = sr ∧
    match sr with Some _ => ql = [] | None => ∀ c b, ps c = Getting b f → c ∈ ql end;
  v_get c a f : ps c = Getting a f → origin !! f = Some a;
  v_results c a r : (c, a, r) ∈ results → given !! a = Some r;
  v_mine a f : is_Some (fibers (contents h) !! a) → m_object h !! Future_of a = Some (Some f) → origin !! f = Some a;
  v_null a : is_Some (fibers (contents h) !! a) → m_object h !! Future_of a = Some nullptr → given !! a = None;
  v_only f a : is_Some (futures (contents h) !! f) → origin !! f = Some a → is_Some (fibers (contents h) !! a) →
    m_object h !! Future_of a = Some (Some f);
  v_fresh a : a ∉ ever → given !! a = None ∧ returned !! a = None;
  v_origin f a : origin !! f = Some a → f ∈ ever ∧ a ∈ ever ∧ is_fiber f = false;
  v_given a r : given !! a = Some r → returned !! a = Some r ∨ r = Rethrow fiber_already_dead ∧ ended a (contents h);
  v_returned a : is_Some (returned !! a) → ended a (contents h);
  v_done f a : is_Some (futures (contents h) !! f) → origin !! f = Some a → is_Some (returned !! a) → is_Some (given !! a);
  v_ever a : is_Some (m_count h !! a) → a ∈ ever
}.

(** What a fiber joined is at its end, or will pass the gate. *)
Definition will_pass (g t : addr) w (origin : gmap addr addr) (given : gmap addr (result V)) : Prop :=
  if is_fiber t then ended t w ∨ ∃ f, fibers w !! t = Some f ∧ mkHookable pass_hook (Some g) ∈ exit_hook f
  else (g, t) ∈ m_join w ∨ ∃ a, origin !! t = Some a ∧ is_Some (given !! a).

Definition joins (p : Pc) : option (addr * list addr) :=
  match p with Adding g _ ts | Joined g ts => Some (g, ts) | _ => None end.

Definition joins_ok w (ps : addr → Pc) (ever : gset addr) (origin : gmap addr addr) (given : gmap addr (result V)) : Prop :=
  ∀ c g ts t, joins (ps c) = Some (g, ts) → t ∈ ts → t ∈ ever ∧ will_pass g t w origin given.

Definition locals_ok h (ps : addr → Pc) : Prop :=
  ∀ c, m_object h !! Local c = match ps c with Getting a f => Some (Some f) | _ => None end.

Definition users w : gmultiset addr := list_to_set_disj (runnable w ++ (m_join w).*2).

Record good s : Prop := {
  g_mem : mem_ok (users (world s)) (mem s) (pcs s);
  g_locals : locals_ok (mem s) (pcs s);
  g_values : values_ok (mem s) (pcs s) (ever s) (origin s) (given s) (returned s) (results s);
  g_joins : joins_ok (world s) (pcs s) (ever s) (origin s) (given s)
}.

(** *** Changes that do not give anything to a future *)
Record evolves h h' : Prop := {
  ev_future f o : futures (contents h') !! f = Some o → futures (contents h) !! f = Some o;
  ev_fiber a fb : fibers (contents h') !! a = Some fb → ∃ fb0, fibers (contents h) !! a = Some fb0 ∧
    (state fb0 = Dead → state fb = Dead) ∧ (∀ k, k ∈ exit_hook fb0 → k ∈ exit_hook fb ∨ state fb = Dead);
  ev_object a : is_Some (fibers (contents h') !! a) → m_object h' !! Future_of a = m_object h !! Future_of a;
  ev_count a : is_Some (m_count h' !! a) → is_Some (m_count h !! a)
}.

Lemma mem_evolves_trans h1 h2 h3 : evolves h1 h2 → evolves h2 h3 → evolves h1 h3.
Proof.
  intros [A1 A2 A3 A4] [B1 B2 B3 B4]. split; auto.
  - intros a fb (f2 & E2 & S2 & K2)%B2. destruct (A2 a f2 E2) as (f1 & E1 & S1 & K1). exists f1. split_and!; [done|auto|].
    intros k [Hk|Hk]%K1; auto.
  - intros a Ha. rewrite (B3 a Ha). apply A3. destruct Ha as [fb Eb]. apply B2 in Eb as (f2 & E2 & _). by rewrite E2.
Qed.

(** The world is the same but for gates, queues and counts. *)
Lemma evolves_same h h' :
  futures (contents h') = futures (contents h) → fibers (contents h') = fibers (contents h) →
  (∀ a, m_object h' !! Future_of a = m_object h !! Future_of a) → (∀ a, is_Some (m_count h' !! a) → is_Some (m_count h !! a)) →
  evolves h h'.
Proof. intros Eu Ef Eo Ec. split; [by rewrite Eu| |by auto|done]. intros a fb. rewrite Ef. intros Ea. exists fb. auto. Qed.

Lemma frame_evolves E E' C h h' ps dead :
  mem_ok E h ps → mem_ok E' h' ps → left (contents h) (contents h') dead → frame C h h' dead → (∀ a, Future_of a ∉ C) →
  evolves h h'.
Proof.
  intros M M' L Fr HC. assert (∀ a, is_Some (fibers (contents h') !! a) → is_fiber a = true ∧ a ∉ dead) as Nd.
  { intros a Ha. pose proof Ha as [Fa Ca]%(mo_fiber _ _ _ M'). split; [done|]. intros [Hd _]%(frame_dead _ _ _ _ Fr).
    rewrite Hd in Ca. by destruct Ca. }
  split.
  - intros f o Ef. assert (is_fiber f = false) as Ff by (apply (mo_future _ _ _ M'); by rewrite Ef).
    rewrite (le_future _ _ _ L f Ff) in Ef. by destruct (decide (f ∈ dead)).
  - intros a fb Ea. exists fb. destruct (Nd a) as [Fa Hd]; [by rewrite Ea|].
    rewrite (le_fiber _ _ _ L a Fa), decide_False in Ea by done. auto.
  - intros a Ha. destruct (Nd a Ha) as [Fa Hd]. destruct (frame_object _ _ _ _ Fr (Future_of a)) as [->|[_ (o & Ho & Od)]]; [done..|].
    simpl in Ho. rewrite Fa in Ho. congruence.
  - intros a Ha. destruct (decide (a ∈ dead)) as [Hd|Hd]; [by apply (frame_dead _ _ _ _ Fr a)|]. by apply (frame_count _ _ _ _ Fr a Hd).
Qed.

Lemma ended_evolves h h' a : evolves h h' → ended a (contents h) → ended a (contents h').
Proof. intros Ev Q f Ef. destruct (ev_fiber _ _ Ev a f Ef) as (f0 & E0 & S0 & _). by apply S0, Q. Qed.

Lemma values_evolve h h' ps ps' ev og gv rt rs :
  values_ok h ps ev og gv rt rs → evolves h h' → (∀ c a f, ps' c = Getting a f → ps c = Getting a f) →
  values_ok h' ps' ev og gv rt rs.
Proof.
  intros [V1 V2 V3 V4 V5 V6 V7 V8 V9 V10 V11 V12] Ev Hp.
  assert (∀ a, is_Some (fibers (contents h') !! a) → is_Some (fibers (contents h) !! a)) as Lf.
  { intros a [fb Eb]. apply (ev_fiber _ _ Ev) in Eb as (f0 & E0 & _). by rewrite E0. }
  assert (∀ f, is_Some (futures (contents h') !! f) → is_Some (futures (contents h) !! f)) as Lu.
  { intros f [o Eo]. apply (ev_future _ _ Ev) in Eo. by rewrite Eo. }
  split; [|by eauto|done| | | |done|done| | |by eauto|].
  - intros f o Ef. destruct (V1 f o) as (a & sr & ql & wk & -> & Q1 & Q2 & Q3); [by apply (ev_future _ _ Ev)|].
    exists a, sr, ql, wk. split_and!; [done..|]. destruct sr; [done|]. eauto.
  - intros a f Ha. rewrite (ev_object _ _ Ev a Ha). auto.
  - intros a Ha. rewrite (ev_object _ _ Ev a Ha). auto.
  - intros f a Hf Ho Ha. rewrite (ev_object _ _ Ev a Ha). auto.
  - intros a r [?|[? ?]]%V9; [auto|]. right. split; [done|]. by apply (ended_evolves h).
  - intros a Ha. by apply (ended_evolves h), V10.
  - intros a Ha. by apply V12, (ev_count _ _ Ev).
Qed.

Lemma joins_evolve h h' ps ps' ev og gv :
  joins_ok (contents h) ps ev og gv → evolves h h' → (∀ p, p ∈ m_join (contents h) → p ∈ m_join (contents h')) →
  (∀ c g ts, joins (ps' c) = Some (g, ts) → joins (ps c) = Some (g, ts)) → joins_ok (contents h') ps' ev og gv.
Proof.
  intros J Ev Hj Hp c g ts t Hc Ht. destruct (J c g ts t) as [Q1 Q2]; [auto..|]. split; [done|].
  unfold will_pass in *. destruct (is_fiber t).
  - destruct Q2 as [Q|(f & Ef & Hf)]; [left; by apply (ended_evolves h)|].
    destruct (fibers (contents h') !! t) as [fb|] eqn:Eb; [|left; intros f' Ef'; congruence].
    destruct (ev_fiber _ _ Ev t fb Eb) as (f0 & E0 & S0 & K0). assert (f0 = f) as -> by congruence.
    destruct (K0 _ Hf) as [K|D]; [right; eauto|]. left. intros f' Ef'. congruence.
  - destruct Q2 as [Q|Q]; auto.
Qed.

(** *** Parts of steps *)

Lemma gates_ps hooks l gs ps ps' :
  gates_ok hooks l gs ps → (∀ c, ps' c = ps c ∨ gate_of (ps c) = None ∧ gate_of (ps' c) = None) →
  gates_ok hooks l gs ps'.
Proof.
  intros [G1 G2 G3 G4] Q. assert (∀ c g, gate_of (ps' c) = Some g → ps' c = ps c) as Q' by (intros c g; destruct (Q c) as [|[]]; congruence).
  split; [|done| |].
  - intros g o Eg. destruct (G1 g o Eg) as (c & C1 & C2). exists c. destruct (Q c) as [->|[]]; [done|congruence].
  - intros c g Hc. rewrite (Q' c g Hc) in Hc. eauto.
  - intros c c' g Hc Hc'. rewrite (Q' c g Hc) in Hc. rewrite (Q' c' g Hc') in Hc'. eauto.
Qed.

Lemma stacks_change fs ru gs st ps fs' gs' ps' :
  stacks_ok fs ru gs st ps → (∀ c, gate_of (ps' c) = gate_of (ps c)) → (∀ g, is_Some (gs' !! g) → is_Some (gs !! g)) →
  (∀ a f', fs' !! a = Some f' → ∃ f, fs !! a = Some f ∧ (state f = Dead → state f' = Dead)) →
  stacks_ok fs' ru gs' st ps'.
Proof.
  intros [S1 S2] Q Gs Fs. split.
  - intros g Hg%Gs%S1. destruct Hg as (c & Ec & Gc). exists c. by rewrite Q.
  - intros a f' (f & Ef & Df)%Fs. rewrite Q. destruct (S2 a f Ef) as [|[]]; auto.
Qed.

Lemma world_ps w ps ps' :
  world_ok w ps → (∀ c, ps' c = ps c ∨ gate_of (ps c) = None ∧ gate_of (ps' c) = None) → world_ok w ps'.
Proof.
  intros [W1 W2 W3 W4 W5] Q. split; [done..|by eapply gates_ps|]. eapply stacks_change; [exact W5| |done|eauto].
  intros c. by destruct (Q c) as [->|[-> ->]].
Qed.

Lemma in_users a w : a ∈ runnable w → a ∈ users w.
Proof. intros Ha. unfold users. apply elem_of_list_to_set_disj, elem_of_app. by left. Qed.

Lemma mem_contents E h ps ps' w' :
  mem_ok E h ps → (∀ a, is_Some (fibers w' !! a) ↔ is_Some (fibers (contents h) !! a)) →
  (∀ a, is_Some (futures w' !! a) ↔ is_Some (futures (contents h) !! a)) → world_ok w' ps' →
  mem_ok E (mkHeap (m_count h) (m_object h) w') ps'.
Proof.
  intros [I Mf Mu W] Qf Qu W'. split; simpl; [split; apply I|intros a; by rewrite Qf|intros a; by rewrite Qu|done].
Qed.

(** The program counters [ps'] and the pointers of [C] are new; objects were deleted. *)
Lemma frame_good s h' C dead ps' :
  good s → inv ∅ ∅ (users (world s)) ∅ h' → frame C (mem s) h' dead → (∀ a, Future_of a ∉ C) →
  (∀ c, ps' c = pcs s c ∨ gate_of (pcs s c) = None ∧ ps' c = Idle) → locals_ok h' ps' →
  good (mkAsync h' ps' (ever s) (origin s) (given s) (returned s) (results s)) ∧ failed (contents h') = None ∧
  left (world s) (contents h') dead.
Proof.
  intros [M L Va J] I' Fr HC Hp L'. destruct (mem_frame _ _ _ _ _ _ _ M (λ a, in_users a _) I' Fr) as [M' Lf].
  pose proof (frame_evolves _ _ _ _ _ _ _ M M' Lf Fr HC) as Ev.
  assert (∀ c, ps' c = pcs s c ∨ gate_of (pcs s c) = None ∧ gate_of (ps' c) = None) as Hg.
  { intros c. destruct (Hp c) as [|[? ->]]; auto. }
  split; [|split; [apply (mo_world _ _ _ M')|done]]. split; simpl; [|done| |].
  - unfold users, world. simpl. rewrite (le_runnable _ _ _ Lf), (le_join _ _ _ Lf). fold (users (contents (mem s))).
    destruct M' as [I2 Mf Mu W']. split; [done..|]. by eapply world_ps.
  - apply (values_evolve _ _ _ _ _ _ _ _ _ Va Ev). intros c a f. destruct (Hp c) as [->|[_ ->]]; done.
  - apply (joins_evolve _ _ _ _ _ _ _ J Ev); [intros p; unfold world; simpl; by rewrite (le_join _ _ _ Lf)|].
    intros c g ts. destruct (Hp c) as [->|[_ ->]]; done.
Qed.

Lemma on_mem_run {A} (m : M Mem A) s a h' :
  m (mem s) = Ok (a, h') → failed (contents h') = None →
  on_mem m s = Ok (a, mkAsync h' (pcs s) (ever s) (origin s) (given s) (returned s) (results s)).
Proof. unfold on_mem. by intros -> ->. Qed.

Lemma begun_object x s : begun x s = true → m_object (mem s) !! Var x = Some (target (Var x) s).
Proof. intros [p Ep]%bool_decide_eq_true. unfold target. by rewrite Ep. Qed.

Lemma end_good s x : good s → begun x s = true → ∃ s', on_mem (sp_destroy (Var x)) s = Ok (tt, s') ∧ good s'.
Proof.
  intros G B%begun_object. destruct (destroy_run _ _ (mem s) _ _ (mo_heap _ _ _ (g_mem _ G)) B eq_refl) as (h' & dead & R & I' & _ & Fr & _).
  destruct (frame_good s h' {[Var x]} dead (pcs s) G I' Fr) as (G' & Fl & _); [set_solver|auto| |].
  - intros c. destruct (frame_object _ _ _ _ Fr (Local c)) as [->|[_ (o & [=] & _)]]; [set_solver|]. apply (g_locals _ G).
  - rewrite (on_mem_run _ _ _ _ R Fl). eauto.
Qed.

(** *** A result is got *)

(** A future that is waited for is there. *)
Lemma future_there s c a f :
  good s → pcs s c = Getting a f → ∃ sr ql wk, futures (world s) !! f = Some (mkObj [ql] wk (filled sr)) ∧
    given s !! a = sr ∧ match sr with Some _ => ql = [] | None => c ∈ ql end.
Proof.
  intros G Pc. pose proof (g_locals _ G c) as Lc. rewrite Pc in Lc.
  pose proof (v_get _ _ _ _ _ _ _ (g_values _ G) c a f Pc) as Ho.
  assert (is_Some (futures (world s) !! f)) as [o Ef].
  { apply (mo_future _ _ _ (g_mem _ G)). split; [by apply (v_origin _ _ _ _ _ _ _ (g_values _ G) f a)|].
    apply (inv_live _ _ _ _ _ (mo_heap _ _ _ (g_mem _ G)) (Local c)); [set_solver|done]. }
  destruct (v_future _ _ _ _ _ _ _ (g_values _ G) f o Ef) as (a' & sr & ql & wk & -> & Ho' & Hg & Q).
  assert (a' = a) as -> by congruence. exists sr, ql, wk. split_and!; [done..|]. destruct sr; eauto.
Qed.

Lemma on_future_run {A} f (m : M (Obj (Optional V)) A) h o a o' :
  futures (contents h) !! f = Some o → m o = Ok (a, o') →
  on_future f m h = Ok (a, mkHeap (m_count h) (m_object h) (with_futures (<[f:=o']> (futures (contents h))) (contents h))).
Proof. intros Ef R. unfold on_future, on_world. by rewrite Ef, R. Qed.

Lemma on_future_same {A} f (m : M (Obj (Optional V)) A) h o a :
  futures (contents h) !! f = Some o → m o = Ok (a, o) → on_future f m h = Ok (a, h).
Proof.
  intros Ef R. rewrite (on_future_run f m h o a o Ef R), insert_id by done. destruct h as [? ? w]. by destruct w.
Qed.

Lemma sr_get_run h k a : m_object h !! k = Some (Some a) → sr_get k h = Ok (a, h).
Proof. intros Ek. destruct (follow_run h k _ Ek) as [E1 ->]. by rewrite E1. Qed.

Lemma sp_deref_run h k a : m_object h !! k = Some (Some a) → sp_deref k h = Ok (a, h).
Proof. intros Ek. by destruct (follow_run h k _ Ek) as [-> _]. Qed.

Lemma get_result_run s c a f r :
  good s → pcs s c = Getting a f → waits_for c f (world s) = false → given s !! a = Some r →
  ∃ s', step fiber_already_dead null null 0 (Get c) s = Ok (tt, s') ∧ good s' ∧ results s' = results s ++ [(c, a, r)].
Proof.
  intros G Pc Hw Gr. pose proof (g_locals _ G c) as Lc. rewrite Pc in Lc.
  destruct (future_there s c a f G Pc) as (sr & ql & wk & Ef & Hg & Q). unfold waits_for in Hw. rewrite Ef in Hw. simpl in Hw.
  apply bool_decide_eq_false in Hw. assert (sr = Some r) as -> by congruence. clear Q.
  destruct (destroy_run _ _ (mem s) _ _ (mo_heap _ _ _ (g_mem _ G)) Lc eq_refl) as (h' & dead & R & I' & E' & Fr & _).
  destruct (frame_good s h' {[Local c]} dead (<[c:=Idle]> (pcs s)) G I' Fr) as (G' & Fl & _); [set_solver| | |].
  - intros d. fn_cases; [|auto]. right. by rewrite Pc.
  - intros d. fn_cases; [done|]. destruct (frame_object _ _ _ _ Fr (Local d)) as [->|[_ (o & [=] & _)]]; [set_solver|]. apply (g_locals _ G).
  - assert (on_mem (deref_finish c) s = Ok (r, mkAsync h' (pcs s) (ever s) (origin s) (given s) (returned s) (results s))) as R'.
    { apply on_mem_run; [|done]. unfold deref_finish. rewrite (bind_Ok _ _ _ _ _ (sr_get_run _ _ _ Lc)).
      rewrite (bind_Ok _ _ _ _ _ (on_future_same _ _ _ _ _ Ef (Future.value_run r wk ql))). by rewrite (bind_Ok _ _ _ _ _ R). }
    simpl. erewrite bind_Ok by reflexivity. rewrite Pc, (bind_Ok _ _ _ _ _ R'). eexists. split; [reflexivity|]. split; [|done].
    destruct G' as [M L [V1 V2 V3 V4 V5 V6 V7 V8 V9 V10 V11 V12] J]. split; [done..| |done]. split; [done..| |done|done|done|done|done|done|done|done|done].
    intros d b r' [Hr|Hr]%elem_of_app; [by apply V3 in Hr|]. apply list_elem_of_singleton in Hr. by injection Hr as -> -> ->.
Qed.

Lemma get_good s c a f :
  good s → pcs s c = Getting a f → waits_for c f (world s) = false →
  ∃ s', step fiber_already_dead null null 0 (Get c) s = Ok (tt, s') ∧ good s'.
Proof.
  intros G Pc Hw. destruct (future_there s c a f G Pc) as (sr & ql & wk & Ef & Hg & Q). destruct sr as [r|].
  - destruct (get_result_run s c a f r G Pc Hw Hg) as (s' & R & G' & _). by exists s'.
  - unfold waits_for in Hw. rewrite Ef in Hw. by apply bool_decide_eq_false in Hw.
Qed.

(** *** Fibers end *)

Lemma typed_fiber_at_run h a f : fibers (contents h) !! a = Some f → fiber_at a h = Ok (f, h).
Proof. unfold fiber_at, on_world. intros ->. by destruct h. Qed.

Lemma state_of_fiber s a st : state_of a s = st → st ≠ Uninitialized → ∃ f, fibers (world s) !! a = Some f ∧ state f = st.
Proof. unfold state_of. intros <- Hn. destruct (fibers (world s) !! a) as [f|]; [|done]. by exists f. Qed.

Lemma fiber_alive s a f : good s → fibers (world s) !! a = Some f → is_fiber a = true ∧ is_Some (m_count (mem s) !! a).
Proof. intros G Ef. apply (mo_fiber _ _ _ (g_mem _ G)). by exists f. Qed.

(** A fiber changes, but for its exit hooks. *)
Lemma set_fiber_mem E h ps a f f' :
  mem_ok E h ps → fibers (contents h) !! a = Some f → exit_hook f' = exit_hook f → fls f' = fls f →
  cleanup_hook f' = cleanup_hook f → state f' ≠ Uninitialized → (state f = Dead → state f' = Dead) →
  mem_ok E (mkHeap (m_count h) (m_object h) (with_fibers (<[a:=f']> (fibers (contents h))) (contents h))) ps.
Proof.
  intros M Ef Ee El Ec Es Ed. pose proof (mo_world _ _ _ M) as [W1 W2 W3 W4 W5]. apply (mem_contents _ _ _ _ _ M); simpl; [|done|].
  { intros b. rewrite lookup_insert_is_Some'. split; [intros [<-|Q]; [by rewrite Ef|done]|auto]. }
  split; simpl; [|done|done| |].
  - intros b fb. rewrite lookup_insert_Some. intros [[<- <-]|[_ Eb]]; [|by apply W1 in Eb].
    destruct (W1 a f Ef) as (A & B & D & _). by rewrite Ee, El, Ec.
  - destruct W4 as [G1 G2 G3 G4]. assert (∀ g, pending g (<[a:=f']> (fibers (contents h))) = pending g (fibers (contents h))) as Q.
    { intros g. by rewrite pending_insert, (pending_delete g _ a f Ef), Ee. }
    split; [intros g o Hg|intros g Hg|done|done]; rewrite Q; auto.
  - eapply stacks_change; [exact W5|done..|]. intros b fb. rewrite lookup_insert_Some. intros [[<- <-]|[_ Eb]]; eauto.
Qed.

Lemma set_fiber_evolves h a f f' :
  fibers (contents h) !! a = Some f → (state f = Dead → state f' = Dead) →
  (∀ k, k ∈ exit_hook f → k ∈ exit_hook f' ∨ state f' = Dead) →
  evolves h (mkHeap (m_count h) (m_object h) (with_fibers (<[a:=f']> (fibers (contents h))) (contents h))).
Proof.
  intros Ef Ed Ek. split; [done| |done|done]. intros b fb. simpl. rewrite lookup_insert_Some.
  intros [[<- <-]|[_ Eb]]; [by exists f|]. exists fb. auto.
Qed.

Lemma evolves_good s h' E :
  good s → evolves (mem s) h' → mem_ok E h' (pcs s) → E = users (contents h') → 
  (∀ c, m_object h' !! Local c = m_object (mem s) !! Local c) → m_join (contents h') = m_join (world s) →
  good (mkAsync h' (pcs s) (ever s) (origin s) (given s) (returned s) (results s)).
Proof.
  intros [M L Va J] Ev M' -> El Ej. split; simpl; [done|intros c; by rewrite El| |].
  - by apply (values_evolve _ _ _ _ _ _ _ _ _ Va Ev).
  - apply (joins_evolve _ _ _ _ _ _ _ J Ev); [|done]. intros p. by rewrite Ej.
Qed.

Lemma kill_good s a : good s → state_of a s ≠ Uninitialized → ∃ s', on_mem (kill_fiber a) s = Ok (tt, s') ∧ good s'.
Proof.
  intros G Hs. destruct (state_of_fiber s a _ eq_refl Hs) as (f & Ef & Sf).
  assert (mem_ok (users (world s)) (mkHeap (m_count (mem s)) (m_object (mem s)) (with_fibers (<[a:=kill f]> (fibers (world s))) (world s))) (pcs s)) as M.
  { apply (set_fiber_mem _ _ _ a f); [apply G|done|by destruct f as [[] ? ? ? ? ? ? ? ? ? ? ?]..]. }
  eexists. split.
  - apply on_mem_run; [|apply (mo_world _ _ _ M)]. unfold kill_fiber. by rewrite (bind_Ok _ _ _ _ _ (typed_fiber_at_run _ a f Ef)).
  - eapply evolves_good; [done| |exact M|done|done|done].
    apply (set_fiber_evolves (mem s) a f (kill f) Ef); destruct f as [[] ? ? ? ? ? ? ? ? ? ? ?]; simpl; auto.
Qed.

Lemma users_remove l (ls : list (addr * addr)) (a : addr) :
  NoDup l → a ∈ l → list_to_set_disj (l ++ ls.*2) =@{gmultiset addr} list_to_set_disj (filter (λ b, b ≠ a) l ++ ls.*2) ⊎ {[+ a +]}.
Proof.
  intros N Ha. apply list_elem_of_split in Ha as (l1 & l2 & ->). rewrite (filter_removed a l1 l2 N).
  rewrite !list_to_set_disj_app. simpl. multiset_solver.
Qed.

Lemma cleanup_good s a :
  good s → state_of a s = Dead → a ∈ runnable (world s) → gate_of (pcs s a) = None →
  ∃ s', on_mem (cleanup a) s = Ok (tt, s') ∧ good s'.
Proof.
  intros G Hs Ha Pa. destruct (state_of_fiber s a _ Hs) as (f & Ef & Sf); [done|].
  set (w1 := with_runnable (filter (λ b, b ≠ a) (runnable (world s))) (world s)).
  set (h1 := mkHeap (m_count (mem s)) (m_object (mem s)) w1 : Mem).
  set (s1 := mkAsync h1 (pcs s) (ever s) (origin s) (given s) (returned s) (results s)).
  pose proof (mo_world _ _ _ (g_mem _ G)) as [W1 W2 W3 W4 W5].
  assert (users (world s) = users w1 ⊎ {[+ a +]}) as Eu by (apply users_remove; [apply W2|done]).
  assert (mem_ok (users w1 ⊎ {[+ a +]}) h1 (pcs s)) as M1.
  { rewrite <-Eu. apply (mem_contents _ _ _ _ _ (g_mem _ G)); [done..|]. split; [done|split; [by apply NoDup_filter, W2|apply W2]|done|done|].
    destruct W5 as [S1 S2]. split; [done|]. intros b fb Eb. simpl in *. rewrite list_elem_of_filter.
    destruct (decide (b = a)) as [->|Hne]; [right; split; [|done]; unfold world in *; congruence|]. destruct (S2 b fb Eb); auto. }
  destruct (unused_run _ _ h1 a (mo_heap _ _ _ M1)) as (b & h2 & dead & R & I2 & Fr & _).
  destruct (mem_frame _ _ _ _ _ _ _ M1 (λ a, in_users a w1) I2 Fr) as [M2 L2].
  eexists. split.
  - apply on_mem_run; [|apply (mo_world _ _ _ M2)]. unfold cleanup. rewrite (bind_Ok _ _ _ _ _ (typed_fiber_at_run _ a f Ef)), Sf.
    erewrite bind_Ok by by apply zth_assert_true. erewrite bind_Ok by reflexivity. by rewrite (bind_Ok _ _ _ _ _ R).
  - eapply evolves_good; [done| |exact M2| | |].
    + eapply mem_evolves_trans; [|eapply frame_evolves; [exact M1|exact M2|exact L2|exact Fr|set_solver]]. by apply evolves_same.
    + unfold users. by rewrite (le_runnable _ _ _ L2), (le_join _ _ _ L2).
    + intros c. destruct (frame_object _ _ _ _ Fr (Local c)) as [->|[_ (o & [=] & _)]]; [set_solver|done].
    + by rewrite (le_join _ _ _ L2).
Qed.

(** *** A new fiber *)

Lemma users_snoc (l : list addr) (ls : list (addr * addr)) a :
  list_to_set_disj ((l ++ [a]) ++ ls.*2) =@{gmultiset addr} list_to_set_disj (l ++ ls.*2) ⊎ {[+ a +]}.
Proof. rewrite !list_to_set_disj_app. simpl. multiset_solver. Qed.

Lemma fiber_call_run h a x mt dm st :
  inv ∅ ∅ (users (contents h)) ∅ h → is_fiber a = true → m_count h !! a = None → m_object h !! Var x = None →
  ∃ h', fiber_call mt dm st a x h = Ok (tt, h') ∧ inv ∅ ∅ (users (contents h')) ∅ h' ∧
    contents h' = with_runnable (runnable (contents h) ++ [a]) (with_fibers (<[a:=new_fiber mt dm st]> (fibers (contents h))) (contents h)) ∧
    (∀ b, is_Some (m_count h' !! b) ↔ b = a ∨ is_Some (m_count h !! b)) ∧
    (∀ k, k ≠ Var x → m_object h' !! k = if decide (k = Future_of a) then Some nullptr else m_object h !! k).
Proof.
  intros I Fa Ca Ex. set (nf := new_fiber mt dm st).
  destruct (new_object_run _ _ h a (λ w, with_fibers (<[a:=nf]> (fibers w)) w) I Ca) as (h1 & R1 & I1 & C1 & W1 & O1).
  destruct (used_run _ _ _ _ h1 a 0%Z I1) as [R2 I2]; [by rewrite C1, lookup_insert_eq|unfold size_max; lia|].
  set (h2 := mkHeap (<[a:=(0 + 1)%Z]> (m_count h1)) (m_object h1) (contents h1)) in *.
  set (h3 := mkHeap (m_count h2) (m_object h2) (with_runnable (runnable (contents h2) ++ [a]) (contents h2)) : Mem).
  assert (inv ∅ ∅ (users (contents h) ⊎ {[+ a +]}) (({[a]} ∪ ∅) ∖ {[a]}) h3) as I3 by (split; apply I2).
  assert (∀ k, async_owner k = Some a ↔ k = Future_of a) as Ow.
  { intros k. destruct k as [| |b]; simpl; try done. destruct (is_fiber b) eqn:Fb; naive_solver congruence. }
  assert (∀ k, m_object h1 !! k = if decide (k = Future_of a) then Some nullptr else m_object h !! k) as O1'.
  { intros k. rewrite O1. pose proof (Ow k) as Q. simpl. repeat destruct (decide _); naive_solver. }
  destruct (sp_construct_run _ _ h3 (Var x) (Some a) I3) as (h4 & R4 & I4 & _ & Fr); [simpl; by rewrite O1', decide_False|done| |].
  { simpl. by rewrite lookup_insert_eq. }
  pose proof (frame_contents _ _ _ _ Fr) as W4. simpl in W4.
  exists h4. split_and!.
  - unfold fiber_call, factory_call, polish, hatch. rewrite bind_assoc, (bind_Ok _ _ _ _ _ R1), bind_assoc.
    erewrite bind_Ok by (apply typed_fiber_at_run; rewrite W1; simpl; apply lookup_insert_eq). rewrite bind_assoc.
    erewrite bind_Ok by by apply zth_assert_true. rewrite bind_assoc, (bind_Ok _ _ _ _ _ R2). by erewrite bind_Ok by reflexivity.
  - unfold users. rewrite W4, W1. simpl. rewrite users_snoc.
    assert (({[a]} ∪ ∅) ∖ {[a]} ∖ uses (Some a) =@{gset addr} ∅) as Q by set_solver. by rewrite Q in I4.
  - by rewrite W4, W1.
  - intros b. rewrite (frame_count _ _ _ _ Fr b) by set_solver. simpl. rewrite C1, !lookup_insert_is_Some'. naive_solver.
  - intros k Hk. destruct (frame_object _ _ _ _ Fr k) as [->|[_ (o & _ & Ho%elem_of_nil)]]; [set_solver|apply O1'|done].
Qed.

Lemma spawn_good s a x mt dm st :
  good s → is_fiber a = true → a ∉ ever s → m_object (mem s) !! Var x = None →
  ∃ s', (on_mem (fiber_call mt dm st a x);; met a) s = Ok (tt, s') ∧ good s'.
Proof.
  intros [M L Va J] Fa Ha Ex. assert (m_count (mem s) !! a = None) as Ca.
  { apply eq_None_not_Some. intros Hc. by apply Ha, (v_ever _ _ _ _ _ _ _ Va). }
  assert (fibers (world s) !! a = None) as Na.
  { apply eq_None_not_Some. intros [_ Hc]%(mo_fiber _ _ _ M). rewrite Ca in Hc. by destruct Hc. }
  destruct (fiber_call_run (mem s) a x mt dm st (mo_heap _ _ _ M) Fa Ca Ex) as (h' & R & I' & W' & C' & O').
  pose proof (mo_world _ _ _ M) as [W1 W2 W3 W4 W5]. unfold world in *.
  assert (mem_ok (users (contents h')) h' (pcs s)) as M'.
  { split; [done|..]; rewrite ?W'; simpl.
    - intros b. rewrite lookup_insert_is_Some', C', (mo_fiber _ _ _ M). naive_solver.
    - intros b. rewrite C', (mo_future _ _ _ M). naive_solver congruence.
    - split; simpl; [| |done| |].
      + intros b fb. rewrite lookup_insert_Some. intros [[<- <-]|[_ Eb]]; [done|by apply W1 in Eb].
      + split; [|apply W2]. apply NoDup_snoc; [apply W2|]. intros Hr. assert (is_Some (m_count (mem s) !! a)) as Hc; [|rewrite Ca in Hc; by destruct Hc].
        apply (inv_held _ _ _ _ _ (mo_heap _ _ _ M)). apply elem_of_list_to_set_disj. set_solver.
      + assert (∀ g, pending g (<[a:=new_fiber mt dm st]> (fibers (contents (mem s)))) = pending g (fibers (contents (mem s)))) as Q.
        { intros g. rewrite pending_insert. simpl. by rewrite delete_id. }
        destruct W4 as [G1 G2 G3 G4]. split; [intros g o Hg|intros g Hg|done|done]; rewrite Q; auto.
      + destruct W5 as [S1 S2]. split; [done|]. intros b fb. rewrite lookup_insert_Some, elem_of_app.
        intros [[<- _]|[_ [?|?]%S2]]; [left; set_solver|auto..]. }
  eexists. split.
  { rewrite (bind_Ok _ _ _ _ _ (on_mem_run _ _ _ _ R (wo_failed _ _ (mo_world _ _ _ M')))). reflexivity. }
  assert (∀ b, b ≠ a → fibers (contents h') !! b = fibers (contents (mem s)) !! b) as Fb.
  { intros b Hb. rewrite W'. simpl. by apply lookup_insert_ne. }
  assert (∀ b, b ≠ a → m_object h' !! Future_of b = m_object (mem s) !! Future_of b) as Ob.
  { intros b Hb. rewrite O' by done. rewrite decide_False; [done|]. congruence. }
  assert (futures (contents h') = futures (contents (mem s))) as Fu by by rewrite W'.
  destruct Va as [V1 V2 V3 V4 V5 V6 V7 V8 V9 V10 V11 V12]. destruct (V7 a Ha) as [Ga Ra].
  assert (∀ f b, origin s !! f = Some b → b ≠ a) as Oa by (intros f b Ho ->; by apply V8 in Ho as (_ & ? & _)).
  assert (∀ b, ended b (contents (mem s)) → b ≠ a → ended b (contents h')) as Eb by (intros b Q Hb f; rewrite Fb by done; apply Q).
  split; simpl; unfold world; simpl; [done| | |].
  - intros c. rewrite O' by done. rewrite decide_False by done. apply L.
  - split; rewrite ?Fu; auto.
    + intros b f. destruct (decide (b = a)) as [->|Hb]; [by rewrite O', decide_True|]. rewrite Fb, Ob by done. auto.
    + intros b. destruct (decide (b = a)) as [->|Hb]; [done|]. rewrite Fb, Ob by done. auto.
    + intros f b Hf Ho. pose proof (Oa f b Ho). rewrite Fb, Ob by done. auto.
    + intros b Hb. apply V7. set_solver.
    + intros f b Ho. apply V8 in Ho. set_solver.
    + intros b r Hg. destruct (V9 b r Hg) as [|[? ?]]; [auto|]. right. split; [done|]. apply Eb; [done|]. congruence.
    + intros b Hr. apply Eb; [by apply V10|]. intros ->. rewrite Ra in Hr. by destruct Hr.
    + intros b [->|Hb%V12]%C'; set_solver.
  - intros c g ts t Hc Ht. destruct (J c g ts t Hc Ht) as [Q1 Q2]. split; [set_solver|]. unfold will_pass, world in *.
    assert (t ≠ a) as Hta by congruence. destruct (is_fiber t); [rewrite Fb by done|rewrite W'; done].
    destruct Q2; [left; by apply Eb|auto].
Qed.

(** *** A function returns *)

(** A fiber that is not dead has not given anything yet. *)
Lemma not_given h ps ev og gv rt rs a f :
  values_ok h ps ev og gv rt rs → fibers (contents h) !! a = Some f → state f ≠ Dead → gv !! a = None ∧ rt !! a = None.
Proof.
  intros Va Ef Sf. assert (rt !! a = None) as Rn.
  { apply eq_None_not_Some. intros Hr. by apply Sf, (v_returned _ _ _ _ _ _ _ Va a Hr). }
  split; [|done]. apply eq_None_not_Some. intros [r Hg]. destruct (v_given _ _ _ _ _ _ _ Va a r Hg) as [Q|[_ Q]]; [congruence|].
  by apply Sf, Q.
Qed.

Definition set_future (p : ptr) (o : Obj (Optional V)) (m : gmap addr (Obj (Optional V))) : gmap addr (Obj (Optional V)) :=
  match p with Some f => <[f:=o]> m | None => m end.
Definition give (p : ptr) (a : addr) (r : result V) (gv : gmap addr (result V)) : gmap addr (result V) :=
  match p with Some _ => <[a:=r]> gv | None => gv end.

Lemma finish_values h h' ps ev og gv rt rs a r p fa fb wk :
  values_ok h ps ev og gv rt rs → fibers (contents h) !! a = Some fa → state fa ≠ Dead →
  is_Some (m_count h !! a) → m_object h !! Future_of a = Some p →
  fibers (contents h') = <[a:=fb]> (fibers (contents h)) → state fb = Dead → m_object h' = m_object h → m_count h' = m_count h →
  futures (contents h') = set_future p (mkObj [[]] wk (filled (Some r))) (futures (contents h)) →
  (∀ f, p = Some f → is_Some (futures (contents h) !! f)) →
  values_ok h' ps ev og (give p a r gv) (<[a:=r]> rt) rs.
Proof.
  intros Va Ef Sf Ca Ep Eb Sb Eo Ec Eu Fu. destruct (not_given _ _ _ _ _ _ _ a fa Va Ef Sf) as [Gn Rn].
  destruct Va as [V1 V2 V3 V4 V5 V6 V7 V8 V9 V10 V11 V12].
  assert (∀ b, is_Some (fibers (contents h') !! b) ↔ is_Some (fibers (contents h) !! b)) as Lb.
  { intros b. rewrite Eb, lookup_insert_is_Some'. split; [intros [<-|]; [by rewrite Ef|done]|auto]. }
  assert (∀ f, is_Some (futures (contents h') !! f) ↔ is_Some (futures (contents h) !! f)) as Lu.
  { intros f. rewrite Eu. destruct p as [f0|]; simpl; [|done]. rewrite lookup_insert_is_Some'.
    split; [intros [<-|]; auto|auto]. }
  assert (∀ b, ended b (contents h) ∨ b = a → ended b (contents h')) as En.
  { intros b Q f. rewrite Eb, lookup_insert_Some. intros [[<- <-]|[Hne E]]; [done|]. destruct Q as [Q|]; [by apply Q|congruence]. }
  assert (∀ f, is_Some (futures (contents h) !! f) → og !! f = Some a → p = Some f) as Uq.
  { intros f Hf Ho. pose proof (V6 f a Hf Ho ltac:(by rewrite Ef)) as Q. congruence. }
  assert (∀ b, b ≠ a → give p a r gv !! b = gv !! b) as Gb.
  { intros b Hb. destruct p; simpl; [by apply lookup_insert_ne|done]. }
  assert (∀ f, p = Some f → give p a r gv !! a = Some r) as Ga by (intros f ->; apply lookup_insert_eq).
  split; rewrite ?Eo, ?Ec; auto.
  - intros f o Ho. destruct (decide (p = Some f)) as [Hp|Hp].
    + rewrite Eu, Hp in Ho. simpl in Ho. rewrite lookup_insert_eq in Ho. injection Ho as <-.
      exists a, (Some r), [], wk. split_and!; [done|apply V4; [by rewrite Ef|by rewrite Ep, Hp]|by apply (Ga f)|done].
    + assert (futures (contents h) !! f = Some o) as Ho2.
      { rewrite Eu in Ho. destruct p as [f0|]; simpl in Ho; [|done]. rewrite lookup_insert_ne in Ho; [done|congruence]. }
      destruct (V1 f o Ho2) as (b & sr & ql & w0 & Q1 & Q2 & Q3 & Q4). exists b, sr, ql, w0. split_and!; [done..| |done].
      rewrite Gb; [done|]. intros ->. apply Hp, Uq; [by rewrite Ho2|done].
  - intros c b r' Hr%V3. rewrite Gb; [done|congruence].
  - intros b f Hb. apply V4, Lb, Hb.
  - intros b Hb%Lb Hn. destruct (decide (b = a)) as [->|Hne]; [|rewrite Gb by done; auto].
    rewrite Ep in Hn. injection Hn as ->. exact Gn.
  - intros f b Hf Ho Hb. apply V6; [by apply Lu|done|by apply Lb].
  - intros b Hb. assert (b ≠ a) as Hne by (intros ->; by apply Hb, V12). rewrite Gb, lookup_insert_ne by done. auto.
  - intros b r' Hg. destruct (decide (b = a)) as [->|Hne].
    + destruct p as [f|]; simpl in Hg; [|congruence]. left. by rewrite lookup_insert_eq in *.
    + rewrite Gb in Hg by done. rewrite lookup_insert_ne by done. destruct (V9 b r' Hg) as [|[? ?]]; auto.
  - intros b Hr. apply En. destruct (decide (b = a)) as [->|Hne]; [auto|]. rewrite lookup_insert_ne in Hr by done. auto.
  - intros f b Hf%Lu Ho Hr. destruct (decide (b = a)) as [->|Hne]; [rewrite (Ga f); [done|by apply Uq]|].
    rewrite Gb by done. rewrite lookup_insert_ne in Hr by done. by apply (V11 f).
Qed.

Lemma future_set_run r (ql wk : list addr) (o : Obj (Optional V)) :
  o = mkObj [ql] wk (filled None) → Future.set r o = Ok (tt, mkObj [[]] (wk ++ ql) (filled (Some r))).
Proof. intros ->. apply Future.set_run. Qed.

(** What a living fiber has for its future. *)
Lemma member_future h ps a :
  mem_ok (users (contents h)) h ps → is_Some (fibers (contents h) !! a) →
  ∃ p, m_object h !! Future_of a = Some p ∧ ∀ f, p = Some f → is_fiber f = false ∧ is_Some (futures (contents h) !! f).
Proof.
  intros M Ha. apply (mo_fiber _ _ _ M) in Ha as [Fa Ca]. pose proof (mo_heap _ _ _ M) as I.
  assert (async_owner (Future_of a) = Some a) as Ho by (simpl; by rewrite Fa).
  destruct (inv_members _ _ _ _ _ I (Future_of a) a Ho) as [p Ep]; [set_solver|done|].
  exists p. split; [done|]. intros f ->. assert (is_fiber f = false) as Ff.
  { pose proof (inv_level _ _ _ _ _ I (Future_of a) a f Ho Ep) as Q. simpl in Q. unfold async_level in Q. rewrite Fa in Q.
    destruct (is_fiber f); [lia|done]. }
  split; [done|]. apply (mo_future _ _ _ M). split; [done|]. apply (inv_live _ _ _ _ _ I (Future_of a)); [set_solver|done].
Qed.

Lemma setFuture_run s a p r fa :
  good s → fibers (world s) !! a = Some fa → state fa ≠ Dead → m_object (mem s) !! Future_of a = Some p →
  ∃ wk, setFuture a r (mem s) = Ok (tt, mkHeap (m_count (mem s)) (m_object (mem s))
    (with_futures (set_future p (mkObj [[]] wk (filled (Some r))) (futures (world s))) (world s))).
Proof.
  intros G Ef Sf Ep. unfold setFuture. rewrite (bind_Ok _ _ _ _ _ (get_run _ _ _ Ep)). destruct p as [f|].
  - destruct (member_future _ _ a (g_mem _ G)) as (p & Ep' & Q); [by exists fa|]. rewrite Ep in Ep'. injection Ep' as <-.
    destruct (Q f eq_refl) as [_ [o Eo]].
    destruct (v_future _ _ _ _ _ _ _ (g_values _ G) f o Eo) as (b & sr & ql & wk & Eq & Ob & Gb & _).
    assert (sr = None) as ->.
    { assert (b = a) as ->; [|rewrite <-Gb; by apply (not_given _ _ _ _ _ _ _ a fa (g_values _ G))].
      pose proof (v_mine _ _ _ _ _ _ _ (g_values _ G) a f ltac:(by exists fa) Ep). congruence. }
    exists (wk ++ ql). by rewrite (on_future_run _ _ _ _ _ _ Eo (future_set_run r ql wk o Eq)).
  - exists []. unfold world. simpl. destruct (mem s) as [? ? w]. by destruct w.
Qed.

(** [call_hooks] of the exit hooks of a fiber that dies. *)
Lemma exit_world w ps a fa :
  world_ok w ps → fibers w !! a = Some fa →
  ∃ gs, call_hooks (exit_hook fa) w = with_gates gs w ∧
    world_ok (with_fibers (<[a:=snd (fiber_exit fa)]> (fibers w)) (with_gates gs w)) ps.
Proof.
  intros [W1 W2 W3 W4 W5] Ef. destruct (W1 a fa Ef) as (A & B & D & E). set (fb := snd (fiber_exit fa)).
  assert (exit_hook fb = [] ∧ cleanup_hook fb = [] ∧ fls fb = nullptr ∧ state fb = Dead) as (X1 & X2 & X3 & X4).
  { unfold fb. by destruct fa as [[] ? ? ? ? ? ? ? ? ? ? ?]; simpl in *. }
  destruct (call_hooks_run (exit_hook fa) ps (λ g, pending g (<[a:=fb]> (fibers w))) w) as (gs & R & G & Gs); [|done|].
  { destruct W4 as [G1 G2 G3 G4].
    assert (∀ g, hooks_of g (exit_hook fa) + pending g (<[a:=fb]> (fibers w)) = pending g (fibers w))%nat as Q.
    { intros g. rewrite pending_insert, X1, (pending_delete g (fibers w) a fa Ef). done. }
    split; [intros g o Hg|intros g Hg|done|done]; rewrite Q; auto. }
  exists gs. split; [done|]. split; simpl; [|done|done|done|].
  - intros b f. rewrite lookup_insert_Some. intros [[<- <-]|[_ Eb]]; [|by apply W1 in Eb].
    rewrite X1, X2, X3, X4. by split_and!.
  - eapply stacks_change; [exact W5|done..|]. intros b f. rewrite lookup_insert_Some. intros [[<- <-]|[_ Eb]]; eauto.
Qed.

Lemma finish_good s a r :
  good s → state_of a s ≠ Dead → state_of a s ≠ Uninitialized →
  ∃ s', (on_mem (fiberEntry a r);; note_returned a r;; observe a) s = Ok (tt, s') ∧ good s'.
Proof.
  intros G Sd Su. destruct (state_of_fiber s a _ eq_refl Su) as (fa & Ef & Sf). rewrite <-Sf in Sd, Su. clear Sf.
  destruct (member_future _ _ a (g_mem _ G)) as (p & Ep & Fu); [by exists fa|].
  destruct (setFuture_run s a p r fa G Ef Sd Ep) as (wk & R1). set (w1 := with_futures _ _) in R1.
  set (h1 := mkHeap (m_count (mem s)) (m_object (mem s)) w1 : Mem) in R1.
  assert (world_ok w1 (pcs s)) as W1 by (split; apply (mo_world _ _ _ (g_mem _ G))).
  destruct (exit_world w1 (pcs s) a fa W1 Ef) as (gs & R2 & W2). set (fb := snd (fiber_exit fa)) in *.
  set (w2 := with_fibers (<[a:=fb]> (fibers w1)) (with_gates gs w1)) in *.
  set (h2 := mkHeap (m_count (mem s)) (m_object (mem s)) w2 : Mem).
  assert (fiberEntry a r (mem s) = Ok (tt, h2)) as R.
  { unfold fiberEntry, entry. rewrite (bind_Ok _ _ _ _ _ R1). rewrite (bind_Ok _ _ _ _ _ (typed_fiber_at_run h1 a fa Ef)).
    unfold fiber_exit. erewrite bind_Ok by reflexivity. simpl. rewrite R2. reflexivity. }
  rewrite (bind_Ok _ _ _ _ _ (on_mem_run _ _ _ _ R (wo_failed _ _ W2))). erewrite bind_Ok by reflexivity.
  assert (Sb : state fb = Dead) by (unfold fb; by destruct fa as [[] ? ? ? ? ? ? ? ? ? ? ?]).
  pose proof (finish_values (mem s) h2 (pcs s) (ever s) (origin s) (given s) (returned s) (results s) a r p fa fb wk
    (g_values _ G) Ef Sd (proj2 (fiber_alive s a fa G Ef)) Ep eq_refl Sb eq_refl eq_refl eq_refl (λ f Hf, proj2 (Fu f Hf))) as Va.
  assert (mem_ok (users w2) h2 (pcs s)) as M2.
  { apply (mem_contents _ (mem s) (pcs s)); [apply G| | |done].
    - intros b. simpl. rewrite lookup_insert_is_Some'. split; [intros [<-|]; [by exists fa|done]|auto].
    - intros f. simpl. destruct p as [f0|]; simpl; [|done]. rewrite lookup_insert_is_Some'.
      split; [intros [<-|]; [by apply Fu|done]|auto]. }
  eexists. split; [reflexivity|].
  assert (joins_ok w2 (pcs s) (ever s) (origin s) (give p a r (given s))) as J.
  { intros c g ts t Hc Ht. destruct (g_joins _ G c g ts t Hc Ht) as [Q1 Q2]. split; [done|]. unfold will_pass in *.
    destruct (is_fiber t).
    - destruct (decide (t = a)) as [->|Hne].
      + left. intros f. simpl. rewrite lookup_insert_eq. by intros [= <-].
      + destruct Q2 as [Q|(f & Q & Q')]; [left; intros f; simpl; rewrite lookup_insert_ne by done; apply Q|].
        right. exists f. simpl. by rewrite lookup_insert_ne.
    - destruct Q2 as [Q|(b & Q & Q')]; [by left|]. right. exists b. split; [done|].
      destruct p; simpl; [|done]. rewrite lookup_insert_is_Some'. auto. }
  unfold given_now, target, world. simpl. rewrite Ep. simpl. destruct p as [f|]; simpl.
  - rewrite lookup_insert_eq. simpl. rewrite filled_result.
    rewrite (insert_id (origin s) f a); [split; [exact M2|apply (g_locals _ G)|exact Va|exact J]|]. apply (v_mine _ _ _ _ _ _ _ (g_values _ G)); [by exists fa|done].
  - split; [exact M2|apply (g_locals _ G)|exact Va|exact J].
Qed.

(** *** A future is asked for *)

Definition given_to (sr : option (result V)) (a : addr) (gv : gmap addr (result V)) : gmap addr (result V) :=
  match sr with Some r => <[a:=r]> gv | None => gv end.

Lemma values_ever h ps ev ev' og gv rt rs :
  values_ok h ps ev og gv rt rs → ev ⊆ ev' → values_ok h ps ev' og gv rt rs.
Proof.
  intros [V1 V2 V3 V4 V5 V6 V7 V8 V9 V10 V11 V12] Q. split; auto.
  intros f a (Q1 & Q2 & Q3)%V8. auto.
Qed.

(** The new future [f] of [a]; a dead fiber gives it the exception. *)
Lemma register_values h h' ps ev og gv rt rs a f fa sr :
  values_ok h ps ev og gv rt rs → fibers (contents h) !! a = Some fa → m_object h !! Future_of a = Some nullptr →
  f ∉ ev → is_fiber f = false → a ∈ ev →
  sr = (if state_eqb (state fa) Dead then Some (Rethrow fiber_already_dead) else None) →
  fibers (contents h') = fibers (contents h) → futures (contents h') = <[f:=mkObj [[]] [] (filled sr)]> (futures (contents h)) →
  (∀ b, m_object h' !! Future_of b = if decide (b = a) then Some (Some f) else m_object h !! Future_of b) →
  (∀ b, is_Some (m_count h' !! b) → b = f ∨ is_Some (m_count h !! b)) →
  values_ok h' ps ({[f]} ∪ ev) (<[f:=a]> og) (given_to sr a gv) rt rs.
Proof.
  intros Va Ef En Hf Ff Ha Es Eb Eu Eo Ec. assert (gv !! a = None) as Gn by (apply (v_null _ _ _ _ _ _ _ Va a); [by exists fa|done]).
  destruct Va as [V1 V2 V3 V4 V5 V6 V7 V8 V9 V10 V11 V12].
  assert (∀ f0 b, og !! f0 = Some b → f0 ≠ f) as Of by (intros f0 b Ho%V8 ->; by destruct Ho).
  assert (∀ f0 b, is_Some (futures (contents h) !! f0) → og !! f0 = Some b → b ≠ a) as Oa.
  { intros f0 b Hf0 Ho ->. pose proof (V6 f0 a Hf0 Ho ltac:(by exists fa)). congruence. }
  assert (∀ b, b ≠ a → given_to sr a gv !! b = gv !! b) as Gb.
  { intros b Hb. destruct sr; simpl; [by apply lookup_insert_ne|done]. }
  assert (given_to sr a gv !! a = sr) as Ga by (destruct sr; simpl; [apply lookup_insert_eq|done]).
  assert (∀ b, ended b (contents h) → ended b (contents h')) as Ed by (intros b; unfold ended; by rewrite Eb).
  split; rewrite ?Eb; auto.
  - intros f0 o. rewrite Eu, lookup_insert_Some. intros [[<- <-]|[Hne Ho]].
    + exists a, sr, [], []. split_and!; [done|apply lookup_insert_eq|done|]. destruct sr; [done|].
      intros c b Hc. by apply V2, Of in Hc.
    + destruct (V1 f0 o Ho) as (b & sr0 & ql & wk & Q1 & Q2 & Q3 & Q4). exists b, sr0, ql, wk.
      rewrite lookup_insert_ne, Gb by eauto. done.
  - intros c b f0 Hc. pose proof (V2 c b f0 Hc) as Ho. rewrite lookup_insert_ne; [done|]. intros <-. by apply (Of f b).
  - intros c b r Hr%V3. rewrite Gb; [done|congruence].
  - intros b f0 Hb. rewrite Eo. destruct (decide (b = a)) as [->|Hne]; [intros [= <-]; apply lookup_insert_eq|].
    intros Hm. pose proof (V4 b f0 Hb Hm) as Ho. rewrite lookup_insert_ne; [done|]. intros <-. by apply (Of f b).
  - intros b Hb. rewrite Eo. destruct (decide (b = a)) as [->|Hne]; [done|]. rewrite Gb by done. auto.
  - intros f0 b. rewrite Eu, Eo, lookup_insert_is_Some', lookup_insert_Some. intros Hu [[<- <-]|[Hne Ho]] Hb; [by rewrite decide_True|].
    destruct Hu as [|Hu]; [done|]. rewrite decide_False by by apply (Oa f0). auto.
  - intros b Hb. rewrite Gb by set_solver. apply V7. set_solver.
  - intros f0 b. rewrite lookup_insert_Some. intros [[<- <-]|[_ Ho%V8]]; set_solver.
  - intros b r. destruct (decide (b = a)) as [->|Hne].
    + rewrite Ga. intros ->. destruct (state_eqb (state fa) Dead) eqn:D; [|done]. injection Es as ->. right. split; [done|].
      apply bool_decide_eq_true in D. apply Ed. intros f0 Ef0. congruence.
    + rewrite Gb by done. intros [|[? ?]]%V9; auto.
  - intros f0 b. rewrite Eu, lookup_insert_is_Some', lookup_insert_Some. intros Hu [[<- <-]|[Hne Ho]] Hr.
    + rewrite Ga, Es. assert (state_eqb (state fa) Dead = true) as -> by by apply bool_decide_eq_true, (V10 a). done.
    + destruct Hu as [|Hu]; [done|]. rewrite Gb by by apply (Oa f0). by apply (V11 f0).
  - intros b [->|Hb%V12]%Ec; set_solver.
Qed.

(** What [withFuture] leaves: the future of [a], and the rest as it was. *)
Record with_future s a f h' f' sr : Prop := {
  wf_mem : mem_ok (users (contents h')) h' (pcs s);
  wf_object : m_object h' !! Future_of a = Some (Some f');
  wf_objects k : k ≠ Future_of a → m_object h' !! k = m_object (mem s) !! k;
  wf_future : ∃ ql wk, futures (contents h') !! f' = Some (mkObj [ql] wk (filled sr));
  wf_values : values_ok h' (pcs s) ({[f]} ∪ ever s) (<[f':=a]> (origin s)) (given_to sr a (given s)) (returned s) (results s);
  wf_fibers : fibers (contents h') = fibers (world s);
  wf_join : m_join (contents h') = m_join (world s);
  wf_kind : is_fiber f' = false;
  wf_usable : usable h' (Some f') = true;
  wf_origin b : origin s !! f' = Some b → b = a
}.

Lemma room_usable s a : room s = true → is_Some (m_count (mem s) !! a) → usable (mem s) (Some a) = true.
Proof. intros R%bool_decide_eq_true [n En]. simpl. rewrite En. by apply Z.ltb_lt, (R a n). Qed.

Lemma withFuture_old s a f f0 :
  good s → room s = true → is_Some (fibers (world s) !! a) → m_object (mem s) !! Future_of a = Some (Some f0) →
  ∃ sr, with_future s a f (mem s) f0 sr.
Proof.
  intros G Rm Ha Ep. destruct (member_future _ _ a (g_mem _ G) Ha) as (p & Ep' & Q). rewrite Ep in Ep'. injection Ep' as <-.
  destruct (Q f0 eq_refl) as [Ff [o Eo]]. destruct (v_future _ _ _ _ _ _ _ (g_values _ G) f0 o Eo) as (b & sr & ql & wk & -> & Ob & Gb & _).
  pose proof (v_mine _ _ _ _ _ _ _ (g_values _ G) a f0 Ha Ep) as Om. assert (b = a) as -> by congruence.
  exists sr. split; try done; [apply G|by exists ql, wk| | |].
  - rewrite insert_id by done. assert (given_to sr a (given s) = given s) as ->.
    { destruct sr; simpl; [by apply insert_id|done]. }
    apply (values_ever _ _ (ever s)); [apply G|set_solver].
  - apply room_usable; [done|]. apply (mo_future _ _ _ (g_mem _ G)). by eexists.
  - intros b Hb. congruence.
Qed.

(** The new future, up to where [registerFuture] looks at the fiber. *)
Lemma new_future_run h a f E :
  inv ∅ ∅ E ∅ h → is_fiber a = true → is_fiber f = false → m_count h !! f = None → m_object h !! Future_of a = Some nullptr →
  ∃ h1 h2, new_future f h = Ok (tt, h1) ∧ reset (Future_of a) (Some f) h1 = Ok (tt, h2) ∧ inv ∅ ∅ E ∅ h2 ∧
    contents h2 = with_futures (<[f:=mkObj [[]] [] (filled None)]> (futures (contents h))) (contents h) ∧
    (∀ k, m_object h2 !! k = if decide (k = Future_of a) then Some (Some f) else m_object h !! k) ∧
    (∀ b, is_Some (m_count h2 !! b) ↔ b = f ∨ is_Some (m_count h !! b)) ∧ usable h2 (Some f) = true.
Proof.
  intros I Fa Ff Cf Ep.
  destruct (new_object_run _ _ h f (λ w, with_futures (<[f:=mkObj [[]] [] (mkOpt None nullptr)]> (futures w)) w) I Cf)
    as (h1 & R1 & I1 & C1 & W1 & O1).
  assert (∀ k, m_object h1 !! k = m_object h !! k) as O1'.
  { intros k. rewrite O1. rewrite decide_False; [done|]. simpl. destruct k as [| |b]; simpl; try done.
    destruct (is_fiber b) eqn:Fb; congruence. }
  assert (m_count h1 !! f = Some 0%Z) as C1' by (rewrite C1; apply lookup_insert_eq).
  rewrite <-O1' in Ep. destruct (reset_run _ _ h1 (Future_of a) nullptr (Some f) I1 Ep) as (h2 & dead & R2 & I2 & _).
  { simpl. by rewrite C1'. }
  { unfold fits. simpl. rewrite Fa. apply Nat.ltb_lt. unfold async_level. rewrite Fa, Ff. lia. }
  assert (h2 = mkHeap (<[f:=(0 + 1)%Z]> (m_count h1)) (<[Future_of a:=Some f]> (m_object h1)) (contents h1)) as ->.
  { rewrite (reset_null_run _ _ h1 (Future_of a) f 0%Z I1 Ep C1') in R2 by done. by injection R2. }
  eexists _, _. split; [done|]. split; [exact R2|]. split_and!; simpl.
  - assert (({[f]} ∪ ∅) ∖ uses (Some f) =@{gset addr} ∅) as Q by set_solver. by rewrite Q in I2.
  - by rewrite W1.
  - intros k. destruct (decide (k = Future_of a)) as [->|Hk]; [apply lookup_insert_eq|]. by rewrite lookup_insert_ne, O1'.
  - intros b. rewrite C1, !lookup_insert_is_Some'. naive_solver.
  - by rewrite lookup_insert_eq.
Qed.

(** The new future in its place, with what a dead fiber gives. *)
Lemma registered_ok s a f fa sr h2 w3 :
  good s → fibers (world s) !! a = Some fa → m_object (mem s) !! Future_of a = Some nullptr →
  is_fiber f = false → f ∉ ever s →
  sr = (if state_eqb (state fa) Dead then Some (Rethrow fiber_already_dead) else None) →
  inv ∅ ∅ (users (world s)) ∅ h2 →
  (∀ k, m_object h2 !! k = if decide (k = Future_of a) then Some (Some f) else m_object (mem s) !! k) →
  (∀ b, is_Some (m_count h2 !! b) ↔ b = f ∨ is_Some (m_count (mem s) !! b)) → usable h2 (Some f) = true →
  w3 = with_futures (<[f:=mkObj [[]] [] (filled sr)]> (futures (world s))) (world s) →
  with_future s a f (mkHeap (m_count h2) (m_object h2) w3) f sr.
Proof.
  intros G Ef En Ff Hf Es I2 O2 C2 U2 ->. pose proof (fiber_alive s a fa G Ef) as [Fa Ca].
  pose proof (v_ever _ _ _ _ _ _ _ (g_values _ G) a Ca) as Ha. split; simpl.
  - split; simpl; [split; apply I2| | |].
    + intros b. rewrite C2. unfold world. rewrite (mo_fiber _ _ _ (g_mem _ G)). naive_solver congruence.
    + intros b. rewrite lookup_insert_is_Some', C2. unfold world. rewrite (mo_future _ _ _ (g_mem _ G)). naive_solver.
    + split; apply (mo_world _ _ _ (g_mem _ G)).
  - by rewrite O2, decide_True.
  - intros k Hk. by rewrite O2, decide_False.
  - exists [], []. apply lookup_insert_eq.
  - apply (register_values (mem s) _ _ _ _ _ _ _ a f fa sr (g_values _ G)); try done; simpl.
    + intros b. rewrite O2. destruct (decide (b = a)) as [->|Hb]; [by rewrite decide_True|]. rewrite decide_False by congruence. done.
    + intros b. by rewrite C2.
  - done.
  - done.
  - done.
  - exact U2.
  - by intros b [? _]%(v_origin _ _ _ _ _ _ _ (g_values _ G)).
Qed.

Lemma withFuture_run s a f fa :
  good s → room s = true → fibers (world s) !! a = Some fa → is_fiber f = false → f ∉ ever s →
  ∃ h' f' sr, withFuture fiber_already_dead a f (mem s) = Ok (tt, h') ∧ with_future s a f h' f' sr.
Proof.
  intros G Rm Ef Ff Hf. destruct (member_future _ _ a (g_mem _ G)) as (p & Ep & _); [by exists fa|].
  unfold withFuture. rewrite (bind_Ok _ _ _ _ _ (get_run _ _ _ Ep)). destruct p as [f0|].
  { destruct (withFuture_old s a f f0 G Rm) as [sr W]; [by exists fa|done|]. by exists (mem s), f0, sr. }
  pose proof (fiber_alive s a fa G Ef) as [Fa Ca].
  assert (m_count (mem s) !! f = None) as Cf.
  { apply eq_None_not_Some. intros Hc. by apply Hf, (v_ever _ _ _ _ _ _ _ (g_values _ G)). }
  destruct (new_future_run (mem s) a f _ (mo_heap _ _ _ (g_mem _ G)) Fa Ff Cf Ep) as (h1 & h2 & R1 & R2 & I2 & W2 & O2 & C2 & U2).
  rewrite (bind_Ok _ _ _ _ _ R1). unfold registerFuture. rewrite (bind_Ok _ _ _ _ _ R2).
  assert (fibers (contents h2) !! a = Some fa) as Ef2 by by rewrite W2.
  rewrite (bind_Ok _ _ _ _ _ (typed_fiber_at_run h2 a fa Ef2)).
  pose proof (registered_ok s a f fa _ h2 _ G Ef Ep Ff Hf eq_refl I2 O2 C2 U2 eq_refl) as Q.
  destruct (state_eqb (state fa) Dead) eqn:D; simpl.
  - eexists _, f, _. split; [|exact Q]. unfold setFuture.
    erewrite bind_Ok by (apply get_run; by rewrite O2, decide_True).
    assert (futures (contents h2) !! f = Some (mkObj [[]] [] (filled None))) as Eu by (rewrite W2; apply lookup_insert_eq).
    cbv iota beta. rewrite (on_future_run _ _ _ _ _ _ Eu (future_set_run _ [] [] _ eq_refl)).
    rewrite W2. do 3 f_equal. unfold with_futures, world. simpl. by rewrite insert_insert_eq.
  - eexists h2, f, None. split; [done|]. destruct h2 as [c2 o2 w2]. simpl in *. by rewrite W2.
Qed.

(** *** [asFuture] and [operator*] *)

(** After [withFuture], pointers were copied and fibers blocked. *)
Lemma asked_good s a f h1 f' sr h3 ps' :
  good s → with_future s a f h1 f' sr →
  mem_ok (users (contents h3)) h3 ps' → locals_ok h3 ps' →
  values_ok h3 ps' ({[f]} ∪ ever s) (<[f':=a]> (origin s)) (given_to sr a (given s)) (returned s) (results s) →
  fibers (contents h3) = fibers (world s) → m_join (contents h3) = m_join (world s) →
  (∀ c g ts, joins (ps' c) = Some (g, ts) → joins (pcs s c) = Some (g, ts)) →
  good (mkAsync h3 ps' ({[f]} ∪ ever s) (<[f':=a]> (origin s)) (given_to sr a (given s)) (returned s) (results s)).
Proof.
  intros G W M L Va Eb Ej Hp. split; simpl; [done..|]. unfold world. simpl. intros c g ts t Hc Ht.
  destruct (g_joins _ G c g ts t (Hp _ _ _ Hc) Ht) as [Q1 Q2]. split; [set_solver|]. unfold will_pass, ended in *.
  rewrite Eb, Ej. destruct (is_fiber t); [done|]. destruct Q2 as [Q|(b & Hb & Hg)]; [by left|]. right. exists b. split.
  - destruct (decide (f' = t)) as [<-|Hne]; [|by rewrite lookup_insert_ne].
    rewrite (wf_origin _ _ _ _ _ _ W b Hb). apply lookup_insert_eq.
  - destruct sr; simpl; [|done]. rewrite lookup_insert_is_Some'. auto.
Qed.

Lemma observe_run a f sr (h : Mem) ps ev og gv rt rs ql wk :
  m_object h !! Future_of a = Some (Some f) → futures (contents h) !! f = Some (mkObj [ql] wk (filled sr)) →
  observe a (mkAsync h ps ev og gv rt rs) = Ok (tt, mkAsync h ps ev (<[f:=a]> og) (given_to sr a gv) rt rs).
Proof.
  intros Eo Ef. unfold observe, modify, given_now, target, world. simpl. rewrite Eo. simpl. rewrite Ef. simpl.
  by rewrite filled_result.
Qed.

Lemma as_future_good s x y a f fa :
  good s → room s = true → m_object (mem s) !! Var x = Some (Some a) → fibers (world s) !! a = Some fa →
  is_fiber f = false → f ∉ ever s → m_object (mem s) !! Var y = None →
  ∃ s', (on_mem (as_future fiber_already_dead x y f);; met f;; observe a) s = Ok (tt, s') ∧ good s'.
Proof.
  intros G Rm Ex Ef Ff Hf Ey. destruct (withFuture_run s a f fa G Rm Ef Ff Hf) as (h1 & f' & sr & R1 & W).
  destruct (sp_construct_run _ _ h1 (Var y) (Some f') (mo_heap _ _ _ (wf_mem _ _ _ _ _ _ W))) as (h2 & R2 & I2 & _ & Fr);
    [by rewrite (wf_objects _ _ _ _ _ _ W)|done|apply W|].
  assert (∅ ∖ uses (Some f') =@{gset addr} ∅) as Q by set_solver. rewrite Q in I2. clear Q.
  destruct (mem_frame _ _ _ _ _ _ _ (wf_mem _ _ _ _ _ _ W) (λ a, in_users a _) I2 Fr) as [M2 L2].
  pose proof (frame_evolves _ _ _ _ _ _ _ (wf_mem _ _ _ _ _ _ W) M2 L2 Fr ltac:(set_solver)) as Ev.
  pose proof (frame_contents _ _ _ _ Fr) as W2. simpl in W2.
  assert (∀ k, k ≠ Var y → m_object h2 !! k = m_object h1 !! k) as O2.
  { intros k Hk. destruct (frame_object _ _ _ _ Fr k) as [->|[_ (o & _ & Ho%elem_of_nil)]]; [set_solver|done..]. }
  assert (as_future fiber_already_dead x y f (mem s) = Ok (tt, h2)) as R.
  { unfold as_future. rewrite (bind_Ok _ _ _ _ _ (sp_deref_run _ _ _ Ex)), (bind_Ok _ _ _ _ _ R1). unfold sr_from_pointer.
    by erewrite sp_copy_eq by apply W. }
  rewrite (bind_Ok _ _ _ _ _ (on_mem_run _ _ _ _ R (wo_failed _ _ (mo_world _ _ _ M2)))). erewrite bind_Ok by reflexivity.
  destruct (wf_future _ _ _ _ _ _ W) as (ql & wk & Eu). eexists. split.
  { cbn. eapply observe_run; [rewrite O2 by done; apply W|rewrite W2; exact Eu]. }
  eapply asked_good; [done|exact W| | | | | |done].
  - rewrite <-W2 in M2. exact M2.
  - intros c. rewrite O2 by done. rewrite (wf_objects _ _ _ _ _ _ W) by done. apply G.
  - apply (values_evolve _ _ _ _ _ _ _ _ _ (wf_values _ _ _ _ _ _ W) Ev). done.
  - rewrite W2. apply W.
  - rewrite W2. apply W.
Qed.

(** Waiting for a future. *)
Definition queue_with (c : addr) (sr : option (result V)) (ql : list addr) : list addr :=
  match sr with Some _ => ql | None => ql ++ [c] end.

Lemma wait_run c (ql wk : list addr) (sr : option (result V)) :
  Future.wait c (mkObj [ql] wk (filled sr)) = Ok (bool_decide (is_Some sr), mkObj [queue_with c sr ql] wk (filled sr)).
Proof. unfold Future.wait. erewrite bind_Ok by reflexivity. simpl. rewrite Future.filled_valid. by destruct sr. Qed.

Definition with_queue h (f : addr) (o : Obj (Optional V)) : Mem :=
  mkHeap (m_count h) (m_object h) (with_futures (<[f:=o]> (futures (contents h))) (contents h)).

Lemma wait_values h ps ps' ev og gv rt rs c a f ql wk sr :
  values_ok h ps ev og gv rt rs → futures (contents h) !! f = Some (mkObj [ql] wk (filled sr)) → og !! f = Some a →
  (∀ d b f0, ps' d = Getting b f0 → ps d = Getting b f0 ∨ d = c ∧ b = a ∧ f0 = f) →
  values_ok (with_queue h f (mkObj [queue_with c sr ql] wk (filled sr))) ps' ev og gv rt rs.
Proof.
  intros [V1 V2 V3 V4 V5 V6 V7 V8 V9 V10 V11 V12] Ef Oa Hp.
  assert (∀ f0, is_Some (<[f:=mkObj [queue_with c sr ql] wk (filled sr)]> (futures (contents h)) !! f0) → is_Some (futures (contents h) !! f0)) as Lu.
  { intros f0. rewrite lookup_insert_is_Some'. intros [<-|]; [by rewrite Ef|done]. }
  split; simpl; auto.
  - intros f0 o. rewrite lookup_insert_Some. intros [[<- <-]|[Hne Ho]].
    + destruct (V1 f _ Ef) as (b & sr' & ql' & wk' & [= <- <- Es] & Q2 & Q3 & Q4).
      assert (sr' = sr) as -> by (rewrite <-(filled_result sr), <-(filled_result sr'); congruence).
      exists b, sr, (queue_with c sr ql), wk. split_and!; [done..|]. destruct sr; [done|]. simpl. intros d e [Hd|(-> & _)]%Hp.
      * apply elem_of_app. left. eauto.
      * set_solver.
    + destruct (V1 f0 o Ho) as (b & sr0 & ql0 & wk0 & Q1 & Q2 & Q3 & Q4). exists b, sr0, ql0, wk0. split_and!; [done..|].
      destruct sr0; [done|]. intros d e [Hd|(_ & _ & ->)]%Hp; [eauto|done].
  - intros d b f0 [Hd|(_ & -> & ->)]%Hp; [eauto|done].
  - intros f0 b Hf0%Lu. eauto.
Qed.

Lemma wait_mem E h ps ps' f o o' :
  mem_ok E h ps → futures (contents h) !! f = Some o →
  (∀ c, ps' c = ps c ∨ gate_of (ps c) = None ∧ gate_of (ps' c) = None) → mem_ok E (with_queue h f o') ps'.
Proof.
  intros M Ef Hp. apply (mem_contents _ _ _ _ _ M); [done| |].
  - intros b. simpl. rewrite lookup_insert_is_Some'. split; [intros [<-|]; [by rewrite Ef|done]|auto].
  - apply (world_ps _ ps); [|done]. destruct (mo_world _ _ _ M) as [W1 W2 W3 W4 W5]. by split.
Qed.

(** The local reference of [operator*] is made, and waited for. *)
Lemma wait_local_run h ps c a f ql wk sr ev og gv rt rs :
  mem_ok (users (contents h)) h ps → values_ok h ps ev og gv rt rs → ps c = Idle → m_object h !! Local c = None →
  futures (contents h) !! f = Some (mkObj [ql] wk (filled sr)) → og !! f = Some a → usable h (Some f) = true →
  ∃ h2, (sp_construct (Local c) (Some f);; wait_local c) h =
      Ok (bool_decide (is_Some sr), with_queue h2 f (mkObj [queue_with c sr ql] wk (filled sr))) ∧
    contents h2 = contents h ∧ (∀ k, k ≠ Local c → m_object h2 !! k = m_object h !! k) ∧
    m_object h2 !! Local c = Some (Some f) ∧
    mem_ok (users (contents h)) (with_queue h2 f (mkObj [queue_with c sr ql] wk (filled sr))) (<[c:=Getting a f]> ps) ∧
    values_ok (with_queue h2 f (mkObj [queue_with c sr ql] wk (filled sr))) (<[c:=Getting a f]> ps) ev og gv rt rs.
Proof.
  intros M Va Pc Ec Ef Of U.
  destruct (sp_construct_run _ _ h (Local c) (Some f) (mo_heap _ _ _ M)) as (h2 & R2 & I2 & E2 & Fr); [done..|].
  assert (∅ ∖ uses (Some f) =@{gset addr} ∅) as Q by set_solver. rewrite Q in I2. clear Q.
  destruct (mem_frame _ _ _ _ _ _ _ M (λ a, in_users a _) I2 Fr) as [M2 L2].
  pose proof (frame_evolves _ _ _ _ _ _ _ M M2 L2 Fr ltac:(set_solver)) as Ev.
  pose proof (frame_contents _ _ _ _ Fr) as W2. simpl in W2. rewrite <-W2 in Ef.
  exists h2. split_and!; [|done| |done| |].
  - rewrite (bind_Ok _ _ _ _ _ R2). unfold wait_local. rewrite (bind_Ok _ _ _ _ _ (sr_get_run _ _ _ E2)).
    by rewrite (on_future_run _ _ _ _ _ _ Ef (wait_run c ql wk sr)).
  - intros k Hk. destruct (frame_object _ _ _ _ Fr k) as [->|[_ (o & _ & Ho%elem_of_nil)]]; [set_solver|done..].
  - eapply wait_mem; [exact M2|exact Ef|]. intros d. fn_cases; [right; by rewrite Pc|by left].
  - eapply wait_values; [by apply (values_evolve _ _ ps ps _ _ _ _ _ Va Ev)|exact Ef|done|].
    intros d b f0. fn_cases; [|auto]. intros [= <- <-]. auto.
Qed.

Lemma deref_good s c x a f fa :
  good s → room s = true → pcs s c = Idle → m_object (mem s) !! Var x = Some (Some a) → fibers (world s) !! a = Some fa →
  is_fiber f = false → f ∉ ever s →
  ∃ s', step fiber_already_dead null null 0 (Deref c x f) s = Ok (tt, s') ∧ good s'.
Proof.
  intros G Rm Pc Ex Ef Ff Hf. destruct (withFuture_run s a f fa G Rm Ef Ff Hf) as (h1 & f' & sr & R1 & W).
  destruct (wf_future _ _ _ _ _ _ W) as (ql & wk & Eu).
  destruct (wait_local_run h1 (pcs s) c a f' ql wk sr _ _ _ _ _ (wf_mem _ _ _ _ _ _ W) (wf_values _ _ _ _ _ _ W) Pc)
    as (h2 & R2 & W2 & O2 & E2 & M3 & V3); [|done|apply lookup_insert_eq|apply W|].
  { rewrite (wf_objects _ _ _ _ _ _ W) by done. pose proof (g_locals _ G c) as Lc. by rewrite Pc in Lc. }
  set (h3 := with_queue h2 f' _) in *.
  assert (deref_start fiber_already_dead c x f (mem s) = Ok (bool_decide (is_Some sr), h3)) as R.
  { unfold deref_start. rewrite (bind_Ok _ _ _ _ _ (sp_deref_run _ _ _ Ex)), (bind_Ok _ _ _ _ _ R1). unfold sr_from_pointer.
    rewrite <-R2. apply bind_eq. apply sp_copy_eq, W. }
  simpl. erewrite bind_Ok by (unfold target, gets; by rewrite Ex). erewrite bind_Ok by reflexivity.
  rewrite (bind_Ok _ _ _ _ _ (on_mem_run _ _ _ _ R (wo_failed _ _ (mo_world _ _ _ M3)))). erewrite bind_Ok by reflexivity. cbn.
  erewrite bind_Ok by (eapply observe_run; [rewrite O2 by done; apply W|apply lookup_insert_eq]).
  erewrite bind_Ok by (unfold gets, target; simpl; by rewrite E2). erewrite bind_Ok by reflexivity. eexists. split; [reflexivity|].
  assert (users (contents h3) = users (contents h1)) as Us by (unfold users; simpl; by rewrite W2).
  refine (asked_good s a f h1 f' sr h3 _ G W _ _ V3 _ _ _).
  - by rewrite Us.
  - intros d. simpl. fn_cases; [done|]. rewrite O2, (wf_objects _ _ _ _ _ _ W) by congruence. apply G.
  - simpl. rewrite W2. apply W.
  - simpl. rewrite W2. apply W.
  - intros d g ts. by fn_cases.
Qed.

Lemma deref_future_good s c y f :
  good s → room s = true → pcs s c = Idle → m_object (mem s) !! Var y = Some (Some f) → is_fiber f = false →
  ∃ s', step fiber_already_dead null null 0 (DerefFuture c y) s = Ok (tt, s') ∧ good s'.
Proof.
  intros G Rm Pc Ey Ff. assert (is_Some (m_count (mem s) !! f)) as Cf.
  { apply (inv_live _ _ _ _ _ (mo_heap _ _ _ (g_mem _ G)) (Var y)); [set_solver|done]. }
  destruct (proj2 (mo_future _ _ _ (g_mem _ G) f) (conj Ff Cf)) as [o Eo].
  destruct (v_future _ _ _ _ _ _ _ (g_values _ G) f o Eo) as (a & sr & ql & wk & -> & Of & Gf & _).
  pose proof (g_locals _ G c) as Lc. rewrite Pc in Lc.
  destruct (wait_local_run (mem s) (pcs s) c a f ql wk sr _ _ _ _ _ (g_mem _ G) (g_values _ G) Pc Lc Eo Of)
    as (h2 & R2 & W2 & O2 & E2 & M3 & V3); [by apply room_usable|].
  set (h3 := with_queue h2 f _) in *.
  assert (deref_future c y (mem s) = Ok (bool_decide (is_Some sr), h3)) as R.
  { unfold deref_future, sr_copy. rewrite <-R2. apply bind_eq. by apply sp_copy_eq. }
  simpl. erewrite bind_Ok by (unfold target, gets; by rewrite Ey). erewrite bind_Ok by reflexivity.
  rewrite (bind_Ok _ _ _ _ _ (on_mem_run _ _ _ _ R (wo_failed _ _ (mo_world _ _ _ M3)))).
  erewrite bind_Ok by (unfold gets; simpl; by rewrite Of). erewrite bind_Ok by reflexivity. eexists. split; [reflexivity|].
  split; simpl; [| |exact V3|].
  - unfold world, users. simpl. rewrite W2. exact M3.
  - intros d. simpl. fn_cases; [done|]. rewrite O2 by congruence. apply G.
  - unfold world. simpl. intros d g ts t. fn_cases; [done|]. intros Hd Ht.
    destruct (g_joins _ G d g ts t Hd Ht) as [Q1 Q2]. split; [done|]. unfold will_pass, ended in *. simpl. rewrite W2. exact Q2.
Qed.

(** *** Joining *)

Lemma gates_new hooks l gs ps c g xs :
  gates_ok hooks l gs ps → gs !! g = None → gate_of (ps c) = None → (Z.of_nat (length xs) + 1 < 2 ^ 64)%Z →
  gates_ok hooks l (<[g:=mkObj [[]] [] (Gate.mkCounts (Z.of_nat (length xs) + 1) 0)]> gs) (<[c:=Adding g xs []]> ps).
Proof.
  intros [G1 G2 G3 G4] Eg Pc Hn. assert (∀ d, gate_of (ps d) = Some g → False) as Ng.
  { intros d Hd%G3. rewrite Eg in Hd. by destruct Hd. }
  destruct (G2 g Eg) as [Hz Jz]. split.
  - intros h o. rewrite lookup_insert_Some. intros [[<- <-]|[Hne Ho]].
    + exists c. fn_cases. split; [done|]. exists (Z.of_nat (length xs) + 1)%Z, 0%Z, []. rewrite Hz, Jz.
      split_and!; [done|lia|done|lia].
    + destruct (G1 h o Ho) as (d & D1 & D2). exists d. assert (d ≠ c) by congruence. by rewrite fn_lookup_insert_ne.
  - intros h. rewrite lookup_insert_None. intros [Hh _]. auto.
  - intros d h. fn_cases; [intros [= <-]; by rewrite lookup_insert_eq|]. intros Hd%G3. rewrite lookup_insert_is_Some'. auto.
  - intros d e h. fn_cases; [done| | |by apply G4]; intros Hd He.
    + injection Hd as ->. by apply Ng in He.
    + injection He as ->. by apply Ng in Hd.
Qed.

(** What is to be added, and what will pass, of one gate changes; the sum does not. *)
Lemma gates_move hooks hooks' l l' gs ps c g xs xs' ts ts' :
  gates_ok hooks l gs ps → ps c = Adding g xs ts →
  (hooks' g + joins_of g l' + length xs' = hooks g + joins_of g l + length xs)%nat →
  (∀ i, i ≠ g → hooks' i = hooks i ∧ joins_of i l' = joins_of i l) →
  gates_ok hooks' l' gs (<[c:=Adding g xs' ts']> ps).
Proof.
  intros [G1 G2 G3 G4] Pc Hs Hh. assert (is_Some (gs !! g)) as [og Eg] by (apply (G3 c); by rewrite Pc).
  assert (∀ d, gate_of ((<[c:=Adding g xs' ts']> ps) d) = gate_of (ps d)) as Pg by (intros d; fn_cases; [by rewrite Pc|done]).
  split.
  - intros i o Ho. destruct (decide (i = g)) as [->|Hne].
    + exists c. fn_cases. split; [done|]. destruct (G1 g o Ho) as (d & D1 & D2).
      assert (d = c) as -> by (apply (G4 d c g D1); by rewrite Pc). rewrite Pc in D2.
      destruct D2 as (n & cur & w & N1 & N2 & -> & N3). exists n, cur, w. split_and!; [done..|lia].
    + destruct (G1 i o Ho) as (d & D1 & D2). exists d. rewrite Pg. split; [done|].
      assert (d ≠ c) as Hd by (intros ->; rewrite Pc in D1; simpl in D1; congruence).
      rewrite fn_lookup_insert_ne by done. by destruct (Hh i Hne) as [-> ->].
  - intros i Ei. assert (i ≠ g) as Hne by congruence. destruct (Hh i Hne) as [-> ->]. auto.
  - intros d i. rewrite Pg. apply G3.
  - intros d e i. rewrite !Pg. apply G4.
Qed.

Lemma stacks_new s c g xs o :
  stacks_ok (fibers (world s)) (runnable (world s)) (gates (world s)) (on_stack (world s)) (pcs s) →
  pcs s c = Idle → state_of c s ≠ Dead → gates (world s) !! g = None →
  stacks_ok (fibers (world s)) (runnable (world s)) (<[g:=o]> (gates (world s))) (<[g:=c]> (on_stack (world s)))
    (<[c:=Adding g xs []]> (pcs s)).
Proof.
  intros [S1 S2] Pc Sc Eg. split.
  - intros i. destruct (decide (i = g)) as [->|Hne]; [intros _; exists c; rewrite lookup_insert_eq; split; [done|by fn_cases]|].
    rewrite !lookup_insert_ne by done. intros (d & Ed & Gd)%S1. exists d. split; [done|].
    fn_cases; [by rewrite Pc in Gd|done].
  - intros a f Ea. destruct (S2 a f Ea) as [|[Sf Pa]]; [by left|]. right. split; [done|]. fn_cases; [|done].
    destruct Sc. unfold state_of. by rewrite Ea.
Qed.

(** The joiner of [c] goes on. *)
Lemma stacks_move fs ru gs st ps c p g :
  stacks_ok fs ru gs st ps → gate_of (ps c) = Some g → gate_of p = Some g → stacks_ok fs ru gs st (<[c:=p]> ps).
Proof. intros S Pc Pp. eapply stacks_change; [exact S| |done|eauto]. intros d. by fn_cases; [rewrite Pc, Pp|]. Qed.

Lemma join_good s c g xs :
  good s → pcs s c = Idle → state_of c s ≠ Dead → gates (world s) !! g = None → (Z.of_nat (length xs) + 1 < 2 ^ 64)%Z →
  ∃ s', (on_mem (joiner_new c g (length xs));; goto c (Adding g xs [])) s = Ok (tt, s') ∧ good s'.
Proof.
  intros G Pc Sc Eg Hn. pose proof (mo_world _ _ _ (g_mem _ G)) as [W1 W2 W3 W4 W5].
  set (w' := with_gates (<[g:=mkObj [[]] [] (Gate.mkCounts (u64 (Z.of_nat (length xs) + 1)) 0)]> (gates (world s)))
    (with_stacks (<[g:=c]> (on_stack (world s))) (world s))).
  set (h' := mkHeap (m_count (mem s)) (m_object (mem s)) w' : Mem).
  assert (on_mem (joiner_new c g (length xs)) s = Ok (tt, mkAsync h' (pcs s) (ever s) (origin s) (given s) (returned s) (results s))) as R.
  { by apply on_mem_run. }
  rewrite (bind_Ok _ _ _ _ _ R). eexists. split; [reflexivity|].
  assert (evolves (mem s) h') as Ev by by apply evolves_same.
  split; simpl.
  - apply (mem_contents _ _ _ _ _ (g_mem _ G)); [done..|]. split; simpl; [done..| |].
    + rewrite u64_small by lia. apply gates_new; [done..|by rewrite Pc|done].
    + by apply (stacks_new s).
  - intros d. simpl. fn_cases; [|apply G]. pose proof (g_locals _ G c) as Q. by rewrite Pc in Q.
  - apply (values_evolve _ _ _ _ _ _ _ _ _ (g_values _ G) Ev). intros d b f. by fn_cases.
  - unfold world. simpl. intros d g' ts t. fn_cases; [intros [= <- <-] Ht; by apply elem_of_nil in Ht|]. apply (g_joins _ G).
Qed.

(** What was added will pass. *)
Lemma joins_add w w' ps ev og gv c g x xs ts t :
  joins_ok w ps ev og gv → ps c = Adding g (x :: xs) ts → t ∈ ev → will_pass g t w' og gv →
  (∀ i b, will_pass i b w og gv → will_pass i b w' og gv) →
  joins_ok w' (<[c:=Adding g xs (t :: ts)]> ps) ev og gv.
Proof.
  intros J Pc Ht Wt Q d i us b. fn_cases.
  - intros [= <- <-] [->|Hb]%elem_of_cons; [done|]. destruct (J c g ts b) as [Q1 Q2]; [by rewrite Pc|done|]. auto.
  - intros Hd Hb. destruct (J d i us b Hd Hb) as [Q1 Q2]. auto.
Qed.

Lemma add_fiber_good s c g x xs ts t f :
  good s → pcs s c = Adding g (x :: xs) ts → m_object (mem s) !! Var x = Some (Some t) → fibers (world s) !! t = Some f →
  ∃ s', (t ← on_mem (joinable x g); goto c (Adding g xs (t :: ts))) s = Ok (tt, s') ∧ good s'.
Proof.
  intros G Pc Ex Ef. pose proof (fiber_alive s t f G Ef) as [Ft Ct]. pose proof (mo_world _ _ _ (g_mem _ G)) as [W1 W2 W3 W4 W5].
  set (f' := atExit pass_hook (Some g) f). set (w' := with_fibers (<[t:=f']> (fibers (world s))) (world s)).
  set (h' := mkHeap (m_count (mem s)) (m_object (mem s)) w' : Mem).
  assert (on_mem (joinable x g) s = Ok (t, mkAsync h' (pcs s) (ever s) (origin s) (given s) (returned s) (results s))) as R.
  { apply on_mem_run; [|done]. unfold joinable. rewrite (bind_Ok _ _ _ _ _ (sp_deref_run _ _ _ Ex)), Ft. unfold pass_on_exit.
    rewrite bind_assoc, (bind_Ok _ _ _ _ _ (typed_fiber_at_run _ t f Ef)). by erewrite bind_Ok by reflexivity. }
  rewrite (bind_Ok _ _ _ _ _ R). eexists. split; [reflexivity|].
  assert (exit_hook f' = mkHookable pass_hook (Some g) :: exit_hook f) as Xf by by destruct f.
  assert (evolves (mem s) h') as Ev.
  { apply (set_fiber_evolves (mem s) t f f' Ef); [by destruct f|]. intros k Hk. left. rewrite Xf. auto with zth. }
  split; simpl.
  - apply (mem_contents _ _ _ _ _ (g_mem _ G)); simpl; [|done|].
    { intros b. rewrite lookup_insert_is_Some'. split; [intros [<-|Q]; [by exists f|done]|auto]. }
    split; simpl; [|done|done| |].
    3: { apply (stacks_move _ _ _ _ _ c _ g); [|by rewrite Pc|done]. eapply stacks_change; [exact W5|done..|].
      intros b fb. rewrite lookup_insert_Some. intros [[<- <-]|[_ Eb]]; [|eauto]. exists f. by destruct f. }
    + intros b fb. rewrite lookup_insert_Some. intros [[<- <-]|[_ Eb]]; [|by apply W1 in Eb].
      destruct (W1 t f Ef) as (A & B & D & E). rewrite Xf. split_and!; [by destruct f..| |by destruct f].
      constructor; [by exists g|done].
    + apply (gates_move (λ i, pending i (fibers (world s))) _ (m_join (world s)) _ _ _ _ _ (x :: xs) _ ts); [done..| |].
      * rewrite pending_insert, (pending_delete g _ t f Ef), Xf, hooks_of_cons. simpl. rewrite decide_True by done. lia.
      * intros i Hi. rewrite pending_insert, (pending_delete i _ t f Ef), Xf, hooks_of_cons. simpl.
        by rewrite decide_False by congruence.
  - intros d. simpl. fn_cases; [|apply G]. pose proof (g_locals _ G c) as Q. by rewrite Pc in Q.
  - apply (values_evolve _ _ _ _ _ _ _ _ _ (g_values _ G) Ev). intros d b k. by fn_cases.
  - eapply joins_add; [apply G|exact Pc|by apply (v_ever _ _ _ _ _ _ _ (g_values _ G))| |].
    + unfold will_pass, world. rewrite Ft. right. exists f'. split; [apply lookup_insert_eq|]. rewrite Xf. auto with zth.
    + intros i b. unfold will_pass. destruct (is_fiber b); [|done]. intros [Q|(fb & Eb & Hb)]; [left; by apply (ended_evolves (mem s))|].
      right. unfold world. simpl. destruct (decide (b = t)) as [->|Hne]; [|exists fb; by rewrite lookup_insert_ne].
      exists f'. rewrite lookup_insert_eq, Xf. split; [done|]. assert (fb = f) as -> by (unfold world in *; congruence). auto with zth.
Qed.

Lemma users_cons (l k : list addr) (t : addr) :
  list_to_set_disj (l ++ t :: k) =@{gmultiset addr} list_to_set_disj (l ++ k) ⊎ {[+ t +]}.
Proof. rewrite !list_to_set_disj_app. simpl. multiset_solver. Qed.

Lemma add_future_good s c g x xs ts t :
  good s → room s = true → pcs s c = Adding g (x :: xs) ts → m_object (mem s) !! Var x = Some (Some t) → is_fiber t = false →
  ∃ s', (t ← on_mem (joinable x g); goto c (Adding g xs (t :: ts))) s = Ok (tt, s') ∧ good s'.
Proof.
  intros G Rm Pc Ex Ft. pose proof (mo_world _ _ _ (g_mem _ G)) as [W1 W2 W3 W4 W5].
  assert (is_Some (m_count (mem s) !! t)) as Ct.
  { apply (inv_live _ _ _ _ _ (mo_heap _ _ _ (g_mem _ G)) (Var x)); [set_solver|done]. }
  destruct Ct as [n En]. pose proof (room_usable s t Rm ltac:(by exists n)) as U. simpl in U. rewrite En in U. apply Z.ltb_lt in U.
  destruct (used_run _ _ _ _ _ t n (mo_heap _ _ _ (g_mem _ G)) En U) as [R1 I1].
  set (w' := with_join ((g, t) :: m_join (world s)) (world s)).
  set (h' := mkHeap (<[t:=(n + 1)%Z]> (m_count (mem s))) (m_object (mem s)) w' : Mem).
  assert (on_mem (joinable x g) s = Ok (t, mkAsync h' (pcs s) (ever s) (origin s) (given s) (returned s) (results s))) as R.
  { apply on_mem_run; [|done]. unfold joinable. rewrite (bind_Ok _ _ _ _ _ (sp_deref_run _ _ _ Ex)), Ft.
    rewrite bind_assoc, (bind_Ok _ _ _ _ _ R1). by erewrite bind_Ok by reflexivity. }
  rewrite (bind_Ok _ _ _ _ _ R). eexists. split; [reflexivity|].
  assert (∀ b, is_Some (m_count h' !! b) ↔ is_Some (m_count (mem s) !! b)) as Cs.
  { intros b. simpl. rewrite lookup_insert_is_Some'. split; [intros [<-|]; [by rewrite En|done]|auto]. }
  assert (evolves (mem s) h') as Ev by (apply evolves_same; [done..|]; intros b; by rewrite Cs).
  split; simpl.
  - destruct (g_mem _ G) as [I Mf Mu W]. split; [|intros b; by rewrite Cs, <-Mf|intros b; by rewrite Cs, <-Mu|].
    + assert (users (world {| mem := h'; pcs := <[c:=Adding g xs (t :: ts)]> (pcs s); ever := ever s; origin := origin s;
        given := given s; returned := returned s; results := results s |}) = users (world s) ⊎ {[+ t +]}) as ->.
      { apply (users_cons (runnable (contents (mem s)))). }
      assert (∅ ∖ {[t]} =@{gset addr} ∅) as Q by set_solver. rewrite Q in I1. split; apply I1.
    + split; simpl; [done|split; [apply W2|constructor; [done|apply W2]]|done| |].
      2: { apply (stacks_move _ _ _ _ _ c _ g); [done|by rewrite Pc|done]. }
      apply (gates_move (λ i, pending i (fibers (world s))) _ (m_join (world s)) _ _ _ _ _ (x :: xs) _ ts); [done..| |].
      * rewrite joins_of_cons. simpl. rewrite decide_True by done. lia.
      * intros i Hi. split; [done|]. rewrite joins_of_cons. simpl. by rewrite decide_False by congruence.
  - intros d. simpl. fn_cases; [|apply G]. pose proof (g_locals _ G c) as Q. by rewrite Pc in Q.
  - apply (values_evolve _ _ _ _ _ _ _ _ _ (g_values _ G) Ev). intros d b k. by fn_cases.
  - eapply joins_add; [apply G|exact Pc|by apply (v_ever _ _ _ _ _ _ _ (g_values _ G)); exists n| |].
    + unfold will_pass, world. rewrite Ft. left. simpl. auto with zth.
    + intros i b. unfold will_pass. destruct (is_fiber b); [done|]. intros [Q|Q]; [left|by right]. unfold world. simpl. auto with zth.
Qed.

Lemma next_join_split g w f :
  next_join g w = Some f → ∃ l1 l2, m_join w = l1 ++ (g, f) :: l2 ∧ drop_join g (m_join w) = l1 ++ l2.
Proof.
  unfold next_join. induction (m_join w) as [|[i b] l IH]; simpl; [done|]. unfold of_joiner at 1 3. simpl.
  destruct (bool_decide (i = g)) eqn:E.
  - apply bool_decide_eq_true in E as ->. simpl. intros [= ->]. by exists [], l.
  - intros (l1 & l2 & -> & Q)%IH. exists ((i, b) :: l1), l2. by rewrite Q.
Qed.

Lemma next_join_none g w : next_join g w = nullptr → joins_of g (m_join w) = 0%nat.
Proof.
  unfold next_join. induction (m_join w) as [|[i b] l IH]; simpl; [done|]. unfold of_joiner at 1. simpl.
  rewrite joins_of_cons. simpl. destruct (bool_decide (i = g)) eqn:E; [done|]. apply bool_decide_eq_false in E.
  by rewrite decide_False.
Qed.

Lemma joins_of_middle i g (f : addr) l1 l2 :
  joins_of i (l1 ++ (g, f) :: l2) = (joins_of i (l1 ++ l2) + one_if (i = g))%nat.
Proof.
  induction l1 as [|p l1 IH]; simpl; rewrite !joins_of_cons; simpl.
  - unfold one_if. destruct (decide (g = i)), (decide (i = g)); try congruence; lia.
  - rewrite IH. destruct (decide _); lia.
Qed.

Lemma users_middle (k : list addr) (l1 l2 : list (addr * addr)) g f :
  list_to_set_disj (k ++ (l1 ++ (g, f) :: l2).*2) =@{gmultiset addr} list_to_set_disj (k ++ (l1 ++ l2).*2) ⊎ {[+ f +]}.
Proof. rewrite !fmap_app, fmap_cons, !list_to_set_disj_app, list_to_set_disj_cons. cbn [snd]. multiset_solver. Qed.

(** The joiner of [g] passes it for one. *)
Lemma pass_adding hooks l gs ps c g x xs ts :
  gates_ok hooks l gs ps → ps c = Adding g (x :: xs) ts →
  ∃ b o o', gs !! g = Some o ∧ Gate.pass o = Ok (b, o') ∧ gates_ok hooks l (<[g:=o']> gs) (<[c:=Adding g xs ts]> ps).
Proof.
  intros [G1 G2 G3 G4] Pc. assert (is_Some (gs !! g)) as [o Eg] by (apply (G3 c); by rewrite Pc).
  destruct (G1 g o Eg) as (d & D1 & D2). assert (d = c) as -> by (apply (G4 d c g D1); by rewrite Pc). rewrite Pc in D2.
  destruct D2 as (n & cur & w & N1 & N2 & -> & N3). simpl in N3.
  eexists _, _, _. split; [done|]. split; [apply Gate.pass_run; lia|]. rewrite bool_decide_eq_false_2 by lia.
  assert (∀ d, gate_of ((<[c:=Adding g xs ts]> ps) d) = gate_of (ps d)) as Pg by (intros d; fn_cases; [by rewrite Pc|done]).
  split.
  - intros i o. rewrite lookup_insert_Some. intros [[<- <-]|[Hne Ho]].
    + exists c. fn_cases. split; [done|]. exists n, (cur + 1)%Z, w. split_and!; [done|lia|done|lia].
    + destruct (G1 i o Ho) as (d & E1 & E2). exists d. rewrite Pg. split; [done|].
      assert (d ≠ c) as Hd by (intros ->; rewrite Pc in E1; simpl in E1; congruence). by rewrite fn_lookup_insert_ne.
  - intros i. rewrite lookup_insert_None. intros [Hi _]. auto.
  - intros d i. rewrite Pg, lookup_insert_is_Some'. intros Hd%G3. auto.
  - intros d e i. rewrite !Pg. apply G4.
Qed.

Lemma next_run g h : on_world (gets (next_join g)) h = Ok (next_join g (contents h), h).
Proof. by destruct h. Qed.

Lemma next_blocked_good s c g ts f ql wk a :
  good s → pcs s c = Adding g [] ts → next_join g (world s) = Some f →
  futures (world s) !! f = Some (mkObj [ql] wk (filled None)) → origin s !! f = Some a →
  ∃ b s', on_mem (join_next c g) s = Ok (b, s') ∧ good s'.
Proof.
  intros G Pc Hn Ef Of. set (h' := with_queue (mem s) f (mkObj [ql ++ [c]] wk (filled None))).
  assert (mem_ok (users (world s)) h' (pcs s)) as M by (eapply wait_mem; [apply G|exact Ef|auto]).
  eexists _, _. split.
  - apply on_mem_run; [|apply (mo_world _ _ _ M)]. unfold join_next.
    unfold world in Hn. rewrite (bind_Ok _ _ _ _ _ (next_run g (mem s))), Hn.
    rewrite (bind_Ok _ _ _ _ _ (on_future_run _ _ _ _ _ _ Ef (wait_run c ql wk None))).
    rewrite bool_decide_eq_false_2 by by intros []. simpl. unfold h', with_queue, mret, M_ret. simpl. by destruct (mem s).
  - split; simpl; [exact M|apply (g_locals _ G)| |].
    + apply (wait_values (mem s) (pcs s) (pcs s) _ _ _ _ _ c a f ql wk None); [apply G|done|done|auto].
    + intros d i us b Hd Hb. destruct (g_joins _ G d i us b Hd Hb) as [Q1 Q2]. split; [done|exact Q2].
Qed.

Lemma on_gate_run {A} g (m : M (Obj Gate.Counts) A) h o (a : A) o' :
  gates (contents h) !! g = Some o → m o = Ok (a, o') →
  on_gate g m h = Ok (a, mkHeap (m_count h) (m_object h) (with_gates (<[g:=o']> (gates (contents h))) (contents h))).
Proof. intros Eg R. unfold on_gate, on_world. by rewrite Eg, R. Qed.

(** The hook of a future that is set: the joiner does not use it any more, and passes. *)
Lemma next_passes_run s c g ts f l1 l2 o :
  good s → pcs s c = Adding g [] ts → m_join (world s) = l1 ++ (g, f) :: l2 →
  drop_join g (m_join (world s)) = l1 ++ l2 → futures (world s) !! f = Some o → Future.wait c o = Ok (true, o) →
  next_join g (world s) = Some f →
  ∃ h', join_next c g (mem s) = Ok (true, h') ∧ mem_ok (users (contents h')) h' (pcs s) ∧ evolves (mem s) h' ∧
    m_join (contents h') = l1 ++ l2 ∧ (∀ d, m_object h' !! Local d = m_object (mem s) !! Local d).
Proof.
  intros G Pc Ej Ed Ef Rw Hn. destruct (g_mem _ G) as [I Mf Mu [W1 [W2 W2'] W3 W4]].
  set (w1 := with_join (l1 ++ l2) (world s)). set (h1 := mkHeap (m_count (mem s)) (m_object (mem s)) w1 : Mem).
  assert (users (world s) = users w1 ⊎ {[+ f +]}) as Eu by (unfold users; rewrite Ej; apply users_middle).
  assert (mem_ok (users w1 ⊎ {[+ f +]}) h1 (<[c:=Adding g [1%positive] ts]> (pcs s))) as M1.
  { rewrite <-Eu. apply (mem_contents _ _ _ _ _ (g_mem _ G)); [done..|]. split; [done| |done| |].
    3: { apply (stacks_move _ _ _ _ _ c _ g); [done|by rewrite Pc|done]. }
    - split; [done|]. unfold world in Ej. rewrite Ej in W2'. apply Forall_app in W2' as [Q1 [_ Q2]%Forall_cons]. by apply Forall_app.
    - set (H0 := λ i, pending i (fibers (world s))).
      eapply (gates_move H0 H0 (m_join (world s)) _ _ _ _ _ [] [1%positive]); [exact W4|done| |].
      + rewrite Ej, joins_of_middle. unfold one_if. rewrite decide_True by done. simpl. lia.
      + intros i Hi. split; [done|]. rewrite Ej, joins_of_middle. unfold one_if. rewrite decide_False by done. simpl. lia. }
  destruct (unused_run _ _ h1 f (mo_heap _ _ _ M1)) as (b & h2 & dead & R2 & I2 & Fr & _).
  destruct (mem_frame _ _ _ _ _ _ _ M1 (λ a, in_users a w1) I2 Fr) as [M2 L2]. pose proof (mo_world _ _ _ M2) as [X1 X2 X3 X4 X5].
  destruct (pass_adding _ _ _ _ c g 1%positive [] ts X4) as (b3 & og & og' & Eg & R3 & G3); [by fn_cases|].
  exists (mkHeap (m_count h2) (m_object h2) (with_gates (<[g:=og']> (gates (contents h2))) (contents h2))). split_and!.
  - unfold join_next. unfold world in Hn, Ej, Ed. rewrite (bind_Ok _ _ _ _ _ (next_run g (mem s))), Hn.
    rewrite (bind_Ok _ _ _ _ _ (on_future_same _ _ _ _ _ Ef Rw)).
    erewrite (bind_Ok _ _ (mem s) h1 tt) by (unfold on_world, modify; simpl; by rewrite Ed). rewrite (bind_Ok _ _ _ _ _ R2), (bind_Ok _ _ _ _ _ (on_gate_run _ _ _ _ _ _ Eg R3)). done.
  - assert (users (contents h2) = users w1) as Us by (unfold users; by rewrite (le_runnable _ _ _ L2), (le_join _ _ _ L2)).
    rewrite <-Us in M2. apply (mem_contents _ _ _ _ _ M2); [done..|]. split; [done..| |]; simpl.
    + eapply gates_ps; [exact G3|]. intros d. left. by fn_cases.
    + eapply stacks_change; [exact X5| | |eauto]; [intros d; by fn_cases; [rewrite Pc|]|].
      intros i. rewrite lookup_insert_is_Some'. intros [<-|]; [by rewrite Eg|done].
  - eapply mem_evolves_trans; [apply (evolves_same (mem s) h1); done|].
    eapply mem_evolves_trans; [eapply (frame_evolves _ _ _ _ _ _ _ M1 M2 L2 Fr); set_solver|]. by apply evolves_same.
  - simpl. by rewrite (le_join _ _ _ L2).
  - intros d. simpl. destruct (frame_object _ _ _ _ Fr (Local d)) as [->|[_ (? & [=] & _)]]; [set_solver|done].
Qed.

Lemma next_good s c g ts f :
  good s → pcs s c = Adding g [] ts → next_join g (world s) = Some f →
  ∃ b s', on_mem (join_next c g) s = Ok (b, s') ∧ good s'.
Proof.
  intros G Pc Hn. destruct (next_join_split g (world s) f Hn) as (l1 & l2 & Ej & Ed).
  assert (is_fiber f = false) as Ff.
  { pose proof (proj2 (wo_lists _ _ (mo_world _ _ _ (g_mem _ G)))) as Q. unfold world in Ej. rewrite Ej in Q.
    by apply Forall_app in Q as [_ [Q _]%Forall_cons]. }
  assert (is_Some (futures (world s) !! f)) as [o Ef].
  { apply (mo_future _ _ _ (g_mem _ G)). split; [done|]. apply (inv_held _ _ _ _ _ (mo_heap _ _ _ (g_mem _ G))).
    unfold users. rewrite Ej, users_middle. multiset_solver. }
  destruct (v_future _ _ _ _ _ _ _ (g_values _ G) f o Ef) as (a & sr & ql & wk & -> & Of & Gf & _).
  destruct sr as [r|]; [|by eapply next_blocked_good].
  destruct (next_passes_run s c g ts f l1 l2 _ G Pc Ej Ed Ef) as (h' & R & M' & Ev & J' & L'); [|done|].
  { rewrite wait_run. by rewrite bool_decide_true by by eexists. }
  exists true. eexists. split; [apply (on_mem_run _ _ _ _ R), (mo_world _ _ _ M')|].
  split; simpl; [exact M'|intros d; rewrite L'; apply G|by apply (values_evolve _ _ _ _ _ _ _ _ _ (g_values _ G) Ev)|].
  unfold world. simpl. intros d i us b Hd Hb. destruct (g_joins _ G d i us b Hd Hb) as [Q1 Q2]. split; [done|]. unfold will_pass in *.
  destruct (is_fiber b) eqn:Fb.
  - pose proof (joins_evolve (mem s) (mkHeap (m_count h') (m_object h') (with_join (m_join (world s)) (contents h'))) (pcs s) (pcs s) (ever s)
      (origin s) (given s) (g_joins _ G)) as Q.
    destruct (Q) with (c := d) (g := i) (ts := us) (t := b) as [_ Q3]; [|done..|].
    + destruct Ev as [E1 E2 E3 E4]. by split.
    + unfold will_pass in Q3. rewrite Fb in Q3. exact Q3.
  - destruct Q2 as [Q2|Q2]; [|by right]. rewrite Ej in Q2. rewrite J'.
    apply elem_of_app in Q2 as [Q2|[Q2|Q2]%elem_of_cons]; [left; set_solver| |left; set_solver].
    injection Q2 as -> ->. right. exists a. split; [done|]. by rewrite Gf.
Qed.

(** *** The joiner at its gate *)

Lemma gate_wait_run hooks l gs ps c g ts ts' :
  gates_ok hooks l gs ps → ps c = Adding g [] ts → joins_of g l = 0%nat →
  ∃ b o o', gs !! g = Some o ∧ Gate.wait c o = Ok (b, o') ∧ gates_ok hooks l (<[g:=o']> gs) (<[c:=Joined g ts']> ps).
Proof.
  intros [G1 G2 G3 G4] Pc J0. assert (is_Some (gs !! g)) as [o Eg] by (apply (G3 c); by rewrite Pc).
  destruct (G1 g o Eg) as (d & D1 & D2). assert (d = c) as -> by (apply (G4 d c g D1); by rewrite Pc). rewrite Pc in D2.
  destruct D2 as (n & cur & w & N1 & N2 & -> & N3). rewrite J0 in N3. simpl in N3.
  assert (∃ b o', Gate.wait c (mkObj [[]] w (Gate.mkCounts n cur)) = Ok (b, o') ∧ gate_ok c (Joined g ts') (hooks g) 0 o') as (b & o' & R & Q).
  { unfold Gate.wait. erewrite bind_Ok by (apply Gate.pass_run; lia). destruct (hooks g) as [|k] eqn:Hk.
    - rewrite bool_decide_eq_true_2 by lia. eexists _, _. split; [reflexivity|]. exists n, 0%Z, (w ++ []). done.
    - rewrite bool_decide_eq_false_2 by lia. eexists _, _. split; [reflexivity|]. exists n, (cur + 1)%Z, w. simpl.
      split_and!; [done|lia|done|done|lia]. }
  exists b, (mkObj [[]] w (Gate.mkCounts n cur)), o'. split; [done|]. split; [done|].
  assert (∀ d, gate_of ((<[c:=Joined g ts']> ps) d) = gate_of (ps d)) as Pg by (intros d; fn_cases; [by rewrite Pc|done]).
  split.
  - intros i oi. rewrite lookup_insert_Some. intros [[<- <-]|[Hne Ho]].
    + exists c. fn_cases. split; [done|]. by rewrite J0.
    + destruct (G1 i oi Ho) as (d & E1 & E2). exists d. rewrite Pg. split; [done|].
      assert (d ≠ c) as Hd by (intros ->; rewrite Pc in E1; simpl in E1; congruence). by rewrite fn_lookup_insert_ne.
  - intros i. rewrite lookup_insert_None. intros [Hi _]. auto.
  - intros d i. rewrite Pg, lookup_insert_is_Some'. intros Hd%G3. auto.
  - intros d e i. rewrite !Pg. apply G4.
Qed.

Lemma wait_good s c g ts :
  good s → pcs s c = Adding g [] ts → next_join g (world s) = nullptr →
  ∃ s', (on_mem (joiner_wait c g);; goto c (Joined g ts)) s = Ok (tt, s') ∧ good s'.
Proof.
  intros G Pc Hn%next_join_none. pose proof (mo_world _ _ _ (g_mem _ G)) as [W1 W2 W3 W4 W5].
  destruct (gate_wait_run _ _ _ _ c g ts ts W4 Pc Hn) as (b & o & o' & Eg & R & G').
  set (w' := with_gates (<[g:=o']> (gates (world s))) (world s)). set (h' := mkHeap (m_count (mem s)) (m_object (mem s)) w' : Mem).
  pose proof (on_gate_run g (Gate.wait c) (mem s) o b o' Eg R) as R'.
  rewrite (bind_Ok _ _ _ _ _ (on_mem_run _ _ _ h' R' W3)). eexists. split; [reflexivity|].
  assert (evolves (mem s) h') as Ev by by apply evolves_same. split; simpl.
  - apply (mem_contents _ _ _ _ _ (g_mem _ G)); [done..|]. split; [done..|]. apply (stacks_move _ _ _ _ _ c _ g); [|by rewrite Pc|done].
    eapply stacks_change; [exact W5|done| |eauto]. intros i. simpl. rewrite lookup_insert_is_Some'. intros [<-|]; [by eexists|done].
  - intros d. simpl. fn_cases; [|apply G]. pose proof (g_locals _ G c) as Q. by rewrite Pc in Q.
  - apply (values_evolve _ _ _ _ _ _ _ _ _ (g_values _ G) Ev). intros d a f. by fn_cases.
  - apply (joins_evolve (mem s) h' _ _ _ _ _ (g_joins _ G) Ev); [done|]. intros d i us. fn_cases; [|done].
    intros [= <- <-]. by rewrite Pc.
Qed.

(** Whether the joiner is still at the gate. *)
Lemma waits_at_spec s c g ts :
  good s → pcs s c = Joined g ts → waits_at c g (world s) = bool_decide (pending g (fibers (world s)) ≠ 0%nat) ∧ joins_of g (m_join (world s)) = 0%nat.
Proof.
  intros G Pc. pose proof (wo_gates _ _ (mo_world _ _ _ (g_mem _ G))) as Go.
  destruct (gi_pc _ _ _ _ Go c g) as [o Eg]; [by rewrite Pc|].
  pose proof (gates_of_joiner _ _ _ _ c g o Go ltac:(by rewrite Pc) Eg) as Q. rewrite Pc in Q.
  destruct Q as (n & cur & w & _ & _ & Hj & Q). unfold waits_at, world. rewrite Eg. split; [|done].
  destruct (pending g (fibers (contents (mem s)))) as [|k].
  - by subst o.
  - destruct Q as [-> _]. simpl. rewrite (bool_decide_eq_true_2 (c ∈ [c])) by set_solver. done.
Qed.

Lemma leave_good s c g ts :
  good s → pcs s c = Joined g ts → waits_at c g (world s) = false →
  ∃ s', (on_mem (joiner_end g);; goto c Idle) s = Ok (tt, s') ∧ good s'.
Proof.
  intros G Pc Hw. destruct (waits_at_spec s c g ts G Pc) as [Q J0]. rewrite Hw in Q. symmetry in Q. apply bool_decide_eq_false in Q.
  pose proof (mo_world _ _ _ (g_mem _ G)) as [W1 W2 W3 W4 W5].
  set (w' := with_gates (delete g (gates (world s))) (with_stacks (delete g (on_stack (world s))) (world s))). set (h' := mkHeap (m_count (mem s)) (m_object (mem s)) w' : Mem).
  assert (joiner_end g (mem s) = Ok (tt, h')) as R by done.
  rewrite (bind_Ok _ _ _ _ _ (on_mem_run _ _ _ h' R W3)). eexists. split; [reflexivity|].
  assert (evolves (mem s) h') as Ev by by apply evolves_same.
  assert (gates_ok (λ i, pending i (fibers (world s))) (m_join (world s)) (delete g (gates (world s))) (<[c:=Idle]> (pcs s))) as G'.
  { destruct W4 as [G1 G2 G3 G4]. split.
    - intros i o. rewrite lookup_delete_Some. intros [Hne Ho]. destruct (G1 i o Ho) as (d & D1 & D2). exists d.
      assert (d ≠ c) as Hd by (intros ->; rewrite Pc in D1; simpl in D1; congruence). by rewrite fn_lookup_insert_ne.
    - intros i. destruct (decide (g = i)) as [<-|Hne]; [intros _; split; [lia|done]|]. rewrite lookup_delete_ne by done. auto.
    - intros d i. fn_cases; [done|]. intros Hd. rewrite lookup_delete_is_Some. split; [|by apply (G3 d)].
      intros ->. assert (d = c); [|done]. apply (G4 d c i Hd). by rewrite Pc.
    - intros d e i. fn_cases; [done..|]. apply G4. }
  split; simpl.
  - apply (mem_contents _ _ _ _ _ (g_mem _ G)); [done..|]. split; [done..|]. destruct W5 as [S1 S2]. split; simpl.
    + intros i. rewrite lookup_delete_is_Some. intros [Hne (d & Ed & Gd)%S1]. exists d. rewrite lookup_delete_ne by done.
      split; [done|]. fn_cases; [|done]. rewrite Pc in Gd. simpl in Gd. congruence.
    + intros b f Eb. destruct (S2 b f Eb) as [|[Sb Pb]]; [by left|]. right. split; [done|]. by fn_cases.
  - intros d. simpl. fn_cases; [|apply G]. pose proof (g_locals _ G c) as Q'. by rewrite Pc in Q'.
  - apply (values_evolve _ _ _ _ _ _ _ _ _ (g_values _ G) Ev). intros d a f. by fn_cases.
  - apply (joins_evolve (mem s) h' _ _ _ _ _ (g_joins _ G) Ev); [done|]. intros d i us. by fn_cases.
Qed.
End Invariant.

(** ** Every step *)

Section Steps.
Context `{Config} {V : Type} (fiber_already_dead : addr) (min_timeslice dt_max : TimeInterval) (default_stack : Z).
Abbreviation step := (step fiber_already_dead min_timeslice dt_max default_stack).
Abbreviation good := (good fiber_already_dead).
Implicit Types (s : System (V := V)) (l : label (V := V)).

Lemma refers_object s b x : refers b x s = true → ∃ a, m_object (mem s) !! Var x = Some (Some a) ∧ is_fiber a = b.
Proof.
  unfold refers, target. destruct (m_object (mem s) !! Var x) as [[a|]|]; simpl; try done.
  intros Q%eqb_prop. eauto.
Qed.

Lemma refers_fiber s x : good s → refers true x s = true →
  ∃ a fa, m_object (mem s) !! Var x = Some (Some a) ∧ fibers (world s) !! a = Some fa.
Proof.
  intros G (a & Ex & Fa)%refers_object. destruct (proj2 (mo_fiber _ _ _ (g_mem _ _ G) a)) as [fa Ea]; [|eauto].
  split; [done|]. apply (inv_live _ _ _ _ _ (mo_heap _ _ _ (g_mem _ _ G)) (Var x)); [set_solver|done].
Qed.

Lemma is_new_spec s b a : is_new b a s = true → is_fiber a = b ∧ a ∉ ever s.
Proof. unfold is_new. intros [Q1%eqb_prop Q2%bool_decide_eq_true]%andb_true_iff. done. Qed.

Lemma is_idle_spec s c : is_idle c s = true → pcs s c = Idle.
Proof. unfold is_idle. by destruct (pcs s c). Qed.

Lemma may_clean_gate s a : may_clean a s = true → gate_of (pcs s a) = None.
Proof. unfold may_clean. by destruct (pcs s a). Qed.

Lemma lives_state s c : lives c s = true → state_of c s ≠ Dead.
Proof.
  unfold lives, state_of. destruct (fibers (world s) !! c) as [f|]; [|done]. by intros ?%negb_true_iff%bool_decide_eq_false.
Qed.

Lemma add_good s c g x xs ts :
  good s → room s = true → pcs s c = Adding g (x :: xs) ts → target (Var x) s ≠ nullptr →
  ∃ s', (t ← on_mem (joinable x g); goto c (Adding g xs (t :: ts))) s = Ok (tt, s') ∧ good s'.
Proof.
  intros G Rm Pc Et. unfold target in Et. destruct (m_object (mem s) !! Var x) as [[t|]|] eqn:Ex; simpl in Et; try done.
  destruct (is_fiber t) eqn:Ft; [|by eapply add_future_good].
  destruct (proj2 (mo_fiber _ _ _ (g_mem _ _ G) t)) as [f Ef]; [|by eapply add_fiber_good].
  split; [done|]. apply (inv_live _ _ _ _ _ (mo_heap _ _ _ (g_mem _ _ G)) (Var x)); [set_solver|done].
Qed.

Lemma async_step_good l s : good s → enabled l s = true → ∃ s', step l s = Ok (tt, s') ∧ good s'.
Proof.
  unfold enabled. intros G [[Rm Lv]%andb_true_iff E]%andb_true_iff.
  destruct l as [a x|c x f|x y f|c y|c|a r|a|a|x|c g xs|c|c|c|c];
    repeat match goal with Q : _ && _ = true |- _ => apply andb_true_iff in Q as [Q ?] end;
    repeat match goal with Q : negb _ = true |- _ => apply negb_true_iff in Q end;
    repeat match goal with
      | Q : is_new _ _ _ = true |- _ => apply is_new_spec in Q as [? ?]
      | Q : is_idle _ _ = true |- _ => apply is_idle_spec in Q
      | Q : begun _ _ = false |- _ => apply bool_decide_eq_false, eq_None_not_Some in Q
      | Q : refers true _ _ = true |- _ => destruct (refers_fiber _ _ G Q) as (? & ? & ? & ?); clear Q
      | Q : refers false _ _ = true |- _ => apply refers_object in Q as (? & ? & ?)
      end.
  - by apply spawn_good.
  - by eapply deref_good.
  - simpl. erewrite bind_Ok by (unfold gets, target; simplify_option_eq; reflexivity). erewrite bind_Ok by reflexivity.
    by eapply as_future_good.
  - by eapply deref_future_good.
  - destruct (pcs s c) as [|a f| |] eqn:Pc; try done. apply negb_true_iff in E. by eapply get_good.
  - apply bool_decide_eq_false in E. match goal with Q : state_eqb _ Uninitialized = false |- _ => apply bool_decide_eq_false in Q end.
    by apply finish_good.
  - apply bool_decide_eq_false in E. by apply kill_good.
  - apply bool_decide_eq_true in E. match goal with Q : bool_decide (_ ∈ _) = true |- _ => apply bool_decide_eq_true in Q end.
    apply cleanup_good; [done..|]. match goal with Q : may_clean _ _ = true |- _ => by apply may_clean_gate in Q end.
  - by apply end_good.
  - match goal with Q : bool_decide _ = true |- _ => apply bool_decide_eq_true in Q end.
    match goal with Q : (_ <? _)%Z = true |- _ => apply Z.ltb_lt in Q end.
    apply join_good; [done..| |done|done]. by apply lives_state.
  - destruct (pcs s c) as [| |g xs ts|] eqn:Pc; try done. destruct xs as [|x xs]; [done|].
    apply negb_true_iff, ptr_eqb_false in E. simpl. erewrite bind_Ok by reflexivity. rewrite Pc. by eapply add_good.
  - destruct (pcs s c) as [| |g xs ts|] eqn:Pc; try done. destruct xs; [|done].
    destruct (next_join g (world s)) as [f|] eqn:Hn; [|done]. simpl. erewrite bind_Ok by reflexivity. rewrite Pc.
    destruct (next_good _ s c g ts f G Pc Hn) as (b & s' & R & G'). rewrite (bind_Ok _ _ _ _ _ R). by eexists.
  - destruct (pcs s c) as [| |g xs ts|] eqn:Pc; try done. destruct xs; [|done]. apply ptr_eqb_true in E.
    simpl. erewrite bind_Ok by reflexivity. rewrite Pc. by apply wait_good.
  - destruct (pcs s c) as [| | |g ts] eqn:Pc; try done. apply negb_true_iff in E.
    simpl. erewrite bind_Ok by reflexivity. rewrite Pc. by eapply leave_good.
Qed.

Lemma async_init_good : good (init (V := V)).
Proof.
  split; simpl.
  - split; simpl; [|intros a; rewrite !lookup_empty; split; [by intros []|by intros [_ []]]..|].
    + apply (Program.sharing_init_good (K := place) (S := World V)).
    + split; [done|split; constructor|done|by split|]. split; [intros g; simpl; rewrite lookup_empty; by intros []|done].
  - intros c. apply lookup_empty.
  - split; simpl; intros *; rewrite ?lookup_empty; try done; try by intros [].
    by intros ?%elem_of_nil.
  - intros c g ts t. done.
Qed.

(** Only the end of its function changes what a fiber returned. *)
Lemma on_mem_returned {A} (m : M (Heap place (World V)) A) s x s' :
  on_mem m s = Ok (x, s') → returned s' = returned s ∧ pcs s' = pcs s.
Proof. unfold on_mem. destruct (m (mem s)) as [[y h]|]; [|done]. destruct (failed (contents h)); [done|]. by intros [= <- <-]. Qed.

Lemma observe_returned a s x s' : observe (V := V) a s = Ok (x, s') → returned s' = returned s.
Proof. unfold observe, modify. intros [= <- <-]. by destruct (given_now a s) as [[f r]|]. Qed.

Lemma step_returned l s s' :
  step l s = Ok (tt, s') → returned s' = match l with Finish a r => <[a:=r]> (returned s) | _ => returned s end.
Proof.
  destruct l as [a x|c x f|x y f|c y|c|a r|a|a|x|c g xs|c|c|c|c]; simpl;
    unfold mbind, M_bind, gets, from_ptr, mret, M_ret, fail, met, goto, note_result, note_returned, modify;
    intros R; repeat (case_match; simplify_eq/=; try done);
    repeat match goal with Q : on_mem _ _ = Ok _ |- _ => apply on_mem_returned in Q as [? _] end;
    repeat match goal with Q : observe _ _ = Ok _ |- _ => apply observe_returned in Q end; simpl in *; congruence.
Qed.

Lemma run_returned ls s s' a r :
  run step ls s = Ok (tt, s') → returned s' !! a = Some r → returned s !! a = Some r ∨ Finish a r ∈ ls.
Proof.
  revert s. induction ls as [|l ls IH]; intros s; simpl; [intros [= <-]; auto|].
  unfold mbind, M_bind. destruct (step l s) as [[[] s1]|] eqn:R1; [|done]. intros R Hr.
  destruct (IH s1 R Hr) as [Q|Q]; [|set_solver]. rewrite (step_returned _ _ _ R1) in Q.
  destruct l; auto. apply lookup_insert_Some in Q as [[<- <-]|[_ Q]]; set_solver.
Qed.
End Steps.

(** ** Properties *)

Section Properties.
Context `{Config} {V : Type} (fiber_already_dead : addr) (min_timeslice dt_max : TimeInterval) (default_stack : Z).
Abbreviation step := (step fiber_already_dead min_timeslice dt_max default_stack).

Lemma reached (ls : list (label (V := V))) :
  legal enabled step ls init → ∃ s, run step ls init = Ok (tt, s) ∧ good fiber_already_dead s.
Proof. intros Lg. refine (run_always enabled step (good fiber_already_dead) ls _ _ (async_init_good _) Lg). intros l s. apply async_step_good. Qed.

(** C36: whatever fibers call functions asynchronously, wait for them, drop what refers to
    them, end or are killed, in whatever order, nothing that was deleted is used; but a fiber
    that was killed while it is in a joiner may not be cleaned up ([killed_joiner]).  What
    [operator*] gives for a fiber is what its function returned or threw; or it is
    [fiber_already_dead], when the future was asked for when the fiber was dead already.
    All who wait for a fiber get the same, once its function has returned. *)
Theorem async_returns (ls : list (label (V := V))) :
  legal enabled step ls init →
  ∃ s, run step ls init = Ok (tt, s) ∧
    (∀ c a r, (c, a, r) ∈ results s → Finish a r ∈ ls ∨ r = Rethrow fiber_already_dead ∧ ended a (world s)) ∧
    (∀ c c' a r r', (c, a, r) ∈ results s → (c', a, r') ∈ results s → r = r') ∧
    (∀ c a f, pcs s c = Getting a f → (∃ r, returned s !! a = Some r) →
       waits_for c f (world s) = false ∧ ∃ r s', step (Get c) s = Ok (tt, s') ∧ results s' = results s ++ [(c, a, r)]).
Proof.
  intros Lg. destruct (reached ls Lg) as (s & R & G). exists s. pose proof (g_values _ _ G) as Va. split_and!; [done|..].
  - intros c a r Hr%(v_results _ _ _ _ _ _ _ _ Va). destruct (v_given _ _ _ _ _ _ _ _ Va a r Hr) as [Q|Q]; [left|by right].
    destruct (run_returned _ _ _ _ ls init s a r R Q) as [Q'|]; [|done]. simpl in Q'. by rewrite lookup_empty in Q'.
  - intros c c' a r r' Hr%(v_results _ _ _ _ _ _ _ _ Va) Hr'%(v_results _ _ _ _ _ _ _ _ Va). congruence.
  - intros c a f Pc Hr. destruct (future_there _ s c a f G Pc) as (sr & ql & wk & Ef & Hg & Q).
    destruct (v_done _ _ _ _ _ _ _ _ Va f a) as [r Gr]; [by eexists|by apply (v_get _ _ _ _ _ _ _ _ Va c)|done|].
    assert (sr = Some r) as -> by congruence. subst ql. assert (waits_for c f (world s) = false) as Hw.
    { unfold waits_for. by rewrite Ef. }
    split; [done|]. exists r. destruct (get_result_run fiber_already_dead s c a f r G Pc Hw Gr) as (s' & R' & _ & Rs).
    by exists s'.
Qed.

(** C26: a joiner leaves its gate exactly when no fiber is left with an exit hook that passes it;
    then all that it joined are at their end: the fibers are dead or deleted, and the
    futures have got their results.  The fibers that were killed in a joiner are not cleaned
    up, as in C36. *)
Theorem join_waits (ls : list (label (V := V))) c g ts :
  legal enabled step ls init →
  ∃ s, run step ls init = Ok (tt, s) ∧
    (pcs s c = Joined g ts →
      (waits_at c g (world s) = false ↔
        ∀ t f, fibers (world s) !! t = Some f → mkHookable pass_hook (Some g) ∉ exit_hook f) ∧
      (waits_at c g (world s) = false → ∀ t, t ∈ ts →
        if is_fiber t then ended t (world s) else ∃ a r, origin s !! t = Some a ∧ given s !! a = Some r)).
Proof.
  intros Lg. destruct (reached ls Lg) as (s & R & G). exists s. split; [done|]. intros Pc.
  destruct (waits_at_spec _ s c g ts G Pc) as [Q J0].
  assert (waits_at c g (world s) = false ↔ ∀ t f, fibers (world s) !! t = Some f → mkHookable pass_hook (Some g) ∉ exit_hook f) as W.
  { rewrite Q, bool_decide_eq_false. split.
    - intros P t f Ef Hf. apply P. rewrite (pending_delete g _ t f Ef). pose proof (hooks_of_in g _ _ Hf eq_refl). lia.
    - intros Nh Hp. apply Hp. apply pending_zero. intros t f Ef k Hk Hg. apply (Nh t f Ef).
      destruct (wo_fiber _ _ (mo_world _ _ _ (g_mem _ _ G)) t f Ef) as (_ & _ & Fp & _). rewrite Forall_forall in Fp.
      destruct (Fp k Hk) as [g' ->]. injection Hg as ->. done. }
  split; [done|]. intros Hw t Ht. destruct (g_joins _ _ G c g ts t) as [_ Q2]; [by rewrite Pc|done|]. unfold will_pass in Q2.
  destruct (is_fiber t).
  - destruct Q2 as [Q2|(f & Ef & Hf)]; [done|]. by destruct (proj1 W Hw t f Ef).
  - destruct Q2 as [Q2|(a & Oa & [r Ga])]; [|by exists a, r]. exfalso. assert (0 < joins_of g (m_join (world s)))%nat; [|lia].
    unfold joins_of. assert ((g, t) ∈ filter (λ p, fst p = g) (m_join (world s))) as Hf by by apply list_elem_of_filter.
    destruct (filter _ _); [by apply elem_of_nil in Hf|simpl; lia].
Qed.
End Properties.

(** *** Witnesses *)

Module Example.

(** Fibers return numbers; the exception has number 99. *)
Definition example_step : label (V := Z) → M System unit := step (H := debug_config) 99 null null 0.

(** What is observed at the end of a legal run. *)
Definition outcome_of {A} (ls : list (label (V := Z))) (obs : System → A) : option A :=
  if legalb (enabled (V := Z)) example_step ls init then
    match run example_step ls init with Ok (_, s) => Some (obs s) | Fault _ => None end
  else None.

(** The fibers 1 and 5 ask for the result of the fiber 3; one has to wait, and gets it
    after the fiber was deleted. *)
Definition two_wait : list (label (V := Z)) :=
  [Spawn 3 1; Deref 1 1 2; Deref 5 1 4; End 1; Finish 3 (Value 42%Z); Get 1; Cleanup 3]%positive.

(** The fiber 7 joins the fiber 3, and the future of the fiber 5. *)
Definition join_two : list (label (V := Z)) :=
  [Spawn 3 1; Spawn 5 2; AsFuture 2 3 2; Join 7 9 [1; 3]; Add 7; Add 7; Next 7; Finish 5 (Value 1%Z); Next 7; Wait 7;
   Kill 3; Cleanup 3; End 1]%positive.
End Example.

Import Example.

Lemma async_returns_witness :
  outcome_of (two_wait ++ [Get 5%positive])
    (λ s, (results s, bool_decide (m_count (mem s) = ∅))) = Some ([(1, 3, Value 42%Z); (5, 3, Value 42%Z)]%positive, true) ∧
  ∃ s, run example_step two_wait init = Ok (tt, s) ∧ waits_for 5 2 (world s) = false.
Proof.
  split; [vm_compute; reflexivity|].
  destruct (async_returns (H := debug_config) (V := Z) 99 null null 0 two_wait) as (s & R & _ & _ & Q);
    [apply legalb_legal; vm_compute; reflexivity|].
  exists s. split; [exact R|]. apply (Q 5%positive 3%positive 2%positive).
  - vm_compute in R. injection R as <-. vm_compute. reflexivity.
  - vm_compute in R. injection R as <-. exists (Value 42%Z). vm_compute. reflexivity.
Defined.

Lemma join_waits_witness :
  outcome_of (take 10 join_two) (λ s, (pcs s 7%positive, waits_at 7 9 (world s))) = Some (Joined 9 [2; 3]%positive, true) ∧
  ∃ s, run example_step join_two init = Ok (tt, s) ∧ ended 3 (world s) ∧ ∃ a r, origin s !! 2%positive = Some a ∧ given s !! a = Some r.
Proof.
  split; [vm_compute; reflexivity|].
  destruct (join_waits (H := debug_config) (V := Z) 99 null null 0 join_two 7 9 [2; 3]%positive) as (s & R & Q);
    [apply legalb_legal; vm_compute; reflexivity|].
  exists s. split; [exact R|].
  assert (pcs s 7%positive = Joined 9 [2; 3]%positive) as Pc by (vm_compute in R; injection R as <-; vm_compute; reflexivity).
  assert (waits_at 7 9 (world s) = false) as Hw by (vm_compute in R; injection R as <-; vm_compute; reflexivity).
  destruct (Q Pc) as [_ Q2]. split.
  - refine (Q2 Hw 3%positive _). apply elem_further, elem_here.
  - refine (Q2 Hw 2%positive _). apply elem_here.
Defined.

(** What is not allowed, and what does not get to its end. *)

(** The fiber 7, on the stack of which is the gate [9], is killed and deleted while it joins the
    fiber 3: the exit hook of that one passes a gate that is not there any more. *)
Definition killed_in_join : list (label (V := Z)) :=
  [Spawn 3 1; Spawn 7 2; Join 7 9 [1]; Add 7; Kill 7]%positive.

Lemma killed_joiner :
  outcome_of killed_in_join (λ s, (state_of 7 s, bool_decide (7%positive ∈ runnable (world s)), enabled (Cleanup 7) s)) =
    Some (Dead, true, false) ∧
  run example_step (killed_in_join ++ [Cleanup 7; End 2; Finish 3 (Value 1%Z)]%positive) init = Fault NullDeref ∧
  ∃ s, run example_step (killed_in_join ++ [Cleanup 7; End 2]%positive) init = Ok (tt, s) ∧
    gates (world s) !! 9%positive = None ∧ fibers (world s) !! 7%positive = None.
Proof. split; [by vm_compute|]. split; [by vm_compute|]. eexists. split; [vm_compute; reflexivity|by vm_compute]. Qed.


(** A fiber that is joined after its function returned has its exit hooks called when it is
    deleted; what refers to it keeps it.  The joiner waits for as long as that is there. *)
Lemma join_ended_fiber :
  let ls := [Spawn 3 1; Finish 3 (Value 1%Z); Cleanup 3; Join 7 9 [1]; Add 7; Wait 7]%positive in
  outcome_of ls (λ s, (pcs s 7%positive, state_of 3 s, waits_at 7 9 (world s))) = Some (Joined 9 [3]%positive, Dead, true) ∧
  outcome_of ls (λ s, (enabled (Finish 3 (Value 1%Z)) s, enabled (Cleanup 3) s, enabled (Leave 7) s)) = Some (false, false, false) ∧
  outcome_of (ls ++ [End 1%positive]) (λ s, enabled (Leave 7) s) = Some true.
Proof. vm_compute. done. Qed.

(** Who waits for a fiber that is killed does so for ever, as nothing is left that sets the
    future; who asks after that gets the exception. *)
Lemma killed_fiber_waits :
  let ls := [Spawn 3 1; AsFuture 1 2 2; DerefFuture 7 2; Kill 3; Cleanup 3; End 1]%positive in
  outcome_of ls (λ s, (enabled (Get 7) s, state_of 3 s, given s !! 3%positive)) = Some (false, Uninitialized, None) ∧
  outcome_of [Spawn 3 1; Kill 3; Deref 7 1 2; Get 7]%positive results = Some [(7, 3, Rethrow 99)]%positive.
Proof. vm_compute. done. Qed.

(** [zth_fiber_create] leaves a fiber that only the worker uses; when there is no memory, it
    reports so. *)
Lemma fiber_create_outcomes :
  (∃ h, zth_fiber_create (H := debug_config) (V := Z) null null 4096 true 3 1 8192 (mem init) = Ok (0%Z, h) ∧
     m_count h !! 3%positive = Some 1%Z ∧ runnable (contents h) = [3%positive] ∧
     (stackSize <$> fibers (contents h) !! 3%positive) = Some 8192%Z) ∧
  zth_fiber_create (H := debug_config) (V := Z) null null 4096 false 3 1 8192 (mem init) = Ok (ENOMEM, mem init).
Proof. split; [eexists; split; [vm_compute; reflexivity|by vm_compute]|done]. Qed.
