(* ===== verification/Context.v ===== *)
(** * Contexts and their stacks (libzth/context.h, context/context.h, src/context.cpp)

    A context owns a stack: memory that is mapped for it, of which the usable part is
    whole pages, with a page that cannot be accessed on both sides.  The usable part is
    filled with a marker, to see later how far it was used.  How a context is entered
    (by [ucontext], [sigaltstack] or [setjmp]) is left out, apart from what can fail.
    Answers of system calls are arguments; the address space records what was asked
    for. *)

From stdpp Require Import base gmap list.
From Stdlib Require Import ZArith Lia.
From S2P Require Import Prelude Fiber.

Local Open Scope Z_scope.

(** ** Memory *)

(** What is mapped, which parts of that cannot be accessed, and the 8-byte words that
    were written.  A region is its address and its size. *)
Record Space := mkSpace { maps : gset (Z * Z); guards : gset (Z * Z); words : gmap Z Z }.

Definition inside (a n : Z) (r : Z * Z) : Prop := fst r ≤ a ∧ a + n ≤ fst r + snd r.
Definition apart (a n : Z) (r : Z * Z) : Prop := a + n ≤ fst r ∨ fst r + snd r ≤ a.

#[export] Instance inside_dec a n r : Decision (inside a n r).
Proof. unfold inside. apply _. Defined.
#[export] Instance apart_dec a n r : Decision (apart a n r).
Proof. unfold apart. apply _. Defined.

(** Whether the [n] bytes at [a] can be read and written. *)
Definition accessible (s : Space) (a n : Z) : bool :=
  bool_decide (set_Exists (inside a n) (maps s)) && bool_decide (set_Forall (apart a n) (guards s)).

Definition load (a : Z) : M Space Z := λ s,
  if accessible s a 8 && (a `mod` 8 =? 0) then Ok (default 0 (words s !! a), s) else Fault NullDeref.
Definition store (a v : Z) : M Space unit := λ s,
  if accessible s a 8 && (a `mod` 8 =? 0) then Ok (tt, mkSpace (maps s) (guards s) (<[a:=v]> (words s))) else Fault NullDeref.

(** ** Configuration and platform *)

Definition EINVAL : Z := 22.
Definition sizeof_ptr : Z := 8.
Definition sizeof_word : Z := 8.

(** The configuration; whether the system has that flag; what [sysconf] says of pages; and the direction in which the stack
    of the platform grows. *)
Class ContextConfig := {
  HaveMman : bool;
  EnableStackGuard : bool;
  EnableStackWaterMark : bool;
  ContextSignals : bool;
  SS_AUTODISARM : bool;
  sysconf_page : Z;
  MINSIGSTKSZ : Z;
  stackGrowsDown : bool;
}.

Section Operations.
Context `{Config} `{ContextConfig}.

Definition pageSize : Z := if HaveMman then sysconf_page else sizeof_ptr.

(** [z & ~(n - 1U)]. *)
Definition align_down (n z : Z) : Z := Z.land z (u64 (Z.lnot (n - 1))).

Fixpoint popcount_pos (p : positive) : nat :=
  match p with xH => 1 | xO p => popcount_pos p | xI p => S (popcount_pos p) end.
Definition popcount (z : Z) : nat := match z with Z.pos p => popcount_pos p | _ => 0 end.

(** ** Stack watermarking *)

Definition ZTH_STACK_WATERMARKER : Z := 0x5a7468574de2889e.

(** The stack, the address of its size, and what is left of [size]. *)
Definition stack_watermark_align (stack size : Z) : Z * Z * Z :=
  let sizeptr := align_down sizeof_word (u64 (u64 (stack + sizeof_word) - 1)) in
  let stack_ := u64 (sizeptr + sizeof_word) in
  (stack_, sizeptr, u64 (size - u64 (stack_ - stack))).

Fixpoint watermark_loop (fuel : nat) (stack size i : Z) : M Space unit :=
  match fuel with
  | O => fail OutOfFuel
  | S fuel =>
      if u64 (i * sizeof_word) <=? u64 (size - sizeof_word) then
        store (u64 (stack + i * sizeof_word)) ZTH_STACK_WATERMARKER;;
        watermark_loop fuel stack size (i + 1)
      else mret tt
  end.

(** As many iterations as there can be before the condition fails. *)
Definition watermark_fuel (size : Z) : nat := Z.to_nat (u64 (size - sizeof_word) / sizeof_word + 2).

Definition stack_watermark_init (stack size : Z) : M Space unit :=
  if negb EnableStackWaterMark || (stack =? 0) || (size =? 0) then mret tt
  else
    zth_assert stackGrowsDown;;
    let '(stack, sizeptr, size) := stack_watermark_align stack size in
    store sizeptr size;;
    watermark_loop (watermark_fuel size) stack size 0.

Definition stack_watermark_size (stack : Z) : M Space Z :=
  if negb EnableStackWaterMark || (stack =? 0) then mret 0
  else let '(_, sizeptr, _) := stack_watermark_align stack 0 in load sizeptr.

(** The loop of [stack_watermark_maxused]. *)
Fixpoint count_unused (fuel : nat) (s size unused : Z) : M Space Z :=
  match fuel with
  | O => fail OutOfFuel
  | S fuel =>
      if unused <? size / sizeof_word then
        v ← load s;
        if v =? ZTH_STACK_WATERMARKER then count_unused fuel (u64 (s + sizeof_word)) size (unused + 1) else mret unused
      else mret unused
  end.

Definition stack_watermark_maxused (stack : Z) : M Space Z :=
  if negb EnableStackWaterMark || (stack =? 0) then mret 0
  else
    let '(stack, sizeptr, _) := stack_watermark_align stack 0 in
    size ← load sizeptr;
    unused ← count_unused (Z.to_nat (size / sizeof_word + 1)) stack size 0;
    mret (u64 (size - unused * sizeof_word)).

Definition stack_watermark_remaining (stack : Z) : M Space Z :=
  size ← stack_watermark_size stack; used ← stack_watermark_maxused stack; mret (u64 (size - used)).

(** ** The stack of a context *)

Record Stack := mkStack { p : Z; size : Z }.

(** [operator bool] of [Stack]. *)
Definition stack_bool (s : Stack) : bool := negb (p s =? 0) && (0 <? size s).

(** What [mmap] or the allocator answers. *)
Inductive answer := At (p : Z) | Refused (errno : Z).

Definition calcStackSize (size : Z) : Z :=
  let size := u64 (size + MINSIGSTKSZ) in
  if HaveMman && EnableStackGuard then u64 (size + u64 (pageSize * 2)) else size.

(** The memory, or null and [errno]. *)
Definition allocStack (r : answer) (size : Z) : M Space (Z * Z) :=
  match r with
  | At p => modify (λ s, mkSpace ({[ (p, size) ]} ∪ maps s) (guards s) (words s));; mret (p, 0)
  | Refused e => mret (0, if HaveMman then e else ENOMEM)
  end.

(** Unmapping takes the guards and the contents of the region with it. *)
Definition munmap (r : Z * Z) (s : Space) : Space :=
  mkSpace (maps s ∖ {[ r ]}) (filter (λ g, ¬ inside (fst g) (snd g) r) (guards s))
    (filter (λ w, ¬ inside (fst w) sizeof_word r) (words s)).

Definition deallocStack (st : Stack) : M Space Stack :=
  if p st =? 0 then mret st
  else modify (munmap (p st, size st));; mret (mkStack 0 (size st)).

Definition stackAlign (st : Stack) : M Space Stack :=
  if (p st =? 0) || (size st =? 0) then mret st
  else
    let ps := pageSize in
    let stack_old := p st in
    zth_assert (ps <? size st);;
    zth_assert (stack_old <? u64 (stack_old + size st));;
    let stack_new := align_down ps (u64 (u64 (stack_old + ps) - 1)) in
    let sz := align_down ps (u64 (size st - u64 (stack_new - stack_old))) in
    r ← (if HaveMman && EnableStackGuard then
           zth_assert (u64 (ps * 2) <? sz);;
           mret (u64 (stack_new + ps), u64 (sz - u64 (ps * 2)))
         else mret (stack_new, sz));
    let '(stack_new, sz) := r in
    zth_assert (0 <? sz);;
    mret (mkStack stack_new sz).

(** The result, the stack, and its usable part. *)
Definition initStack (r : answer) (requested : Z) : M Space (Z * Stack * Stack) :=
  let sz := calcStackSize requested in
  let page := pageSize in
  zth_assert (popcount (u32 page) =? 1)%nat;;
  let sz := align_down page (u64 (u64 (sz + page) - 1)) in
  let sz := u64 (sz + page) in
  pe ← allocStack r sz;
  let '(a, errno) := pe in
  if a =? 0 then mret (errno, mkStack a sz, mkStack 0 0)
  else
    usable ← stackAlign (mkStack a sz);
    stack_watermark_init (p usable) (size usable);;
    mret (0, mkStack a sz, usable).

(** What [mprotect] answers: 0, or [errno].  [low] and [high] are those of the two calls. *)
Definition mprotect (a n answer : Z) : M Space Z :=
  if answer =? 0 then modify (λ s, mkSpace (maps s) ({[ (a, n) ]} ∪ guards s) (words s));; mret 0
  else mret answer.

Definition stackGuardInit (low high : Z) (usable : Stack) : M Space Z :=
  if HaveMman && EnableStackGuard then
    if p usable =? 0 then mret 0
    else
      let ps := pageSize in
      e ← mprotect (u64 (p usable - ps)) ps low;
      if negb (e =? 0) then mret e
      else mprotect (u64 (p usable + size usable)) ps high
  else mret 0.

(** ** Contexts *)

Record Context := mkContext { attr_stackSize : Z; m_stack : Stack; m_stackUsable : Stack }.

(** What the environment answers when a context is created: whether there is memory for
    the object, [mmap], and both calls of [mprotect]. *)
Record Answers := mkAnswers { alloc_ok : bool; mmap_answer : answer; mprotect_low : Z; mprotect_high : Z }.

(** [ContextBase::create]. *)
Definition base_create (env : Answers) (c : Context) : M Space (Z * Context) :=
  let requested := attr_stackSize c in
  if requested =? 0 then mret (0, mkContext requested (mkStack 0 requested) (mkStack 0 0))
  else
    r ← initStack (mmap_answer env) requested;
    let '(res, st, usable) := r in
    if negb (res =? 0) then mret (res, mkContext requested st usable)
    else
      res ← stackGuardInit (mprotect_low env) (mprotect_high env) usable;
      if negb (res =? 0) then
        st ← deallocStack st;
        mret (res, mkContext requested st usable)
      else mret (0, mkContext requested st usable).

(** [ContextBase::destroy]. *)
Definition base_destroy (c : Context) : M Space Context :=
  deallocStack (m_stack c);; mret (mkContext (attr_stackSize c) (mkStack 0 0) (mkStack 0 0)).

(** With [setjmp], what is left is to fill in the registers. *)
Definition sjlj_create (env : Answers) (c : Context) : M Space (Z * Context) := base_create env c.

(** With [ucontext]; whether [getcontext] fails. *)
Definition ucontext_create (getcontext_fails : bool) (env : Answers) (c : Context) : M Space (Z * Context) :=
  rc ← base_create env c;
  let '(res, c) := rc in
  if negb (res =? 0) then mret (res, c)
  else if negb (stack_bool (m_stack c)) then mret (0, c)
  else if getcontext_fails then mret (EINVAL, c)
  else mret (0, c).

(** With a signal on an alternate stack.  Its system calls: those that return an error
    number, and those that set [errno] when they fail, [Some errno]. *)
Record SigAnswers := mkSig {
  sigmask_get : Z; sigaltstack_set : option Z; sigmask_unblock : Z; kill_self : Z; sigmask_block : Z;
  sigaltstack_get : option Z; onstack : bool; sigaltstack_disable : option Z;
  old_enabled : bool; sigaltstack_restore : option Z; sigaltstack_get2 : option Z; onstack2 : bool
}.

Inductive sig_step := Call (failed : bool) (res : Z) | Assert (b : bool).
Definition pthread_call (res : Z) : sig_step := Call (negb (res =? 0)) res.
Definition errno_call (r : option Z) : sig_step := match r with Some e => Call true e | None => Call false 0 end.

(** The calls of [create] and the assertions between them, in order. *)
Definition sig_steps (a : SigAnswers) : list sig_step :=
  (if ContextSignals then [pthread_call (sigmask_get a)] else []) ++
  [errno_call (sigaltstack_set a); pthread_call (sigmask_unblock a); pthread_call (kill_self a); pthread_call (sigmask_block a)] ++
  (if EnableAssert then [errno_call (sigaltstack_get a); Assert (negb (onstack a))] else []) ++
  (if SS_AUTODISARM then [] else [errno_call (sigaltstack_disable a)]) ++
  (if old_enabled a then [errno_call (sigaltstack_restore a)] else []) ++
  (if EnableAssert then [errno_call (sigaltstack_get2 a); Assert (negb (onstack2 a))] else []).

(** [Some res] from where the code goes to a roll-back. *)
Fixpoint run_steps (l : list sig_step) : M Space (option Z) :=
  match l with
  | [] => mret None
  | Call failed res :: l => if failed : bool then mret (Some res) else run_steps l
  | Assert b :: l => zth_assert b;; run_steps l
  end.

Definition sigaltstack_create (a : SigAnswers) (env : Answers) (c : Context) : M Space (Z * Context) :=
  rc ← base_create env c;
  let '(res, c) := rc in
  if negb (res =? 0) then mret (res, c)
  else if negb (stack_bool (m_stackUsable c)) then mret (0, c)
  else
    failed ← run_steps (sig_steps a);
    match failed with
    | Some res => c ← base_destroy c; mret (if res =? 0 then EINVAL else res, c)
    | None => mret (0, c)
    end.

(** The configured mechanism. *)
Inductive mechanism := Sjlj | Ucontext (getcontext_fails : bool) | Sigaltstack (a : SigAnswers).

Definition create (how : mechanism) : Answers → Context → M Space (Z * Context) :=
  match how with Sjlj => sjlj_create | Ucontext fails => ucontext_create fails | Sigaltstack a => sigaltstack_create a end.

(** [delete context]. *)
Definition delete_context (c : Context) : M Space unit := zth_assert (p (m_stack c) =? 0).

(** The result, and the context when that is 0. *)
Definition context_create (how : mechanism) (env : Answers) (stackSize : Z) : M Space (Z * option Context) :=
  if negb (alloc_ok env) then mret (ENOMEM, None)
  else
    rc ← create how env (mkContext stackSize (mkStack 0 0) (mkStack 0 0));
    let '(res, c) := rc in
    if negb (res =? 0) then delete_context c;; mret (res, None)
    else mret (0, Some c).

Definition context_destroy (context : option Context) : M Space unit :=
  match context with
  | None => mret tt
  | Some c => c ← base_destroy c; delete_context c
  end.

(** The guard that is moved aside meanwhile exists only where the hardware has it. *)
Definition context_stack_usage (context : option Context) : M Space Z :=
  match context with
  | Some c => if EnableStackWaterMark then stack_watermark_maxused (p (m_stackUsable c)) else mret 0
  | None => mret 0
  end.
End Operations.

(** ** Alignment *)

Lemma align_down_eq k z : 0 ≤ k < 64 → 0 ≤ z < 2 ^ 64 → align_down (2 ^ k) z = z - z `mod` 2 ^ k.
Proof.
  intros Hk Hz. unfold align_down, u64. rewrite <-(Z.land_ones (Z.lnot _)) by lia.
  rewrite Z.land_assoc, (Z.land_comm z), <-Z.land_assoc, Z.land_ones, (Z.mod_small z) by lia.
  rewrite Z.land_comm. replace (2 ^ k - 1) with (Z.ones k) by (rewrite Z.ones_equiv; lia).
  rewrite <-Z.ldiff_land, Z.ldiff_ones_r by lia. rewrite Z.shiftl_mul_pow2, Z.shiftr_div_pow2 by lia.
  rewrite (Z.div_mod z (2 ^ k)) at 2 by lia. lia.
Qed.

(** Rounding up as the code does. *)
Lemma align_up_eq k z : 0 ≤ k < 64 → 0 ≤ z → z + 2 ^ k ≤ 2 ^ 64 →
  let r := align_down (2 ^ k) (u64 (u64 (z + 2 ^ k) - 1)) in z ≤ r < z + 2 ^ k ∧ (2 ^ k | r).
Proof.
  intros Hk Hz B. assert (0 < 2 ^ k) by lia.
  assert (u64 (u64 (z + 2 ^ k) - 1) = z + 2 ^ k - 1) as ->.
  { unfold u64. rewrite Zminus_mod_idemp_l. apply Z.mod_small. lia. }
  rewrite align_down_eq by lia. pose proof (Z.div_mod (z + 2 ^ k - 1) (2 ^ k) ltac:(lia)).
  pose proof (Z.mod_pos_bound (z + 2 ^ k - 1) (2 ^ k) ltac:(lia)). split; [lia|].
  exists ((z + 2 ^ k - 1) / 2 ^ k). lia.
Qed.

Lemma popcount_pow2 k : 0 ≤ k < 32 → popcount (u32 (2 ^ k)) = 1%nat.
Proof.
  intros Hk. rewrite u32_small by (split; [lia|]; apply Z.pow_lt_mono_r; lia).
  destruct Hk as [Hk _]. pattern k. apply natlike_ind; [done| |done].
  intros x Hx IH. rewrite Z.pow_succ_r by done. destruct (2 ^ x); [done|exact IH|done].
Qed.

(** ** Access *)

Lemma accessible_sub s a n b m :
  accessible s a n = true → a ≤ b → b + m ≤ a + n → accessible s b m = true.
Proof.
  unfold accessible. rewrite !andb_true_iff, !bool_decide_eq_true. intros [(r & Hr & I) F] H1 H2. split.
  - exists r. split; [done|]. unfold inside in *. lia.
  - intros g Hg. specialize (F g Hg). unfold apart in *. simpl in *. lia.
Qed.

Lemma accessible_words s a n w : accessible (mkSpace (maps s) (guards s) w) a n = accessible s a n.
Proof. done. Qed.

Lemma load_run s a : accessible s a 8 = true → (8 | a) → load a s = Ok (default 0 (words s !! a), s).
Proof. intros Ac D. unfold load. rewrite Ac. apply Z.mod_divide in D; [|lia]. by rewrite D. Qed.

Lemma store_run s a v : accessible s a 8 = true → (8 | a) →
  store a v s = Ok (tt, mkSpace (maps s) (guards s) (<[a:=v]> (words s))).
Proof. intros Ac D. unfold store. rewrite Ac. apply Z.mod_divide in D; [|lia]. by rewrite D. Qed.

(** ** Watermarks *)

Section Watermark.
Context `{Config} `{ContextConfig}.

(** The words of the stack from the [i]th on hold the marker in [s'], and nothing else
    changed. *)
Record marked (st count i : Z) (s s' : Space) : Prop := {
  mk_maps : maps s' = maps s;
  mk_guards : guards s' = guards s;
  mk_in j : i ≤ j < count → words s' !! (st + j * 8) = Some ZTH_STACK_WATERMARKER;
  mk_out a : (∀ j, i ≤ j < count → a ≠ st + j * 8) → words s' !! a = words s !! a
}.

Lemma watermark_loop_run fuel st n i s :
  (8 | st) → 0 ≤ st → st + n < 2 ^ 64 → 8 ≤ n → 0 ≤ i ≤ n / 8 → accessible s st n = true →
  (Z.to_nat (n / 8 - i) < fuel)%nat →
  ∃ s', watermark_loop fuel st n i s = Ok (tt, s') ∧ marked st (n / 8) i s s'.
Proof.
  intros D Hst B Hn Hi Ac. revert fuel i s Hi Ac. intros fuel. induction fuel as [|fuel IH]; intros i s Hi Ac Hf; [lia|].
  pose proof (Z.div_mod n 8 ltac:(lia)). pose proof (Z.mod_pos_bound n 8 ltac:(lia)).
  simpl. unfold sizeof_word. rewrite !u64_small by lia. destruct (i * 8 <=? n - 8) eqn:E.
  - apply Z.leb_le in E.
    erewrite bind_Ok; [|apply store_run; [eapply accessible_sub; [exact Ac|lia..]|]].
    2: { destruct D as [q ->]. exists (q + i). lia. }
    destruct (IH (i + 1) (mkSpace (maps s) (guards s) (<[st + i * 8:=ZTH_STACK_WATERMARKER]> (words s))))
      as (s' & -> & [M1 M2 M3 M4]); [lia|exact Ac|lia|].
    exists s'. split; [done|]. split; [done..| |].
    + intros j Hj. destruct (decide (j = i)) as [->|]; [|apply M3; lia]. rewrite M4 by lia. apply lookup_insert_eq.
    + intros a Ha. rewrite M4 by (intros j Hj; apply Ha; lia). apply lookup_insert_ne. intros Q. symmetry in Q. revert Q. apply Ha. lia.
  - apply Z.leb_gt in E. exists s. split; [done|]. split; [done..| |done]. intros j Hj. lia.
Qed.

Lemma align_stack stack n : 0 < stack → 15 ≤ n → stack + n < 2 ^ 64 →
  ∃ st, stack_watermark_align stack n = (st, st - 8, n - (st - stack)) ∧
    (8 | st) ∧ stack + 8 ≤ st < stack + 16 ∧ ∀ z, fst (stack_watermark_align stack z) = (st, st - 8).
Proof.
  intros Hs Hn B. destruct (align_up_eq 3 stack) as [Hr Hd]; [lia..|]. unfold stack_watermark_align, sizeof_word.
  set (r := align_down 8 (u64 (u64 (stack + 8) - 1))) in *. change (2 ^ 3) with 8 in *. fold r in Hr, Hd. cbn zeta in Hr, Hd.
  rewrite (u64_small (r + 8)) by lia. exists (r + 8). split; [|split; [|split]].
  - rewrite (u64_small (r + 8 - stack)), u64_small by lia. repeat f_equal; lia.
  - apply Z.divide_add_r; [done|]. by exists 1.
  - lia.
  - intros z. simpl. f_equal. lia.
Qed.

Lemma watermark_fuel_enough n : 8 ≤ n → n < 2 ^ 64 → (Z.to_nat (n / 8 - 0) < watermark_fuel n)%nat.
Proof.
  intros Hn B. unfold watermark_fuel, sizeof_word. rewrite u64_small by lia.
  replace (n - 8) with (n + (-1) * 8) by lia. rewrite Z.div_add by lia.
  assert (0 < n / 8) by (apply Z.div_str_pos; lia). lia.
Qed.

(** The words after initialization; [st] is where those of the stack start, after its
    size [n]. *)
Record initialized (stack st n : Z) (w : gmap Z Z) : Prop := {
  in_align z : fst (stack_watermark_align stack z) = (st, st - 8);
  in_start : (8 | st) ∧ stack + 8 ≤ st < stack + 16;
  in_size : 8 ≤ n;
  in_header : w !! (st - 8) = Some n;
  in_words j : 0 ≤ j < n / 8 → w !! (st + j * 8) = Some ZTH_STACK_WATERMARKER
}.

Lemma watermark_init_run stack n s :
  EnableStackWaterMark = true → (EnableAssert = true → stackGrowsDown = true) →
  0 < stack → 23 ≤ n ∨ (8 | stack) ∧ 16 ≤ n → stack + n < 2 ^ 64 → accessible s stack n = true →
  ∃ st s', stack_watermark_init stack n s = Ok (tt, s') ∧ initialized stack st (n - (st - stack)) (words s') ∧
    maps s' = maps s ∧ guards s' = guards s ∧ ∀ a, a < stack ∨ stack + n < a + 8 → words s' !! a = words s !! a.
Proof.
  intros W G Hs Hn B Ac. destruct (align_stack stack n) as (st & E & D & Hst & Ez); [lia..|].
  assert (8 ≤ n - (st - stack)).
  { destruct Hn as [|[[q ->] ?]]; [lia|]. destruct D as [q' ->]. lia. }
  assert (8 | st - 8) as D8 by (destruct D as [q ->]; exists (q - 1); lia).
  unfold stack_watermark_init. rewrite W, (proj2 (Z.eqb_neq stack 0)), (proj2 (Z.eqb_neq n 0)) by lia. cbn [orb negb].
  erewrite bind_Ok by (by apply zth_assert_guard). rewrite E.
  erewrite bind_Ok; [|apply store_run; [eapply accessible_sub; [exact Ac|lia..]|done]].
  destruct (watermark_loop_run (watermark_fuel (n - (st - stack))) st (n - (st - stack)) 0
    (mkSpace (maps s) (guards s) (<[st - 8:=n - (st - stack)]> (words s)))) as (s' & R & [M1 M2 M3 M4]);
    [done|lia|lia|lia|split; [lia|apply Z.div_pos; lia]| |apply watermark_fuel_enough; lia|].
  { eapply accessible_sub; [exact Ac|lia..]. }
  pose proof (Z.div_mod (n - (st - stack)) 8 ltac:(lia)). pose proof (Z.mod_pos_bound (n - (st - stack)) 8 ltac:(lia)).
  exists st, s'. split; [done|]. split_and!; [|done|done|].
  - split; [done|done|lia| |done]. rewrite M4 by (intros j Hj; lia). apply lookup_insert_eq.
  - intros a Ha. rewrite M4 by (intros j Hj; lia). apply lookup_insert_ne. lia.
Qed.

Lemma count_unused_run fuel st n u s :
  (8 | st) → 0 ≤ st → st + n < 2 ^ 64 → 0 ≤ u ≤ n / 8 → accessible s st n = true → (Z.to_nat (n / 8 - u) < fuel)%nat →
  ∃ k, count_unused fuel (st + u * 8) n u s = Ok (k, s) ∧ u ≤ k ≤ n / 8 ∧
    (∀ j, u ≤ j < k → words s !! (st + j * 8) = Some ZTH_STACK_WATERMARKER) ∧
    (k < n / 8 → words s !! (st + k * 8) ≠ Some ZTH_STACK_WATERMARKER).
Proof.
  intros D Hst B. revert u. induction fuel as [|fuel IH]; intros u Hu Ac Hf; [lia|].
  pose proof (Z.mul_div_le n 8 ltac:(lia)). simpl. unfold sizeof_word. destruct (u <? n / 8) eqn:E.
  - apply Z.ltb_lt in E. erewrite bind_Ok; [|apply load_run; [eapply accessible_sub; [exact Ac|lia..]|]].
    2: { destruct D as [q ->]. exists (q + u). lia. }
    destruct (default 0 (words s !! (st + u * 8)) =? ZTH_STACK_WATERMARKER) eqn:V.
    + apply Z.eqb_eq in V. rewrite u64_small by lia. replace (st + u * 8 + 8) with (st + (u + 1) * 8) by lia.
      destruct (IH (u + 1)) as (k & -> & Hk & K1 & K2); [lia|done|lia|]. exists k. split_and!; [done|lia|lia| |done].
      intros j Hj. destruct (decide (j = u)) as [->|]; [|apply K1; lia]. destruct (words s !! _); simpl in V; [by f_equal|done].
    + apply Z.eqb_neq in V. exists u. split_and!; [done|lia|lia|lia|]. intros _ Q. by rewrite Q in V.
  - apply Z.ltb_ge in E. exists u. split_and!; [done|lia|lia|lia|lia].
Qed.

(** What [stack_watermark_size] and [stack_watermark_maxused] say of a stack with a header. *)
Lemma watermark_read stack st n s :
  EnableStackWaterMark = true → 0 < stack → (∀ z, fst (stack_watermark_align stack z) = (st, st - 8)) →
  (8 | st) → 8 ≤ st → 0 ≤ n → st + n < 2 ^ 64 → accessible s (st - 8) (8 + n) = true → words s !! (st - 8) = Some n →
  stack_watermark_size stack s = Ok (n, s) ∧
  ∃ k, stack_watermark_maxused stack s = Ok (n - k * 8, s) ∧ 0 ≤ k ≤ n / 8 ∧
    (∀ j, 0 ≤ j < k → words s !! (st + j * 8) = Some ZTH_STACK_WATERMARKER) ∧
    (k < n / 8 → words s !! (st + k * 8) ≠ Some ZTH_STACK_WATERMARKER).
Proof.
  intros W Hs Ez D Hst Hn B Ac Hw. assert (load (st - 8) s = Ok (n, s)) as L.
  { rewrite load_run; [by rewrite Hw|eapply accessible_sub; [exact Ac|lia..]|]. destruct D as [q ->]. exists (q - 1). lia. }
  unfold stack_watermark_size, stack_watermark_maxused. rewrite W, (proj2 (Z.eqb_neq stack 0)) by lia. cbn [orb negb].
  specialize (Ez 0). destruct (stack_watermark_align stack 0) as [[st' hdr] z]. simpl in Ez. injection Ez as -> ->.
  split; [done|]. rewrite (bind_Ok _ _ _ _ _ L). pose proof (Z.mul_div_le n 8 ltac:(lia)).
  destruct (count_unused_run (Z.to_nat (n / 8 + 1)) st n 0 s) as (k & R & Hk & K1 & K2); [done|lia|done|..].
  { split; [lia|]. apply Z.div_pos; lia. }
  { eapply accessible_sub; [exact Ac|lia..]. }
  { assert (0 ≤ n / 8) by (apply Z.div_pos; lia). lia. }
  rewrite Z.mul_0_l, Z.add_0_r in R. unfold sizeof_word. rewrite (bind_Ok _ _ _ _ _ R). exists k.
  split_and!; [|lia|lia|done|done]. rewrite u64_small by lia. done.
Qed.
End Watermark.

(** ** The stack of a context *)

Section Stacks.
Context `{Config} `{ContextConfig}.

(** Pages are a power of two; a signal needs some stack. *)
Definition platform : Prop := (∃ k, 3 ≤ k < 32 ∧ pageSize = 2 ^ k) ∧ 16 ≤ MINSIGSTKSZ.

(** The page at each side that cannot be accessed. *)
Definition guard_size : Z := if HaveMman && EnableStackGuard then pageSize else 0.

(** What is asked from the system for [n] bytes. *)
Definition total_size (n : Z) : Z :=
  u64 (align_down pageSize (u64 (u64 (calcStackSize n + pageSize) - 1)) + pageSize).

(** The sizes for which that does not wrap around. *)
Definition fits (n : Z) : Prop := 0 < n ∧ n + MINSIGSTKSZ + 4 * pageSize ≤ 2 ^ 64.

Lemma page_ok : platform → 8 ≤ pageSize < 2 ^ 32 ∧ (8 | pageSize).
Proof.
  intros [(k & Hk & ->) _]. replace k with (3 + (k - 3)) by lia. rewrite Z.pow_add_r by lia.
  assert (0 < 2 ^ (k - 3)) by lia. assert (2 ^ (k - 3) < 2 ^ 29) by (apply Z.pow_lt_mono_r; lia).
  split; [lia|]. by exists (2 ^ (k - 3)); lia.
Qed.

Lemma guard_size_ok : platform → 0 ≤ guard_size ≤ pageSize ∧ (pageSize | guard_size).
Proof.
  intros P. pose proof (page_ok P). unfold guard_size. destruct (_ && _).
  - split; [lia|done].
  - split; [lia|]. apply Z.divide_0_r.
Qed.

Lemma calcStackSize_eq n : platform → fits n → calcStackSize n = n + MINSIGSTKSZ + 2 * guard_size.
Proof.
  intros P [N F]. pose proof (page_ok P). destruct P as [_ ?]. unfold calcStackSize, guard_size. rewrite (u64_small (n + _)) by lia.
  destruct (_ && _); [|lia]. rewrite (u64_small (pageSize * 2)), u64_small by lia. lia.
Qed.

Lemma align_page_up z : platform → 0 ≤ z → z + pageSize ≤ 2 ^ 64 →
  z ≤ align_down pageSize (u64 (u64 (z + pageSize) - 1)) < z + pageSize ∧
  (pageSize | align_down pageSize (u64 (u64 (z + pageSize) - 1))).
Proof. intros [(k & Hk & ->) _] Hz B. apply align_up_eq; lia. Qed.

Lemma align_page_down z : platform → 0 ≤ z < 2 ^ 64 → align_down pageSize z = z - z `mod` pageSize.
Proof. intros [(k & Hk & ->) _] Hz. apply align_down_eq; lia. Qed.

Lemma total_size_ok n : platform → fits n →
  n + MINSIGSTKSZ + 2 * guard_size + pageSize ≤ total_size n < 2 ^ 64 ∧ (pageSize | total_size n).
Proof.
  intros P F. pose proof (page_ok P). pose proof (guard_size_ok P). unfold total_size. rewrite calcStackSize_eq by done.
  pose proof F as [N B]. pose proof P as [_ ?].
  destruct (align_page_up (n + MINSIGSTKSZ + 2 * guard_size)) as [Hu Du]; [done|lia..|].
  rewrite u64_small by lia. split; [lia|]. by apply Z.divide_add_r.
Qed.

(** The usable part of the [t] bytes at [a]. *)
Record usable_part (a t : Z) (us : Stack) : Prop := {
  us_p : (pageSize | p us);
  us_size : (pageSize | size us);
  us_low : a + guard_size ≤ p us;
  us_high : p us + size us + guard_size ≤ a + t;
  us_enough : t - pageSize - 2 * guard_size ≤ size us
}.

Lemma stackAlign_run a t s :
  platform → 0 < a → a + t + pageSize ≤ 2 ^ 64 → (pageSize | t) → pageSize + 2 * guard_size < t →
  ∃ us, stackAlign (mkStack a t) s = Ok (us, s) ∧ usable_part a t us.
Proof.
  intros P Ha B D Ht. destruct (page_ok P) as [Hp _]. pose proof (guard_size_ok P) as [Hg Dg]. assert (0 < pageSize) as H0p by lia. assert (pageSize ≠ 0) as Hp0 by lia.
  destruct (align_page_up a) as [Hn Dn]; [done|lia..|].
  unfold stackAlign. cbn [p size]. rewrite (proj2 (Z.eqb_neq a 0)), (proj2 (Z.eqb_neq t 0)) by lia. cbn [orb].
  erewrite bind_Ok by (apply zth_assert_true, Z.ltb_lt; lia).
  erewrite bind_Ok by (apply zth_assert_true, Z.ltb_lt; rewrite u64_small; lia).
  set (nw := align_down pageSize (u64 (u64 (a + pageSize) - 1))) in *.
  rewrite (u64_small (nw - a)), (u64_small (t - (nw - a))), align_page_down by (done || lia).
  set (sz := t - (nw - a) - (t - (nw - a)) `mod` pageSize).
  assert ((pageSize | sz) ∧ t - pageSize ≤ sz ≤ t - (nw - a)) as [Ds Hs].
  { pose proof (Z.mod_pos_bound (t - (nw - a)) _ H0p). subst sz. split; [|].
    - pose proof (Z.div_mod (t - (nw - a)) _ Hp0). exists ((t - (nw - a)) / pageSize). lia.
    - split; [|lia]. destruct (decide (nw = a)) as [->|].
      + rewrite Z.sub_diag, Z.sub_0_r. rewrite (proj2 (Z.mod_divide t _ Hp0)) by done. lia.
      + destruct D as [q ->]. replace (q * pageSize - (nw - a)) with (pageSize - (nw - a) + (q - 1) * pageSize) by lia.
        rewrite Z.mod_add, Z.mod_small by lia. lia. }
  assert (guard_size = if HaveMman && EnableStackGuard then pageSize else 0) as Eg by done. destruct (HaveMman && EnableStackGuard).
  - rewrite (u64_small (pageSize * 2)), bind_assoc by lia.
    erewrite bind_Ok by (apply zth_assert_true, Z.ltb_lt; lia). rewrite bind_ret.
    rewrite (u64_small (nw + pageSize)), (u64_small (sz - _)) by lia.
    erewrite bind_Ok by (apply zth_assert_true, Z.ltb_lt; lia). eexists. split; [done|].
    split; cbn [p size]; [by apply Z.divide_add_r|apply Z.divide_sub_r; [done|by exists 2; lia]|lia..].
  - rewrite bind_ret. erewrite bind_Ok by (apply zth_assert_true, Z.ltb_lt; lia). eexists. split; [done|].
    split; cbn [p size]; [done..|lia|lia|lia].
Qed.

(** Memory that is not in use. *)
Record free (a t : Z) (s : Space) : Prop := {
  fr_maps : set_Forall (apart a t) (maps s);
  fr_guards : set_Forall (λ g, apart a t g ∧ 0 < snd g) (guards s);
  fr_words w : is_Some (words s !! w) → w + 8 ≤ a ∨ a + t ≤ w
}.

(** Only the [t] bytes at [a] were mapped and changed. *)
Record grown (a t : Z) (s s' : Space) : Prop := {
  gr_maps : maps s' = {[ (a, t) ]} ∪ maps s;
  gr_guards : ∃ N, guards s' = N ∪ guards s ∧ set_Forall (λ g, inside (fst g) (snd g) (a, t)) N;
  gr_words w : ¬ inside w 8 (a, t) → words s' !! w = words s !! w
}.

Lemma munmap_grown a t s s' : 0 < t → free a t s → grown a t s s' → munmap (a, t) s' = s.
Proof.
  intros Ht [Fm Fg Fw] [Gm (N & Gg & HN) Gw]. destruct s as [m g w]. unfold munmap. cbn [maps guards words] in *. f_equal.
  - rewrite Gm. assert ((a, t) ∉ m); [|set_solver]. intros Q. specialize (Fm _ Q). unfold apart in Fm. simpl in Fm. lia.
  - rewrite Gg. apply set_eq. intros x. rewrite elem_of_filter, elem_of_union. split.
    + intros [Hx [Q|Q]]; [|done]. by destruct Hx; apply HN.
    + intros Q. split; [|by right]. intros I. destruct (Fg _ Q). unfold apart, inside in *. simpl in *. lia.
  - apply map_eq. intros x. rewrite map_lookup_filter. unfold sizeof_word. destruct (decide (inside x 8 (a, t))) as [I|I].
    + destruct (w !! x) eqn:E; [destruct (Fw x); [by eexists|unfold inside in I; simpl in I; lia..]|].
      destruct (words s' !! x); [|done]. simpl. by rewrite option_guard_False by tauto.
    + rewrite Gw by done. destruct (w !! x); [|done]. simpl. by rewrite option_guard_True.
Qed.

(** Memory is still accessible, the rest is as it was. *)
Lemma grown_accessible a t s s' b m : free a t s → grown a t s s' → 0 < m → accessible s b m = true → accessible s' b m = true.
Proof.
  intros [Fm _ _] [Gm (N & Gg & HN) _] Hm. unfold accessible. rewrite !andb_true_iff, !bool_decide_eq_true.
  intros [(r & Hr & I) F]. split; [exists r; rewrite Gm; set_solver|].
  intros g Hg. rewrite Gg, elem_of_union in Hg. destruct Hg as [Hg|Hg]; [|by apply F].
  specialize (Fm r Hr). specialize (HN g Hg). unfold apart, inside in *. simpl in *. lia.
Qed.

(** What may be answered when [t] bytes are asked for. *)
Definition answer_ok (t : Z) (s : Space) (r : answer) : Prop :=
  match r with At a => 0 < a ∧ a + t + pageSize ≤ 2 ^ 64 ∧ free a t s | Refused e => e ≠ 0 end.

(** The watermarks of the stack, when they are used. *)
Definition watermarks (us : Stack) (w : gmap Z Z) : Prop :=
  EnableStackWaterMark = true → ∃ st, initialized (p us) st (size us - (st - p us)) w.

Lemma watermarks_unused us s :
  EnableStackWaterMark = true → watermarks us (words s) → 0 < p us → (8 | p us) → (8 | size us) → p us + size us < 2 ^ 64 →
  accessible s (p us) (size us) = true → stack_watermark_maxused (p us) s = Ok (0, s).
Proof.
  intros W I Hp Dp Dz B Ac. destruct (I W) as (st & [Ez [D Hst] Hn Eh Ew]).
  destruct (watermark_read (p us) st (size us - (st - p us)) s) as (_ & k & -> & Hk & K1 & K2); [done..|lia|lia|lia| |done|].
  { eapply accessible_sub; [exact Ac|lia..]. }
  assert (k = (size us - (st - p us)) / 8) as -> by (destruct (decide (k < (size us - (st - p us)) / 8)); [destruct K2; [done|apply Ew; lia]|lia]).
  assert (8 | size us - (st - p us)) as [q Hq].
  { apply Z.divide_sub_r; [done|]. by apply Z.divide_sub_r. }
  rewrite Hq, Z.div_mul by lia. repeat f_equal. lia.
Qed.

Lemma initStack_run n a s :
  platform → (EnableAssert = true → stackGrowsDown = true) → fits n → answer_ok (total_size n) s (At a) →
  ∃ us s', initStack (At a) n s = Ok ((0, mkStack a (total_size n), us), s') ∧
    usable_part a (total_size n) us ∧ guards s' = guards s ∧ grown a (total_size n) s s' ∧ watermarks us (words s').
Proof.
  intros P G F (Ha & B & Fr). destruct (total_size_ok n P F) as [[Ht Ht'] Dt]. destruct (page_ok P) as [[Hp Hp'] D8].
  destruct (guard_size_ok P) as [[Hg _] _]. pose proof P as [(k & Hk & Ek) Hm]. destruct F as [Hn Hn'].
  unfold initStack. erewrite bind_Ok by (apply zth_assert_true, Nat.eqb_eq; rewrite Ek; apply popcount_pow2; lia).
  fold (total_size n). unfold allocStack. erewrite bind_Ok by done. cbn beta iota. rewrite (proj2 (Z.eqb_neq a 0)) by lia.
  destruct (stackAlign_run a (total_size n) (mkSpace ({[ (a, total_size n) ]} ∪ maps s) (guards s) (words s))) as (us & R & U);
    [done|lia|lia|done|lia|].
  rewrite (bind_Ok _ _ _ _ _ R). destruct U as [U1 U2 U3 U4 U5].
  assert (accessible (mkSpace ({[ (a, total_size n) ]} ∪ maps s) (guards s) (words s)) (p us) (size us) = true) as Ac.
  { unfold accessible. rewrite andb_true_iff, !bool_decide_eq_true. split.
    - exists (a, total_size n). split; [cbn [maps]; set_solver|]. unfold inside. simpl. lia.
    - intros g Eg. cbn [guards] in Eg. destruct (fr_guards _ _ _ Fr g Eg) as [Q _]. unfold apart in *. simpl. lia. }
  assert ((8 | p us) ∧ (8 | size us)) as [Dp Dz] by (split; by eapply Z.divide_trans).
  destruct (EnableStackWaterMark) eqn:W.
  - destruct (watermark_init_run (p us) (size us) (mkSpace ({[ (a, total_size n) ]} ∪ maps s) (guards s) (words s)))
      as (st & s' & R' & I & Em & Eg & Ew); [done..|lia|right; split; [done|lia]|lia|done|].
    rewrite (bind_Ok _ _ _ _ _ R'). exists us, s'. split_and!; [done|by split|done| |by exists st].
    split; [done|exists ∅; rewrite Eg; split; [cbn [guards]; set_solver|done]|].
    intros w Hw. rewrite Ew; [done|]. unfold inside in Hw. simpl in Hw. lia.
  - unfold stack_watermark_init. rewrite W. simpl. eexists us, _. split_and!; [done|by split|done| |by unfold watermarks; rewrite W].
    split; [done|exists ∅; split; [cbn [guards]; set_solver|done]|done].
Qed.

(** The pages at both sides. *)
Definition guard_regions (us : Stack) : gset (Z * Z) :=
  if HaveMman && EnableStackGuard then {[ (p us - pageSize, pageSize); (p us + size us, pageSize) ]} else ∅.

Lemma stackGuardInit_run low high a t us s :
  platform → 0 < a → a + t < 2 ^ 64 → usable_part a t us → pageSize + 2 * guard_size < t →
  ∃ res N, stackGuardInit low high us s = Ok (res, mkSpace (maps s) (N ∪ guards s) (words s)) ∧
    set_Forall (λ g, inside (fst g) (snd g) (a, t)) N ∧ (res = 0 → N = guard_regions us) ∧ (low = 0 → high = 0 → res = 0).
Proof.
  intros P Ha B [U1 U2 U3 U4 U5] Ht. destruct (page_ok P) as [Hp _]. unfold stackGuardInit, guard_regions.
  assert (guard_size = if HaveMman && EnableStackGuard then pageSize else 0) as Eg by done.
  assert (∀ s : Space, s = mkSpace (maps s) (∅ ∪ guards s) (words s)) as E0.
  { intros []. cbn. by rewrite (left_id_L ∅ (∪)). }
  destruct (HaveMman && EnableStackGuard).
  2: { exists 0, ∅. split; [by rewrite <-E0|done]. }
  rewrite (proj2 (Z.eqb_neq (p us) 0)), (u64_small (p us - _)), (u64_small (p us + _)) by lia.
  unfold mprotect. destruct (low =? 0) eqn:E1.
  - erewrite bind_Ok by done. cbn beta iota zeta. cbn [Z.eqb negb]. destruct (high =? 0) eqn:E2.
    + exists 0, {[ (p us - pageSize, pageSize); (p us + size us, pageSize) ]}. split; [|split; [|done]].
      * unfold mbind, M_bind, modify, mret, M_ret. cbn [maps guards words]. do 3 f_equal. set_solver.
      * intros g [->%elem_of_singleton| ->%elem_of_singleton]%elem_of_union; unfold inside; simpl; lia.
    + exists high, {[ (p us - pageSize, pageSize) ]}. apply Z.eqb_neq in E2. split; [done|]. split; [|done].
      intros g ->%elem_of_singleton. unfold inside; simpl; lia.
  - exists low, ∅. rewrite bind_ret, E1. cbn [negb]. apply Z.eqb_neq in E1. split; [by rewrite <-E0|]. split; [done|done].
Qed.

(** A context of which the stack can be used. *)
Record ready (n a : Z) (s : Space) (c : Context) (s' : Space) : Prop := {
  rd_start : 0 < a ∧ a + total_size n + pageSize ≤ 2 ^ 64;
  rd_free : free a (total_size n) s;
  rd_stack : m_stack c = mkStack a (total_size n);
  rd_usable : usable_part a (total_size n) (m_stackUsable c);
  rd_grown : grown a (total_size n) s s';
  rd_guards : guards s' = guard_regions (m_stackUsable c) ∪ guards s;
  rd_marks : watermarks (m_stackUsable c) (words s')
}.

Lemma deallocStack_run a t s s' : 0 < a → 0 < t → free a t s → grown a t s s' →
  deallocStack (mkStack a t) s' = Ok (mkStack 0 t, s).
Proof.
  intros Ha Ht F G. unfold deallocStack. cbn [p size]. rewrite (proj2 (Z.eqb_neq a 0)) by lia.
  erewrite bind_Ok by done. by rewrite (munmap_grown a t s).
Qed.

Lemma base_destroy_run n a s c s' : platform → fits n → ready n a s c s' →
  ∃ c', base_destroy c s' = Ok (c', s) ∧ m_stack c' = mkStack 0 0.
Proof.
  intros P F [[Ha _] Fr E _ G _ _]. destruct (total_size_ok n P F) as [Ht _]. destruct (guard_size_ok P) as [Hg _]. destruct (page_ok P) as [Hp _].
  destruct P as [_ Hm]. destruct F as [Hn _]. unfold base_destroy. rewrite E.
  assert (0 < total_size n) as H0t by lia. rewrite (bind_Ok _ _ _ _ _ (deallocStack_run a _ s s' Ha H0t Fr G)). by eexists.
Qed.

Lemma base_create_run n env s :
  platform → (EnableAssert = true → stackGrowsDown = true) → fits n → answer_ok (total_size n) s (mmap_answer env) →
  ∃ res c s', base_create env (mkContext n (mkStack 0 0) (mkStack 0 0)) s = Ok ((res, c), s') ∧
    (if res =? 0 then ∃ a, mmap_answer env = At a ∧ ready n a s c s' else p (m_stack c) = 0 ∧ s' = s) ∧
    (res ≠ 0 → (∃ e, mmap_answer env = Refused e) ∨ mprotect_low env ≠ 0 ∨ mprotect_high env ≠ 0) ∧ attr_stackSize c = n.
Proof.
  intros P G F A. unfold base_create. cbn [attr_stackSize]. pose proof F as [Hn _]. rewrite (proj2 (Z.eqb_neq n 0)) by lia.
  destruct (total_size_ok n P F) as [Ht Dt]. destruct (guard_size_ok P) as [Hg _]. destruct (page_ok P) as [Hp _]. pose proof P as [Hk Hm].
  destruct (mmap_answer env) as [a|e].
  - destruct (initStack_run n a s) as (us & s1 & R & U & E1 & Gr & Wm); [done..|]. destruct A as (Ha & B & Fr).
    rewrite (bind_Ok _ _ _ _ _ R). cbn beta iota. cbn [Z.eqb negb].
    destruct (stackGuardInit_run (mprotect_low env) (mprotect_high env) a (total_size n) us s1) as (res & N & R2 & IN & N0 & Nr); [done|lia..|done|lia|].
    rewrite (bind_Ok _ _ _ _ _ R2). rewrite E1 in *. assert (grown a (total_size n) s (mkSpace (maps s1) (N ∪ guards s) (words s1))) as Gr'.
    { destruct Gr as [G1 _ G3]. split; [done|by exists N|done]. }
    destruct (res =? 0) eqn:Er; cbn [negb].
    + eexists _, _, _. split; [done|]. split; [|done]. cbn [Z.eqb]. exists a. split; [done|]. apply Z.eqb_eq in Er. split; [done..|cbn [guards m_stackUsable]; by rewrite <-N0|done].
    + assert (0 < total_size n) as H0t by lia. rewrite (bind_Ok _ _ _ _ _ (deallocStack_run a _ s _ Ha H0t Fr Gr')). eexists _, _, _. split; [done|]. rewrite Er. split; [done|]. apply Z.eqb_neq in Er. split; [|done]. intros _. right.
      destruct (decide (mprotect_low env = 0)); [|by left]. right. auto.
  - simpl in A. unfold initStack. destruct P as [(k & Hk' & Ek) _].
    assert ((if HaveMman then e else ENOMEM) =? 0 = false) as Ee by (apply Z.eqb_neq; by destruct HaveMman).
    rewrite bind_assoc. erewrite bind_Ok by (apply zth_assert_true, Nat.eqb_eq; rewrite Ek; apply popcount_pow2; lia).
    unfold allocStack. rewrite bind_assoc, bind_ret. cbn beta iota. cbn [Z.eqb]. rewrite bind_ret, Ee. cbn [negb].
    eexists _, _, _. split; [done|]. rewrite Ee. split; [done|]. split; [|done]. intros _. left. by exists e.
Qed.

(** *** What a context promises *)

Record promise (n : Z) (c : Context) (s s' : Space) : Prop := {
  pr_pages : (pageSize | p (m_stackUsable c)) ∧ (pageSize | size (m_stackUsable c));
  pr_enough : n + MINSIGSTKSZ ≤ size (m_stackUsable c);
  pr_access : accessible s' (p (m_stackUsable c)) (size (m_stackUsable c)) = true;
  pr_guard b :
    p (m_stackUsable c) - guard_size ≤ b < p (m_stackUsable c) ∨
    p (m_stackUsable c) + size (m_stackUsable c) ≤ b < p (m_stackUsable c) + size (m_stackUsable c) + guard_size →
    accessible s' b 1 = false;
  pr_other b m : 0 < m → accessible s b m = true → accessible s' b m = true;
  pr_unused : context_stack_usage (Some c) s' = Ok (0, s')
}.

Lemma ready_access n a s c s' : platform → fits n → ready n a s c s' →
  accessible s' (p (m_stackUsable c)) (size (m_stackUsable c)) = true.
Proof.
  intros P F [[Ha B] Fr _ [U1 U2 U3 U4 U5] Gr Eg _]. destruct (guard_size_ok P) as [Hg _]. destruct (page_ok P) as [Hp _].
  unfold accessible. rewrite andb_true_iff, !bool_decide_eq_true. split.
  - exists (a, total_size n). split; [rewrite (gr_maps _ _ _ _ Gr); set_solver|]. unfold inside. simpl. lia.
  - intros g Hgs. rewrite Eg in Hgs. apply elem_of_union in Hgs as [Hgs|Hgs].
    + unfold guard_regions in Hgs. destruct (HaveMman && EnableStackGuard); [|set_solver].
      apply elem_of_union in Hgs as [->%elem_of_singleton| ->%elem_of_singleton]; unfold apart; simpl; lia.
    + destruct (fr_guards _ _ _ Fr g Hgs) as [Q _]. unfold apart in *. simpl. lia.
Qed.

Lemma ready_promise n a s c s' : platform → fits n → ready n a s c s' → promise n c s s'.
Proof.
  intros P F Rd. pose proof (ready_access n a s c s' P F Rd) as Ac. destruct Rd as [[Ha B] Fr _ [U1 U2 U3 U4 U5] Gr Eg Wm].
  destruct (guard_size_ok P) as [Hg _]. destruct (page_ok P) as [[Hp Hp'] D8]. destruct (total_size_ok n P F) as [Ht _].
  pose proof P as [_ Hm]. pose proof F as [Hn _]. split; [done|lia|done| | |].
  - intros b Hb. apply not_true_is_false. unfold accessible. rewrite andb_true_iff, !bool_decide_eq_true. intros [_ Q].
    assert (guard_size = if HaveMman && EnableStackGuard then pageSize else 0) as E by done.
    rewrite Eg in Q. unfold guard_regions in Q. destruct (HaveMman && EnableStackGuard); [|lia].
    pose proof (Q (p (m_stackUsable c) - pageSize, pageSize) ltac:(set_solver)) as Q1.
    pose proof (Q (p (m_stackUsable c) + size (m_stackUsable c), pageSize) ltac:(set_solver)) as Q2.
    unfold apart in Q1, Q2. simpl in Q1, Q2. lia.
  - intros b m Hm'. by apply (grown_accessible a (total_size n) s).
  - unfold context_stack_usage. destruct EnableStackWaterMark eqn:W; [|done].
    apply watermarks_unused; [done|done|lia|by eapply Z.divide_trans|by eapply Z.divide_trans|lia|done].
Qed.

(** What was refused when a context cannot be made. *)
Definition refused (how : mechanism) (env : Answers) : Prop :=
  alloc_ok env = false ∨ (∃ e, mmap_answer env = Refused e) ∨ mprotect_low env ≠ 0 ∨ mprotect_high env ≠ 0 ∨
  match how with Sigaltstack a => ∃ res, Call true res ∈ sig_steps a | _ => False end.

(** What does not fail: [getcontext]; and the code is not on the alternate stack anymore. *)
Definition how_ok (how : mechanism) : Prop :=
  match how with Ucontext fails => fails = false | Sigaltstack a => onstack a = false ∧ onstack2 a = false | Sjlj => True end.

Definition step_ok (c : sig_step) : Prop := match c with Assert b => b = true | _ => True end.

Lemma run_steps_run l (s : Space) : Forall step_ok l →
  ∃ o, run_steps l s = Ok (o, s) ∧ (o = None ∨ ∃ res, o = Some res ∧ Call true res ∈ l).
Proof.
  induction 1 as [|c l Hc F IH]; [exists None; by split; [|left]|]. destruct c as [[|] res|b]; simpl.
  - exists (Some res). split; [done|]. right. exists res. auto with zth.
  - destruct IH as (o & R & Q). exists o. split; [exact R|]. destruct Q as [->|(e & -> & Q)]; [by left|right; exists e; auto with zth].
  - destruct IH as (o & R & Q). exists o. erewrite bind_Ok by by apply zth_assert_true. split; [exact R|].
    destruct Q as [->|(e & -> & Q)]; [by left|right; exists e; auto with zth].
Qed.

Lemma sig_steps_ok a : onstack a = false → onstack2 a = false → Forall step_ok (sig_steps a).
Proof.
  intros E1 E2. unfold sig_steps. rewrite E1, E2. assert (∀ r, step_ok (errno_call r)) as He by by intros [].
  assert (∀ z, step_ok (pthread_call z)) as Hp by done.
  repeat apply Forall_app_2; repeat case_match; repeat constructor; done.
Qed.

Lemma create_run how env n s :
  platform → (EnableAssert = true → stackGrowsDown = true) → fits n → answer_ok (total_size n) s (mmap_answer env) →
  how_ok how →
  ∃ res c s', create how env (mkContext n (mkStack 0 0) (mkStack 0 0)) s = Ok ((res, c), s') ∧
    (if res =? 0 then ∃ a, ready n a s c s' else p (m_stack c) = 0 ∧ s' = s) ∧ (res ≠ 0 → refused how env).
Proof.
  intros P G F A Hu. destruct (base_create_run n env s P G F A) as (res & c & s' & R & Q & Qr & _).
  assert (res ≠ 0 → refused how env) as Qr' by (unfold refused; naive_solver).
  destruct how as [|fails|a]; simpl in Hu.
  - exists res, c, s'. split; [exact R|]. split; [|done]. destruct (res =? 0); [|done]. destruct Q as (a & _ & Rd). by exists a.
  - exists res, c, s'. simpl. unfold ucontext_create. rewrite (bind_Ok _ _ _ _ _ R), Hu. cbn beta iota.
    destruct (res =? 0) eqn:Er; cbn [negb]; [|done]. apply Z.eqb_eq in Er as ->. split; [by destruct (stack_bool _)|]. split; [|done].
    destruct Q as (a & _ & Rd). by exists a.
  - simpl. unfold sigaltstack_create. rewrite (bind_Ok _ _ _ _ _ R). cbn beta iota. destruct (res =? 0) eqn:Er; cbn [negb].
    2: { exists res, c, s'. rewrite Er. done. }
    destruct Q as (b & _ & Rd). assert (∃ c0 s0, (mret (0, c) : M Space (Z * Context)) s' = Ok ((0, c0), s0) ∧ ∃ b, ready n b s c0 s0) as E0.
    { exists c, s'. split; [done|]. by exists b. }
    destruct (stack_bool _); cbn [negb]; [|destruct E0 as (c0 & s0 & -> & ?); by eexists _, _, _].
    destruct (run_steps_run (sig_steps a) s') as (o & R1 & [->|(e & -> & He)]); [by destruct Hu; apply sig_steps_ok|..]; rewrite (bind_Ok _ _ _ _ _ R1).
    + destruct E0 as (c0 & s0 & -> & ?). by eexists _, _, _.
    + destruct (base_destroy_run n b s c s' P F Rd) as (c' & R' & E'). rewrite (bind_Ok _ _ _ _ _ R').
      eexists _, _, _. split; [done|]. rewrite E'. assert ((if e =? 0 then EINVAL else e) =? 0 = false) as -> by by destruct (e =? 0) eqn:?.
      split; [done|]. intros _. do 4 right. by exists e.
Qed.

(** C16: for a size that does not wrap around ([fits]), and when [getcontext] works ([how_ok];
    else see [getcontext_failure]), creating a context either fails, for a reason that the
    system gave, and leaves the address space as it was; or it gives a stack that holds what
    was asked for in whole, accessible pages, with inaccessible pages directly at both sides
    (when guards are configured), that is unused, and leaves all other memory accessible.
    Destroying the context gives back everything. *)
Theorem context_create_destroy how env n s :
  platform → (EnableAssert = true → stackGrowsDown = true) → n = 0 ∨ fits n → answer_ok (total_size n) s (mmap_answer env) →
  how_ok how →
  ∃ res oc s', context_create how env n s = Ok ((res, oc), s') ∧
    match oc with
    | None => res ≠ 0 ∧ s' = s ∧ refused how env
    | Some c => res = 0 ∧ context_destroy (Some c) s' = Ok (tt, s) ∧ if n =? 0 then s' = s else promise n c s s'
    end.
Proof.
  intros P G Hn A Hu. unfold context_create. destruct (alloc_ok env) eqn:Al; cbn [negb].
  2: { eexists _, _, _. split; [done|]. split; [done|]. split; [done|]. by left. }
  destruct Hn as [->|F].
  - exists 0, (Some (mkContext 0 (mkStack 0 0) (mkStack 0 0))), s. split; [by destruct how as [|[|]|]|].
    split; [done|]. split; [|done]. unfold context_destroy, base_destroy, delete_context. cbn. by apply zth_assert_true.
  - destruct (create_run how env n s P G F A Hu) as (res & c & s' & R & Q & Qr). rewrite (bind_Ok _ _ _ _ _ R). cbn beta iota.
    destruct (res =? 0) eqn:Er; cbn [negb].
    + destruct Q as [a Rd]. exists 0, (Some c), s'. split; [done|]. split; [done|]. split.
      * destruct (base_destroy_run n a s c s' P F Rd) as (c' & R' & E'). unfold context_destroy. rewrite (bind_Ok _ _ _ _ _ R').
        unfold delete_context. rewrite E'. by apply zth_assert_true.
      * destruct F as [Hn F]. rewrite (proj2 (Z.eqb_neq n 0)) by lia. by apply (ready_promise n a).
    + destruct Q as [Ep ->]. unfold delete_context. rewrite Ep. erewrite bind_Ok by (by apply zth_assert_true).
      apply Z.eqb_neq in Er. eexists _, _, _. split; [done|]. split; [done|]. split; [done|]. by apply Qr.
Qed.
End Stacks.

(** ** What the watermark tells *)

Section Usage.
Context `{Config} `{ContextConfig}.

(** Words that are written in the stack; [st] is where it starts. *)
Fixpoint use_stack (st : Z) (l : list (Z * Z)) : M Space unit :=
  match l with [] => mret tt | (i, v) :: l => store (st + i * 8) v;; use_stack st l end.

Lemma use_stack_run st n l s :
  (8 | st) → 8 ≤ st → 0 ≤ n → accessible s (st - 8) (8 + n) = true → Forall (λ w, 0 ≤ fst w < n / 8) l →
  ∃ s', use_stack st l s = Ok (tt, s') ∧ accessible s' (st - 8) (8 + n) = true ∧
    ∀ a, (∀ i v, (i, v) ∈ l → a ≠ st + i * 8) → words s' !! a = words s !! a.
Proof.
  intros D Hst Hn Ac F. revert s Ac. induction F as [|[i v] l Hi F IH]; intros s Ac; [by exists s|]. simpl in Hi.
  pose proof (Z.mul_div_le n 8 ltac:(lia)). simpl. erewrite bind_Ok; [|apply store_run; [eapply accessible_sub; [exact Ac|lia..]|]].
  2: { destruct D as [q ->]. exists (q + i). lia. }
  destruct (IH (mkSpace (maps s) (guards s) (<[st + i * 8:=v]> (words s)))) as (s' & R & Ac' & W); [done|].
  exists s'. split; [done|]. split; [done|]. intros a Ha. rewrite W by (intros j w Hj; apply (Ha j w); auto with zth).
  apply lookup_insert_ne. intros Q. by destruct (Ha i v); [auto with zth|].
Qed.

(** C23: after a stack was prepared, whatever is written in it later: the high-water mark is
    no more than what was touched, no less than the deepest word that does not hold the
    marker, and [size] and [remaining] agree with it. *)
Theorem watermark_usage stack n l s :
  EnableStackWaterMark = true → (EnableAssert = true → stackGrowsDown = true) →
  0 < stack → 23 ≤ n → stack + n < 2 ^ 64 → accessible s stack n = true →
  ∃ st s1, stack_watermark_init stack n s = Ok (tt, s1) ∧ (8 | st) ∧ stack + 8 ≤ st < stack + 16 ∧
    let sz := n - (st - stack) in
    (Forall (λ w, 0 ≤ fst w < sz / 8) l →
     ∃ s2 used, use_stack st l s1 = Ok (tt, s2) ∧
       stack_watermark_size stack s2 = Ok (sz, s2) ∧ stack_watermark_maxused stack s2 = Ok (used, s2) ∧
       stack_watermark_remaining stack s2 = Ok (sz - used, s2) ∧
       (∀ j, 0 ≤ j ≤ sz / 8 → Forall (λ w, j ≤ fst w) l → used ≤ sz - j * 8) ∧
       (∀ j, 0 ≤ j < sz / 8 → words s2 !! (st + j * 8) ≠ Some ZTH_STACK_WATERMARKER → sz - j * 8 ≤ used)).
Proof.
  intros W G Hs Hn B Ac. destruct (watermark_init_run stack n s) as (st & s1 & R & I & Em & Eg & _); [done|done|done|by left|done|done|].
  destruct I as [Ez [D Hst] Hz Eh Ew]. exists st, s1. split; [done|]. split; [done|]. split; [done|]. cbn zeta.
  set (sz := n - (st - stack)) in *. intros F. pose proof (Z.mul_div_le sz 8 ltac:(lia)).
  assert (accessible s1 (st - 8) (8 + sz) = true) as Ac1.
  { eapply accessible_sub; [unfold accessible in *; rewrite Em, Eg; exact Ac|lia..]. }
  destruct (use_stack_run st sz l s1) as (s2 & R2 & Ac2 & W2); [done|lia|lia|done|done|].
  destruct (watermark_read stack st sz s2) as (Rs & k & Ru & Hk & K1 & K2); [done|done|done|done|lia|lia|lia|done| |].
  { rewrite W2; [done|]. intros i v Hi. rewrite Forall_forall in F. specialize (F _ Hi). simpl in F. lia. }
  exists s2, (sz - k * 8). split_and!; [done..| | |].
  - unfold stack_watermark_remaining. rewrite (bind_Ok _ _ _ _ _ Rs), (bind_Ok _ _ _ _ _ Ru). by rewrite u64_small by lia.
  - intros j Hj Fj. destruct (decide (j ≤ k)); [lia|]. destruct K2; [lia|]. rewrite W2; [apply Ew; lia|].
    intros i v Hi. rewrite Forall_forall in Fj. specialize (Fj _ Hi). simpl in Fj. lia.
  - intros j Hj Q. destruct (decide (j < k)); [|lia]. destruct Q. apply K1. lia.
Qed.

(** *** Limits *)

(** A stack of less than two words: the number of bytes that are left wraps around, and the
    marker is written to all memory above, up to what cannot be accessed. *)
Lemma watermark_overrun fuel st n i e s :
  0 ≤ n < 8 → (8 | st) → 0 ≤ st → 0 ≤ i ≤ e → st + e * 8 + 8 ≤ 2 ^ 64 →
  (∀ j, i ≤ j < e → accessible s (st + j * 8) 8 = true) → accessible s (st + e * 8) 8 = false →
  (Z.to_nat (e - i) < fuel)%nat → watermark_loop fuel st n i s = Fault NullDeref.
Proof.
  intros Hn D Hst Hi B. revert i s Hi. induction fuel as [|fuel IH]; intros i s Hi Ac Na Hf; [lia|].
  simpl. unfold sizeof_word. assert (u64 (n - 8) = 2 ^ 64 + n - 8) as ->.
  { unfold u64. rewrite <-(Z.mod_add _ 1) by lia. rewrite Z.mod_small; lia. }
  rewrite (u64_small (i * 8)), (proj2 (Z.leb_le (i * 8) (2 ^ 64 + n - 8))), u64_small by lia.
  destruct (decide (i = e)) as [->|].
  - apply bind_Fault. unfold store. by rewrite Na.
  - erewrite bind_Ok; [|apply store_run; [apply Ac; lia|]]. 2: { destruct D as [q ->]. exists (q + i). lia. }
    apply IH; [lia| |done|lia]. intros j Hj. rewrite accessible_words. apply Ac. lia.
Qed.

Lemma watermark_small_stack stack n e s :
  EnableStackWaterMark = true → (EnableAssert = true → stackGrowsDown = true) →
  0 < stack → (8 | stack) → 8 ≤ n < 16 → 0 ≤ e → stack + 16 + e * 8 ≤ 2 ^ 64 →
  accessible s stack (8 + e * 8) = true → accessible s (stack + 8 + e * 8) 8 = false →
  stack_watermark_init stack n s = Fault NullDeref.
Proof.
  intros W G Hs D Hn He B Ac Na. unfold stack_watermark_init.
  rewrite W, (proj2 (Z.eqb_neq stack 0)), (proj2 (Z.eqb_neq n 0)) by lia. cbn [orb negb].
  erewrite bind_Ok by (by apply zth_assert_guard).
  assert (stack_watermark_align stack n = (stack + 8, stack, n - 8)) as ->.
  { destruct (align_up_eq 3 stack) as [Hr Hd]; [lia..|]. unfold stack_watermark_align, sizeof_word. change (2 ^ 3) with 8 in *.
    set (r := align_down 8 (u64 (u64 (stack + 8) - 1))) in *. assert (r = stack) as ->.
    { destruct D as [q ->], Hd as [q' Hd]. cbn zeta in Hr. fold r in Hr, Hd. lia. }
    rewrite (u64_small (stack + 8)), (u64_small (stack + 8 - stack)), u64_small by lia. repeat f_equal. lia. }
  erewrite bind_Ok; [|apply store_run; [eapply accessible_sub; [exact Ac|lia..]|done]].
  apply (watermark_overrun _ _ _ _ e); [lia|by apply Z.divide_add_r; [|exists 1]|lia|lia|lia| |done|].
  - intros j Hj. rewrite accessible_words. eapply accessible_sub; [exact Ac|lia..].
  - unfold watermark_fuel, sizeof_word. assert (u64 (n - 8 - 8) = 2 ^ 64 + n - 16) as ->.
    { unfold u64. rewrite <-(Z.mod_add _ 1) by lia. rewrite Z.mod_small; lia. }
    assert (e ≤ (2 ^ 64 + n - 16) / 8); [apply Z.div_le_lower_bound; lia|lia].
Qed.

(** When [getcontext] fails, the stack is not given back: the destructor of the context
    asserts, or the memory is lost. *)
Lemma getcontext_failure env n a s :
  platform → (EnableAssert = true → stackGrowsDown = true) → fits n → answer_ok (total_size n) s (At a) →
  env = mkAnswers true (At a) 0 0 →
  if EnableAssert then context_create (Ucontext true) env n s = Fault AssertFailed
  else ∃ s', context_create (Ucontext true) env n s = Ok ((EINVAL, None), s') ∧ (a, total_size n) ∈ maps s'.
Proof.
  intros P G F A ->. destruct (base_create_run n (mkAnswers true (At a) 0 0) s P G F A) as (res & c & s' & R & Q & Qr & _).
  assert (res = 0) as ->.
  { destruct (decide (res = 0)) as [|Hr]; [done|]. by destruct (Qr Hr) as [[e [=]]|[]]. }
  destruct Q as (a' & [= <-] & [[Ha B] Fr Es U Gr Eg Wm]). destruct (total_size_ok n P F) as [Ht _].
  destruct (guard_size_ok P) as [Hg _]. destruct (page_ok P) as [Hp _]. pose proof P as [_ Hm]. destruct F as [Hn _].
  unfold context_create, create, ucontext_create. cbn [alloc_ok negb]. rewrite bind_assoc, (bind_Ok _ _ _ _ _ R). cbn beta iota. cbn [Z.eqb negb].
  unfold stack_bool. rewrite Es. cbn [p size]. rewrite (proj2 (Z.eqb_neq a 0)), (proj2 (Z.ltb_lt 0 (total_size n))) by lia.
  cbn [negb andb]. rewrite bind_ret. cbn beta iota. cbn [Z.eqb EINVAL negb]. unfold delete_context. rewrite Es. cbn [p].
  unfold zth_assert. rewrite (proj2 (Z.eqb_neq a 0)) by lia. destruct EnableAssert; cbn [negb andb]; [done|].
  exists s'. split; [done|]. rewrite (gr_maps _ _ _ _ Gr). set_solver.
Qed.
End Usage.

(** ** Witnesses *)

Module Example.

Definition linux : ContextConfig := {|
  HaveMman := true; EnableStackGuard := true; EnableStackWaterMark := true; ContextSignals := false; SS_AUTODISARM := true;
  sysconf_page := 4096; MINSIGSTKSZ := 2048; stackGrowsDown := true
|}.

(** Some memory of the program; the stack is mapped above it. *)
Definition some_space : Space := mkSpace {[ (4096, 4096) ]} ∅ {[ 4096 := 7 ]}.
Definition all_fine : Answers := mkAnswers true (At 65536) 0 0.
Definition sig_fine : SigAnswers := mkSig 0 None 0 0 0 None false None false None None false.

Lemma linux_platform : platform (H0 := linux).
Proof. split; [by exists 12|done]. Qed.
End Example.

Import Example.

Lemma context_create_destroy_witness :
  let _ := debug_config in let _ := linux in
  platform ∧ fits 1000 ∧ answer_ok (total_size 1000) some_space (At 65536) ∧
  ∃ c s', context_create (Sigaltstack sig_fine) all_fine 1000 some_space = Ok ((0, Some c), s') ∧
    promise 1000 c some_space s' ∧ context_destroy (Some c) s' = Ok (tt, some_space).
Proof.
  intros cfg lin. assert (fits 1000) as F by done.
  assert (answer_ok (total_size 1000) some_space (At 65536)) as A.
  { split; [done|]. split; [by vm_compute|]. split.
    - intros r Hr. cbn [maps some_space] in Hr. apply elem_of_singleton in Hr as ->. right. by vm_compute.
    - intros r Hr. cbn [guards some_space] in Hr. by apply not_elem_of_empty in Hr.
    - intros w [v Hw]. cbn [words some_space] in Hw. apply lookup_singleton_Some in Hw as [<- _]. left. by vm_compute. }
  split; [apply linux_platform|]. split; [done|]. split; [done|].
  destruct (context_create_destroy (H := cfg) (H0 := lin) (Sigaltstack sig_fine) all_fine 1000 some_space)
    as (res & oc & s' & R & Q); [apply linux_platform|done|by right|exact A|done|].
  destruct oc as [c|].
  - destruct Q as (-> & Q1 & Q2). exists c, s'. split; [exact R|]. split; [exact Q2|exact Q1].
  - exfalso. clear R. destruct Q as (_ & _ & [[=]|[[e [=]]|[[]|[[]|[e Q]]]]]); [reflexivity..|].
    assert (Call true e ∉ sig_steps sig_fine) as N by (vm_compute; set_solver). by destruct N.
Defined.

Lemma watermark_usage_witness :
  let _ := debug_config in let _ := linux in
  ∃ st s1 s2 used, stack_watermark_init 4100 100 some_space = Ok (tt, s1) ∧
    use_stack st [(9, 1); (5, 2); (7, 3)] s1 = Ok (tt, s2) ∧ stack_watermark_maxused 4100 s2 = Ok (used, s2) ∧ used = 48.
Proof.
  intros cfg lin.
  destruct (watermark_usage (H := cfg) (H0 := lin) 4100 100 [(9, 1); (5, 2); (7, 3)] some_space)
    as (st & s1 & R & D & Hst & Q); [done..|].
  assert (st = 4112) as -> by (destruct D as [q ->]; lia).
  destruct Q as (s2 & used & R2 & _ & Ru & _ & Q1 & Q2); [apply (bool_decide_unpack _); vm_compute; reflexivity|].
  exists 4112, s1, s2, used. split; [exact R|]. split; [exact R2|]. split; [exact Ru|].
  assert (used ≤ 100 - (4112 - 4100) - 5 * 8) by (apply Q1; [split; by vm_compute|apply (bool_decide_unpack _); vm_compute; reflexivity]).
  assert (100 - (4112 - 4100) - 5 * 8 ≤ used); [|lia]. apply Q2; [split; by vm_compute|].
  vm_compute in R. injection R as <-. vm_compute in R2. injection R2 as <-. by vm_compute.
Defined.

(** A size near the largest one wraps around: what is made is a stack of one page. *)
Lemma create_wraps_around :
  let _ := debug_config in let _ := linux in
  match context_create Sjlj all_fine (2 ^ 64 - 2048) some_space with
  | Ok ((0, Some c), _) => size (m_stackUsable c) = 4096
  | _ => False
  end.
Proof. vm_compute. done. Qed.
