(* ===== verification/ArmContext.v ===== *)
(** * Contexts on bare-metal ARM (libzth/context/arch_arm.h, libzth/regs.h)

    There, no [mprotect] guards a stack, but a region of the memory protection unit (MPU)
    of the processor, which is moved to the stack of the fiber that runs.  Hardware
    registers are accessed through [Register], which gives their bit fields names.  The
    MPU is a device that a class describes.  Addresses have 32 bits here. *)

From stdpp Require Import base list strings.
From Stdlib Require Import ZArith Lia.
From S2P Require Import Prelude.

Local Open Scope Z_scope.

(** ** Registers and their fields *)

(** The fields of [ZTH_REG_DEFINE], from the most significant one, with their widths. *)
Definition Fields : Type := list (string * Z).

Definition width_of (l : Fields) : Z := foldr (λ f n, snd f + n) 0 l.

(** Offset and width of a field. *)
Fixpoint field_of (name : string) (l : Fields) : Z * Z :=
  match l with
  | [] => (0, 0)
  | (n, w) :: l => if String.eqb n name then (width_of l, w) else field_of name l
  end.

Definition get_bits (f : Z * Z) (v : Z) : Z := Z.land (Z.shiftr v (fst f)) (Z.ones (snd f)).
Definition set_bits (f : Z * Z) (x v : Z) : Z :=
  Z.lor (Z.land v (Z.lnot (Z.shiftl (Z.ones (snd f)) (fst f)))) (Z.shiftl (Z.land x (Z.ones (snd f))) (fst f)).

Definition field (l : Fields) (name : string) (v : Z) : Z := get_bits (field_of name l) v.
Definition set_field (l : Fields) (name : string) (x v : Z) : Z := set_bits (field_of name l) x v.

Definition reg_mpu_type : Fields := [("reserved1", 8); ("region", 8); ("dregion", 8); ("reserved2", 7); ("separate", 1)].
Definition reg_mpu_ctrl : Fields := [("reserved", 29); ("privdefena", 1); ("hfnmiena", 1); ("enable", 1)].
Definition reg_mpu_rnr : Fields := [("reserved", 24); ("region", 8)].
Definition reg_mpu_rbar : Fields := [("addr", 27); ("valid", 1); ("region", 4)].
Definition reg_mpu_rasr : Fields :=
  [("reserved1", 3); ("xn", 1); ("reserved2", 1); ("ap", 3); ("reserved3", 2); ("tex", 3); ("s", 1); ("c", 1); ("b", 1);
   ("srd", 8); ("reserved4", 2); ("size", 5); ("enable", 1)].

Definition MPU_TYPE : Z := 0xE000ED90.
Definition MPU_CTRL : Z := 0xE000ED94.
Definition MPU_RNR : Z := 0xE000ED98.
Definition MPU_RBAR : Z := 0xE000ED9C.
Definition MPU_RASR : Z := 0xE000EDA0.

(** ** The device *)

(** What the unit holds: the number of the region that is selected, the [addr] and the
    attributes of every region. *)
Record MpuState := mkMpu { m_type : Z; m_ctrl : Z; m_rnr : Z; m_base : Z → Z; m_attr : Z → Z }.

Definition update {A} (r : Z) (x : A) (f : Z → A) : Z → A := λ i, if i =? r then x else f i.

(** Devices whose registers behave as those of the MPU are documented to do. *)
Class Mpu (D : Type) := {
  reg_read : Z → D → Z;
  reg_write : Z → Z → D → D;
  mpu : D → MpuState;
  read_type d : reg_read MPU_TYPE d = m_type (mpu d);
  read_ctrl d : reg_read MPU_CTRL d = m_ctrl (mpu d);
  read_rasr d : reg_read MPU_RASR d = m_attr (mpu d) (m_rnr (mpu d));
  read_rbar_valid d : field reg_mpu_rbar "valid" (reg_read MPU_RBAR d) = 0;
  write_ctrl v d : mpu (reg_write MPU_CTRL v d) = mkMpu (m_type (mpu d)) v (m_rnr (mpu d)) (m_base (mpu d)) (m_attr (mpu d));
  write_rnr v d : mpu (reg_write MPU_RNR v d) =
    mkMpu (m_type (mpu d)) (m_ctrl (mpu d)) (field reg_mpu_rnr "region" v) (m_base (mpu d)) (m_attr (mpu d));
  write_rbar v d : mpu (reg_write MPU_RBAR v d) =
    let r := if field reg_mpu_rbar "valid" v =? 1 then field reg_mpu_rbar "region" v else m_rnr (mpu d) in
    mkMpu (m_type (mpu d)) (m_ctrl (mpu d)) r (update r (field reg_mpu_rbar "addr" v) (m_base (mpu d))) (m_attr (mpu d));
  write_rasr v d : mpu (reg_write MPU_RASR v d) =
    mkMpu (m_type (mpu d)) (m_ctrl (mpu d)) (m_rnr (mpu d)) (m_base (mpu d)) (update (m_rnr (mpu d)) v (m_attr (mpu d)))
}.

(** ** Stack guards *)

Class ArmConfig := {
  ArmStackGuard : bool;   (** [Config::EnableStackGuard] *)
  EnableThreads : bool;
  ArmUsePsp : bool;       (** [ZTH_ARM_USE_PSP] *)
  ArmMINSIGSTKSZ : Z
}.

Definition ZTH_ARM_STACK_GUARD_BITS : Z := 5.
Definition ZTH_ARM_STACK_GUARD_SIZE : Z := Z.shiftl 1 ZTH_ARM_STACK_GUARD_BITS.
Definition arm_sizeof_ptr : Z := 4.

(** The device, the static variable [region], and [m_guard] of the context that runs. *)
Record Arm {D : Type} := mkArm { dev : D; region : Z; m_guard : Z }.
Arguments Arm : clear implicits.
Arguments mkArm {D}.

Section Operations.
Context `{Config} `{ArmConfig} {D : Type} `{!Mpu D}.

(** [Register::read] and [Register::write]. *)
Definition read (a : Z) : M (Arm D) Z := gets (λ s, reg_read a (dev s)).
Definition write (a v : Z) : M (Arm D) unit := modify (λ s, mkArm (reg_write a v (dev s)) (region s) (m_guard s)).

Definition set_region (r : Z) : M (Arm D) unit := modify (λ s, mkArm (dev s) r (m_guard s)).

Definition REG_MPU_RBAR_ADDR_UNUSED : Z := Z.shiftr (u32 (- ZTH_ARM_STACK_GUARD_SIZE)) 5.

(** The loop over the regions, from [r] down; [rnr] is the register object.  The region,
    and the attributes that were read last. *)
Fixpoint find_region (fuel : nat) (r rnr rasr : Z) : M (Arm D) (Z * Z) :=
  match fuel with
  | O => fail OutOfFuel
  | S fuel =>
      if 0 <? r then
        let rnr := set_field reg_mpu_rnr "region" r rnr in
        write MPU_RNR rnr;;
        rasr ← read MPU_RASR;
        if field reg_mpu_rasr "enable" rasr =? 0 then mret (r, rasr) else find_region fuel (r - 1) rnr rasr
      else mret (r, rasr)
  end.

Definition guard_attributes (rasr : Z) : Z :=
  let rasr := set_field reg_mpu_rasr "size" (ZTH_ARM_STACK_GUARD_BITS - 1) rasr in
  let rasr := set_field reg_mpu_rasr "xn" 0 rasr in
  let rasr := set_field reg_mpu_rasr "ap" 0 rasr in
  let rasr := set_field reg_mpu_rasr "tex" 0 rasr in
  let rasr := set_field reg_mpu_rasr "c" 1 rasr in
  let rasr := set_field reg_mpu_rasr "b" 0 rasr in
  let rasr := set_field reg_mpu_rasr "s" 1 rasr in
  set_field reg_mpu_rasr "enable" 1 rasr.

(** Where the region that was found is claimed. *)
Definition claim_region (rasr : Z) : M (Arm D) unit :=
  rbar ← read MPU_RBAR;
  write MPU_RBAR (set_field reg_mpu_rbar "addr" REG_MPU_RBAR_ADDR_UNUSED rbar);;
  write MPU_RASR (guard_attributes rasr);;
  ctrl ← read MPU_CTRL;
  when (field reg_mpu_ctrl "enable" ctrl =? 0)
    (write MPU_CTRL (set_field reg_mpu_ctrl "enable" 1 (set_field reg_mpu_ctrl "privdefena" 1 ctrl))).

Definition stackGuardRegion : M (Arm D) Z :=
  if negb ArmStackGuard || EnableThreads then mret (-1)
  else
    region ← gets region;
    if negb (region =? 0) then mret region
    else
      type ← read MPU_TYPE;
      rnr ← read MPU_RNR;
      rasr ← read MPU_RASR;
      let r := field reg_mpu_type "dregion" type - 1 in
      found ← find_region (S (Z.to_nat r)) r rnr rasr;
      let '(r, rasr) := found in
      r ← (if 0 <? r then claim_region rasr;; mret r else mret (-1));
      set_region r;;
      mret r.

Definition stackGuardImpl (guard : Z) : M (Arm D) unit :=
  if negb ArmStackGuard || EnableThreads then mret tt
  else
    region ← stackGuardRegion;
    if region <? 0 then mret tt
    else
      zth_assert (Z.land guard (ZTH_ARM_STACK_GUARD_SIZE - 1) =? 0);;
      let rbar := set_field reg_mpu_rbar "addr" (if guard =? 0 then REG_MPU_RBAR_ADDR_UNUSED else Z.shiftr guard 5) 0 in
      let rbar := set_field reg_mpu_rbar "valid" 1 rbar in
      let rbar := set_field reg_mpu_rbar "region" region rbar in
      write MPU_RBAR rbar.

Definition setGuard (guard : Z) : M (Arm D) Z := λ s, Ok (m_guard s, mkArm (dev s) (region s) guard).

(** [stackGuard()], [stackGuard(Stack const&)], of which [p] is the stack, and
    [stackGuard(void* )]. *)
Definition stackGuard : M (Arm D) unit := guard ← gets m_guard; stackGuardImpl guard.
Definition stackGuard_stack (p : Z) : M (Arm D) unit := stackGuardImpl p.
Definition stackGuard_at (p : Z) : M (Arm D) Z := prev ← setGuard p; stackGuard;; mret prev.

(** ** Stacks *)

Definition arm_pageSize : Z :=
  if ArmStackGuard then ZTH_ARM_STACK_GUARD_SIZE else Z.max (arm_sizeof_ptr * 2) arm_sizeof_ptr.

Definition arm_calcStackSize (size : Z) : Z :=
  let size := if ArmUsePsp then size else u32 (size + ArmMINSIGSTKSZ) in
  if ArmStackGuard then u32 (size + arm_pageSize) else size.

(** [stackAlign], after that of the base class gave the stack [p] of [size] bytes: the
    [m_guard] of the context and its stack; [grows_down] is what the platform says of
    its stack. *)
Definition arm_stackAlign {S : Type} (grows_down : bool) (p size : Z) : M S (Z * Z * Z) :=
  if (p =? 0) || (size =? 0) then mret (0, p, size)
  else
    ps ← (if ArmStackGuard then
            zth_assert grows_down;;
            zth_assert (arm_pageSize <? size);;
            mret (p, u32 (p + arm_pageSize), u32 (size - arm_pageSize))
          else mret (0, p, size));
    let '(guard, p, size) := ps in
    zth_assert (Z.land p (arm_sizeof_ptr * 2 - 1) =? 0);;
    zth_assert (Z.land size (arm_sizeof_ptr * 2 - 1) =? 0);;
    mret (guard, p, size).

(** [z & ~(n - 1)]. *)
Definition arm_align_down (n z : Z) : Z := Z.land z (u32 (Z.lnot (n - 1))).

(** The initial stack pointer. *)
Definition sp {S : Type} (grows_down : bool) (p size : Z) : M S Z :=
  zth_assert grows_down;; mret (arm_align_down 8 (u32 (p + size - arm_sizeof_ptr))).

(** [f] is called on the stack [stack] of [size] bytes: the guard that is set meanwhile,
    and the stack pointer. *)
Definition switch_guard (stack : Z) : Z :=
  arm_align_down ZTH_ARM_STACK_GUARD_SIZE (u32 (stack + 2 * ZTH_ARM_STACK_GUARD_SIZE - 1)).
Definition switch_sp (stack size : Z) : Z := arm_align_down 8 (u32 (stack + size)).

(** [stack_switch] to a stack of its own; [f] gets the stack pointer. *)
Definition stack_switch {A} (stack size : Z) (f : Z → M (Arm D) A) : M (Arm D) A :=
  prevGuard ← (if ArmStackGuard && (ZTH_ARM_STACK_GUARD_SIZE * 2 <=? size) then
                 prev ← setGuard (switch_guard stack); stackGuard;; mret prev
               else mret 0);
  res ← f (switch_sp stack size);
  (if negb (prevGuard =? 0) then setGuard prevGuard;; stackGuard else mret tt);;
  mret res.
End Operations.

(** The offset of the stack pointer in a [jmp_buf], given the words of one that was just
    saved and the stack pointer: the last one that holds it. *)
Fixpoint find_sp (env : list Z) (sp : Z) (sp_offset : nat) : nat :=
  match sp_offset with
  | O => O
  | S n => if default 0 (env !! sp_offset) =? sp then sp_offset else find_sp env sp n
  end.

Definition get_lr_offset `{Config} {S : Type} (env : list Z) (sp : Z) : M S nat :=
  zth_assert (negb (sp =? 0));;
  let sp_offset := find_sp env sp (length env - 2) in
  if (sp_offset =? 0)%nat then fail Aborted else mret (sp_offset + 1)%nat.

Definition set_sp (lr_offset : nat) (sp : Z) (env : list Z) : list Z := <[(lr_offset - 1)%nat:=sp]> env.
Definition set_pc (lr_offset : nat) (pc : Z) (env : list Z) : list Z := <[lr_offset:=pc]> env.

(** ** Bit fields *)

Lemma get_bits_testbit f v n : 0 ≤ fst f → 0 ≤ snd f → 0 ≤ n →
  Z.testbit (get_bits f v) n = Z.testbit v (n + fst f) && (n <? snd f).
Proof.
  intros Hf Hw Hn. unfold get_bits. rewrite Z.land_spec, Z.shiftr_spec by done. f_equal.
  destruct (n <? snd f) eqn:E; [apply Z.ltb_lt in E|apply Z.ltb_ge in E].
  - by apply Z.ones_spec_low.
  - by apply Z.ones_spec_high.
Qed.

Lemma set_bits_testbit f x v n : 0 ≤ fst f → 0 ≤ snd f → 0 ≤ n →
  Z.testbit (set_bits f x v) n =
    if (fst f <=? n) && (n <? fst f + snd f) then Z.testbit x (n - fst f) else Z.testbit v n.
Proof.
  intros Hf Hw Hn. unfold set_bits. rewrite Z.lor_spec, Z.land_spec, Z.lnot_spec, !Z.shiftl_spec, Z.land_spec by done.
  destruct (fst f <=? n) eqn:E1; [apply Z.leb_le in E1|apply Z.leb_gt in E1]; simpl.
  - destruct (n <? fst f + snd f) eqn:E2; [apply Z.ltb_lt in E2|apply Z.ltb_ge in E2].
    + rewrite Z.ones_spec_low by lia. simpl. by rewrite andb_false_r, andb_true_r.
    + rewrite Z.ones_spec_high by lia. simpl. by rewrite andb_true_r, andb_false_r, orb_false_r.
  - rewrite !(Z.testbit_neg_r _ (n - fst f)) by lia. simpl. by rewrite andb_true_r, orb_false_r.
Qed.

Lemma get_set_same f x v : 0 ≤ fst f → 0 ≤ snd f → 0 ≤ x < 2 ^ snd f → get_bits f (set_bits f x v) = x.
Proof.
  intros Hf Hw Hx. apply Z.bits_inj'. intros n Hn. rewrite get_bits_testbit, set_bits_testbit by lia.
  rewrite (proj2 (Z.leb_le (fst f) (n + fst f))) by lia. replace (n + fst f - fst f) with n by lia. simpl.
  destruct (n <? snd f) eqn:E; [apply Z.ltb_lt in E|apply Z.ltb_ge in E].
  - rewrite (proj2 (Z.ltb_lt _ _)) by lia. by rewrite andb_true_r.
  - rewrite andb_false_r. symmetry. destruct (decide (x = 0)) as [->|]; [by apply Z.testbit_0_l|].
    apply Z.bits_above_log2; [lia|].
    apply Z.log2_lt_pow2; [lia|]. eapply Z.lt_le_trans; [apply Hx|]. by apply Z.pow_le_mono_r.
Qed.

Lemma get_set_other f g x v :
  0 ≤ fst f → 0 ≤ snd f → 0 ≤ fst g → 0 ≤ snd g → fst f + snd f ≤ fst g ∨ fst g + snd g ≤ fst f →
  get_bits f (set_bits g x v) = get_bits f v.
Proof.
  intros Hf Hw Hf' Hw' D. apply Z.bits_inj'. intros n Hn. rewrite !get_bits_testbit, set_bits_testbit by lia.
  destruct (n <? snd f) eqn:E; [|by rewrite !andb_false_r]. apply Z.ltb_lt in E.
  destruct (fst g <=? n + fst f) eqn:E1; [apply Z.leb_le in E1|done].
  destruct (n + fst f <? fst g + snd g) eqn:E2; [apply Z.ltb_lt in E2; lia|done].
Qed.

Lemma get_bits_bound f v : 0 ≤ fst f → 0 ≤ snd f → 0 ≤ get_bits f v < 2 ^ snd f.
Proof. intros Hf Hw. unfold get_bits. rewrite Z.land_ones by done. apply Z.mod_pos_bound. lia. Qed.

(** Reading fields of a register after others were set. *)
Ltac in_fields := unfold ZTH_ARM_STACK_GUARD_BITS; cbn [fst snd]; lia.
Ltac fields :=
  unfold field, set_field;
  repeat match goal with |- context [field_of ?n ?l] =>
    let f := eval vm_compute in (field_of n l) in change (field_of n l) with f end;
  repeat first
    [ rewrite get_set_same by in_fields
    | rewrite get_set_other by first [in_fields | left; in_fields | right; in_fields] ].

Lemma guard_attributes_fields rasr :
  field reg_mpu_rasr "enable" (guard_attributes rasr) = 1 ∧ field reg_mpu_rasr "ap" (guard_attributes rasr) = 0 ∧
  field reg_mpu_rasr "size" (guard_attributes rasr) = 4 ∧ field reg_mpu_rasr "srd" (guard_attributes rasr) = field reg_mpu_rasr "srd" rasr.
Proof. unfold guard_attributes. split_and!; by fields. Qed.

(** ** The guard of the fiber that runs *)

Section Guard.
Context `{Config} `{ArmConfig} {D : Type} `{!Mpu D}.
Implicit Types (s : Arm D) (st : MpuState).

Definition region_enabled st (i : Z) : bool := negb (field reg_mpu_rasr "enable" (m_attr st i) =? 0).
Definition regions st : Z := field reg_mpu_type "dregion" (m_type st).

(** The free region with the highest number; the first one is left alone. *)
Definition highest_free st (r : Z) : Prop :=
  0 < r < regions st ∧ region_enabled st r = false ∧ ∀ i, r < i < regions st → region_enabled st i = true.

Definition all_but_selected st st' : Prop :=
  m_type st' = m_type st ∧ m_ctrl st' = m_ctrl st ∧ m_base st' = m_base st ∧ m_attr st' = m_attr st.

Lemma regions_bound st : 0 ≤ regions st < 256.
Proof. apply (get_bits_bound (8, 8)); done. Qed.

Lemma find_region_run fuel r rnr rasr s :
  (Z.to_nat r < fuel)%nat → r < 256 →
  ∃ r' rasr' s', find_region fuel r rnr rasr s = Ok ((r', rasr'), s') ∧
    region s' = region s ∧ m_guard s' = m_guard s ∧ all_but_selected (mpu (dev s)) (mpu (dev s')) ∧
    r' ≤ r ∧ (∀ i, 0 < i → r' < i ≤ r → region_enabled (mpu (dev s)) i = true) ∧
    (0 < r' → m_rnr (mpu (dev s')) = r' ∧ rasr' = m_attr (mpu (dev s)) r' ∧ region_enabled (mpu (dev s)) r' = false).
Proof.
  revert r rnr rasr s. induction fuel as [|fuel IH]; intros r rnr rasr s Hf Hr; [lia|]. simpl. destruct (0 <? r) eqn:E.
  2: { apply Z.ltb_ge in E. exists r, rasr, s. split_and!; [done..|lia|lia|lia]. }
  apply Z.ltb_lt in E. unfold write, read, modify, gets. unfold mbind, M_bind. cbn [dev].
  set (s1 := mkArm _ _ _). rewrite read_rasr. subst s1. cbn [dev]. rewrite write_rnr. cbn [m_attr m_rnr].
  assert (field reg_mpu_rnr "region" (set_field reg_mpu_rnr "region" r rnr) = r) as -> by by fields.
  destruct (field reg_mpu_rasr "enable" (m_attr (mpu (dev s)) r) =? 0) eqn:Ee.
  - eexists r, _, _. split; [done|]. cbn [dev]. split_and!; [done|done|by rewrite write_rnr|done|lia|].
    rewrite write_rnr. cbn [m_rnr]. intros _. split_and!; [by fields|done|]. unfold region_enabled. by rewrite Ee.
  - destruct (IH (r - 1) (set_field reg_mpu_rnr "region" r rnr) (m_attr (mpu (dev s)) r)
      (mkArm (reg_write MPU_RNR (set_field reg_mpu_rnr "region" r rnr) (dev s)) (region s) (m_guard s)))
      as (r' & rasr' & s' & R & E1 & E2 & E3 & L & En & Fr); [lia|lia|].
    exists r', rasr', s'. split; [exact R|]. unfold all_but_selected, region_enabled in *. cbn [dev region m_guard] in *. rewrite write_rnr in *.
    cbn [m_type m_ctrl m_base m_attr] in *.
    split; [exact E1|]. split; [exact E2|]. split; [exact E3|]. split; [lia|]. split; [|exact Fr].
    intros i Hi Hi'. destruct (decide (i = r)) as [->|]; [by rewrite Ee|]. apply En; lia.
Qed.

(** The region [r] is used for the guard: its address is [base], the others of [st] are as
    they were. *)
Record guarding (r base : Z) st st' : Prop := {
  gu_base : m_base st' r = base;
  gu_attr : m_attr st' r = guard_attributes (m_attr st r);
  gu_others i : i ≠ r → m_base st' i = m_base st i ∧ m_attr st' i = m_attr st i;
  gu_on : field reg_mpu_ctrl "enable" (m_ctrl st') = 1
}.

Lemma claim_region_run r s :
  m_rnr (mpu (dev s)) = r →
  ∃ s', claim_region (m_attr (mpu (dev s)) r) s = Ok (tt, s') ∧ region s' = region s ∧ m_guard s' = m_guard s ∧
    guarding r REG_MPU_RBAR_ADDR_UNUSED (mpu (dev s)) (mpu (dev s')).
Proof.
  intros Hr. unfold claim_region, write, read, modify, gets, when. unfold mbind, M_bind. cbn [dev region m_guard].
  set (rbar := set_field reg_mpu_rbar "addr" REG_MPU_RBAR_ADDR_UNUSED (reg_read MPU_RBAR (dev s))).
  set (rasr := guard_attributes _).
  assert (mpu (reg_write MPU_RASR rasr (reg_write MPU_RBAR rbar (dev s))) =
    mkMpu (m_type (mpu (dev s))) (m_ctrl (mpu (dev s))) r (update r REG_MPU_RBAR_ADDR_UNUSED (m_base (mpu (dev s))))
      (update r rasr (m_attr (mpu (dev s))))) as E.
  { rewrite write_rasr, write_rbar.
    assert (field reg_mpu_rbar "valid" rbar = 0) as -> by (subst rbar; fields; apply read_rbar_valid).
    assert (field reg_mpu_rbar "addr" rbar = REG_MPU_RBAR_ADDR_UNUSED) as -> by (subst rbar; change REG_MPU_RBAR_ADDR_UNUSED with 134217727; by fields).
    cbn [Z.eqb m_type m_ctrl m_rnr m_base m_attr]. by rewrite Hr. }
  rewrite read_ctrl, E. cbn [m_ctrl]. destruct (field reg_mpu_ctrl "enable" (m_ctrl (mpu (dev s))) =? 0) eqn:Ee.
  - eexists. split; [done|]. cbn [dev region m_guard]. split; [done|]. split; [done|]. rewrite write_ctrl, E.
    split; cbn [m_base m_attr m_ctrl]; unfold update.
    + by rewrite Z.eqb_refl.
    + by rewrite Z.eqb_refl.
    + intros i Hi. by rewrite (proj2 (Z.eqb_neq i r)).
    + by fields.
  - eexists. split; [done|]. cbn [dev region m_guard]. split; [done|]. split; [done|]. rewrite E.
    split; cbn [m_base m_attr m_ctrl]; unfold update.
    + by rewrite Z.eqb_refl.
    + by rewrite Z.eqb_refl.
    + intros i Hi. by rewrite (proj2 (Z.eqb_neq i r)).
    + apply Z.eqb_neq in Ee. pose proof (get_bits_bound (0, 1) (m_ctrl (mpu (dev s))) ltac:(done) ltac:(done)) as B.
      change (2 ^ snd (0, 1)) with 2 in B. unfold field in *. change (field_of "enable" reg_mpu_ctrl) with (0, 1) in *. lia.
Qed.

Lemma guarding_ext r b st0 st st' : all_but_selected st0 st → guarding r b st st' → guarding r b st0 st'.
Proof. intros (_ & _ & Eb & Ea) [G1 G2 G3 G4]. split; [done|by rewrite <-Ea|by rewrite <-Eb, <-Ea|done]. Qed.

Hypothesis on : ArmStackGuard = true.
Hypothesis one_thread : EnableThreads = false.

(** The first call looks for a region; later ones know it. *)
Lemma stackGuardRegion_first s :
  region s = 0 →
  ∃ r s', stackGuardRegion s = Ok (r, s') ∧ region s' = r ∧ m_guard s' = m_guard s ∧
    if r <? 0 then (∀ i, ¬ highest_free (mpu (dev s)) i) ∧ r = -1 ∧ all_but_selected (mpu (dev s)) (mpu (dev s'))
    else highest_free (mpu (dev s)) r ∧ guarding r REG_MPU_RBAR_ADDR_UNUSED (mpu (dev s)) (mpu (dev s')).
Proof.
  intros E. pose proof (regions_bound (mpu (dev s))) as B. unfold stackGuardRegion. rewrite on, one_thread. cbn [negb orb].
  unfold read. erewrite bind_Ok by done. rewrite E. cbn [Z.eqb negb]. do 3 (erewrite bind_Ok by done). cbn beta iota zeta.
  rewrite read_type. fold (regions (mpu (dev s))).
  destruct (find_region_run (S (Z.to_nat (regions (mpu (dev s)) - 1))) (regions (mpu (dev s)) - 1) (reg_read MPU_RNR (dev s))
    (reg_read MPU_RASR (dev s)) s) as (r & rasr & s1 & R & E1 & E2 & E3 & L & En & Fr); [lia|lia|].
  rewrite (bind_Ok _ _ _ _ _ R). cbn beta iota. destruct (0 <? r) eqn:Er; [apply Z.ltb_lt in Er|apply Z.ltb_ge in Er].
  - destruct (Fr Er) as (Es & -> & Ef). destruct E3 as (T & C & Eb & Ea).
    destruct (claim_region_run r s1 Es) as (s2 & R2 & R3 & R4 & G). rewrite Ea in R2.
    rewrite bind_assoc, (bind_Ok _ _ _ _ _ R2), bind_ret. erewrite bind_Ok by done.
    exists r, (mkArm (dev s2) r (m_guard s2)). cbn [region m_guard dev]. rewrite (proj2 (Z.ltb_ge r 0)) by lia.
    split; [done|]. split; [done|]. split; [congruence|]. split; [split; [lia|split; [done|intros i Hi; apply En; lia]]|].
    by apply (guarding_ext _ _ _ (mpu (dev s1))).
  - rewrite bind_ret. erewrite bind_Ok by done. exists (-1), (mkArm (dev s1) (-1) (m_guard s1)). cbn [region m_guard dev].
    split; [done|]. split; [done|]. split; [done|]. split; [|done]. intros i ([Hi Hi'] & Hf & _). rewrite En in Hf by lia. done.
Qed.

(** The [addr] of the region that guards the bytes at [guard]. *)
Definition guard_addr (guard : Z) : Z := if guard =? 0 then REG_MPU_RBAR_ADDR_UNUSED else Z.shiftr guard 5.
Definition guard_aligned (guard : Z) : Prop := 0 ≤ guard < 2 ^ 32 ∧ (32 | guard).

Lemma guard_addr_eq guard : guard_aligned guard → guard ≠ 0 → guard_addr guard * 32 = guard.
Proof.
  intros [Hg [q ->]] Hn. unfold guard_addr. rewrite (proj2 (Z.eqb_neq _ 0)) by done. rewrite Z.shiftr_div_pow2 by done.
  change (2 ^ 5) with 32. rewrite Z.div_mul by done. lia.
Qed.

Lemma guard_addr_bound guard : guard_aligned guard → 0 ≤ guard_addr guard < 2 ^ 27.
Proof.
  intros [Hg _]. unfold guard_addr. destruct (guard =? 0); [done|]. rewrite Z.shiftr_div_pow2 by done.
  split; [apply Z.div_pos; lia|]. apply Z.div_lt_upper_bound; [done|]. lia.
Qed.

(** What is written to set the address of the region that was claimed. *)
Lemma rbar_fields r a :
  0 < r < 16 → 0 ≤ a < 2 ^ 27 →
  let rbar := set_field reg_mpu_rbar "region" r (set_field reg_mpu_rbar "valid" 1 (set_field reg_mpu_rbar "addr" a 0)) in
  field reg_mpu_rbar "valid" rbar = 1 ∧ field reg_mpu_rbar "region" rbar = r ∧ field reg_mpu_rbar "addr" rbar = a.
Proof. intros Hr Ha. cbn zeta. split; [by fields|]. split; by fields. Qed.

Lemma set_guard_run r guard s :
  0 < r < 16 → guard_aligned guard →
  let rbar := set_field reg_mpu_rbar "region" r (set_field reg_mpu_rbar "valid" 1 (set_field reg_mpu_rbar "addr" (guard_addr guard) 0)) in
  mpu (reg_write MPU_RBAR rbar (dev s)) =
    mkMpu (m_type (mpu (dev s))) (m_ctrl (mpu (dev s))) r (update r (guard_addr guard) (m_base (mpu (dev s)))) (m_attr (mpu (dev s))).
Proof.
  intros Hr Hg. destruct (rbar_fields r (guard_addr guard) Hr (guard_addr_bound guard Hg)) as (E1 & E2 & E3). cbn zeta.
  by rewrite write_rbar, E1, E2, E3.
Qed.

Lemma aligned_assert guard : guard_aligned guard → (Z.land guard (ZTH_ARM_STACK_GUARD_SIZE - 1) =? 0) = true.
Proof.
  intros [_ Dv]. change (ZTH_ARM_STACK_GUARD_SIZE - 1) with (Z.ones 5). rewrite Z.land_ones by done. apply Z.eqb_eq.
  by apply Z.mod_divide.
Qed.

(** The region was claimed, and guards [guard]. *)
Definition guards (guard r : Z) st0 s : Prop :=
  region s = r ∧ highest_free st0 r ∧ guarding r (guard_addr guard) st0 (mpu (dev s)).

Lemma stackGuardImpl_run guard g r st0 s :
  guard_aligned guard → regions st0 ≤ 16 → guards g r st0 s →
  ∃ s', stackGuardImpl guard s = Ok (tt, s') ∧ m_guard s' = m_guard s ∧ guards guard r st0 s'.
Proof.
  intros Hg B (Er & Hf & [G1 G2 G3 G4]). pose proof Hf as [[Hr Hr'] _]. unfold stackGuardImpl. rewrite on, one_thread. cbn [negb orb].
  assert (stackGuardRegion s = Ok (r, s)) as R.
  { unfold stackGuardRegion. rewrite on, one_thread. cbn [negb orb]. erewrite bind_Ok by done. by rewrite Er, (proj2 (Z.eqb_neq r 0)) by lia. }
  rewrite (bind_Ok _ _ _ _ _ R), (proj2 (Z.ltb_ge r 0)) by lia. erewrite bind_Ok by by apply zth_assert_true, aligned_assert.
  eexists. split; [done|]. split; [done|]. cbn zeta. fold (guard_addr guard). unfold guards. cbn [region dev].
  split; [done|]. split; [done|]. rewrite set_guard_run by (done || lia).
  split; cbn [m_base m_attr m_ctrl]; unfold update; [by rewrite Z.eqb_refl|done| |done].
  intros i Hi. rewrite (proj2 (Z.eqb_neq i r)) by done. by apply G3.
Qed.

Lemma stackGuardImpl_first guard s :
  guard_aligned guard → regions (mpu (dev s)) ≤ 16 → region s = 0 →
  ∃ s', stackGuardImpl guard s = Ok (tt, s') ∧
    ((∃ r, guards guard r (mpu (dev s)) s') ∨
     (∀ i, ¬ highest_free (mpu (dev s)) i) ∧ region s' = -1 ∧ all_but_selected (mpu (dev s)) (mpu (dev s'))).
Proof.
  intros Hg B E. destruct (stackGuardRegion_first s E) as (r & s1 & R & Er & Eg & Q).
  unfold stackGuardImpl. rewrite on, one_thread. cbn [negb orb]. rewrite (bind_Ok _ _ _ _ _ R).
  destruct (r <? 0) eqn:Hr.
  - exists s1. split; [done|]. right. destruct Q as (Q1 & -> & Q2). done.
  - destruct Q as [Hf [G1 G2 G3 G4]]. pose proof Hf as [[Hr1 Hr2] _].
    erewrite bind_Ok by by apply zth_assert_true, aligned_assert. eexists. split; [done|]. left. exists r.
    cbn zeta. fold (guard_addr guard). unfold guards. cbn [region dev]. split; [done|]. split; [done|].
    rewrite set_guard_run by (done || lia).
    split; cbn [m_base m_attr m_ctrl]; unfold update; [by rewrite Z.eqb_refl|done| |done].
    intros i Hi. rewrite (proj2 (Z.eqb_neq i r)) by done. by apply G3.
Qed.

(** What the hardware is told at the switches to fibers with these guards. *)
Fixpoint guard_all (l : list Z) : M (Arm D) unit :=
  match l with [] => mret tt | g :: l => stackGuardImpl g;; guard_all l end.

Lemma last_cons_default (l : list Z) x y z : List.last (x :: l) y = List.last (x :: l) z.
Proof. revert x. induction l as [|w l IH]; intros x; [done|apply (IH w)]. Qed.

Lemma guard_all_run l g r st0 s :
  Forall guard_aligned l → regions st0 ≤ 16 → guards g r st0 s → ∃ s', guard_all l s = Ok (tt, s') ∧ guards (List.last l g) r st0 s'.
Proof.
  intros F B. revert g s. induction F as [|x l Hx F IH]; intros g s G; [by exists s|]. simpl.
  destruct (stackGuardImpl_run x g r st0 s Hx B G) as (s1 & R & _ & G1). rewrite (bind_Ok _ _ _ _ _ R).
  destruct (IH x s1 G1) as (s2 & R2 & G2). exists s2. split; [exact R2|]. destruct l as [|z l]; [done|]. by rewrite (last_cons_default l z g x).
Qed.

Lemma guard_all_none l st0 s :
  region s = -1 → all_but_selected st0 (mpu (dev s)) → guard_all l s = Ok (tt, s).
Proof.
  intros E A. induction l as [|x l IH]; [done|]. simpl. erewrite bind_Ok; [exact IH|]. unfold stackGuardImpl, stackGuardRegion.
  rewrite on, one_thread. cbn [negb orb]. rewrite bind_assoc. erewrite bind_Ok by done. rewrite E. done.
Qed.

(** C28: when fibers are switched to, one after the other, the highest region of the MPU that
    was free denies access to the 32 bytes at the guard of the last one; the unit is
    enabled, and no other region is changed, nor is region 0 used.  When no region is
    free, nothing is changed. *)
Theorem stack_guard_follows l g s :
  region s = 0 → regions (mpu (dev s)) ≤ 16 → Forall guard_aligned (l ++ [g]) →
  ∃ s', guard_all (l ++ [g]) s = Ok (tt, s') ∧
    ((∃ r, highest_free (mpu (dev s)) r ∧
        (if g =? 0 then m_base (mpu (dev s')) r = REG_MPU_RBAR_ADDR_UNUSED else m_base (mpu (dev s')) r * 32 = g) ∧
        (let attr := m_attr (mpu (dev s')) r in
         field reg_mpu_rasr "enable" attr = 1 ∧ field reg_mpu_rasr "ap" attr = 0 ∧ 2 ^ (field reg_mpu_rasr "size" attr + 1) = 32) ∧
        (∀ i, i ≠ r → m_base (mpu (dev s')) i = m_base (mpu (dev s)) i ∧ m_attr (mpu (dev s')) i = m_attr (mpu (dev s)) i) ∧
        field reg_mpu_ctrl "enable" (m_ctrl (mpu (dev s'))) = 1) ∨
     (∀ i, ¬ highest_free (mpu (dev s)) i) ∧ all_but_selected (mpu (dev s)) (mpu (dev s'))).
Proof.
  intros E B F. assert (guard_aligned g) as Hg by (apply Forall_app in F as [_ F]; by inversion F).
  assert (∃ x k, l ++ [g] = x :: k ∧ List.last k x = g) as (x & k & Ek & El).
  { destruct l as [|x l]; [by exists g, []|]. exists x, (l ++ [g]). split; [done|]. apply List.last_last. }
  rewrite Ek in *. inversion_clear F as [|? ? Hx Fk]. simpl.
  destruct (stackGuardImpl_first x s Hx B E) as (s1 & R & [(r & G)|(No & Er & A)]); rewrite (bind_Ok _ _ _ _ _ R).
  - destruct (guard_all_run k x r _ s1 Fk B G) as (s' & R' & (_ & Hf & [G1 G2 G3 G4])). exists s'. split; [exact R'|].
    left. exists r. rewrite El in G1. split; [done|]. split.
    { destruct (g =? 0) eqn:Z0; rewrite G1; [unfold guard_addr; by rewrite Z0|]. apply guard_addr_eq; [done|]. by apply Z.eqb_neq. }
    split; [|by split]. cbn zeta. rewrite G2. destruct (guard_attributes_fields (m_attr (mpu (dev s)) r)) as (-> & -> & -> & _). done.
  - exists s1. split; [by apply (guard_all_none k (mpu (dev s)))|]. by right.
Qed.

(** *** Switching stacks *)

Lemma arm_align_down_eq k z : 0 ≤ k < 32 → 0 ≤ z < 2 ^ 32 → arm_align_down (2 ^ k) z = z - z `mod` 2 ^ k.
Proof.
  intros Hk Hz. unfold arm_align_down, u32. rewrite <-(Z.land_ones (Z.lnot _)) by lia.
  rewrite Z.land_assoc, (Z.land_comm z), <-Z.land_assoc, Z.land_ones, (Z.mod_small z) by lia.
  rewrite Z.land_comm. replace (2 ^ k - 1) with (Z.ones k) by (rewrite Z.ones_equiv; lia).
  rewrite <-Z.ldiff_land, Z.ldiff_ones_r by lia. rewrite Z.shiftl_mul_pow2, Z.shiftr_div_pow2 by lia.
  rewrite (Z.div_mod z (2 ^ k)) at 2 by lia. lia.
Qed.

(** The guard is above the first 32 bytes of the stack; from 96 bytes on it is within the
    stack, when that is aligned, and leaves room. *)
Lemma switch_guard_place stack size :
  0 ≤ stack → 0 ≤ size → stack + size < 2 ^ 32 → stack + 64 < 2 ^ 32 →
  guard_aligned (switch_guard stack) ∧ stack + 32 ≤ switch_guard stack < stack + 64 ∧
  stack + size - 8 < switch_sp stack size ≤ stack + size ∧
  ((32 | stack) → switch_guard stack = stack + 32).
Proof.
  intros Hs Hz B B'. unfold switch_guard, switch_sp. change (stack + 2 * ZTH_ARM_STACK_GUARD_SIZE - 1) with (stack + 64 - 1).
  change ZTH_ARM_STACK_GUARD_SIZE with (2 ^ 5). change (arm_align_down 8) with (arm_align_down (2 ^ 3)). rewrite !u32_small, !arm_align_down_eq by lia.
  pose proof (Z.mod_pos_bound (stack + 64 - 1) (2 ^ 5) ltac:(done)). pose proof (Z.mod_pos_bound (stack + size) (2 ^ 3) ltac:(done)).
  pose proof (Z.div_mod (stack + 64 - 1) (2 ^ 5) ltac:(done)). change (2 ^ 5) with 32 in *. change (2 ^ 3) with 8 in *.
  split; [split; [lia|exists ((stack + 64 - 1) / 32); lia]|]. split; [lia|]. split; [lia|].
  intros [q ->]. replace (q * 32 + 64 - 1) with (31 + (q + 1) * 32) by lia. rewrite Z.mod_add by done. change (31 `mod` 32) with 31. lia.
Qed.

Lemma stackGuard_run g r st0 s :
  guard_aligned (m_guard s) → regions st0 ≤ 16 → guards g r st0 s →
  ∃ s', stackGuard s = Ok (tt, s') ∧ m_guard s' = m_guard s ∧ guards (m_guard s) r st0 s'.
Proof. intros Hg B G. unfold stackGuard. erewrite bind_Ok by done. by apply (stackGuardImpl_run _ g). Qed.

(** [f] runs with the guard in its stack.  Afterwards, the guard is back, if there was one;
    otherwise that of the stack of [f] stays. *)
Lemma stack_switch_guard {A} stack size (f : Z → M (Arm D) A) r st0 s :
  0 ≤ stack → 64 ≤ size → stack + size < 2 ^ 32 → regions st0 ≤ 16 → guard_aligned (m_guard s) → guards (m_guard s) r st0 s →
  (∀ s1, guards (switch_guard stack) r st0 s1 → m_guard s1 = switch_guard stack →
     ∃ a s2, f (switch_sp stack size) s1 = Ok (a, s2) ∧ guards (switch_guard stack) r st0 s2 ∧ m_guard s2 = switch_guard stack) →
  ∃ a s', stack_switch stack size f s = Ok (a, s') ∧
    let left := if m_guard s =? 0 then switch_guard stack else m_guard s in guards left r st0 s' ∧ m_guard s' = left.
Proof.
  intros Hs Hz B Rg Ag G Hf. destruct (switch_guard_place stack size) as (Ga & _ & _ & _); [lia..|].
  unfold stack_switch. change (ZTH_ARM_STACK_GUARD_SIZE * 2) with 64. rewrite on, (proj2 (Z.leb_le 64 size)) by lia. cbn [andb].
  rewrite bind_assoc. erewrite bind_Ok by done. rewrite bind_assoc.
  destruct (stackGuard_run (m_guard s) r st0 (mkArm (dev s) (region s) (switch_guard stack)) Ga Rg G) as (s1 & R1 & M1 & G1).
  rewrite (bind_Ok _ _ _ _ _ R1), bind_ret. destruct (Hf s1 G1 M1) as (a & s2 & R2 & G2 & M2). rewrite (bind_Ok _ _ _ _ _ R2).
  cbn zeta. destruct (m_guard s =? 0); cbn [negb].
  - exists a, s2. done.
  - rewrite bind_assoc. erewrite bind_Ok by done.
    destruct (stackGuard_run (switch_guard stack) r st0 (mkArm (dev s2) (region s2) (m_guard s)) Ag Rg G2) as (s3 & R3 & M3 & G3).
    rewrite (bind_Ok _ _ _ _ _ R3). exists a, s3. done.
Qed.
End Guard.

(** ** Initial stacks *)

Section Initial.
Context `{Config} `{ArmConfig} {St : Type}.

(** The stack pointer is aligned, and what is pushed there is in the stack. *)
Lemma sp_run grows_down p size (s : St) :
  (EnableAssert = true → grows_down = true) → 0 ≤ p → 11 ≤ size → p + size < 2 ^ 32 →
  ∃ v, sp grows_down p size s = Ok (v, s) ∧ (8 | v) ∧ p ≤ v ∧ v + arm_sizeof_ptr ≤ p + size.
Proof.
  intros G Hp Hz B. unfold sp, arm_sizeof_ptr. erewrite bind_Ok by by apply zth_assert_guard.
  change (arm_align_down 8) with (arm_align_down (2 ^ 3)). rewrite u32_small, arm_align_down_eq by lia.
  pose proof (Z.mod_pos_bound (p + size - 4) (2 ^ 3) ltac:(done)). pose proof (Z.div_mod (p + size - 4) (2 ^ 3) ltac:(done)).
  eexists. split; [done|]. change (2 ^ 3) with 8 in *. split; [exists ((p + size - 4) / 8); lia|lia].
Qed.

(** The guard is the first page of what the base class gives. *)
Lemma arm_stackAlign_run grows_down p size (s : St) :
  ArmStackGuard = true → (EnableAssert = true → grows_down = true) → 0 < p → (32 | p) → 32 < size → (32 | size) → p + size < 2 ^ 32 →
  arm_stackAlign grows_down p size s = Ok ((p, p + 32, size - 32), s).
Proof.
  intros On G Hp Dp Hz Dz B. unfold arm_stackAlign. rewrite (proj2 (Z.eqb_neq p 0)), (proj2 (Z.eqb_neq size 0)) by lia. cbn [orb].
  unfold arm_pageSize. rewrite On. change ZTH_ARM_STACK_GUARD_SIZE with 32. rewrite bind_assoc.
  erewrite bind_Ok by by apply zth_assert_guard. rewrite bind_assoc. erewrite bind_Ok by (apply zth_assert_true, Z.ltb_lt; lia).
  rewrite bind_ret, !u32_small by lia. assert (∀ z, (32 | z) → (Z.land z (arm_sizeof_ptr * 2 - 1) =? 0) = true) as A.
  { intros z [q ->]. change (arm_sizeof_ptr * 2 - 1) with (Z.ones 3). rewrite Z.land_ones by done. apply Z.eqb_eq.
    change (2 ^ 3) with 8. replace (q * 32) with (q * 4 * 8) by lia. by apply Z.mod_mul. }
  erewrite bind_Ok by (apply zth_assert_true, A; apply Z.divide_add_r; [done|by exists 1]).
  by erewrite bind_Ok by (apply zth_assert_true, A; apply Z.divide_sub_r; [done|by exists 1]).
Qed.

Lemma find_sp_spec env v n :
  let k := find_sp env v n in (k ≤ n)%nat ∧ (k ≠ 0%nat → default 0 (env !! k) = v) ∧
    ∀ i, (k < i ≤ n)%nat → default 0 (env !! i) ≠ v.
Proof.
  cbn zeta. induction n as [|n (L & E & U)]; [split; [done|]; split; [done|lia]|]. simpl.
  destruct (default 0 (env !! S n) =? v) eqn:Q.
  - apply Z.eqb_eq in Q. split; [lia|]. split; [done|lia].
  - apply Z.eqb_neq in Q. split; [lia|]. split; [done|]. intros i Hi. destruct (decide (i = S n)) as [->|]; [done|]. apply U. lia.
Qed.

(** Both words of a [jmp_buf] are found and set; the others are kept. *)
Lemma jmp_buf_set env v (s : St) k a b env2 :
  get_lr_offset env v s = Ok (k, s) → length env2 = length env → (2 ≤ length env)%nat →
  let env3 := set_pc k b (set_sp k a env2) in
  env !! (k - 1)%nat = Some v ∧ env3 !! (k - 1)%nat = Some a ∧ env3 !! k = Some b ∧
  ∀ i, i ≠ k → i ≠ (k - 1)%nat → env3 !! i = env2 !! i.
Proof.
  unfold get_lr_offset. intros R L2 L. destruct (zth_assert (negb (v =? 0)) s) as [[[] s0]|] eqn:As; [|by rewrite (bind_Fault _ _ _ _ As) in R].
  rewrite (bind_Ok _ _ _ _ _ As) in R. destruct (find_sp_spec env v (length env - 2)) as (Lk & Ek & _).
  destruct (find_sp env v (length env - 2)) as [|n] eqn:Ef; [done|]. injection R as <- _. cbn zeta.
  unfold set_pc, set_sp. replace (S (n + 1) - 1)%nat with (S n) by lia. split_and!.
  - destruct (lookup_lt_is_Some_2 env (S n) ltac:(lia)) as [w Ew]. rewrite Ew in *. simpl in Ek. f_equal. by apply Ek.
  - rewrite list_lookup_insert_ne by lia. apply list_lookup_insert_eq. lia.
  - apply list_lookup_insert_eq. rewrite length_insert. lia.
  - intros i Hi Hi'. by rewrite !list_lookup_insert_ne by lia.
Qed.
End Initial.

(** ** Witnesses *)

Module Example.

(** The unit in software. *)
Definition soft_read (a : Z) (d : MpuState) : Z :=
  if a =? MPU_TYPE then m_type d else if a =? MPU_CTRL then m_ctrl d else if a =? MPU_RNR then m_rnr d
  else if a =? MPU_RBAR then set_field reg_mpu_rbar "addr" (m_base d (m_rnr d)) (set_field reg_mpu_rbar "region" (m_rnr d) 0)
  else if a =? MPU_RASR then m_attr d (m_rnr d) else 0.

Definition soft_write (a v : Z) (d : MpuState) : MpuState :=
  if a =? MPU_CTRL then mkMpu (m_type d) v (m_rnr d) (m_base d) (m_attr d)
  else if a =? MPU_RNR then mkMpu (m_type d) (m_ctrl d) (field reg_mpu_rnr "region" v) (m_base d) (m_attr d)
  else if a =? MPU_RBAR then
    let r := if field reg_mpu_rbar "valid" v =? 1 then field reg_mpu_rbar "region" v else m_rnr d in
    mkMpu (m_type d) (m_ctrl d) r (update r (field reg_mpu_rbar "addr" v) (m_base d)) (m_attr d)
  else if a =? MPU_RASR then mkMpu (m_type d) (m_ctrl d) (m_rnr d) (m_base d) (update (m_rnr d) v (m_attr d))
  else d.

Lemma soft_read_rbar d : field reg_mpu_rbar "valid" (soft_read MPU_RBAR d) = 0.
Proof.
  change (soft_read MPU_RBAR d) with (set_field reg_mpu_rbar "addr" (m_base d (m_rnr d)) (set_field reg_mpu_rbar "region" (m_rnr d) 0)).
  by fields.
Qed.

#[export] Instance soft_mpu : Mpu MpuState := {|
  reg_read := soft_read; reg_write := soft_write; mpu d := d;
  read_type d := eq_refl; read_ctrl d := eq_refl; read_rasr d := eq_refl; read_rbar_valid := soft_read_rbar;
  write_ctrl v d := eq_refl; write_rnr v d := eq_refl; write_rbar v d := eq_refl; write_rasr v d := eq_refl
|}.

Definition cortex : ArmConfig := {| ArmStackGuard := true; EnableThreads := false; ArmUsePsp := true; ArmMINSIGSTKSZ := 0 |}.

(** Eight regions, of which the last two are in use. *)
Definition eight : Arm MpuState :=
  mkArm (mkMpu (set_field reg_mpu_type "dregion" 8 0) 0 0 (λ _, 0) (λ i, if i <? 6 then 0 else 1)) 0 0.
End Example.

Import Example.

Lemma stack_guard_follows_witness :
  ∃ s', guard_all (H := debug_config) (H0 := cortex) [0x20000020; 0; 0x20000400] eight = Ok (tt, s') ∧
    m_base (dev s') 5 * 32 = 0x20000400 ∧ field reg_mpu_rasr "enable" (m_attr (dev s') 5) = 1 ∧ m_attr (dev s') 6 = 1.
Proof.
  destruct (stack_guard_follows (H := debug_config) (H0 := cortex) eq_refl eq_refl [0x20000020; 0] 0x20000400 eight) as (s' & R & Q);
    [reflexivity|by vm_compute| |].
  { repeat constructor; [by vm_compute|by exists 0x1000001|by vm_compute|by exists 0|by vm_compute|by exists 0x1000020]. }
  assert (highest_free (mpu (dev eight)) 5) as Hf.
  { split; [by vm_compute|]. split; [by vm_compute|]. intros i [Hi Hi']. change (regions (mpu (dev eight))) with 8 in Hi'.
    assert (i = 6 ∨ i = 7) as [-> | ->] by lia; by vm_compute. }
  exists s'. split; [exact R|]. destruct Q as [(r & Hr & B & (E & _) & O & _)|[No _]]; [|by destruct (No 5)].
  assert (r = 5) as ->.
  { destruct Hr as ([Hr1 Hr2] & Hr3 & Hr4), Hf as ([Hf1 Hf2] & Hf3 & Hf4). destruct (Z.lt_trichotomy r 5) as [L|[L|L]]; [|done|].
    - by rewrite Hr4 in Hf3.
    - by rewrite Hf4 in Hr3. }
  split; [exact B|]. split; [exact E|]. destruct (O 6 ltac:(done)) as [_ O6]. exact O6.
Defined.

(** The smallest stack for which a guard is set: its guard is just below the stack pointer,
    so that the first push is denied; and when the stack is not aligned, the guard is
    partly above it, where other data is. *)
Lemma switch_small_stack :
  switch_sp 0x20000000 64 = switch_guard 0x20000000 + 32 ∧
  switch_guard 0x20000004 + 32 > 0x20000004 + 64.
Proof. by vm_compute. Qed.

(** A fiber without guard gets that of the stack that it switched to and left. *)
Lemma switch_leaves_guard :
  match (guard_all (H := debug_config) (H0 := cortex) [0];; stack_switch (H := debug_config) (H0 := cortex) 0x20001000 128 (λ _, mret tt)) eight with
  | Ok (_, s) => m_guard s = 0x20001020 ∧ m_base (dev s) 5 * 32 = 0x20001020
  | Fault _ => False
  end.
Proof. by vm_compute. Qed.
