(* ===== verification/Perf.v ===== *)
(** * The performance log (libzth/perf.h, src/perf.cpp)

    Events are put into a buffer, which the fiber of [PerfFiber] writes to a VCD file
    every now and then.  Text is a list of bytes.  [writes] are the outcomes of the
    calls of [fprintf] to come: an error code, or success when there are no more.
    Names and log lines are copies on the heap, [strings], which are released after
    they were written. *)

From stdpp Require Import base gmap list strings pretty.
From S2P Require Import Prelude Time Fiber.

Set Default Proof Using "Type".
#[local] Open Scope Z_scope.

Definition EIO : Z := 5.

(** ** Text *)

Definition text (s : string) : list Z := (λ a, Z.of_N (Ascii.N_of_ascii a)) <$> String.list_ascii_of_string s.

(** Decimal digits, with [%09u] as well; [%02x]. *)
Definition dec (n : Z) : list Z := text (pretty n).
Definition pad (n : nat) (l : list Z) : list Z := replicate (n - length l) 48 ++ l.
Definition hex_digit (n : Z) : Z := if n <? 10 then 48 + n else 87 + n.
Definition hex2 (c : Z) : list Z := [hex_digit (c / 16); hex_digit (c mod 16)].

Definition printable (c : Z) : bool := negb ((c <? 33) || (126 <? c)).

(** ** Data *)

Inductive payload :=
| Nothing
| FiberName (str : ptr)
| FiberState (st : Z)
| Log (str : ptr)
| Marker (c_str : option (list Z)).

Record PerfEvent := mkEvent { t : Timestamp; fiber : Z; type : payload }.

(** [Config::PerfEventBufferSize], for which the buffer has room from the start on, and
    [PerfEventBufferThresholdToTriggerVCDWrite]. *)
Definition PerfEventBufferSize : nat := 128.
Definition PerfEventBufferThresholdToTriggerVCDWrite : nat := PerfEventBufferSize / 2.

(** The fiber of [PerfFiber], with its id, when it exists; id and state of the fiber
    that runs; what [Timestamp::now()] gives; the files while they are open, and the
    VCD file after it was closed; how many events the array of the buffer can hold. *)
Record Perf := mkPerf {
  eventBuffer : list PerfEvent;
  strings : gmap addr (list Z);
  perfFiber : option (Z * Fiber.Fiber);
  currentFiber : option (Z * Z);
  now : Timestamp;
  m_vcd : option (list Z);
  m_vcdd : option (list Z);
  m_vcdIds : gmap Z (list Z);
  writes : list (option Z);
  vcd_file : option (list Z);
  capacity : nat
}.

Definition with_buffer (b : list PerfEvent) (s : Perf) : Perf :=
  mkPerf b (strings s) (perfFiber s) (currentFiber s) (now s) (m_vcd s) (m_vcdd s) (m_vcdIds s) (writes s) (vcd_file s) (capacity s).
Definition with_strings (m : gmap addr (list Z)) (s : Perf) : Perf :=
  mkPerf (eventBuffer s) m (perfFiber s) (currentFiber s) (now s) (m_vcd s) (m_vcdd s) (m_vcdIds s) (writes s) (vcd_file s) (capacity s).
Definition with_fiber (f : option (Z * Fiber.Fiber)) (s : Perf) : Perf :=
  mkPerf (eventBuffer s) (strings s) f (currentFiber s) (now s) (m_vcd s) (m_vcdd s) (m_vcdIds s) (writes s) (vcd_file s) (capacity s).
Definition with_files (a b : option (list Z)) (w : list (option Z)) (s : Perf) : Perf :=
  mkPerf (eventBuffer s) (strings s) (perfFiber s) (currentFiber s) (now s) a b (m_vcdIds s) w (vcd_file s) (capacity s).
Definition with_ids (i : gmap Z (list Z)) (s : Perf) : Perf :=
  mkPerf (eventBuffer s) (strings s) (perfFiber s) (currentFiber s) (now s) (m_vcd s) (m_vcdd s) i (writes s) (vcd_file s) (capacity s).

Definition size (s : Perf) : nat := length (eventBuffer s).

(** A vector that is full gets a larger array, here twice as large. *)
Definition grown (s : Perf) : nat := if (size s <? capacity s)%nat then capacity s else (2 * capacity s)%nat.
Definition push_back (e : PerfEvent) : M Perf unit := modify (λ s,
  mkPerf (eventBuffer s ++ [e]) (strings s) (perfFiber s) (currentFiber s) (now s) (m_vcd s) (m_vcdd s) (m_vcdIds s) (writes s)
    (vcd_file s) (grown s)).

(** While there is room, the array stays what it is. *)
Lemma push_back_room e s : (size s < capacity s)%nat → push_back e s = Ok (tt, with_buffer (eventBuffer s ++ [e]) s).
Proof. intros L. unfold push_back, modify, grown. by rewrite (proj2 (Nat.ltb_lt _ _) L). Qed.

(** ** Events *)

(** The constructors of [PerfEvent]; [ok] is whether the copy could be made. *)
Inductive request :=
| NewName (id : Z) (name : list Z) (ok : bool)
| NewState (id st : Z) (at_ : Timestamp)
| NewLog (id : Z) (line : list Z) (at_ : Timestamp) (ok : bool)
| NewMarker (id : Z) (marker : option (list Z)) (at_ : Timestamp).

Definition strdup (l : list Z) (ok : bool) : M Perf ptr := λ s,
  if ok then let a := fresh (dom (strings s)) in Ok (Some a, with_strings (<[a:=l]> (strings s)) s) else Ok (nullptr, s).

Definition construct (r : request) : M Perf PerfEvent :=
  match r with
  | NewName id name ok => p ← strdup name ok; mret (mkEvent (mkTs 0 0) id (FiberName p))
  | NewState id st at_ => mret (mkEvent at_ id (FiberState st))
  | NewLog id line at_ ok => p ← strdup line ok; mret (mkEvent at_ id (Log p))
  | NewMarker id m at_ => mret (mkEvent at_ id (Marker m))
  end.

Definition free (p : ptr) : M Perf unit := λ s,
  match p with
  | None => Ok (tt, s)
  | Some a => match strings s !! a with
              | Some _ => Ok (tt, with_strings (delete a (strings s)) s)
              | None => Fault NullDeref
              end
  end.

Definition release (e : PerfEvent) : M Perf unit :=
  match type e with FiberName p | Log p => free p | _ => mret tt end.

Fixpoint release_all (l : list PerfEvent) : M Perf unit :=
  match l with [] => mret tt | e :: l => release e;; release_all l end.

(** A string on the heap, and its characters; the one after the last is 0. *)
Definition string_at (p : addr) : M Perf (list Z) := λ s,
  match strings s !! p with Some l => Ok (l, s) | None => Fault NullDeref end.
Definition char_at (l : list Z) (i : nat) : M Perf Z :=
  match l !! i with
  | Some c => mret c
  | None => if (i =? length l)%nat then mret 0 else fail NullDeref
  end.

(** ** Identifiers of fibers *)

(** The digits of the identifier, written backwards into a buffer in which [pos]
    places are left. *)
Fixpoint vcd_digits (fuel pos : nat) (id : Z) (acc : list Z) : M Perf (list Z) :=
  match fuel, pos with
  | O, _ => fail OutOfFuel
  | _, O => fail NullDeref
  | S n, S pos =>
      let acc := (id mod 93 + 34) :: acc in
      let id := id / 93 in
      if id =? 0 then mret acc else vcd_digits n pos id acc
  end.

Definition buf_size : nat := 16.

Definition vcdId (f : Z) : M Perf (list Z) :=
  ids ← gets m_vcdIds;
  match ids !! f with
  | Some i => mret i
  | None =>
      i ← vcd_digits buf_size (buf_size - 1) f [];
      modify (λ s, with_ids (<[f:=i]> (m_vcdIds s)) s);; mret i
  end.

Definition vcdIdRelease (f : Z) : M Perf unit := modify (λ s, with_ids (delete f (m_vcdIds s)) s).

(** ** Writing the events *)

Inductive file := Vcd | Vcdd.

(** [Some] error code when it fails. *)
Definition fprintf (f : file) (l : list Z) : M Perf (option Z) := λ s,
  match writes s with
  | Some e :: w => Ok (Some e, with_files (m_vcd s) (m_vcdd s) w s)
  | _ => Ok (None, match f with
                   | Vcd => with_files ((λ x, x ++ l) <$> m_vcd s) (m_vcdd s) (tail (writes s)) s
                   | Vcdd => with_files (m_vcd s) ((λ x, x ++ l) <$> m_vcdd s) (tail (writes s)) s
                   end)
  end.

(** Goes on when there was no error. *)
Definition unless_error (a b : M Perf (option Z)) : M Perf (option Z) :=
  r ← a; match r with Some e => mret (Some e) | None => b end.

Definition time_of (e : PerfEvent) (startTime : Timestamp) : TimeInterval := timeTo startTime (t e).

(** [#%s%09u] and a new line. *)
Definition time_text (d : TimeInterval) : list Z := text "#" ++ dec (sec d) ++ pad 9 (dec (nsec d)) ++ [10].

Definition sanitize (c : Z) : Z := if printable c then c else 95.

Definition name_text (id f : Z) (i : list Z) (name : list Z) : list Z :=
  text "$var wire 1 " ++ i ++ text " \#" ++ dec f ++ text "_" ++ name ++ text " $end" ++ [10] ++
  text "$var real 0 " ++ i ++ text "! \#" ++ dec f ++ text "_" ++ name ++ text "/log $end" ++ [10].

Definition no_name_text (f : Z) (i : list Z) : list Z :=
  text "$var wire 1 " ++ i ++ text " \#" ++ dec f ++ text "_Fiber $end" ++ [10] ++
  text "$var real 0 " ++ i ++ text "! \#" ++ dec f ++ text "_Fiber_log $end" ++ [10].

Definition process_name (f : Z) (str : ptr) : M Perf (option Z) :=
  match str with
  | Some p =>
      l ← string_at p;
      modify (λ s, with_strings (<[p:=sanitize <$> l]> (strings s)) s);;
      i ← vcdId f; l ← string_at p;
      fprintf Vcd (name_text f f i l)
  | None => i ← vcdId f; fprintf Vcd (no_name_text f i)
  end.

(** The states of a fiber, as the enumeration counts them. *)
Definition state_num (s : State) : Z :=
  match s with Uninitialized => 0 | New => 1 | Ready => 2 | Running => 3 | Waiting => 4 | Suspended => 5 | Dead => 6 end.

Definition state_char (st : Z) : Z * bool :=
  if st =? state_num New then (76, false)
  else if st =? state_num Ready then (48, false)
  else if st =? state_num Running then (49, false)
  else if st =? state_num Waiting then (87, false)
  else if st =? state_num Suspended then (90, false)
  else if st =? state_num Dead then (88, false)
  else (45, true).

Definition process_state (d : TimeInterval) (f st : Z) : M Perf (option Z) :=
  let '(x, doCleanup) := state_char st in
  i ← vcdId f;
  unless_error (fprintf Vcdd (time_text d ++ [x] ++ i ++ [10]))
    (when doCleanup (vcdIdRelease f);; mret None).

(** The loop over a log line from [chunkEnd]; the chunk of [len] characters from
    [chunkStart] was not written yet.  Gives where the last chunk starts. *)
Fixpoint log_chunks (fuel : nat) (l : list Z) (chunkStart chunkEnd len : nat) : M Perf (nat + Z) :=
  match fuel with
  | O => fail OutOfFuel
  | S n =>
      c1 ← char_at l (S chunkEnd);
      if c1 =? 0 then mret (inl chunkStart)
      else
        c ← char_at l chunkEnd;
        if printable c then log_chunks n l chunkStart (S chunkEnd) (S len)
        else
          r ← fprintf Vcdd (take len (drop chunkStart l) ++ text "\x" ++ hex2 c);
          match r with Some e => mret (inr e) | None => log_chunks n l (S chunkEnd) (S chunkEnd) 0 end
  end.

Definition process_line (d : TimeInterval) (f : Z) (l : list Z) : M Perf (option Z) :=
  unless_error (fprintf Vcdd (time_text d ++ text "s"))
    (r ← log_chunks (S (length l)) l 0 0 0;
     match r with
     | inr e => mret (Some e)
     | inl k => i ← vcdId f; fprintf Vcdd (drop k l ++ text " " ++ i ++ text "!" ++ [10])
     end).

Definition process_event (startTime : Timestamp) (e : PerfEvent) : M Perf (option Z) :=
  let d := time_of e startTime in
  match type e with
  | Nothing => mret None
  | FiberName p => process_name (fiber e) p
  | FiberState st => process_state d (fiber e) st
  | Log None | Marker None => mret None
  | Log (Some p) => l ← string_at p; process_line d (fiber e) l
  | Marker (Some l) => process_line d (fiber e) l
  end.

Fixpoint process_events (startTime : Timestamp) (l : list PerfEvent) : M Perf (option Z) :=
  match l with
  | [] => mret None
  | e :: l => unless_error (process_event startTime e) (process_events startTime l)
  end.

Definition is_open (f : option (list Z)) : bool := match f with Some _ => true | None => false end.

(** The error code. *)
Definition processEventBuffer (startTime : Timestamp) : M Perf Z :=
  eb ← gets eventBuffer;
  s ← get;
  r ← (if negb (is_open (m_vcdd s)) || negb (is_open (m_vcd s)) then mret (Some EAGAIN)
       else
         r ← process_events startTime eb;
         mret (match r with Some e => Some (if e =? 0 then EIO else e) | None => None end));
  release_all eb;;
  modify (with_buffer []);;
  mret (default 0 r).

(** ** The buffer *)

Section Buffer.
Context `{Config} (startTime : Timestamp).

(** [m_worker->resume(f)]: what it means for the queues is in Worker.v; here, that
    the new state of the fiber is logged, by [event]. *)
Definition worker_resume (event : request → M Perf unit) : M Perf unit :=
  s ← get;
  match perfFiber s with
  | Some (id, f) =>
      if negb (state_eqb (state f) Suspended) then mret tt
      else
        let f' := Fiber.resume f in
        modify (with_fiber (Some (id, f')));;
        when (negb (state_eqb (state f') (state f))) (event (NewState id (state_num (state f')) (now s)))
  | None => mret tt
  end.

(** Room for three events: as if the worker switched to [f] and back. *)
Definition emergency (id : Z) (f : Fiber.Fiber) (cid cst : Z) : M Perf unit :=
  s ← get;
  push_back (mkEvent (now s) id (Marker (Some (text "Emerg flush"))));;
  push_back (mkEvent (now s) cid (FiberState (state_num Ready)));;
  push_back (mkEvent (now s) id (FiberState (state_num Running)));;
  processEventBuffer startTime;;
  push_back (mkEvent (now s) id (FiberState (state_num (state f))));;
  push_back (mkEvent (now s) cid (FiberState cst)).

Definition flushEventBuffer (event : request → M Perf unit) : M Perf unit :=
  s ← get;
  let spareRoom := (capacity s - size s)%nat in
  match perfFiber s with
  | None => processEventBuffer startTime;; mret tt
  | Some (id, f) =>
      if bool_decide (Some id = fst <$> currentFiber s) || (spareRoom <? 3)%nat then processEventBuffer startTime;; mret tt
      else if (3 <? spareRoom)%nat then worker_resume event
      else
        match currentFiber s with
        | None => processEventBuffer startTime;; mret tt
        | Some (cid, cst) => emergency id f cid cst
        end
  end.

(** An event that is logged while the buffer is flushed may flush it too. *)
Fixpoint perf_event (fuel : nat) (r : request) : M Perf unit :=
  match fuel with
  | O => fail OutOfFuel
  | S n =>
      e ← construct r;
      push_back e;;
      s ← get;
      zth_assert (size s <=? PerfEventBufferSize)%nat;;
      if (PerfEventBufferThresholdToTriggerVCDWrite <=? size s)%nat then flushEventBuffer (perf_event n) else mret tt
  end.

(** Without a buffer, events are dropped. *)
Definition zth_perf_event (enabled : bool) (fuel : nat) (r : request) : M Perf unit :=
  if enabled then perf_event fuel r else mret tt.
End Buffer.

(** ** The file *)

(** The name of the file, from what [snprintf] returns and what it wrote. *)
Definition vcdFilename (res : Z) (written : list Z) : list Z := if res <=? 0 then written else text "zth.vcd".

Definition header (date : option (list Z)) (banner : list Z) : list (list Z) :=
  match date with Some d => [text "$date " ++ d ++ text "$end" ++ [10]] | None => [] end ++
  [text "$version " ++ banner ++ text " $end" ++ [10] ++ text "$timescale 1 ns $end" ++ [10] ++
   text "$scope module top $end" ++ [10]].

Fixpoint write_all (l : list (list Z)) : M Perf (option Z) :=
  match l with [] => mret None | x :: l => unless_error (fprintf Vcd x) (write_all l) end.

(** [startVCD]; [vcd] and [vcdd] are whether the files could be opened, [errno] what
    the first left. *)
Definition startVCD (vcd vcdd : bool) (errno : Z) (date : option (list Z)) (banner : list Z) : M Perf Z :=
  if negb vcd then modify (λ s, with_files None None (writes s) s);; mret (if errno =? 0 then EIO else errno)
  else if negb vcdd then modify (λ s, with_files None None (writes s) s);; mret EIO
  else
    modify (λ s, with_files (Some []) (Some []) (writes s) s);;
    r ← write_all (header date banner);
    match r with
    | None => mret 0
    | Some _ => modify (λ s, with_files None None (writes s) s);; mret EIO
    end.

(** The copy of the data in blocks. *)
Definition block : nat := 1024.

Fixpoint copy_blocks (fuel : nat) (rest : list Z) : M Perf (option Z) :=
  match fuel with
  | O => fail OutOfFuel
  | S n =>
      match rest with
      | [] => mret None
      | _ => unless_error (fprintf Vcd (take block rest)) (copy_blocks n (drop block rest))
      end
  end.

Definition close_files : M Perf unit :=
  modify (λ s, mkPerf (eventBuffer s) (strings s) (perfFiber s) (currentFiber s) (now s) None None (m_vcdIds s) (writes s)
                 (match m_vcd s with Some x => Some x | None => vcd_file s end) (capacity s)).

(** [read_ok]: the temporary file could be read. *)
Definition finalizeVCD (read_ok : bool) : M Perf Z :=
  s ← get;
  match m_vcd s, m_vcdd s with
  | Some _, Some d =>
      r ← unless_error (fprintf Vcd (text "$upscope $end" ++ [10] ++ text "$enddefinitions $end" ++ [10]))
            (copy_blocks (S (length d)) d);
      match r with
      | Some _ => mret EIO
      | None => if negb read_ok then mret EIO else close_files;; mret 0
      end
  | _, _ => mret 0
  end.

(** One turn of the loop of [entry]; [false] when it returns. *)
Definition worker_suspend `{Config} (event : request → M Perf unit) : M Perf unit :=
  s ← get;
  match perfFiber s with
  | Some (id, f) =>
      let f' := Fiber.suspend f in
      modify (with_fiber (Some (id, f')));;
      when (negb (state_eqb (state f') (state f))) (event (NewState id (state_num (state f')) (now s)))
  | None => mret tt
  end.

Definition entry_turn `{Config} (startTime : Timestamp) (fuel : nat) : M Perf bool :=
  r ← processEventBuffer startTime;
  if r =? 0 then worker_suspend (perf_event startTime fuel);; mret true else mret false.

(** The destructor. *)
Definition destroy (startTime : Timestamp) (read_ok : bool) : M Perf unit :=
  r ← processEventBuffer startTime;
  (if r =? 0 then finalizeVCD read_ok;; mret tt else mret tt);;
  close_files;;
  eb ← gets eventBuffer;
  release_all eb;;
  modify (with_buffer []).

(** ** Backtraces *)

Section Backtrace.
(** The frames that [unw_step] finds: their addresses, and whether they are of
    [context_entry].  [bt] are the ones so far. *)
Fixpoint unwind (frames : list (Z * bool)) (depth maxDepth : nat) (bt : list Z) : list Z * nat :=
  match frames with
  | [] => (bt, depth)
  | (ip, stop) :: frames =>
      if (depth <? maxDepth)%nat then
        let bt := bt ++ [ip] in if stop : bool then (bt, depth) else unwind frames depth maxDepth bt
      else (bt, depth)
  end.

(** [m_bt] and [m_truncated]. *)
Definition backtrace (skip maxDepth : nat) (frames : list (Z * bool)) : list Z * bool :=
  let '(bt, depth) := unwind (drop skip frames) 0 maxDepth [] in (bt, (depth =? maxDepth)%nat).

(** What [printPartial] prints. *)
Definition printPartial (bt : list Z) (start : nat) (end_ : Z) : list Z :=
  match bt with
  | [] => []
  | _ =>
      if (end_ <? 0) && (Z.of_nat (length bt) <? - end_) then []
      else
        let e := Z.to_nat (if end_ <? 0 then Z.of_nat (length bt) + end_ else end_) in
        if (e <? start)%nat then [] else take (e - start + 1) (drop start bt)
  end.

(** The loop of [printDelta], from [common] on. *)
Fixpoint common_base (fuel : nat) (this other : list Z) (common : nat) : nat :=
  match fuel with
  | O => common
  | S n =>
      if (common <? Nat.min (length this) (length other))%nat &&
         bool_decide (this !! (length this - 1 - common)%nat = other !! (length other - 1 - common)%nat)
      then common_base n this other (S common) else common
  end.

(** A backtrace that was made at [m_t0] in a fiber. *)
Record Backtrace := mkBacktrace { m_t0 : Timestamp; m_fiberId : Z; m_bt : list Z; m_truncated : bool }.

(** [print]. *)
Definition print (b : Backtrace) : list Z :=
  match m_bt b with [] => [] | bt => printPartial bt 0 (Z.of_nat (length bt) - 1) end.

(** What is printed: both backtraces, or what only the first has, what only the second
    has, and what they have in common. *)
Inductive printed := FromTo (from to : list Z) | Delta (from to common : list Z).

Definition print_delta (this other : Backtrace) : printed :=
  if negb (m_fiberId other =? m_fiberId this) || m_truncated other || m_truncated this then FromTo (print other) (print this)
  else
    let a := m_bt this in
    let b := m_bt other in
    let common := common_base (Nat.min (length a) (length b)) a b 0 in
    Delta (printPartial b 0 (- Z.of_nat common - 1)) (printPartial a 0 (- Z.of_nat common - 1))
      (if (0 <? common)%nat then printPartial b (length b - common) (-1) else []).

(** The earlier one is printed first. *)
Definition printDelta (this other : Backtrace) : printed :=
  if ts_gt (m_t0 other) (m_t0 this) then print_delta other this else print_delta this other.
End Backtrace.

(** ** Identifiers *)

(** The identifier, of at most [n] digits, and the number that it stands for. *)
Fixpoint ident (n : nat) (id : Z) : list Z :=
  match n with
  | O => []
  | S n => (if id / 93 =? 0 then [] else ident n (id / 93)) ++ [id mod 93 + 34]
  end.
Definition ident_of (f : Z) : list Z := ident 10 f.
Definition ident_value (l : list Z) : Z := foldl (λ a c, a * 93 + (c - 34)) 0 l.

Definition u64_id (f : Z) : Prop := 0 <= f < 2 ^ 64.

Lemma ident_roundtrip n id : 0 <= id < 93 ^ Z.of_nat n → ident_value (ident n id) = id.
Proof.
  revert id. induction n as [|n IH]; intros id; [intros B; change (93 ^ Z.of_nat 0) with 1 in B; unfold ident_value; simpl; lia|].
  rewrite Nat2Z.inj_succ, Z.pow_succ_r by lia. intros B. cbn [ident]. unfold ident_value. rewrite foldl_app. cbn [foldl].
  fold (ident_value (if id / 93 =? 0 then [] else ident n (id / 93))).
  assert (ident_value (if id / 93 =? 0 then [] else ident n (id / 93)) = id / 93) as ->.
  { destruct (id / 93 =? 0) eqn:E; [apply Z.eqb_eq in E; by rewrite E|].
    apply IH. split; [apply Z.div_pos; lia|]. apply Z.div_lt_upper_bound; lia. }
  pose proof (Z.div_mod id 93). lia.
Qed.

Lemma ident_chars n id : Forall (λ c, 34 <= c <= 126) (ident n id).
Proof.
  revert id. induction n as [|n IH]; intros id; [constructor|]. cbn [ident]. apply Forall_app. split.
  - by destruct (id / 93 =? 0).
  - constructor; [|constructor]. pose proof (Z.mod_pos_bound id 93). lia.
Qed.

Lemma ident_length n id : (length (ident n id) <= n)%nat.
Proof.
  revert id. induction n as [|n IH]; intros id; [done|]. cbn [ident]. rewrite length_app. simpl.
  specialize (IH (id / 93)). destruct (id / 93 =? 0); simpl; lia.
Qed.

Lemma vcd_digits_run n fuel pos id acc s :
  (1 <= n)%nat → 0 <= id < 93 ^ Z.of_nat n → (n <= fuel)%nat → (n <= pos)%nat →
  vcd_digits fuel pos id acc s = Ok (ident n id ++ acc, s).
Proof.
  revert fuel pos id acc. induction n as [|n IH]; intros fuel pos id acc; [lia|].
  rewrite Nat2Z.inj_succ, Z.pow_succ_r by lia. intros _ B Lf Lp. destruct fuel as [|fuel]; [lia|]. destruct pos as [|pos]; [lia|].
  cbn [vcd_digits ident]. destruct (id / 93 =? 0) eqn:E; [done|]. apply Z.eqb_neq in E.
  assert (0 <= id / 93 < 93 ^ Z.of_nat n) as B'.
  { split; [apply Z.div_pos; lia|]. apply Z.div_lt_upper_bound; lia. }
  rewrite IH; [by rewrite <-app_assoc| |done|lia|lia].
  destruct n; [|lia]. change (93 ^ Z.of_nat 0) with 1 in B'. lia.
Qed.

Lemma u64_ident f : u64_id f → 0 <= f < 93 ^ Z.of_nat 10.
Proof. unfold u64_id. assert (2 ^ 64 < 93 ^ Z.of_nat 10) by by vm_compute. lia. Qed.

(** The map only holds identifiers that were generated. *)
Definition ids_ok (s : Perf) : Prop := map_Forall (λ f i, u64_id f → i = ident_of f) (m_vcdIds s).

Lemma vcdId_run f s : ids_ok s → u64_id f → ∃ ids,
  vcdId f s = Ok (ident_of f, with_ids ids s) ∧ ids_ok (with_ids ids s).
Proof.
  intros I U. unfold vcdId. erewrite bind_Ok by reflexivity. destruct (m_vcdIds s !! f) as [i|] eqn:E.
  - exists (m_vcdIds s). rewrite (I f i E U). split; [by destruct s|by destruct s].
  - exists (<[f:=ident_of f]> (m_vcdIds s)).
    rewrite (bind_Ok _ _ _ _ _ (vcd_digits_run 10 buf_size (buf_size - 1) f [] s ltac:(lia) (u64_ident f U)
      ltac:(unfold buf_size; lia) ltac:(unfold buf_size; lia))), app_nil_r.
    split; [done|]. apply map_Forall_insert_2; [done|exact I].
Qed.

(** ** What is written *)

Definition esc (c : Z) : list Z := if printable c then [c] else text "\x" ++ hex2 c.

(** A log line: the characters are escaped, but not the last one. *)
Fixpoint line_text (l : list Z) : list Z :=
  match l with [] => [] | [c] => [c] | c :: l => esc c ++ line_text l end.

Definition content (m : gmap addr (list Z)) (p : addr) : list Z := default [] (m !! p).

Definition line_vcdd (d : TimeInterval) (f : Z) (l : list Z) : list Z :=
  time_text d ++ text "s" ++ line_text l ++ text " " ++ ident_of f ++ text "!" ++ [10].

(** What an event adds to the declarations and to the data. *)
Definition event_vcd (m : gmap addr (list Z)) (e : PerfEvent) : list Z :=
  match type e with
  | FiberName (Some p) => name_text (fiber e) (fiber e) (ident_of (fiber e)) (sanitize <$> content m p)
  | FiberName None => no_name_text (fiber e) (ident_of (fiber e))
  | _ => []
  end.

Definition event_vcdd (startTime : Timestamp) (m : gmap addr (list Z)) (e : PerfEvent) : list Z :=
  let d := time_of e startTime in
  match type e with
  | FiberState st => time_text d ++ [(state_char st).1] ++ ident_of (fiber e) ++ [10]
  | Log (Some p) => line_vcdd d (fiber e) (content m p)
  | Marker (Some l) => line_vcdd d (fiber e) l
  | _ => []
  end.

Definition line_ok (l : list Z) : Prop := l ≠ [] ∧ Forall (λ c, c ≠ 0) l.

Definition event_ok (m : gmap addr (list Z)) (e : PerfEvent) : Prop :=
  u64_id (fiber e) ∧
  match type e with
  | FiberName (Some p) => ∃ l, m !! p = Some l
  | Log (Some p) => ∃ l, m !! p = Some l ∧ line_ok l
  | Marker (Some l) => line_ok l
  | _ => True
  end.

(** The strings that an event has. *)
Definition owned (e : PerfEvent) : list addr :=
  match type e with FiberName (Some p) | Log (Some p) => [p] | _ => [] end.

(** Only files and identifiers may differ, and the content of the strings in [ps]. *)
Record same (ps : list addr) (s s' : Perf) : Prop := {
  same_buffer : eventBuffer s' = eventBuffer s;
  same_fiber : perfFiber s' = perfFiber s;
  same_current : currentFiber s' = currentFiber s;
  same_now : now s' = now s;
  same_capacity : capacity s' = capacity s;
  same_open : is_open (m_vcd s') = is_open (m_vcd s) ∧ is_open (m_vcdd s') = is_open (m_vcdd s);
  same_dom : dom (strings s') = dom (strings s);
  same_strings p : p ∉ ps → strings s' !! p = strings s !! p
}.

Lemma same_refl ps s : same ps s s.
Proof. by constructor. Qed.

Lemma same_trans ps ps' s1 s2 s3 : same ps s1 s2 → same ps' s2 s3 → same (ps ++ ps') s1 s3.
Proof.
  intros [A1 A2 A3 A4 A0 [A5 A5'] A6 A7] [B1 B2 B3 B4 B0 [B5 B5'] B6 B7].
  constructor; try congruence; [split; congruence|].
  intros p N. rewrite B7, A7 by set_solver. done.
Qed.

Lemma same_mono ps ps' s s' : ps ⊆ ps' → same ps s s' → same ps' s s'.
Proof. intros Sub [A1 A2 A3 A4 A0 A5 A6 A7]. constructor; auto. Qed.

(** [m] writes [a] to the declarations and [b] to the data when no write fails. *)
Definition does (ps : list addr) (a b : list Z) (m : M Perf (option Z)) (s : Perf) : Prop :=
  ∃ r s', m s = Ok (r, s') ∧ same ps s s' ∧ (ids_ok s → ids_ok s') ∧
    (writes s = [] → r = None ∧ writes s' = [] ∧
       m_vcd s' = (λ x, x ++ a) <$> m_vcd s ∧ m_vcdd s' = (λ x, x ++ b) <$> m_vcdd s).

Lemma fmap_app_nil (o : option (list Z)) : (λ x, x ++ []) <$> o = o.
Proof. destruct o as [x|]; simpl; [by rewrite app_nil_r|done]. Qed.

Lemma fmap_app_app (a a' : list Z) (o : option (list Z)) :
  (λ x, x ++ a') <$> ((λ x, x ++ a) <$> o) = (λ x, x ++ (a ++ a')) <$> o.
Proof. destruct o as [x|]; simpl; [by rewrite app_assoc|done]. Qed.

Lemma does_nothing ps s : does ps [] [] (mret None) s.
Proof. exists None, s. rewrite !fmap_app_nil. split_and!; [done|apply same_refl|done|done]. Qed.

Lemma does_error ps a b (m m' : M Perf (option Z)) s : m s = m' s → does ps a b m s → does ps a b m' s.
Proof. intros E (r & s' & R & D). exists r, s'. by rewrite <-E. Qed.

Lemma does_fprintf ps f l s :
  does ps (match f with Vcd => l | Vcdd => [] end) (match f with Vcd => [] | Vcdd => l end) (fprintf f l) s.
Proof.
  unfold does, fprintf. destruct (writes s) as [|[e|] w] eqn:E; destruct f; eexists _, _;
    (split; [reflexivity|]); (split; [constructor; simpl; try done; split; by destruct (m_vcd s), (m_vcdd s)|]);
    rewrite ?fmap_app_nil; (split; [done|]); try done; intros _; by rewrite E.
Qed.

Lemma does_then ps ps1 ps2 a a' b b' m m' s :
  does ps1 a b m s → (∀ s', same ps1 s s' → (ids_ok s → ids_ok s') → does ps2 a' b' m' s') → ps1 ++ ps2 ⊆ ps →
  does ps (a ++ a') (b ++ b') (unless_error m m') s.
Proof.
  intros (r & s1 & R & Sm & I & W) D Sub. unfold unless_error. destruct r as [e|].
  - exists (Some e), s1. rewrite (bind_Ok _ _ _ _ _ R). split_and!; [done| |done|].
    + eapply same_mono; [|done]. set_solver.
    + intros Ws. by destruct (W Ws).
  - destruct (D s1 Sm I) as (r & s2 & R2 & S2 & I2 & W2). exists r, s2. rewrite (bind_Ok _ _ _ _ _ R). split_and!.
    + done.
    + eapply same_mono; [done|]. by eapply same_trans.
    + auto.
    + intros Ws. destruct (W Ws) as (_ & W1 & V1 & D1). destruct (W2 W1) as (-> & W3 & V2 & D2).
      rewrite V2, D2, V1, D1, !fmap_app_app. done.
Qed.

(** With the identifier of the fiber. *)
Lemma does_id ps a b f (k : list Z → M Perf (option Z)) s :
  ids_ok s → u64_id f → (∀ ids, ids_ok (with_ids ids s) → does ps a b (k (ident_of f)) (with_ids ids s)) →
  does ps a b (i ← vcdId f; k i) s.
Proof.
  intros I U D. destruct (vcdId_run f s I U) as (ids & R & I'). destruct (D ids I') as (r & s' & R' & [S1 S2 S3 S4 S0 S5 S6 S7] & I2 & W).
  exists r, s'. rewrite (bind_Ok _ _ _ _ _ R). split_and!; [done|by constructor|auto|done].
Qed.

Lemma line_text_cons c l : l ≠ [] → line_text (c :: l) = esc c ++ line_text l.
Proof. by destruct l. Qed.

Lemma char_at_in l i c (s : Perf) : l !! i = Some c → char_at l i s = Ok (c, s).
Proof. intros E. unfold char_at. by rewrite E. Qed.

Lemma char_at_end l (s : Perf) : char_at l (length l) s = Ok (0, s).
Proof. unfold char_at. by rewrite lookup_ge_None_2, Nat.eqb_refl. Qed.

(** The chunks of a line, and then [K] with the rest, write the escaped line. *)
Lemma does_chunks ps l rest fuel cs ce len (K : nat → M Perf (option Z)) s :
  Forall (λ c, c ≠ 0) l → (ce < length l)%nat → ce = (cs + len)%nat → (length l - ce <= fuel)%nat →
  (∀ k s', same [] s s' → (ids_ok s → ids_ok s') → does ps [] (drop k l ++ rest) (K k) s') →
  does ps [] (take len (drop cs l) ++ line_text (drop ce l) ++ rest)
    (r ← log_chunks fuel l cs ce len; match r with inr e => mret (Some e) | inl k => K k end) s.
Proof.
  intros Nz. revert cs ce len s. induction fuel as [|fuel IH]; intros cs ce len s Lt -> Lf HK; [lia|].
  destruct (lookup_lt_is_Some_2 l (cs + len)) as [c Ec]; [done|].
  pose proof (drop_S _ _ _ Ec) as Dr. cbn [log_chunks].
  destruct (decide (S (cs + len) = length l)) as [El|Nl].
  - apply (does_error _ _ _ (K cs)); [by rewrite bind_assoc, El, (bind_Ok _ _ _ _ _ (char_at_end l s))|].
    replace (take len (drop cs l) ++ line_text (drop (cs + len) l) ++ rest) with (drop cs l ++ rest).
    { apply HK; [apply same_refl|done]. }
    rewrite app_assoc. f_equal. rewrite Dr, (drop_ge l (S (cs + len))) by lia. simpl.
    rewrite <-(take_drop len (drop cs l)) at 1. by rewrite drop_drop, Dr, (drop_ge l (S (cs + len))) by lia.
  - destruct (lookup_lt_is_Some_2 l (S (cs + len))) as [c1 Ec1]; [lia|].
    assert (c1 =? 0 = false) as Z1.
    { apply Z.eqb_neq. rewrite Forall_lookup in Nz. by eapply Nz. }
    assert (drop (S (cs + len)) l ≠ []) as Ne.
    { intros E. apply (f_equal length) in E. rewrite length_drop in E. simpl in E. lia. }
    rewrite Dr, line_text_cons by done.
    apply (does_error _ _ _ (r ← (if printable c then log_chunks fuel l cs (S (cs + len)) (S len)
             else r ← fprintf Vcdd (take len (drop cs l) ++ text "\x" ++ hex2 c);
                  match r with Some e => mret (inr e) | None => log_chunks fuel l (S (cs + len)) (S (cs + len)) 0 end);
        match r with inr e => mret (Some e) | inl k => K k end)).
    { symmetry. rewrite bind_assoc, (bind_Ok _ _ _ _ _ (char_at_in l _ c1 s Ec1)), Z1.
      by rewrite bind_assoc, (bind_Ok _ _ _ _ _ (char_at_in l _ c s Ec)). }
    unfold esc. destruct (printable c) eqn:P.
    + replace (take len (drop cs l) ++ ([c] ++ line_text (drop (S (cs + len)) l)) ++ rest)
        with (take (S len) (drop cs l) ++ line_text (drop (S (cs + len)) l) ++ rest).
      { apply IH; [lia|lia|lia|done]. }
      rewrite (take_S_r _ _ c) by by rewrite lookup_drop. by rewrite <-!app_assoc.
    + set (w := take len (drop cs l) ++ text "\x" ++ hex2 c).
      eapply (does_error _ _ _ (unless_error (fprintf Vcdd w)
        (r ← log_chunks fuel l (S (cs + len)) (S (cs + len)) 0; match r with inr e => mret (Some e) | inl k => K k end))).
      { unfold unless_error, mbind, M_bind. by destruct (fprintf Vcdd w s) as [[[e|] s1]|]. }
      replace (take len (drop cs l) ++ ((text "\x" ++ hex2 c) ++ line_text (drop (S (cs + len)) l)) ++ rest)
        with (w ++ line_text (drop (S (cs + len)) l) ++ rest) by (unfold w; by rewrite <-!app_assoc).
      eapply (does_then ps [] ps []); [apply (does_fprintf [] Vcdd)| |set_solver].
      intros s' Sm I. apply (IH (S (cs + len)) (S (cs + len)) 0%nat); [lia|lia|lia|].
      intros k s2 Sm2 I2. apply HK; [|auto]. by eapply (same_trans [] []).
Qed.

Lemma does_line ps d f l s :
  line_ok l → ids_ok s → u64_id f → does ps [] (line_vcdd d f l) (process_line d f l) s.
Proof.
  intros [Ne Nz] I U. unfold process_line, line_vcdd. rewrite (app_assoc (time_text d)).
  eapply (does_then ps [] ps []); [apply (does_fprintf [] Vcdd)| |set_solver]. intros s1 S1 I1.
  apply (does_chunks ps l (text " " ++ ident_of f ++ text "!" ++ [10]) (S (length l)) 0 0 0);
    [done|destruct l; [done|simpl; lia]|done|lia|].
  intros k s2 S2 I2. apply does_id; [auto|done|]. intros ids I3. apply (does_fprintf ps Vcdd).
Qed.

Lemma does_event startTime e s :
  event_ok (strings s) e → ids_ok s →
  does (owned e) (event_vcd (strings s) e) (event_vcdd startTime (strings s) e) (process_event startTime e) s.
Proof.
  intros [U O] I. unfold process_event, event_vcd, event_vcdd, owned. destruct (type e) as [|[p|]|st|[p|]|[l|]].
  - apply does_nothing.
  - destruct O as [l El]. unfold process_name, content. rewrite El. simpl default.
    set (s1 := with_strings (<[p:=sanitize <$> l]> (strings s)) s).
    assert (string_at p s = Ok (l, s)) as R by (unfold string_at; by rewrite El).
    assert (does [p] (name_text (fiber e) (fiber e) (ident_of (fiber e)) (sanitize <$> l)) []
      (i ← vcdId (fiber e); l ← string_at p; fprintf Vcd (name_text (fiber e) (fiber e) i l)) s1) as D.
    { apply does_id; [exact I|done|]. intros ids _.
      eapply does_error; [|apply (does_fprintf [p] Vcd)]. symmetry. erewrite bind_Ok; [reflexivity|].
      unfold string_at, s1. simpl. by rewrite lookup_insert_eq. }
    destruct D as (r & s' & R' & [S1 S2 S3 S4 S0 S5 S6 S7] & I' & W). exists r, s'. split_and!.
    + rewrite (bind_Ok _ _ _ _ _ R). erewrite bind_Ok by reflexivity. exact R'.
    + constructor; try done.
      * rewrite S6. unfold s1. simpl. rewrite dom_insert_lookup_L; [done|by eexists].
      * intros q N. rewrite S7 by done. unfold s1. simpl. rewrite lookup_insert_ne by set_solver. done.
    + auto.
    + exact W.
  - apply does_id; [done|done|]. intros ids I'. apply (does_fprintf [] Vcd).
  - unfold process_state. destruct (state_char st) as [x b]. apply does_id; [done|done|]. intros ids I'. simpl fst.
    rewrite <-(app_nil_r (time_text _ ++ [x] ++ ident_of (fiber e) ++ [10])) at 1.
    eapply (does_then [] [] [] []); [apply (does_fprintf [] Vcdd)| |set_solver]. intros s2 S2 I2.
    destruct b; [|apply does_nothing]. unfold when, vcdIdRelease. eexists None, _. split; [reflexivity|].
    rewrite !fmap_app_nil. split_and!; [by constructor| |done]. intros I3. unfold ids_ok in *. simpl. by apply map_Forall_delete.
  - destruct O as (l & El & L). eapply does_error; [symmetry; apply bind_Ok; unfold string_at; by rewrite El|].
    unfold content. rewrite El. by apply does_line.
  - apply does_nothing.
  - by apply does_line.
  - apply does_nothing.
Qed.

(** ** The whole buffer *)

Definition owned_all (l : list PerfEvent) : list addr := concat (owned <$> l).

Lemma event_ok_ext m m' e : (∀ p, p ∈ owned e → m' !! p = m !! p) → event_ok m e → event_ok m' e.
Proof.
  unfold event_ok, owned. intros E [U O]. split; [done|].
  destruct (type e) as [|[p|]|st|[p|]|[l|]]; try done; by rewrite E by set_solver.
Qed.

Lemma event_text_ext startTime m m' e : (∀ p, p ∈ owned e → m' !! p = m !! p) →
  event_vcd m' e = event_vcd m e ∧ event_vcdd startTime m' e = event_vcdd startTime m e.
Proof.
  unfold event_vcd, event_vcdd, owned, content. intros E.
  destruct (type e) as [|[p|]|st|[p|]|[l|]]; try done; by rewrite E by set_solver.
Qed.

Lemma does_events startTime l s :
  Forall (event_ok (strings s)) l → NoDup (owned_all l) → ids_ok s →
  does (owned_all l) (concat (event_vcd (strings s) <$> l)) (concat (event_vcdd startTime (strings s) <$> l))
    (process_events startTime l) s.
Proof.
  revert s. induction l as [|e l IH]; intros s; [intros; apply does_nothing|].
  intros [Oe Ol]%Forall_cons. unfold owned_all. rewrite !fmap_cons. cbn [concat]. intros [_ [Dj Nd]]%NoDup_app I.
  eapply does_then; [by apply does_event| |done]. intros s1 S1 I1.
  assert (∀ e', e' ∈ l → ∀ p, p ∈ owned e' → strings s1 !! p = strings s !! p) as Eq.
  { intros e' He p Hp. apply (same_strings _ _ _ S1). intros Hp'. eapply Dj; [exact Hp'|].
    apply list_elem_of_In, in_concat. exists (owned e'). split; apply list_elem_of_In; [|done].
    apply list_elem_of_fmap. eauto. }
  assert (concat (event_vcd (strings s1) <$> l) = concat (event_vcd (strings s) <$> l)) as <-.
  { f_equal. apply list_fmap_ext. intros i e' Le. apply event_text_ext with (startTime := startTime), Eq. by eapply list_elem_of_lookup_2. }
  assert (concat (event_vcdd startTime (strings s1) <$> l) = concat (event_vcdd startTime (strings s) <$> l)) as <-.
  { f_equal. apply list_fmap_ext. intros i e' Le. apply event_text_ext, Eq. by eapply list_elem_of_lookup_2. }
  apply IH; [|done|auto]. rewrite Forall_forall in Ol |- *. intros e' He. eapply event_ok_ext; [by apply Eq|by apply Ol].
Qed.

Lemma release_all_run l s :
  NoDup (owned_all l) → list_to_set (owned_all l) ⊆ dom (strings s) →
  ∃ m, release_all l s = Ok (tt, with_strings m s) ∧ dom m = dom (strings s) ∖ list_to_set (owned_all l).
Proof.
  revert s. induction l as [|e l IH]; intros s; unfold owned_all; rewrite ?fmap_cons; cbn [concat release_all].
  - intros _ _. exists (strings s). split; [by destruct s|set_solver].
  - intros [Ne [Dj Nd]]%NoDup_app Sub.
    assert (∃ m, release e s = Ok (tt, with_strings m s) ∧ dom m = dom (strings s) ∖ list_to_set (owned e)) as (m & R & D).
    { unfold release, owned in *. destruct (type e) as [|[p|]|st|[p|]|c]; simpl in *;
        try (exists (strings s); split; [by destruct s|set_solver]).
      all: assert (∃ l, strings s !! p = Some l) as [x E] by (apply elem_of_dom; set_solver); rewrite E;
        eexists; (split; [reflexivity|]); rewrite dom_delete_L; set_solver. }
    destruct (IH (with_strings m s)) as (m' & R' & D'); [done|simpl; rewrite D; set_solver|].
    exists m'. rewrite (bind_Ok _ _ _ _ _ R). split; [exact R'|]. rewrite D'. simpl. rewrite D, list_to_set_app_L. set_solver.
Qed.

(** Every string belongs to one event in the buffer, and the events can be written. *)
Record held (s : Perf) : Prop := {
  held_nodup : NoDup (owned_all (eventBuffer s));
  held_strings : dom (strings s) = list_to_set (owned_all (eventBuffer s));
  held_events : Forall (event_ok (strings s)) (eventBuffer s);
  held_ids : ids_ok s
}.

(** What the buffer says is written, the strings are gone, and the buffer is empty. *)
Lemma process_run startTime s :
  held s → ∃ r s', processEventBuffer startTime s = Ok (r, s') ∧
    eventBuffer s' = [] ∧ strings s' = ∅ ∧ ids_ok s' ∧
    perfFiber s' = perfFiber s ∧ currentFiber s' = currentFiber s ∧ now s' = now s ∧ capacity s' = capacity s ∧
    (writes s = [] → is_open (m_vcd s) = true → is_open (m_vcdd s) = true →
       r = 0 ∧ m_vcd s' = (λ x, x ++ concat (event_vcd (strings s) <$> eventBuffer s)) <$> m_vcd s ∧
       m_vcdd s' = (λ x, x ++ concat (event_vcdd startTime (strings s) <$> eventBuffer s)) <$> m_vcdd s).
Proof.
  intros [Nd Ds Ev I]. unfold processEventBuffer. erewrite bind_Ok by reflexivity. erewrite bind_Ok by reflexivity.
  assert (∀ r (s1 : Perf), same (owned_all (eventBuffer s)) s s1 → ids_ok s1 →
    ∃ s', (release_all (eventBuffer s);; modify (with_buffer []);; mret (default 0 r)) s1 = Ok (default 0 r, s') ∧
      s' = with_buffer [] (with_strings ∅ s1)) as Fin.
  { intros r s1 S1 I1. destruct (release_all_run (eventBuffer s) s1) as (m & R & D);
      [done|by rewrite (same_dom _ _ _ S1), Ds|].
    assert (m = ∅) as ->.
    { apply dom_empty_inv_L. rewrite D, (same_dom _ _ _ S1), Ds. set_solver. }
    rewrite (bind_Ok _ _ _ _ _ R). eexists. split; [reflexivity|done]. }
  destruct (is_open (m_vcdd s)) eqn:Od; [destruct (is_open (m_vcd s)) eqn:Ov|]; simpl.
  2: { rewrite bind_ret. destruct (Fin (Some EAGAIN) s (same_refl _ _) I) as (s' & R & ->).
       eexists _, _. split; [exact R|]. simpl. split_and!; done. }
  2: { rewrite bind_ret. destruct (Fin (Some EAGAIN) s (same_refl _ _) I) as (s' & R & ->).
       eexists _, _. split; [exact R|]. simpl. split_and!; done. }
  destruct (does_events startTime (eventBuffer s) s Ev Nd I) as (r & s1 & R & S1 & I1 & W).
  rewrite bind_assoc, (bind_Ok _ _ _ _ _ R), bind_ret.
  destruct (Fin (match r with Some e => Some (if e =? 0 then EIO else e) | None => None end) s1 S1 (I1 I)) as (s' & R' & ->).
  eexists _, _. split; [exact R'|]. simpl. split_and!; [done|done|exact (I1 I)|apply S1|apply S1|apply S1|apply S1|].
  intros Ws _ _. destruct (W Ws) as (-> & _ & V & D). by rewrite V, D.
Qed.

(** ** The size of the buffer *)

Definition request_ok (r : request) : Prop :=
  match r with
  | NewName id _ _ | NewState id _ _ => u64_id id
  | NewLog id l _ _ => u64_id id ∧ line_ok l
  | NewMarker id m _ => u64_id id ∧ match m with Some l => line_ok l | None => True end
  end.

(** The ids of the fibers that the buffer logs itself. *)
Definition env_ok (s : Perf) : Prop :=
  match perfFiber s with Some (id, _) => u64_id id | None => True end ∧
  match currentFiber s with Some (id, _) => u64_id id | None => True end.

Definition not_suspended (s : Perf) : Prop :=
  match perfFiber s with Some (_, f) => state f ≠ Suspended | None => True end.

Lemma owned_all_app l l' : owned_all (l ++ l') = owned_all l ++ owned_all l'.
Proof. unfold owned_all. by rewrite fmap_app, concat_app. Qed.

(** An event without a string. *)
Lemma held_push e s : held s → owned e = [] → event_ok (strings s) e → held (with_buffer (eventBuffer s ++ [e]) s).
Proof.
  intros [Nd Ds Ev I] O Oe. assert (owned_all (eventBuffer s ++ [e]) = owned_all (eventBuffer s)) as E.
  { rewrite owned_all_app. unfold owned_all at 2. simpl. by rewrite O, !app_nil_r. }
  constructor; simpl; rewrite ?E; try done. apply Forall_app. by split; [|constructor].
Qed.

(** An event with a new string. *)
Lemma held_push_new e l s :
  held s → owned e = [fresh (dom (strings s))] →
  event_ok (<[fresh (dom (strings s)):=l]> (strings s)) e →
  held (with_buffer (eventBuffer s ++ [e]) (with_strings (<[fresh (dom (strings s)):=l]> (strings s)) s)).
Proof.
  intros [Nd Ds Ev I] O Oe. set (a := fresh (dom (strings s))) in *. pose proof (is_fresh (dom (strings s))) as Fr. fold a in Fr.
  assert (owned_all (eventBuffer s ++ [e]) = owned_all (eventBuffer s) ++ [a]) as E.
  { rewrite owned_all_app. f_equal. unfold owned_all. simpl. by rewrite O. }
  constructor; simpl; rewrite ?E; try done.
  - apply NoDup_snoc; [done|]. intros Ha. apply Fr. rewrite Ds. by apply elem_of_list_to_set.
  - rewrite dom_insert_L, Ds, list_to_set_app_L. set_solver.
  - apply Forall_app. split; [|by constructor]. eapply Forall_impl; [exact Ev|]. intros e' Oe'.
    assert (a ∉ owned e' ) as Na.
    { intros Ha. apply Fr. destruct Oe' as [_ Oe']. unfold owned in Ha.
      destruct (type e') as [|[p|]|st|[p|]|c]; try by apply not_elem_of_nil in Ha.
      - apply list_elem_of_singleton in Ha as ->. destruct Oe' as [x Ex]. apply elem_of_dom. eauto.
      - apply list_elem_of_singleton in Ha as ->. destruct Oe' as (x & Ex & _). apply elem_of_dom. eauto. }
    eapply event_ok_ext; [|exact Oe']. intros p Hp. rewrite lookup_insert_ne; [done|]. by intros ->.
Qed.

Lemma construct_run r s :
  held s → request_ok r → ∃ e m, construct r s = Ok (e, with_strings m s) ∧
    held (with_buffer (eventBuffer s ++ [e]) (with_strings m s)).
Proof.
  intros Hd Rq.
  assert (∀ e, owned e = [] → event_ok (strings s) e → ∃ m, (mret e : M Perf PerfEvent) s = Ok (e, with_strings m s) ∧
    held (with_buffer (eventBuffer s ++ [e]) (with_strings m s))) as Plain.
  { intros e O Oe. exists (strings s). split; [by destruct s|]. replace (with_strings (strings s) s) with s by by destruct s.
    by apply held_push. }
  destruct r as [id name [|]|id st at_|id l at_ [|]|id m at_]; simpl in *.
  - eexists _, _. split; [reflexivity|]. apply held_push_new; [done|done|]. split; [done|]. simpl.
    eexists. apply lookup_insert_eq.
  - destruct (Plain (mkEvent (mkTs 0 0) id (FiberName nullptr))) as (m & R & Hm); [done|by split|]. by eexists _, m.
  - destruct (Plain (mkEvent at_ id (FiberState st))) as (m & R & Hm); [done|by split|]. by eexists _, m.
  - eexists _, _. split; [reflexivity|]. destruct Rq as [U L]. apply held_push_new; [done|done|]. split; [done|]. simpl.
    eexists. split; [apply lookup_insert_eq|done].
  - destruct Rq as [U L]. destruct (Plain (mkEvent at_ id (Log nullptr))) as (m & R & Hm); [done|by split|]. by eexists _, m.
  - destruct Rq as [U L]. destruct (Plain (mkEvent at_ id (Marker m))) as (m' & R & Hm); [done| |by eexists _, m'].
    split; [done|]. by destruct m.
Qed.

Section BufferSize.
Context `{Config} (startTime : Timestamp).

(** Between events, at least four places are free. *)
Definition max_size : nat := 124.

Record perf_inv (s : Perf) : Prop := {
  perf_held : held s;
  perf_env : env_ok s;
  perf_room : capacity s = PerfEventBufferSize;
  perf_size : (size s <= max_size)%nat
}.

Lemma held_other f c n v d w x y s :
  held s → held (mkPerf (eventBuffer s) (strings s) f c n v d (m_vcdIds s) w x y).
Proof. by intros [? ? ? ?]. Qed.

Lemma process_inv s :
  held s → env_ok s → capacity s = PerfEventBufferSize → ∃ r s', processEventBuffer startTime s = Ok (r, s') ∧ perf_inv s' ∧ size s' = 0%nat ∧
    perfFiber s' = perfFiber s ∧ currentFiber s' = currentFiber s ∧ now s' = now s.
Proof.
  intros Hd En Ca. destruct (process_run startTime s Hd) as (r & s' & R & B & St & I & F & C & N & Ca' & _).
  exists r, s'. split; [done|]. unfold size. rewrite B. split_and!; [|done..]. constructor.
  - constructor; rewrite ?B, ?St; [constructor|by rewrite dom_empty_L|constructor|done].
  - unfold env_ok. by rewrite F, C.
  - by rewrite Ca'.
  - unfold size. rewrite B. simpl. unfold max_size. lia.
Qed.

Lemma process_tt_inv s :
  held s → env_ok s → capacity s = PerfEventBufferSize → ∃ s', (processEventBuffer startTime;; mret tt) s = Ok (tt, s') ∧ perf_inv s'.
Proof.
  intros Hd En Ca. destruct (process_inv s Hd En Ca) as (r & s' & R & P & _). exists s'. by rewrite (bind_Ok _ _ _ _ _ R).
Qed.

Lemma push_plain e s :
  perf_inv s → (size s < max_size)%nat → owned e = [] → event_ok (strings s) e →
  perf_inv (with_buffer (eventBuffer s ++ [e]) s).
Proof.
  intros [Hd En Ca Sz] Lt O Oe. constructor; [by apply held_push|done|done|]. unfold size. simpl. rewrite length_app. simpl.
  unfold size in Lt. lia.
Qed.

Lemma held_push_state id st at_ s : held s → u64_id id → held (with_buffer (eventBuffer s ++ [mkEvent at_ id (FiberState st)]) s).
Proof. intros Hd U. apply held_push; [done|done|by split]. Qed.

Lemma emergency_inv id f cid cst s :
  held s → env_ok s → capacity s = PerfEventBufferSize → (size s + 3 <= PerfEventBufferSize)%nat →
  perfFiber s = Some (id, f) → currentFiber s = Some (cid, cst) →
  ∃ s', emergency startTime id f cid cst s = Ok (tt, s') ∧ perf_inv s'.
Proof.
  intros Hd En Ca Sz Ef Ec. pose proof En as [Uf Uc]. rewrite Ef in Uf. rewrite Ec in Uc.
  unfold emergency. erewrite bind_Ok by reflexivity.
  do 3 (erewrite bind_Ok by (apply push_back_room; unfold size in *; simpl; rewrite Ca, ?length_app; simpl; lia)).
  set (s3 := with_buffer _ (with_buffer _ (with_buffer _ s))).
  assert (held s3) as H3.
  { unfold s3. do 2 (apply held_push_state; [|done]). apply held_push; [done|done|]. split; [done|]. simpl.
    split; [done|]. by repeat constructor. }
  destruct (process_inv s3 H3 En Ca) as (r & s4 & R4 & P4 & Z4 & _). pose proof (perf_room _ P4) as C4.
  rewrite (bind_Ok _ _ _ _ _ R4). unfold PerfEventBufferSize in *.
  erewrite bind_Ok by (apply push_back_room; rewrite C4, Z4; lia).
  rewrite push_back_room by (unfold size in *; simpl; rewrite C4, length_app, Z4; simpl; lia).
  eexists. split; [reflexivity|].
  apply push_plain; [apply push_plain; [done|rewrite Z4; unfold max_size; lia|done|by split]| |done|by split].
  unfold size in *. simpl. rewrite length_app, Z4. unfold max_size. simpl. lia.
Qed.

(** [event] is only called when the fiber that writes is suspended, and then no more. *)
Lemma flush_inv (event : request → M Perf unit) s :
  held s → env_ok s → capacity s = PerfEventBufferSize → (size s <= S max_size)%nat →
  (∀ r s1, perf_inv s1 → request_ok r → not_suspended s1 → ¬ not_suspended s → ∃ s', event r s1 = Ok (tt, s') ∧ perf_inv s') →
  ∃ s', flushEventBuffer startTime event s = Ok (tt, s') ∧ perf_inv s'.
Proof.
  intros Hd En Ca Sz Ev. unfold flushEventBuffer. erewrite bind_Ok by reflexivity.
  destruct (perfFiber s) as [[id f]|] eqn:Ef; [|by apply process_tt_inv].
  destruct (bool_decide _ || _) eqn:Now; [by apply process_tt_inv|].
  destruct (3 <? capacity s - size s)%nat eqn:Room.
  - apply Nat.ltb_lt in Room. rewrite Ca in Room. unfold PerfEventBufferSize in Room.
    assert (size s <= max_size)%nat as Sz' by (unfold max_size; lia).
    unfold worker_resume. erewrite bind_Ok by reflexivity. rewrite Ef.
    destruct (negb (state_eqb (state f) Suspended)) eqn:Sp; [exists s; split; [done|by constructor]|].
    apply negb_false_iff, bool_decide_eq_true in Sp.
    erewrite bind_Ok by reflexivity. set (s1 := with_fiber _ s).
    assert (perf_inv s1) as P1.
    { constructor; [by apply held_other|split; [|apply En]|done|done]. destruct En as [U _]. by rewrite Ef in U. }
    destruct (negb (state_eqb (state (Fiber.resume f)) (state f))) eqn:Ch; [|by exists s1].
    apply negb_true_iff, bool_decide_eq_false in Ch. apply Ev; [done| | |].
    + destruct En as [U _]. by rewrite Ef in U.
    + unfold not_suspended. simpl. congruence.
    + unfold not_suspended. rewrite Ef. by intros [].
  - destruct (currentFiber s) as [[cid cst]|] eqn:Ec; [|by apply process_tt_inv]. apply emergency_inv; try done.
    unfold max_size, PerfEventBufferSize in *. lia.
Qed.

Lemma event_inv n r s :
  perf_inv s → request_ok r →
  (∀ s1, held s1 → env_ok s1 → capacity s1 = PerfEventBufferSize → (size s1 <= S max_size)%nat → perfFiber s1 = perfFiber s →
     ∃ s', flushEventBuffer startTime (perf_event startTime n) s1 = Ok (tt, s') ∧ perf_inv s') →
  ∃ s', perf_event startTime (S n) r s = Ok (tt, s') ∧ perf_inv s'.
Proof.
  intros [Hd En Ca Sz] Rq Fl. destruct (construct_run r s Hd Rq) as (e & m & R & Hm). cbn [perf_event].
  rewrite (bind_Ok _ _ _ _ _ R).
  erewrite bind_Ok by (apply push_back_room; simpl; rewrite Ca; unfold size, max_size, PerfEventBufferSize in *; simpl in *; lia).
  erewrite bind_Ok by reflexivity.
  set (s1 := with_buffer _ _) in *.
  change (with_buffer (eventBuffer s ++ [e]) (with_strings m s)) with s1 in Hm.
  assert (size s1 = S (size s)) as Z1 by (unfold size, s1; simpl; rewrite length_app; simpl; lia).
  rewrite (bind_Ok _ _ s1 s1 tt).
  2: { apply zth_assert_true, Nat.leb_le. rewrite Z1. unfold PerfEventBufferSize, max_size in *. lia. }
  destruct (PerfEventBufferThresholdToTriggerVCDWrite <=? size s1)%nat eqn:T.
  - apply Fl; [done|exact En|exact Ca|lia|done].
  - apply Nat.leb_gt in T. exists s1. split; [done|]. constructor; [done|exact En|exact Ca|].
    unfold PerfEventBufferThresholdToTriggerVCDWrite, PerfEventBufferSize, max_size in *. simpl in T. lia.
Qed.

Lemma perf_event_quiet n r s :
  perf_inv s → request_ok r → not_suspended s → ∃ s', perf_event startTime (S n) r s = Ok (tt, s') ∧ perf_inv s'.
Proof.
  intros P Rq Ns. apply event_inv; [done|done|]. intros s1 Hd En Ca Sz Ef. apply flush_inv; [done..|].
  intros r1 s2 _ _ _ Sp. destruct Sp. unfold not_suspended in *. by rewrite Ef.
Qed.

Lemma perf_event_inv n r s :
  perf_inv s → request_ok r → ∃ s', perf_event startTime (S (S n)) r s = Ok (tt, s') ∧ perf_inv s'.
Proof.
  intros P Rq. apply event_inv; [done|done|]. intros s1 Hd En Ca Sz Ef. apply flush_inv; [done..|].
  intros r1 s2 P2 Rq1 Ns _. by apply perf_event_quiet.
Qed.

Lemma entry_turn_inv n s :
  perf_inv s → ∃ b s', entry_turn startTime (S (S n)) s = Ok (b, s') ∧ perf_inv s'.
Proof.
  intros [Hd En Ca _]. destruct (process_inv s Hd En Ca) as (r & s1 & R & P1 & _). unfold entry_turn.
  rewrite (bind_Ok _ _ _ _ _ R). destruct (r =? 0); [|by exists false, s1].
  assert (∃ s', worker_suspend (perf_event startTime (S (S n))) s1 = Ok (tt, s') ∧ perf_inv s') as (s' & R' & P').
  { unfold worker_suspend. erewrite bind_Ok by reflexivity. destruct P1 as [H1 E1 C1 S1].
    destruct (perfFiber s1) as [[id f]|] eqn:Ef; [|by exists s1; split; [done|constructor]].
    erewrite bind_Ok by reflexivity. pose proof E1 as [U _]. rewrite Ef in U.
    assert (perf_inv (with_fiber (Some (id, Fiber.suspend f)) s1)) as P2.
    { constructor; [by apply held_other|by split; [|apply E1]|done|done]. }
    unfold when. destruct (negb _); [by apply perf_event_inv|by eexists]. }
  exists true, s'. by rewrite (bind_Ok _ _ _ _ _ R').
Qed.

(** What happens to the log: an event; a turn of the fiber that writes; or the fibers,
    the time and what [fprintf] will return change. *)
Inductive action :=
| Event (r : request)
| Turn
| Outside (f : option (Z * Fiber.Fiber)) (c : option (Z * Z)) (n : Timestamp) (w : list (option Z)).

Definition act (a : action) : M Perf unit :=
  match a with
  | Event r => perf_event startTime 2 r
  | Turn => entry_turn startTime 2;; mret tt
  | Outside f c n w => modify (λ s, mkPerf (eventBuffer s) (strings s) f c n (m_vcd s) (m_vcdd s) (m_vcdIds s) w (vcd_file s) (capacity s))
  end.

Fixpoint acts (l : list action) : M Perf unit := match l with [] => mret tt | a :: l => act a;; acts l end.

Definition action_ok (a : action) : Prop :=
  match a with
  | Event r => request_ok r
  | Turn => True
  | Outside f c _ _ =>
      match f with Some (id, _) => u64_id id | None => True end ∧ match c with Some (id, _) => u64_id id | None => True end
  end.

Lemma acts_inv l s : perf_inv s → Forall action_ok l → ∃ s', acts l s = Ok (tt, s') ∧ perf_inv s'.
Proof.
  revert s. induction l as [|a l IH]; intros s P; [intros _; by exists s|]. intros [Oa Ol]%Forall_cons.
  assert (∃ s1, act a s = Ok (tt, s1) ∧ perf_inv s1) as (s1 & R & P1).
  { destruct a as [r| |f c n w]; cbn [act].
    - exact (perf_event_inv 0 r s P Oa).
    - destruct (entry_turn_inv 0 s P) as (b & s1 & R & P1). exists s1. by rewrite (bind_Ok _ _ _ _ _ R).
    - destruct P as [Hd _ Ca Sz]. eexists. split; [reflexivity|]. constructor; [by apply held_other|done|done|done]. }
  destruct (IH s1 P1 Ol) as (s' & R' & P'). exists s'. cbn [acts]. by rewrite (bind_Ok _ _ _ _ _ R).
Qed.
End BufferSize.

(** ** The end *)

Lemma does_copy fuel l s : (length l < fuel)%nat → does [] l [] (copy_blocks fuel l) s.
Proof.
  revert l s. induction fuel as [|fuel IH]; intros l s Lt; [lia|]. cbn [copy_blocks]. destruct l as [|c l]; [apply does_nothing|].
  rewrite <-(take_drop block (c :: l)) at 1. eapply (does_then [] [] [] _ _ [] []); [apply (does_fprintf [] Vcd)| |set_solver].
  intros s' _ _. apply IH. rewrite length_drop. unfold block. simpl in *. lia.
Qed.

Definition trailer : list Z := text "$upscope $end" ++ [10] ++ text "$enddefinitions $end" ++ [10].

Lemma finalize_run ok s : ∃ r s', finalizeVCD ok s = Ok (r, s') ∧ eventBuffer s' = eventBuffer s ∧ strings s' = strings s ∧
  (∀ a b, ok = true → writes s = [] → m_vcd s = Some a → m_vcdd s = Some b → r = 0 ∧ vcd_file s' = Some (a ++ trailer ++ b)).
Proof.
  unfold finalizeVCD. erewrite bind_Ok by reflexivity.
  destruct (m_vcd s) as [a|] eqn:Ea; [|by exists 0, s]. destruct (m_vcdd s) as [b|] eqn:Eb; [|by exists 0, s].
  assert (does [] (trailer ++ b) [] (unless_error (fprintf Vcd trailer) (copy_blocks (S (length b)) b)) s) as D.
  { eapply (does_then [] [] [] _ _ [] []); [apply (does_fprintf [] Vcd)| |set_solver]. intros s' _ _. apply does_copy. lia. }
  destruct D as (r & s' & R & Sm & _ & W). fold trailer. rewrite (bind_Ok _ _ _ _ _ R).
  assert (strings s' = strings s) as Es.
  { apply map_eq. intros p. apply (same_strings _ _ _ Sm). by apply not_elem_of_nil. }
  destruct r as [e|]; [|destruct ok]; simpl negb; cbn iota.
  - exists EIO, s'. split_and!; [done|apply Sm|done|]. intros a' b' _ Ws. by destruct (W Ws).
  - eexists 0, _. split_and!; [reflexivity|apply Sm|done|].
    intros a' b' _ Ws Ea' Eb'. destruct (W Ws) as (_ & _ & V & _). injection Ea' as <-.
    injection Eb' as <-. split; [done|]. simpl. by rewrite V, Ea.
  - exists EIO, s'. split_and!; [done|apply Sm|done|done].
Qed.

(** *** Backtraces *)

(** [maxDepth] does not limit a backtrace, and it never counts as truncated. *)
Lemma backtrace_unlimited skip maxDepth frames :
  (0 < maxDepth)%nat → (∀ f, f ∈ frames → f.2 = false) →
  backtrace skip maxDepth frames = ((drop skip frames).*1, false).
Proof.
  intros Lt. unfold backtrace. rewrite <-(app_nil_l ((drop skip frames).*1)). generalize (@nil Z) as bt. intros bt Ns.
  assert (∀ f, f ∈ drop skip frames → f.2 = false) as Ns'.
  { intros f Hf. apply Ns. rewrite <-(take_drop skip frames). apply elem_of_app. by right. }
  clear Ns. revert bt. induction (drop skip frames) as [|[ip stop] fs IH]; intros bt; cbn [unwind].
  - rewrite app_nil_r. f_equal. apply Nat.eqb_neq. lia.
  - assert (stop = false) as -> by (apply (Ns' (ip, stop)); by left).
    assert (0 <? maxDepth = true)%nat as -> by by apply Nat.ltb_lt. rewrite IH.
    + rewrite fmap_cons, <-app_assoc. done.
    + intros f Hf. apply Ns'. by right.
Qed.

Lemma common_base_spec fuel this other c :
  (c <= Nat.min (length this) (length other))%nat → (Nat.min (length this) (length other) - c <= fuel)%nat →
  drop (length this - c) this = drop (length other - c) other →
  let n := common_base fuel this other c in
  (n <= Nat.min (length this) (length other))%nat ∧ drop (length this - n) this = drop (length other - n) other ∧
  ((n < Nat.min (length this) (length other))%nat →
     this !! (length this - 1 - n)%nat ≠ other !! (length other - 1 - n)%nat).
Proof.
  revert c. induction fuel as [|fuel IH]; intros c L F E; cbn [common_base].
  { split_and!; [done|done|lia]. }
  destruct (c <? Nat.min (length this) (length other))%nat eqn:Lt; simpl.
  2: { apply Nat.ltb_ge in Lt. split_and!; [done|done|lia]. }
  apply Nat.ltb_lt in Lt. case_bool_decide as Eq.
  - apply IH; [lia|lia|].
    destruct (lookup_lt_is_Some_2 this (length this - 1 - c)) as [x Ex]; [lia|]. pose proof Ex as Ey. rewrite Eq in Ey.
    replace (length this - S c)%nat with (length this - 1 - c)%nat by lia.
    replace (length other - S c)%nat with (length other - 1 - c)%nat by lia.
    rewrite (drop_S _ _ _ Ex), (drop_S _ _ _ Ey).
    replace (S (length this - 1 - c)) with (length this - c)%nat by lia.
    replace (S (length other - 1 - c)) with (length other - c)%nat by lia. by rewrite E.
  - by split_and!.
Qed.

(** What is printed of a part from the start and from the end. *)
Lemma printPartial_front l n : (n <= length l)%nat → printPartial l 0 (- Z.of_nat n - 1) = take (length l - n) l.
Proof.
  intros L. unfold printPartial. destruct l as [|x l]; [by rewrite take_nil|].
  assert (- Z.of_nat n - 1 <? 0 = true) as -> by (apply Z.ltb_lt; lia). cbn [andb].
  destruct (Z.of_nat (length (x :: l)) <? - (- Z.of_nat n - 1)) eqn:B.
  - apply Z.ltb_lt in B. assert (length (x :: l) - n = 0)%nat as -> by lia. done.
  - apply Z.ltb_ge in B. rewrite drop_0. f_equal. lia.
Qed.

Lemma printPartial_back l n : (0 < n <= length l)%nat → printPartial l (length l - n) (-1) = drop (length l - n) l.
Proof.
  intros L. unfold printPartial. destruct l as [|x l]; [simpl in L; lia|].
  change (-1 <? 0) with true. cbn [andb]. change (- -1) with 1.
  assert (Z.of_nat (length (x :: l)) <? 1 = false) as -> by (apply Z.ltb_ge; simpl; lia).
  assert (Z.to_nat (Z.of_nat (length (x :: l)) + -1) <? length (x :: l) - n = false)%nat as -> by (apply Nat.ltb_ge; lia).
  apply take_ge. rewrite length_drop. lia.
Qed.

Lemma printPartial_all l : l ≠ [] → printPartial l 0 (Z.of_nat (length l) - 1) = l.
Proof.
  destruct l as [|x l]; [done|intros _]. unfold printPartial.
  assert (Z.of_nat (length (x :: l)) - 1 <? 0 = false) as -> by (apply Z.ltb_ge; simpl; lia). cbn [andb].
  rewrite drop_0. apply take_ge. simpl. lia.
Qed.

(** [printDelta] prints both backtraces; of the same fiber, the longest part that they
    have in common, from the outermost call on, once. *)
Lemma print_delta_spec this other :
  match print_delta this other with
  | FromTo o t => o = m_bt other ∧ t = m_bt this
  | Delta o t c =>
      m_bt other = o ++ c ∧ m_bt this = t ++ c ∧ (∀ x y, last o = Some x → last t = Some y → x ≠ y)
  end.
Proof.
  unfold print_delta. destruct (_ || _ || _).
  { unfold print. destruct (m_bt other) eqn:E1, (m_bt this) eqn:E2; rewrite <-?E1, <-?E2; split; try done;
      apply printPartial_all; congruence. }
  destruct this as [? ? this ?], other as [? ? other ?]. cbn [m_bt]. set (n := common_base _ this other 0).
  destruct (common_base_spec (Nat.min (length this) (length other)) this other 0) as (L & D & Mx);
    [lia|lia|by rewrite !Nat.sub_0_r, !drop_all|]. fold n in L, D, Mx.
  rewrite !printPartial_front by lia.
  assert ((if (0 <? n)%nat then printPartial other (length other - n) (-1) else []) = drop (length other - n) other) as ->.
  { destruct (0 <? n)%nat eqn:Z0; [apply Nat.ltb_lt in Z0; apply printPartial_back; lia|].
    apply Nat.ltb_ge in Z0. assert (n = 0)%nat as -> by lia. by rewrite Nat.sub_0_r, drop_all. }
  split_and!; [by rewrite take_drop|by rewrite <-D, take_drop|].
  intros x y. rewrite !last_lookup, !length_take.
  intros Ex Ey Exy. subst y. assert (n < length this ∧ n < length other)%nat as [L1 L2].
  { split; apply Nat.nle_gt; intros Lx.
    - assert (length this - n = 0)%nat as Z0 by lia. rewrite Z0 in Ey. by rewrite take_0 in Ey.
    - assert (length other - n = 0)%nat as Z0 by lia. rewrite Z0 in Ex. by rewrite take_0 in Ex. }
  apply Mx; [lia|].
  rewrite lookup_take_lt in Ex by lia. rewrite lookup_take_lt in Ey by lia.
  replace (length this - 1 - n)%nat with (Init.Nat.pred (Nat.min (length this - n) (length this))) by lia.
  replace (length other - 1 - n)%nat with (Init.Nat.pred (Nat.min (length other - n) (length other))) by lia. congruence.
Qed.

(** An empty line: the loop reads beyond its end. *)
Lemma log_empty_line fuel (s : Perf) : log_chunks (S fuel) [] 0 0 0 s = Fault NullDeref.
Proof. done. Qed.

(** ** Properties *)

(** The identifier of a fiber in the VCD file fits in its buffer, consists of at
    most 10 of the characters 34 to 126, and stands for the id of the fiber: two
    fibers never have the same one. *)
Theorem vcd_identifiers f (s : Perf) :
  u64_id f → ids_ok s →
  ∃ s', vcdId f s = Ok (ident_of f, s') ∧ ids_ok s' ∧ (length (ident_of f) <= 10)%nat ∧
    Forall (λ c, 34 <= c <= 126) (ident_of f) ∧ ident_value (ident_of f) = f ∧
    (∀ g, u64_id g → ident_of g = ident_of f → g = f).
Proof.
  intros U I. destruct (vcdId_run f s I U) as (ids & R & I'). eexists. split_and!; [done|done|apply ident_length|apply ident_chars| |].
  - apply ident_roundtrip, u64_ident, U.
  - intros g Ug E. rewrite <-(ident_roundtrip 10 g), <-(ident_roundtrip 10 f); [|by apply u64_ident..].
    unfold ident_of in E. by rewrite E.
Qed.

(** C25: what the events in the buffer stand for is written, in their order, and at
    the end the file has the declarations and then the data.  A line is escaped but
    for its last character, also when that is not printable. *)
Theorem perf_output startTime s a b :
  held s → writes s = [] → m_vcd s = Some a → m_vcdd s = Some b →
  ∃ s', processEventBuffer startTime s = Ok (0, s') ∧ eventBuffer s' = [] ∧ strings s' = ∅ ∧
    m_vcd s' = Some (a ++ concat (event_vcd (strings s) <$> eventBuffer s)) ∧
    m_vcdd s' = Some (b ++ concat (event_vcdd startTime (strings s) <$> eventBuffer s)) ∧
    (∀ s2 a2 b2, writes s2 = [] → m_vcd s2 = Some a2 → m_vcdd s2 = Some b2 →
       ∃ s3, finalizeVCD true s2 = Ok (0, s3) ∧ vcd_file s3 = Some (a2 ++ trailer ++ b2)) ∧
    (∀ l c, line_text (l ++ [c]) = concat (esc <$> l) ++ [c]).
Proof.
  intros Hd Ws Ea Eb. destruct (process_run startTime s Hd) as (r & s' & R & B & St & _ & _ & _ & _ & _ & W).
  destruct W as (-> & V & D); [done|by rewrite Ea|by rewrite Eb|]. exists s'. rewrite V, D, Ea, Eb. split_and!; try done.
  - intros s2 a2 b2 Ws2 Ea2 Eb2. destruct (finalize_run true s2) as (r & s3 & R3 & _ & _ & W3).
    destruct (W3 a2 b2 eq_refl Ws2 Ea2 Eb2) as [-> V3]. by exists s3.
  - intros l c. induction l as [|d l IH]; [done|]. rewrite fmap_cons, <-app_comm_cons. cbn [concat].
    rewrite line_text_cons by (by destruct l). by rewrite IH, app_assoc.
Qed.

(** C13: whatever is logged but empty lines, by whichever fiber, and however writing
    fails, the buffer never holds more than the 128 events it has room for, so that its
    array never grows, and no more than 124 between the calls; every copied string belongs
    to one event in the buffer until it is written, and is then freed, once; at the end
    nothing is left.  (For an empty line, see [log_empty_line].) *)
Theorem perf_buffer_safe `{Config} startTime l s :
  eventBuffer s = [] → capacity s = PerfEventBufferSize → strings s = ∅ → ids_ok s → env_ok s → Forall action_ok l →
  ∃ s', acts startTime l s = Ok (tt, s') ∧ capacity s' = PerfEventBufferSize ∧ (size s' <= 124)%nat ∧
    NoDup (owned_all (eventBuffer s')) ∧ dom (strings s') = list_to_set (owned_all (eventBuffer s')) ∧
    ∀ ok, ∃ s2, destroy startTime ok s' = Ok (tt, s2) ∧ strings s2 = ∅.
Proof.
  intros B Ca St I En Ol. destruct (acts_inv startTime l s) as (s' & R & [Hd En' Ca' Sz]); [|done|].
  { constructor; [constructor; rewrite ?B, ?St; [constructor|by rewrite dom_empty_L|constructor|done]|done|done|].
    unfold size. rewrite B. simpl. lia. }
  exists s'. split_and!; [done|exact Ca'|exact Sz|apply Hd|apply Hd|].
  intros ok. destruct (process_run startTime s' Hd) as (r & s1 & R1 & B1 & St1 & _). unfold destroy. rewrite (bind_Ok _ _ _ _ _ R1).
  assert (∃ s2, (if r =? 0 then finalizeVCD ok;; mret tt else mret tt) s1 = Ok (tt, s2) ∧ eventBuffer s2 = [] ∧ strings s2 = ∅)
    as (s2 & R2 & B2 & St2).
  { destruct (r =? 0); [|by exists s1]. destruct (finalize_run ok s1) as (r2 & s2 & R2 & B2 & St2 & _).
    exists s2. rewrite (bind_Ok _ _ _ _ _ R2). by rewrite B2, St2. }
  rewrite (bind_Ok _ _ _ _ _ R2). do 2 (erewrite bind_Ok by reflexivity). simpl. rewrite B2. simpl. erewrite bind_Ok by reflexivity.
  eexists. split; [reflexivity|done].
Qed.

(** *** Witnesses *)

Definition example_log : Perf :=
  mkPerf [mkEvent (mkTs 2 5) 1 (FiberState 3); mkEvent (mkTs 3 0) 1 (Log (Some 1%positive)); mkEvent (mkTs 0 0) 1 (FiberName nullptr)]
    {[1%positive := text "a b"]} None None (mkTs 4 0) (Some []) (Some []) ∅ [] None 128.

Lemma example_held : held example_log.
Proof.
  constructor; [by apply NoDup_singleton|by vm_compute| |apply map_Forall_empty].
  repeat constructor; try done. simpl. exists (text "a b"). split; [done|]. split; [done|]. by repeat constructor.
Qed.

Lemma vcd_identifiers_witness : ∃ s, vcdId 93 example_log = Ok ([35; 34], s) ∧ ident_value [35; 34] = 93.
Proof.
  destruct (vcd_identifiers 93 example_log) as (s & R & _ & _ & _ & E & _); [by split|apply map_Forall_empty|].
  exists s. split; [exact R|exact E].
Defined.

Lemma perf_output_witness : ∃ s, processEventBuffer (mkTs 1 0) example_log = Ok (0, s) ∧
  m_vcdd s = Some (text "#1000000005" ++ [10] ++ text "1#" ++ [10] ++ text "#2000000000" ++ [10] ++ text "sa\x20b #!" ++ [10]).
Proof.
  destruct (perf_output (mkTs 1 0) example_log [] [] example_held) as (s & R & _ & _ & _ & D & _); [done..|].
  exists s. split; [exact R|]. rewrite D. by vm_compute.
Defined.

Lemma perf_buffer_safe_witness : ∃ s,
  acts (H := debug_config) (mkTs 1 0) [Event (NewLog 7 (text "line") (mkTs 1 5) true); Turn; Event (NewState 7 2 (mkTs 1 6))]
    (with_buffer [] (with_strings ∅ example_log)) = Ok (tt, s) ∧ capacity s = 128%nat ∧ (size s <= 124)%nat.
Proof.
  destruct (perf_buffer_safe (H := debug_config) (mkTs 1 0)
    [Event (NewLog 7 (text "line") (mkTs 1 5) true); Turn; Event (NewState 7 2 (mkTs 1 6))]
    (with_buffer [] (with_strings ∅ example_log))) as (s & R & C & L & _);
    [done|done|done|apply map_Forall_empty|done| |by exists s].
  by repeat constructor.
Defined.
