(* ===== verification/Coro.v ===== *)
(** * Coroutines (libzth/coro.h)

    A coroutine is what the compiler makes of it: a state machine.  [St] are the
    places where it can be, [next] is what it does next there, and how it goes on.
    The frame of a coroutine that is suspended holds what to do when it is resumed;
    a coroutine without one is executing, or has ended.  A fiber executes one
    coroutine at a time, from a call of [run] or [generate] on; coroutines hand the
    fiber over to each other by symmetric transfer. *)

From stdpp Require Import functions base gmap list relations.
From S2P Require Import Prelude Time Sync.

Set Default Proof Using "Type".

Section Coro.
Context `{Config} {V St : Type}.

(** What [coro_already_completed] and [coro_invalid_state] are as exceptions. *)
Context (coro_already_completed coro_invalid_state : addr).

(** ** The coroutines *)

Inductive kind := Task | Generator.

(** What a coroutine does: call a coroutine function, which gives a suspended
    coroutine; await a task, the mailbox of a generator, a primitive in which the
    fiber may block (mutex, semaphore, ...), or something that suspends and is ready
    at once (as [std::suspend_always]); yield; return; let an exception out. *)
Inductive op :=
| Create (k : kind) (st : St) (ret : addr → St)
| AwaitTask (t : ptr) (ret : result V → St)
| AwaitGenerator (g : ptr) (ret : result V → St)
| AwaitFiber (ret : result V → St)
| AwaitAlways (st : St)
| Yield (v : V) (st : St)
| Return (v : V)
| Throw (e : addr).

Context (next : St → op).

(** What is left to do: from [next]; in [await_resume] of a task; in [*future],
    after it blocked; in [await_resume] of the mailbox of a generator, where
    [waiter] is the coroutine that [await_suspend] was given; in [take()] of that
    mailbox by the fiber; in a primitive. *)
Inductive code :=
| Exec (st : St)
| TaskResume (t : ptr) (ret : result V → St)
| FutureValue (t : addr) (ret : result V → St)
| MailboxResume (g : addr) (waiter : ptr) (ret : result V → St)
| MailboxTake (g : addr) (ret : result V → St)
| FiberReturn (ret : result V → St).

(** [std::noop_coroutine()], or a coroutine. *)
Inductive cont := Noop | Handle (h : addr).

#[local] Instance cont_eq_dec : EqDecision cont.
Proof. solve_decision. Defined.

(** Who waits for a value: the fiber, or a coroutine. *)
Inductive taker := FiberTaker (f : addr) | CoroTaker (h : addr).

#[local] Instance taker_eq_dec : EqDecision taker.
Proof. solve_decision. Defined.

(** [coro::Mailbox].  The generator puts values in it, no exceptions. *)
Record Mailbox := mkMailbox {
  m_value : option V;
  m_assigned : option taker;
  queue_put : list addr;
  queue_take : list taker;
  m_owner : ptr;
  m_waiter : ptr
}.

Inductive own :=
| task_promise (m_future : Obj (Optional V))
| generator_promise (m_mailbox : Mailbox) (m_completed : bool).

(** [promise_base] and [promise], and the members of the two kinds of promises. *)
Record Promise := mkPromise {
  m_running : bool;
  m_continuation : option cont;
  frame : option code;
  self : own
}.

Abbreviation Heap := (gmap addr Promise).

Definition promise (h : addr) : M Heap Promise := λ s,
  match s !! h with Some p => Ok (p, s) | None => Fault NullDeref end.
Definition update (h : addr) (p : Promise) : M Heap unit := modify <[h:=p]>.

Definition with_running (b : bool) (p : Promise) : Promise := mkPromise b (m_continuation p) (frame p) (self p).
Definition with_continuation (c : option cont) (p : Promise) : Promise := mkPromise (m_running p) c (frame p) (self p).
Definition with_frame (c : option code) (p : Promise) : Promise := mkPromise (m_running p) (m_continuation p) c (self p).
Definition with_self (o : own) (p : Promise) : Promise := mkPromise (m_running p) (m_continuation p) (frame p) o.

Definition new_future : Obj (Optional V) := mkObj [[]] [] (mkOpt None nullptr).
Definition new_mailbox (owner : addr) : Mailbox := mkMailbox None None [] [] (Some owner) nullptr.

Definition new_promise (h : addr) (k : kind) (st : St) : Promise :=
  mkPromise false None (Some (Exec st))
    (match k with Task => task_promise new_future | Generator => generator_promise (new_mailbox h) false end).

(** *** The base of promises *)

Definition has_continuation (p : Promise) : bool := bool_decide (is_Some (m_continuation p)).

Definition set_continuation (h : addr) (c : option cont) : M Heap unit :=
  p ← promise h;
  zth_assert (bool_decide (m_continuation p = None) || bool_decide (c = None) || bool_decide (m_continuation p = c));;
  update h (with_continuation c p).

Definition continuation (h : addr) : M Heap cont :=
  p ← promise h;
  set_continuation h None;;
  mret (default Noop (m_continuation p)).

Definition running (p : Promise) : bool := m_running p || has_continuation p.

Definition set_running (h : addr) (b : bool) : M Heap unit :=
  p ← promise h;
  zth_assert (negb (Bool.eqb (m_running p) b));;
  update h (with_running b p).

Definition completed (p : Promise) : bool :=
  match self p with
  | task_promise o => opt_valid (data o)
  | generator_promise _ c => c
  end.

(** *** Suspending and resuming *)

(** Where the fiber goes on: in a coroutine, in the code that resumed one, or,
    after it blocked, in a coroutine. *)
Inductive where_ := Running (h : addr) (c : code) | Returned | Blocked (h : addr) (c : code).

(** The frame is complete when [await_suspend] is called. *)
Definition suspend (h : addr) (c : code) : M Heap unit :=
  p ← promise h;
  update h (with_frame (Some c) p);;
  set_running h false.

(** To resume a coroutine that is not suspended is undefined.  What is resumed calls
    [await_resume] first, be it of the initial awaiter or of [promise_awaitable]. *)
Definition resume (h : addr) : M Heap where_ :=
  p ← promise h;
  match frame p with
  | None => fail NullDeref
  | Some c => update h (with_frame None p);; set_running h true;; mret (Running h c)
  end.

(** Symmetric transfer. *)
Definition transfer (c : cont) : M Heap where_ :=
  match c with Noop => mret Returned | Handle h => resume h end.

(** ** Tasks *)

Definition future (t : addr) : M Heap (Obj (Optional V)) :=
  p ← promise t;
  match self p with task_promise o => mret o | generator_promise _ _ => fail NullDeref end.

(** A call of a function of the future of [t]. *)
Definition with_future {A} (t : addr) (m : M (Obj (Optional V)) A) : M Heap A :=
  p ← promise t;
  o ← future t;
  match m o with
  | Ok (a, o) => update t (with_self (task_promise o) p);; mret a
  | Fault e => fail e
  end.

Definition task_await_ready (t : ptr) : M Heap bool :=
  match t with
  | None => mret true
  | Some t => p ← promise t; mret (completed p || running p)
  end.

(** In coroutine [h]. *)
Definition task_await_suspend (t : addr) (h : addr) : M Heap cont :=
  p ← promise t;
  zth_assert (negb (running p));;
  set_continuation t (Some (Handle h));;
  mret (Handle t).

(** [*future] of the task, in fiber [f]; [None] when it blocks. *)
Definition task_result (f : addr) (t : ptr) : M Heap (option (result V)) :=
  match t with
  | None => mret (Some (Rethrow coro_already_completed))
  | Some t =>
      b ← with_future t (Future.wait f);
      if b : bool then r ← with_future t Future.value; mret (Some r) else mret None
  end.

(** ** Generators *)

Definition mailbox (g : addr) : M Heap Mailbox :=
  p ← promise g;
  match self p with generator_promise m _ => mret m | task_promise _ => fail NullDeref end.

Definition set_mailbox (g : addr) (m : Mailbox) : M Heap unit :=
  p ← promise g; update g (with_self (generator_promise m (completed p)) p).

Definition mb_valid (m : Mailbox) : bool := bool_decide (is_Some (m_value m)).
Definition mb_valid_for (w : option taker) (m : Mailbox) : bool :=
  mb_valid m && (bool_decide (m_assigned m = None) || bool_decide (m_assigned m = w)).
Definition mb_abandoned (m : Mailbox) : bool := ptr_eqb (m_owner m) nullptr.

Definition with_value (v : option V) (m : Mailbox) : Mailbox :=
  mkMailbox v (m_assigned m) (queue_put m) (queue_take m) (m_owner m) (m_waiter m).
Definition with_assigned (a : option taker) (m : Mailbox) : Mailbox :=
  mkMailbox (m_value m) a (queue_put m) (queue_take m) (m_owner m) (m_waiter m).
Definition with_put (q : list addr) (m : Mailbox) : Mailbox :=
  mkMailbox (m_value m) (m_assigned m) q (queue_take m) (m_owner m) (m_waiter m).
Definition with_take (q : list taker) (m : Mailbox) : Mailbox :=
  mkMailbox (m_value m) (m_assigned m) (queue_put m) q (m_owner m) (m_waiter m).
Definition with_owner (o : ptr) (m : Mailbox) : Mailbox :=
  mkMailbox (m_value m) (m_assigned m) (queue_put m) (queue_take m) o (m_waiter m).
Definition with_waiter (w : ptr) (m : Mailbox) : Mailbox :=
  mkMailbox (m_value m) (m_assigned m) (queue_put m) (queue_take m) (m_owner m) w.

(** [wakeup]: a fiber is made ready, the coroutine becomes the continuation of the
    owner. *)
Definition mb_wakeup (g : addr) (w : taker) : M Heap unit :=
  match w with
  | FiberTaker _ => mret tt
  | CoroTaker h =>
      m ← mailbox g;
      set_mailbox g (with_waiter (Some h) m);;
      match m_owner m with
      | None => fail NullDeref
      | Some o => set_continuation o (Some (Handle h))
      end
  end;;
  m ← mailbox g;
  set_mailbox g (with_assigned (Some w) m).

(** [unblockFirst(Queue_Take)] and [unblockAll(Queue_Take)]. *)
Definition mb_unblock_first (g : addr) : M Heap unit :=
  m ← mailbox g;
  match queue_take m with
  | [] => mret tt
  | w :: q => set_mailbox g (with_take q m);; mb_wakeup g w
  end.

Fixpoint mb_wake_all (g : addr) (l : list taker) : M Heap unit :=
  match l with
  | [] => mret tt
  | w :: l => m ← mailbox g; set_mailbox g (with_take l m);; mb_wakeup g w;; mb_wake_all g l
  end.

(** [put], in fiber [f]; [false] when it blocks, to try again. *)
Definition mb_put (f g : addr) (v : V) : M Heap bool :=
  m ← mailbox g;
  if mb_valid m then set_mailbox g (with_put (queue_put m ++ [f]) m);; mret false
  else set_mailbox g (with_value (Some v) m);; mb_unblock_first g;; mret true.

(** [wait(item, waiter)]. *)
Definition mb_wait_coro (g h : addr) : M Heap unit :=
  m ← mailbox g; set_mailbox g (with_take (queue_take m ++ [CoroTaker h]) m).

(** [take_finalize] wakes the first fiber that waits to put. *)
Definition mb_take_finalize (g : addr) : M Heap unit :=
  m ← mailbox g;
  set_mailbox g (with_put (tail (queue_put m)) (with_value None m)).

(** The end of [take]: the value is there. *)
Definition mb_take_value (g : addr) : M Heap V :=
  m ← mailbox g;
  match m_value m with None => fail NullDeref | Some v => mb_take_finalize g;; mret v end.

(** [take(waiter)], of a value that is there for the coroutine. *)
Definition mb_take_coro (g : addr) (waiter : ptr) : M Heap V :=
  m ← mailbox g;
  when (ptr_eqb (m_waiter m) waiter) (set_mailbox g (with_waiter nullptr m));;
  mb_take_value g.

(** [take()], in fiber [f]: [wait(assigned)] and the rest; [None] when it blocks, to
    try again. *)
Definition mb_take_fiber (f g : addr) : M Heap (option (result V)) :=
  m ← mailbox g;
  if mb_valid_for (Some (FiberTaker f)) m then v ← mb_take_value g; mret (Some (Value v))
  else if mb_abandoned m then mret (Some (Rethrow coro_already_completed))
  else set_mailbox g (with_take (queue_take m ++ [FiberTaker f]) m);; mret None.

Definition mb_abandon (g : addr) : M Heap unit :=
  m ← mailbox g;
  mb_wake_all g (queue_take m);;
  m ← mailbox g;
  set_mailbox g (with_owner nullptr m).

(** [awaitable(coro::Mailbox)]. *)
Definition mb_await_ready (g : addr) : M Heap bool :=
  m ← mailbox g;
  if mb_abandoned m || mb_valid_for None m then mret true
  else match m_owner m with None => fail NullDeref | Some o => p ← promise o; mret (running p) end.

Definition mb_await_suspend (g h : addr) : M Heap cont :=
  mb_wait_coro g h;;
  m ← mailbox g;
  match m_owner m with None => fail NullDeref | Some o => mret (Handle o) end.

(** [await_resume], by fiber [f] for coroutine [h]. *)
Definition mb_await_resume (f h g : addr) (waiter : ptr) (ret : result V → St) : M Heap where_ :=
  m ← mailbox g;
  if mb_valid_for (CoroTaker <$> waiter) m then v ← mb_take_coro g waiter; mret (Running h (Exec (ret (Value v))))
  else if mb_abandoned m then mret (Running h (Exec (ret (Rethrow coro_already_completed))))
  else mret (Running h (MailboxTake g ret)).

(** ** The end of a coroutine *)

(** [return_value] and [return_void], [unhandled_exception], and then
    [final_suspend]. *)
Definition return_value (h : addr) (r : result V) : M Heap unit :=
  p ← promise h;
  match self p with
  | task_promise _ => with_future h (Future.set r)
  | generator_promise m _ => update h (with_self (generator_promise m true) p)
  end.

Definition unhandled_exception (h : addr) (e : addr) : M Heap unit := return_value h (Rethrow e).

Definition final_suspend (h : addr) : M Heap where_ :=
  p ← promise h;
  match self p with task_promise _ => mret tt | generator_promise _ _ => mb_abandon h end;;
  set_running h false;;
  c ← continuation h;
  transfer c.

(** ** One step of a coroutine *)

(** [yield_value]: the put, and its awaiter. *)
Definition yield_value (f h : addr) (v : V) (st : St) (again : code) : M Heap where_ :=
  b ← mb_put f h v;
  if b : bool then
    p ← promise h;
    if has_continuation p then suspend h (Exec st);; c ← continuation h; transfer c
    else mret (Running h (Exec st))
  else mret (Blocked h again).

(** [promise_awaitable] around the awaitable. *)
Definition await_task (h : addr) (t : ptr) (ret : result V → St) : M Heap where_ :=
  b ← task_await_ready t;
  match t with
  | Some a =>
      if b : bool then mret (Running h (TaskResume t ret))
      else suspend h (TaskResume t ret);; c ← task_await_suspend a h; transfer c
  | None => mret (Running h (TaskResume t ret))
  end.

(** To ask a generator without promise for its mailbox throws, in a function that is
    [noexcept]. *)
Definition await_generator (h : addr) (g : ptr) (ret : result V → St) : M Heap where_ :=
  match g with
  | None => fail Aborted
  | Some g =>
      b ← mb_await_ready g;
      if b : bool then mret (Running h (MailboxResume g nullptr ret))
      else suspend h (MailboxResume g (Some h) ret);; c ← mb_await_suspend g h; transfer c
  end.

Definition alloc (k : kind) (st : St) : M Heap addr := λ s,
  let h := fresh (dom s) in Ok (h, <[h:=new_promise h k st]> s).

(** Coroutine [h] in fiber [f]. *)
Definition exec_op (f h : addr) (st : St) : M Heap where_ :=
  match next st with
  | Create k st ret => a ← alloc k st; mret (Running h (Exec (ret a)))
  | AwaitTask t ret => await_task h t ret
  | AwaitGenerator g ret => await_generator h g ret
  | AwaitFiber ret => mret (Blocked h (FiberReturn ret))
  | AwaitAlways st => suspend h (Exec st);; transfer (Handle h)
  | Yield v st' => yield_value f h v st' (Exec st)
  | Return v => return_value h (Value v);; final_suspend h
  | Throw e => unhandled_exception h e;; final_suspend h
  end.

Definition exec (f h : addr) (c : code) : M Heap where_ :=
  match c with
  | Exec st => exec_op f h st
  | TaskResume t ret =>
      r ← task_result f t;
      mret (match r, t with
            | Some r, _ => Running h (Exec (ret r))
            | None, Some t => Blocked h (FutureValue t ret)
            | None, None => Returned
            end)
  | FutureValue t ret => r ← with_future t Future.value; mret (Running h (Exec (ret r)))
  | MailboxResume g w ret => mb_await_resume f h g w ret
  | MailboxTake g ret =>
      r ← mb_take_fiber f g;
      mret (match r with Some r => Running h (Exec (ret r)) | None => Blocked h c end)
  | FiberReturn ret => mret (Blocked h c)
  end.

(** ** What a fiber calls *)

(** The loop of [promise::run], that of [generate], and [value]. *)
Inductive native := InRun (h : addr) | InGenerate (g : addr) | InValue (g : addr).

(** The fiber is not in a call, and its last one gave [r]; it is in one, but not in
    a coroutine; or it is in a coroutine.  It may be blocked there. *)
Inductive fiber :=
| Idle (r : option (result V))
| Native (d : native) (blocked : bool)
| Inside (d : native) (h : addr) (c : code) (blocked : bool).

Inductive call := Run (h : ptr) | Generate (g : ptr) | TakeValue (g : ptr).

Definition start (c : call) : M Heap fiber :=
  match c with
  | Run None | Generate None | TakeValue None => mret (Idle (Some (Rethrow coro_already_completed)))
  | Run (Some h) =>
      p ← promise h;
      mret (if running p then Idle (Some (Rethrow coro_invalid_state)) else Native (InRun h) false)
  | Generate (Some g) =>
      p ← promise g; m ← mailbox g;
      mret (if completed p then Idle (Some (Rethrow coro_already_completed))
            else if mb_valid m || running p then Idle None
            else Native (InGenerate g) false)
  | TakeValue (Some g) =>
      p ← promise g;
      mret (if completed p then Idle (Some (Rethrow coro_already_completed)) else Native (InValue g) false)
  end.

Definition inside (d : native) (w : where_) : fiber :=
  match w with
  | Running h c => Inside d h c false
  | Returned => Native d false
  | Blocked h c => Inside d h c true
  end.

(** From the head of the loop. *)
Definition native_step (f : addr) (d : native) : M Heap fiber :=
  match d with
  | InRun h =>
      p ← promise h;
      if completed p then
        match self p with
        | task_promise _ => r ← task_result f (Some h); mret (match r with Some _ => Idle r | None => Native d true end)
        | generator_promise _ _ => mret (Idle None)
        end
      else w ← resume h; mret (inside d w)
  | InGenerate g =>
      p ← promise g; m ← mailbox g;
      if mb_valid m || completed p then mret (Idle None)
      else set_continuation g (Some Noop);; w ← resume g; mret (inside d w)
  | InValue g =>
      r ← mb_take_fiber f g;
      mret (match r with Some _ => Idle r | None => Native d true end)
  end.

Definition fiber_step (f : addr) (x : fiber) : M Heap fiber :=
  match x with
  | Idle _ => mret x
  | Native d _ => native_step f d
  | Inside d h c _ => w ← exec f h c; mret (inside d w)
  end.

Definition blocked (x : fiber) : bool :=
  match x with Idle _ => false | Native _ b | Inside _ _ _ b => b end.

(** A call, until it returns or blocks, when the other fibers do nothing. *)
Fixpoint run_fiber (fuel : nat) (f : addr) (x : fiber) : M Heap fiber :=
  match fuel, x with
  | _, Idle _ => mret x
  | O, _ => fail OutOfFuel
  | S n, _ => y ← fiber_step f x; if blocked y then mret y else run_fiber n f y
  end.

Definition do_call (fuel : nat) (f : addr) (c : call) : M Heap fiber := x ← start c; run_fiber fuel f x.

(** *** The iteration over a generator, [for(auto&& v : g)] *)

Definition gen_valid (g : addr) : M Heap bool :=
  m ← mailbox g; p ← promise g; mret (mb_valid m && negb (completed p)).

(** [generate], as [++it]; [false] when it does not return normally. *)
Definition it_next (fuel : nat) (f g : addr) : M Heap bool :=
  x ← do_call fuel f (Generate (Some g));
  mret (match x with Idle None => true | _ => false end).

Definition it_begin (fuel : nat) (f g : addr) : M Heap bool :=
  p ← promise g; v ← gen_valid g;
  if negb (completed p) && negb v then it_next fuel f g else mret true.

(** [*it]. *)
Definition it_get (fuel : nat) (f g : addr) : M Heap (option V) :=
  v ← gen_valid g;
  zth_assert v;;
  x ← do_call fuel f (TakeValue (Some g));
  mret (match x with Idle (Some (Value v)) => Some v | _ => None end).

(** The values that the loop sees after [acc]; [None] when it does not end normally. *)
Fixpoint range_loop (fuel : nat) (f g : addr) (acc : list V) : M Heap (option (list V)) :=
  match fuel with
  | O => fail OutOfFuel
  | S n =>
      p ← promise g;
      if completed p then mret (Some acc)
      else
        o ← it_get n f g;
        match o with
        | None => mret None
        | Some v =>
            b ← it_next n f g;
            if b : bool then range_loop n f g (acc ++ [v]) else mret None
        end
  end.

Definition range_for (fuel : nat) (f g : addr) : M Heap (option (list V)) :=
  b ← it_begin fuel f g;
  if b : bool then range_loop fuel f g [] else mret None.

(** ** Fibers that execute coroutines

    The fibers share the coroutines.  A fiber keeps the processor until it blocks or
    its call returns.  [roots] are the coroutines for which [run] was called. *)
Record System := mkSystem { heap : Heap; fib : addr → fiber; cpu : ptr; roots : gset addr }.

(** [f] calls something, goes on, or a primitive gives it [r]. *)
Inductive label := Call (f : addr) (c : call) | Step (f : addr) | Give (f : addr) (r : result V).

Definition waits (f : addr) (p : Promise) : bool :=
  match self p with
  | task_promise o => existsb (λ q, bool_decide (f ∈ q)) (queues o)
  | generator_promise m _ => bool_decide (f ∈ queue_put m) || bool_decide (FiberTaker f ∈ queue_take m)
  end.
Definition in_queue (f : addr) (s : Heap) : bool := existsb (λ x, waits f x.2) (map_to_list s).

Definition has_cpu (f : addr) (s : System) : bool := ptr_eqb (cpu s) nullptr || ptr_eqb (cpu s) (Some f).
Definition is_idle (x : fiber) : bool := match x with Idle _ => true | _ => false end.
Definition in_primitive (x : fiber) : bool := match x with Inside _ _ (FiberReturn _) _ => true | _ => false end.

Definition enabled (l : label) (s : System) : bool :=
  match l with
  | Call f _ => has_cpu f s && is_idle (fib s f)
  | Step f => has_cpu f s && negb (is_idle (fib s f)) && negb (in_primitive (fib s f)) && negb (in_queue f (heap s))
  | Give f _ => has_cpu f s && in_primitive (fib s f)
  end.

Definition with_heap {A} (m : M Heap A) : M System A := λ s,
  match m (heap s) with
  | Ok (a, h) => Ok (a, mkSystem h (fib s) (cpu s) (roots s))
  | Fault e => Fault e
  end.

(** [f] is at [x] now. *)
Definition settle (f : addr) (x : fiber) : M System unit :=
  modify (λ s, mkSystem (heap s) (<[f:=x]> (fib s)) (if is_idle x || blocked x then nullptr else Some f) (roots s)).

Definition add_root (x : fiber) : M System unit :=
  match x with
  | Native (InRun h) _ => modify (λ s, mkSystem (heap s) (fib s) (cpu s) ({[h]} ∪ roots s))
  | _ => mret tt
  end.

Definition step (l : label) : M System unit :=
  match l with
  | Call f c => x ← with_heap (start c); settle f x;; add_root x
  | Step f => x ← gets (λ s, fib s f); y ← with_heap (fiber_step f x); settle f y
  | Give f r =>
      x ← gets (λ s, fib s f);
      match x with Inside d h (FiberReturn ret) _ => settle f (Inside d h (Exec (ret r)) false) | _ => mret tt end
  end.

Definition fresh_task (h : addr) (p : Promise) : Prop := ∃ st, p = new_promise h Task st.

(** The coroutines were made, but none runs. *)
Definition initial (s : Heap) : System := mkSystem s (λ _, Idle None) nullptr ∅.

(** The programs use tasks only; [run] is called once for a task, which is not
    awaited then. *)
Definition may_await (s : System) (t : addr) : bool := bool_decide (t ∈ dom (heap s)) && bool_decide (t ∉ roots s).

Definition disciplined (l : label) (s : System) : bool :=
  match l with
  | Call _ (Run (Some t)) => may_await s t
  | Call _ (Run None) => true
  | Call _ _ => false
  | Step f =>
      match fib s f with
      | Inside _ _ (Exec st) _ =>
          match next st with
          | AwaitTask (Some t) _ => may_await s t
          | Create Generator _ _ | Yield _ _ | AwaitGenerator _ _ => false
          | _ => true
          end
      | _ => true
      end
  | Give _ _ => true
  end.

(** ** What a coroutine computes

    The specification: awaiting a task is calling it, with a result that is kept, and
    awaiting a generator is asking it for one value more. *)

(** A task that has not started, a coroutine that is being evaluated, a task that
    ended with [r], a generator that goes on at [st] when it is asked, one that has
    ended. *)
Inductive cell := Fresh (st : St) | Active | Done (r : result V) | Suspended (st : St) | Ended.

Abbreviation Env := (gmap addr cell).

Definition new_cell (k : kind) (st : St) : cell := match k with Task => Fresh st | Generator => Suspended st end.

Inductive answer := Finished (r : result V) | Yielded (v : V) (st : St).

Inductive Eval : Env → St → Env → answer → Prop :=
| E_return σ st v : next st = Return v → Eval σ st σ (Finished (Value v))
| E_throw σ st e : next st = Throw e → Eval σ st σ (Finished (Rethrow e))
| E_yield σ st v st' : next st = Yield v st' → Eval σ st σ (Yielded v st')
| E_always σ st st' σ' o : next st = AwaitAlways st' → Eval σ st' σ' o → Eval σ st σ' o
| E_create σ st k st0 ret σ' o :
    next st = Create k st0 ret →
    Eval (<[fresh (dom σ):=new_cell k st0]> σ) (ret (fresh (dom σ))) σ' o → Eval σ st σ' o
| E_no_task σ st ret σ' o :
    next st = AwaitTask None ret → Eval σ (ret (Rethrow coro_already_completed)) σ' o → Eval σ st σ' o
| E_task_done σ st t ret r σ' o :
    next st = AwaitTask (Some t) ret → σ !! t = Some (Done r) → Eval σ (ret r) σ' o → Eval σ st σ' o
| E_task σ st t ret st0 σ1 r σ' o :
    next st = AwaitTask (Some t) ret → σ !! t = Some (Fresh st0) →
    Eval (<[t:=Active]> σ) st0 σ1 (Finished r) →
    Eval (<[t:=Done r]> σ1) (ret r) σ' o → Eval σ st σ' o
| E_ended σ st g ret σ' o :
    next st = AwaitGenerator (Some g) ret → σ !! g = Some Ended →
    Eval σ (ret (Rethrow coro_already_completed)) σ' o → Eval σ st σ' o
| E_value σ st g ret st0 σ1 v st1 σ' o :
    next st = AwaitGenerator (Some g) ret → σ !! g = Some (Suspended st0) →
    Eval (<[g:=Active]> σ) st0 σ1 (Yielded v st1) →
    Eval (<[g:=Suspended st1]> σ1) (ret (Value v)) σ' o → Eval σ st σ' o
| E_end σ st g ret st0 σ1 r σ' o :
    next st = AwaitGenerator (Some g) ret → σ !! g = Some (Suspended st0) →
    Eval (<[g:=Active]> σ) st0 σ1 (Finished r) →
    Eval (<[g:=Ended]> σ1) (ret (Rethrow coro_already_completed)) σ' o → Eval σ st σ' o.

(** The sequence of a generator that goes on at [st]: what it yields, until it
    returns or throws. *)
Inductive Yields (g : addr) : Env → St → list V → Env → Prop :=
| Y_end σ st σ1 r : Eval (<[g:=Active]> σ) st σ1 (Finished r) → Yields g σ st [] (<[g:=Ended]> σ1)
| Y_next σ st σ1 v st1 l σ' :
    Eval (<[g:=Active]> σ) st σ1 (Yielded v st1) →
    Yields g (<[g:=Suspended st1]> σ1) st1 l σ' → Yields g σ st (v :: l) σ'.

(** ** What the operations do to the heap *)

Lemma promise_run h p (s : Heap) : s !! h = Some p → promise h s = Ok (p, s).
Proof. intros E. unfold promise. by rewrite E. Qed.

Lemma set_running_run h b p (s : Heap) :
  s !! h = Some p → m_running p = negb b → set_running h b s = Ok (tt, <[h:=with_running b p]> s).
Proof.
  intros E R. unfold set_running. rewrite (bind_Ok _ _ _ _ _ (promise_run h p s E)), R.
  by rewrite (bind_Ok _ _ s s tt) by (apply zth_assert_true; by destruct b).
Qed.

Lemma set_continuation_run h c p (s : Heap) :
  s !! h = Some p → m_continuation p = None ∨ c = None →
  set_continuation h c s = Ok (tt, <[h:=with_continuation c p]> s).
Proof.
  intros E R. unfold set_continuation. rewrite (bind_Ok _ _ _ _ _ (promise_run h p s E)).
  rewrite (bind_Ok _ _ s s tt); [done|]. apply zth_assert_true.
  destruct R as [->| ->]; rewrite ?(bool_decide_true (None = None)) by done; by rewrite ?orb_true_r.
Qed.

Lemma continuation_run h p (s : Heap) :
  s !! h = Some p → continuation h s = Ok (default Noop (m_continuation p), <[h:=with_continuation None p]> s).
Proof.
  intros E. unfold continuation. rewrite (bind_Ok _ _ _ _ _ (promise_run h p s E)).
  by rewrite (bind_Ok _ _ _ _ _ (set_continuation_run h None p s E (or_intror eq_refl))).
Qed.

Lemma suspend_run h c p (s : Heap) :
  s !! h = Some p → m_running p = true →
  suspend h c s = Ok (tt, <[h:=mkPromise false (m_continuation p) (Some c) (self p)]> s).
Proof.
  intros E R. unfold suspend. rewrite (bind_Ok _ _ _ _ _ (promise_run h p s E)). erewrite bind_Ok by reflexivity.
  rewrite (set_running_run h false (with_frame (Some c) p)) by first [apply lookup_insert_eq|done]. by rewrite insert_insert_eq.
Qed.

Lemma resume_run h c p (s : Heap) :
  s !! h = Some p → frame p = Some c → m_running p = false →
  resume h s = Ok (Running h c, <[h:=mkPromise true (m_continuation p) None (self p)]> s).
Proof.
  intros E F R. unfold resume. rewrite (bind_Ok _ _ _ _ _ (promise_run h p s E)), F.
  erewrite bind_Ok by reflexivity.
  rewrite (bind_Ok _ _ _ _ _ (set_running_run h true (with_frame None p) (<[h:=with_frame None p]> s)
    (lookup_insert_eq _ _ _) R)).
  by rewrite insert_insert_eq.
Qed.

Lemma mailbox_run g p m c (s : Heap) :
  s !! g = Some p → self p = generator_promise m c → mailbox g s = Ok (m, s).
Proof. intros E F. unfold mailbox. by rewrite (bind_Ok _ _ _ _ _ (promise_run g p s E)), F. Qed.

Lemma set_mailbox_run g p m c m' (s : Heap) :
  s !! g = Some p → self p = generator_promise m c →
  set_mailbox g m' s = Ok (tt, <[g:=with_self (generator_promise m' c) p]> s).
Proof.
  intros E F. unfold set_mailbox. rewrite (bind_Ok _ _ _ _ _ (promise_run g p s E)). unfold completed. by rewrite F.
Qed.

Lemma with_future_run {A} t p o (m : M (Obj (Optional V)) A) a o' (s : Heap) :
  s !! t = Some p → self p = task_promise o → m o = Ok (a, o') →
  with_future t m s = Ok (a, <[t:=with_self (task_promise o') p]> s).
Proof.
  intros E F R. unfold with_future, future. rewrite (bind_Ok _ _ _ _ _ (promise_run t p s E)).
  rewrite bind_assoc, (bind_Ok _ _ _ _ _ (promise_run t p s E)), F. by rewrite bind_ret, R.
Qed.


(** *** Tasks *)

(** A future with [ql] waiting fibers and [w] woken ones, that was set to [sr]. *)
Abbreviation future_is ql w sr := (mkObj [ql] w (Future.filled sr)).

Lemma await_fresh_run h p t ret st0 (s : Heap) :
  s !! h = Some p → m_running p = true → s !! t = Some (new_promise t Task st0) → t ≠ h →
  await_task h (Some t) ret s =
    Ok (Running t (Exec st0),
        <[t:=mkPromise true (Some (Handle h)) None (task_promise new_future)]>
          (<[h:=mkPromise false (m_continuation p) (Some (TaskResume (Some t) ret)) (self p)]> s)).
Proof.
  intros Eh R Et N. unfold await_task, task_await_ready.
  rewrite bind_assoc, (bind_Ok _ _ _ _ _ (promise_run t _ s Et)), bind_ret.
  change (completed _ || running _) with false. cbn iota. rewrite (bind_Ok _ _ _ _ _ (suspend_run h _ p s Eh R)).
  unfold task_await_suspend. set (s1 := <[h:=_]> s).
  assert (s1 !! t = Some (new_promise t Task st0)) as Et1 by by (unfold s1; rewrite lookup_insert_ne).
  rewrite bind_assoc, (bind_Ok _ _ _ _ _ (promise_run t _ s1 Et1)).
  rewrite bind_assoc, (bind_Ok _ _ s1 s1 tt) by by apply zth_assert_true.
  rewrite bind_assoc, (bind_Ok _ _ _ _ _ (set_continuation_run t _ _ s1 Et1 (or_introl eq_refl))), bind_ret.
  simpl transfer. erewrite resume_run; [|apply lookup_insert_eq|done|done]. by rewrite insert_insert_eq.
Qed.

(** To the continuation. *)
Lemma hand_over_run t pt h c p (s : Heap) :
  s !! t = Some pt → m_continuation pt = Some (Handle h) →
  s !! h = Some p → frame p = Some c → m_running p = false → t ≠ h →
  (k ← continuation t; transfer k) s =
    Ok (Running h c, <[h:=mkPromise true (m_continuation p) None (self p)]> (<[t:=with_continuation None pt]> s)).
Proof.
  intros Et C Eh F R N. rewrite (bind_Ok _ _ _ _ _ (continuation_run t pt s Et)), C. simpl transfer.
  by erewrite resume_run; [|by rewrite lookup_insert_ne|done|done].
Qed.

Lemma task_return_run t b k fr ql w r (s : Heap) :
  s !! t = Some (mkPromise b k fr (task_promise (future_is ql w None))) →
  return_value t r s = Ok (tt, <[t:=mkPromise b k fr (task_promise (future_is [] (w ++ ql) (Some r)))]> s).
Proof.
  intros Et. unfold return_value. rewrite (bind_Ok _ _ _ _ _ (promise_run t _ s Et)).
  cbn [self].
  by rewrite (with_future_run t _ _ _ _ _ s Et eq_refl (Future.set_run r ql w)).
Qed.

Lemma task_final_run t k fr o (s : Heap) :
  s !! t = Some (mkPromise true k fr (task_promise o)) →
  final_suspend t s =
    (c ← continuation t; transfer c) (<[t:=mkPromise false k fr (task_promise o)]> s).
Proof.
  intros Et. unfold final_suspend. rewrite (bind_Ok _ _ _ _ _ (promise_run t _ s Et)). cbn [self]. rewrite bind_ret.
  by rewrite (bind_Ok _ _ _ _ _ (set_running_run t false _ s Et eq_refl)).
Qed.

(** A task that was awaited by [h] ends. *)
Lemma task_end_run t ql w h c p r (s : Heap) :
  s !! t = Some (mkPromise true (Some (Handle h)) None (task_promise (future_is ql w None))) →
  s !! h = Some p → frame p = Some c → m_running p = false → t ≠ h →
  (return_value t r;; final_suspend t) s =
    Ok (Running h c,
        <[h:=mkPromise true (m_continuation p) None (self p)]>
          (<[t:=mkPromise false None None (task_promise (future_is [] (w ++ ql) (Some r)))]> s)).
Proof.
  intros Et Eh F R N. rewrite (bind_Ok _ _ _ _ _ (task_return_run t _ _ _ ql w r s Et)).
  rewrite (task_final_run _ _ _ _ _ (lookup_insert_eq _ _ _)), insert_insert_eq.
  rewrite (hand_over_run t _ h c p) by first [apply lookup_insert_eq|done|by rewrite lookup_insert_ne].
  by rewrite insert_insert_eq.
Qed.

Lemma task_result_run f t p ql w r (s : Heap) :
  s !! t = Some p → self p = task_promise (future_is ql w (Some r)) →
  task_result f (Some t) s = Ok (Some r, s).
Proof.
  intros Et F. unfold task_result.
  assert (Future.wait f (future_is ql w (Some r)) = Ok (true, future_is ql w (Some r))) as W by by destruct r.
  assert (<[t:=with_self (task_promise (future_is ql w (Some r))) p]> s = s) as I.
  { apply insert_id. rewrite Et. unfold with_self. rewrite <-F. by destruct p. }
  rewrite (bind_Ok _ _ _ _ _ (with_future_run t p _ _ _ _ s Et F W)), I.
  by rewrite (bind_Ok _ _ _ _ _ (with_future_run t p _ _ _ _ s Et F (Future.value_run r w ql))), I.
Qed.


Lemma task_resume_run f h t ret p ql w r (s : Heap) :
  s !! t = Some p → self p = task_promise (future_is ql w (Some r)) →
  exec f h (TaskResume (Some t) ret) s = Ok (Running h (Exec (ret r)), s).
Proof. intros Et F. unfold exec. by rewrite (bind_Ok _ _ _ _ _ (task_result_run f t p ql w r s Et F)). Qed.

(** *** Generators *)

(** A generator at [st] that is suspended and not awaited, with nothing in its mailbox. *)
Definition at_yield (g : addr) (st : St) (a : option taker) : Promise :=
  mkPromise false None (Some (Exec st)) (generator_promise (mkMailbox None a [] [] (Some g) nullptr) false).

(** The same generator, when it executes for [k], and [q] waits for the value. *)
Definition generating (g : addr) (a : option taker) (k : option cont) (q : list taker) : Promise :=
  mkPromise true k None (generator_promise (mkMailbox None a [] q (Some g) nullptr) false).

Definition after_end (a : option taker) (w : ptr) : Promise :=
  mkPromise false None None (generator_promise (mkMailbox None a [] [] nullptr w) true).

Lemma await_generator_run h p g ret st a (s : Heap) :
  s !! h = Some p → m_running p = true → s !! g = Some (at_yield g st a) → g ≠ h →
  await_generator h (Some g) ret s =
    Ok (Running g (Exec st),
        <[g:=generating g a None [CoroTaker h]]>
          (<[h:=mkPromise false (m_continuation p) (Some (MailboxResume g (Some h) ret)) (self p)]> s)).
Proof.
  intros Eh R Eg N. unfold await_generator, mb_await_ready.
  rewrite bind_assoc, (bind_Ok _ _ _ _ _ (mailbox_run g _ _ _ s Eg eq_refl)).
  change (mb_abandoned _ || mb_valid_for _ _) with false. cbn [m_owner]. rewrite bind_assoc.
  rewrite (bind_Ok _ _ _ _ _ (promise_run g _ s Eg)), bind_ret. change (running _) with false. cbn iota.
  rewrite (bind_Ok _ _ _ _ _ (suspend_run h _ p s Eh R)). unfold mb_await_suspend, mb_wait_coro.
  set (s1 := <[h:=_]> s).
  assert (s1 !! g = Some (at_yield g st a)) as Eg1 by by (unfold s1; rewrite lookup_insert_ne).
  rewrite !bind_assoc, (bind_Ok _ _ _ _ _ (mailbox_run g _ _ _ s1 Eg1 eq_refl)).
  rewrite (bind_Ok _ _ _ _ _ (set_mailbox_run g _ _ _ _ s1 Eg1 eq_refl)).
  rewrite bind_assoc. erewrite bind_Ok by (eapply mailbox_run; [apply lookup_insert_eq|done]).
  cbn [m_owner with_take]. rewrite bind_ret. simpl transfer.
  erewrite resume_run; [|apply lookup_insert_eq|done|done]. by rewrite insert_insert_eq.
Qed.

(** [wakeup] of the coroutine that waits. *)
Lemma mb_wakeup_coro_run g h p a v q w c (s : Heap) :
  s !! g = Some p → m_continuation p = None →
  self p = generator_promise (mkMailbox v a [] q (Some g) w) c →
  mb_wakeup g (CoroTaker h) s =
    Ok (tt, <[g:=mkPromise (m_running p) (Some (Handle h)) (frame p)
                   (generator_promise (mkMailbox v (Some (CoroTaker h)) [] q (Some g) (Some h)) c)]> s).
Proof.
  intros Eg C F. unfold mb_wakeup.
  rewrite !bind_assoc, (bind_Ok _ _ _ _ _ (mailbox_run g _ _ _ s Eg F)).
  rewrite bind_assoc, (bind_Ok _ _ _ _ _ (set_mailbox_run g _ _ _ _ s Eg F)). cbn [m_owner].
  erewrite bind_Ok by (apply set_continuation_run; [apply lookup_insert_eq|by left]).
  rewrite insert_insert_eq. erewrite bind_Ok by (eapply mailbox_run; [apply lookup_insert_eq|reflexivity]).
  erewrite set_mailbox_run by first [apply lookup_insert_eq|reflexivity]. by rewrite insert_insert_eq.
Qed.

(** The put of a value that [h] waits for. *)
Lemma mb_put_coro_run f g h a v (s : Heap) :
  s !! g = Some (generating g a None [CoroTaker h]) →
  mb_put f g v s =
    Ok (true, <[g:=mkPromise true (Some (Handle h)) None
                 (generator_promise (mkMailbox (Some v) (Some (CoroTaker h)) [] [] (Some g) (Some h)) false)]> s).
Proof.
  intros Eg. unfold mb_put. rewrite (bind_Ok _ _ _ _ _ (mailbox_run g _ _ _ s Eg eq_refl)).
  change (mb_valid _) with false. cbn iota.
  rewrite (bind_Ok _ _ _ _ _ (set_mailbox_run g _ _ _ _ s Eg eq_refl)). unfold mb_unblock_first.
  rewrite bind_assoc. erewrite bind_Ok by (eapply mailbox_run; [apply lookup_insert_eq|reflexivity]).
  cbn [queue_take with_value]. rewrite bind_assoc.
  erewrite bind_Ok by (eapply set_mailbox_run; [apply lookup_insert_eq|reflexivity]). rewrite insert_insert_eq.
  erewrite bind_Ok by (eapply mb_wakeup_coro_run; [apply lookup_insert_eq|reflexivity|reflexivity]).
  by rewrite insert_insert_eq.
Qed.

(** A generator yields to the coroutine [h], which resumes. *)
Lemma yield_to_run f g h p c a v st again (s : Heap) :
  s !! g = Some (generating g a None [CoroTaker h]) →
  s !! h = Some p → frame p = Some c → m_running p = false → g ≠ h →
  yield_value f g v st again s =
    Ok (Running h c,
        <[h:=mkPromise true (m_continuation p) None (self p)]>
          (<[g:=mkPromise false None (Some (Exec st))
                 (generator_promise (mkMailbox (Some v) (Some (CoroTaker h)) [] [] (Some g) (Some h)) false)]> s)).
Proof.
  intros Eg Eh F R N. unfold yield_value. rewrite (bind_Ok _ _ _ _ _ (mb_put_coro_run f g h a v s Eg)). cbn iota.
  erewrite bind_Ok by apply promise_run, lookup_insert_eq. change (has_continuation _) with true. cbn iota.
  erewrite bind_Ok by (apply suspend_run; [apply lookup_insert_eq|reflexivity]). rewrite insert_insert_eq.
  rewrite (hand_over_run g _ h c p) by first [apply lookup_insert_eq|done|by rewrite lookup_insert_ne].
  by rewrite insert_insert_eq.
Qed.

Lemma mailbox_resume_value_run f h g ret st v (s : Heap) :
  s !! g = Some (mkPromise false None (Some (Exec st))
                   (generator_promise (mkMailbox (Some v) (Some (CoroTaker h)) [] [] (Some g) (Some h)) false)) →
  mb_await_resume f h g (Some h) ret s =
    Ok (Running h (Exec (ret (Value v))), <[g:=at_yield g st (Some (CoroTaker h))]> s).
Proof.
  intros Eg. unfold mb_await_resume. rewrite (bind_Ok _ _ _ _ _ (mailbox_run g _ _ _ s Eg eq_refl)).
  assert (mb_valid_for (CoroTaker <$> Some h)
    (mkMailbox (Some v) (Some (CoroTaker h)) [] [] (Some g) (Some h)) = true) as -> by by (unfold mb_valid_for; simpl; rewrite bool_decide_true).
  unfold mb_take_coro. rewrite bind_assoc, (bind_Ok _ _ _ _ _ (mailbox_run g _ _ _ s Eg eq_refl)).
  assert (ptr_eqb (Some h) (Some h) = true) as Q by by apply bool_decide_true. cbn [m_waiter]. rewrite Q. unfold when.
  rewrite bind_assoc. erewrite bind_Ok by (eapply set_mailbox_run; [exact Eg|reflexivity]).
  unfold mb_take_value. rewrite bind_assoc. erewrite bind_Ok by (eapply mailbox_run; [apply lookup_insert_eq|reflexivity]).
  cbn [m_value with_waiter]. unfold mb_take_finalize. rewrite !bind_assoc.
  erewrite bind_Ok by (eapply mailbox_run; [apply lookup_insert_eq|reflexivity]).
  erewrite bind_Ok by (eapply set_mailbox_run; [apply lookup_insert_eq|reflexivity]).
  by rewrite insert_insert_eq.
Qed.


(** The generator returns or throws, and [k] is its continuation. *)
Lemma gen_return_run g b k fr m c r (s : Heap) :
  s !! g = Some (mkPromise b k fr (generator_promise m c)) →
  return_value g r s = Ok (tt, <[g:=mkPromise b k fr (generator_promise m true)]> s).
Proof. intros Eg. unfold return_value. by rewrite (bind_Ok _ _ _ _ _ (promise_run g _ s Eg)). Qed.

Lemma mb_abandon_run g b k fr a w (s : Heap) :
  s !! g = Some (mkPromise b k fr (generator_promise (mkMailbox None a [] [] (Some g) w) true)) →
  mb_abandon g s = Ok (tt, <[g:=mkPromise b k fr (generator_promise (mkMailbox None a [] [] nullptr w) true)]> s).
Proof.
  intros Eg. unfold mb_abandon. rewrite (bind_Ok _ _ _ _ _ (mailbox_run g _ _ _ s Eg eq_refl)).
  cbn [queue_take mb_wake_all]. rewrite bind_ret, (bind_Ok _ _ _ _ _ (mailbox_run g _ _ _ s Eg eq_refl)).
  by rewrite (set_mailbox_run g _ _ _ _ s Eg eq_refl).
Qed.

(** The coroutine that waits becomes the continuation. *)
Lemma mb_abandon_coro_run g b fr h a w (s : Heap) :
  s !! g = Some (mkPromise b None fr (generator_promise (mkMailbox None a [] [CoroTaker h] (Some g) w) true)) →
  mb_abandon g s =
    Ok (tt, <[g:=mkPromise b (Some (Handle h)) fr
                  (generator_promise (mkMailbox None (Some (CoroTaker h)) [] [] nullptr (Some h)) true)]> s).
Proof.
  intros Eg. unfold mb_abandon. rewrite (bind_Ok _ _ _ _ _ (mailbox_run g _ _ _ s Eg eq_refl)).
  cbn [queue_take mb_wake_all].
  rewrite !bind_assoc, (bind_Ok _ _ _ _ _ (mailbox_run g _ _ _ s Eg eq_refl)).
  rewrite bind_assoc, (bind_Ok _ _ _ _ _ (set_mailbox_run g _ _ _ _ s Eg eq_refl)). rewrite bind_assoc.
  erewrite bind_Ok by (eapply mb_wakeup_coro_run; [apply lookup_insert_eq|reflexivity|reflexivity]).
  rewrite insert_insert_eq, bind_ret.
  erewrite bind_Ok by (eapply mailbox_run; [apply lookup_insert_eq|reflexivity]).
  erewrite set_mailbox_run by first [apply lookup_insert_eq|reflexivity]. by rewrite insert_insert_eq.
Qed.

Lemma gen_final_run g k m s1 k' m' (s : Heap) :
  s !! g = Some (mkPromise true k None (generator_promise m true)) →
  mb_abandon g s = Ok (tt, <[g:=mkPromise true k' None (generator_promise m' true)]> s) →
  s1 = <[g:=mkPromise false k' None (generator_promise m' true)]> s →
  final_suspend g s = (c ← continuation g; transfer c) s1.
Proof.
  intros Eg A ->. unfold final_suspend. rewrite (bind_Ok _ _ _ _ _ (promise_run g _ s Eg)). cbn [self].
  rewrite (bind_Ok _ _ _ _ _ A).
  erewrite bind_Ok by (apply set_running_run; [apply lookup_insert_eq|reflexivity]). by rewrite insert_insert_eq.
Qed.

Lemma gen_end_coro_run g h p c a r (s : Heap) :
  s !! g = Some (generating g a None [CoroTaker h]) →
  s !! h = Some p → frame p = Some c → m_running p = false → g ≠ h →
  (return_value g r;; final_suspend g) s =
    Ok (Running h c,
        <[h:=mkPromise true (m_continuation p) None (self p)]> (<[g:=after_end (Some (CoroTaker h)) (Some h)]> s)).
Proof.
  intros Eg Eh F R N. rewrite (bind_Ok _ _ _ _ _ (gen_return_run g _ _ _ _ _ r s Eg)).
  erewrite gen_final_run; [|apply lookup_insert_eq|eapply mb_abandon_coro_run, lookup_insert_eq|reflexivity].
  rewrite !insert_insert_eq.
  rewrite (hand_over_run g _ h c p) by first [apply lookup_insert_eq|done|by rewrite lookup_insert_ne].
  by rewrite insert_insert_eq.
Qed.

Lemma mailbox_resume_ended_run f h g ret p a w wt (s : Heap) :
  s !! g = Some p → self p = generator_promise (mkMailbox None a [] [] nullptr w) true →
  mb_await_resume f h g wt ret s = Ok (Running h (Exec (ret (Rethrow coro_already_completed))), s).
Proof. intros Eg F. unfold mb_await_resume. by rewrite (bind_Ok _ _ _ _ _ (mailbox_run g _ _ _ s Eg F)). Qed.

Lemma await_ended_run h g ret p a w (s : Heap) :
  s !! g = Some p → self p = generator_promise (mkMailbox None a [] [] nullptr w) true →
  await_generator h (Some g) ret s = Ok (Running h (MailboxResume g nullptr ret), s).
Proof.
  intros Eg F. unfold await_generator, mb_await_ready.
  by rewrite bind_assoc, (bind_Ok _ _ _ _ _ (mailbox_run g _ _ _ s Eg F)).
Qed.

(** *** The generator, for a fiber that asks for the next value *)

Lemma yield_noop_run f g a v st again (s : Heap) :
  s !! g = Some (generating g a (Some Noop) []) →
  yield_value f g v st again s =
    Ok (Returned,
        <[g:=mkPromise false None (Some (Exec st)) (generator_promise (mkMailbox (Some v) a [] [] (Some g) nullptr) false)]> s).
Proof.
  intros Eg. unfold yield_value, mb_put. rewrite bind_assoc, (bind_Ok _ _ _ _ _ (mailbox_run g _ _ _ s Eg eq_refl)).
  change (mb_valid _) with false. cbn iota. rewrite bind_assoc.
  rewrite (bind_Ok _ _ _ _ _ (set_mailbox_run g _ _ _ _ s Eg eq_refl)). unfold mb_unblock_first.
  rewrite !bind_assoc. erewrite bind_Ok by (eapply mailbox_run; [apply lookup_insert_eq|reflexivity]).
  cbn [queue_take with_value]. rewrite !bind_ret.
  erewrite bind_Ok by apply promise_run, lookup_insert_eq. change (has_continuation _) with true. cbn iota.
  erewrite bind_Ok by (apply suspend_run; [apply lookup_insert_eq|reflexivity]). rewrite insert_insert_eq.
  erewrite bind_Ok by apply continuation_run, lookup_insert_eq. by rewrite insert_insert_eq.
Qed.

Lemma gen_end_noop_run g a r (s : Heap) :
  s !! g = Some (generating g a (Some Noop) []) →
  (return_value g r;; final_suspend g) s = Ok (Returned, <[g:=after_end a nullptr]> s).
Proof.
  intros Eg. rewrite (bind_Ok _ _ _ _ _ (gen_return_run g _ _ _ _ _ r s Eg)).
  erewrite gen_final_run; [|apply lookup_insert_eq|eapply mb_abandon_run, lookup_insert_eq|reflexivity].
  rewrite !insert_insert_eq. erewrite bind_Ok by apply continuation_run, lookup_insert_eq. by rewrite insert_insert_eq.
Qed.

Lemma take_value_run f g v p fr (s : Heap) :
  s !! g = Some (mkPromise false None fr (generator_promise (mkMailbox (Some v) None [] [] (Some g) p) false)) →
  mb_take_fiber f g s =
    Ok (Some (Value v), <[g:=mkPromise false None fr (generator_promise (mkMailbox None None [] [] (Some g) p) false)]> s).
Proof.
  intros Eg. unfold mb_take_fiber. rewrite (bind_Ok _ _ _ _ _ (mailbox_run g _ _ _ s Eg eq_refl)).
  change (mb_valid_for _ _) with true. cbn iota. unfold mb_take_value.
  rewrite bind_assoc, (bind_Ok _ _ _ _ _ (mailbox_run g _ _ _ s Eg eq_refl)). cbn [m_value]. unfold mb_take_finalize.
  rewrite !bind_assoc, (bind_Ok _ _ _ _ _ (mailbox_run g _ _ _ s Eg eq_refl)).
  by rewrite (bind_Ok _ _ _ _ _ (set_mailbox_run g _ _ _ _ s Eg eq_refl)).
Qed.


(** ** The coroutines compute what the specification says *)

Definition cell_rel (x : addr) (c : cell) (p : Promise) : Prop :=
  match c with
  | Fresh st => p = new_promise x Task st
  | Active => True
  | Done r => ∃ w, p = mkPromise false None None (task_promise (future_is [] w (Some r)))
  | Suspended st => ∃ a, p = at_yield x st a
  | Ended => ∃ a w, p = after_end a w
  end.

Definition represents (s : Heap) (σ : Env) : Prop := ∀ x, option_Forall2 (cell_rel x) (σ !! x) (s !! x).

(** What is active in [σ] is still so in [σ'], and was put back as it was. *)
Definition keeps (σ : Env) (s : Heap) (σ' : Env) (s' : Heap) : Prop :=
  ∀ x, σ !! x = Some Active → σ' !! x = Some Active ∧ s' !! x = s !! x.

Lemma represents_lookup s σ x c : represents s σ → σ !! x = Some c → ∃ p, s !! x = Some p ∧ cell_rel x c p.
Proof. intros R E. specialize (R x). rewrite E in R. inversion R. eauto. Qed.

Lemma represents_insert s σ x c p : represents s σ → cell_rel x c p → represents (<[x:=p]> s) (<[x:=c]> σ).
Proof.
  intros R C y. destruct (decide (y = x)) as [->|]; [rewrite !lookup_insert_eq; by constructor|].
  rewrite !lookup_insert_ne by done. apply R.
Qed.

Lemma represents_active s σ x p : represents s σ → σ !! x = Some Active → represents (<[x:=p]> s) σ.
Proof. intros R E. rewrite <-(insert_id σ x Active) by done. by apply represents_insert. Qed.

Lemma represents_dom s σ : represents s σ → dom s = dom σ.
Proof.
  intros R. apply set_eq. intros x. rewrite !elem_of_dom. specialize (R x).
  by inversion R; subst; split; intros [? ?].
Qed.

Lemma keeps_refl σ s : keeps σ s σ s.
Proof. by intros x E. Qed.

Lemma keeps_trans σ1 s1 σ2 s2 σ3 s3 : keeps σ1 s1 σ2 s2 → keeps σ2 s2 σ3 s3 → keeps σ1 s1 σ3 s3.
Proof. intros K1 K2 x [E1 Q1]%K1. destruct (K2 x E1) as [E2 Q2]. split; [done|]. by rewrite Q2. Qed.

Lemma keeps_insert σ s x c p : σ !! x ≠ Some Active → keeps σ s (<[x:=c]> σ) (<[x:=p]> s).
Proof. intros N y E. rewrite !lookup_insert_ne by congruence. done. Qed.

(** While [h] awaits [t], which was not active before, [t] is evaluated; then [t] is
    what [c'] says, and [h] is again what it was. *)
Lemma visit σ s h p t pt ph c c' pt' σ1 s3 :
  represents s σ → σ !! h = Some Active → s !! h = Some p → σ !! t = Some c → c ≠ Active →
  keeps (<[t:=Active]> σ) (<[t:=pt]> (<[h:=ph]> s)) σ1 s3 → represents s3 σ1 → cell_rel t c' pt' →
  represents (<[h:=p]> (<[t:=pt']> s3)) (<[t:=c']> σ1) ∧
  keeps σ s (<[t:=c']> σ1) (<[h:=p]> (<[t:=pt']> s3)) ∧
  s3 !! t = Some pt ∧ s3 !! h = Some ph ∧ t ≠ h ∧ (<[t:=c']> σ1) !! h = Some Active.
Proof.
  intros R Ah Eh Et Nc K R3 C. assert (t ≠ h) as N by congruence.
  destruct (K t) as [At Qt]; [apply lookup_insert_eq|].
  destruct (K h) as [Ah1 Qh]; [by rewrite lookup_insert_ne|].
  rewrite lookup_insert_eq in Qt. rewrite lookup_insert_ne, lookup_insert_eq in Qh by done.
  assert ((<[t:=c']> σ1) !! h = Some Active) as A2 by by rewrite lookup_insert_ne.
  split_and!; [apply represents_active; [by apply represents_insert|done]| |done..].
  intros x Ax. assert (x ≠ t) as Nx by congruence.
  destruct (K x) as [Ax1 Qx]; [by rewrite lookup_insert_ne|]. rewrite lookup_insert_ne by done. split; [done|].
  destruct (decide (x = h)) as [->|]; [by rewrite lookup_insert_eq|].
  rewrite !lookup_insert_ne in * by done. done.
Qed.

Lemma represents_visit s σ h t pt ph :
  represents s σ → σ !! h = Some Active → t ≠ h → represents (<[t:=pt]> (<[h:=ph]> s)) (<[t:=Active]> σ).
Proof. intros R A N. apply represents_insert; [by apply represents_active|done]. Qed.

(** The fiber [f] goes on in a coroutine. *)
Definition tstep (f : addr) : relation (addr * code * Heap) := λ '(h, c, s) '(h', c', s'),
  exec f h c s = Ok (Running h' c', s').

Lemma step_then f h c s h1 c1 s1 y :
  exec f h c s = Ok (Running h1 c1, s1) → rtc (tstep f) (h1, c1, s1) y → rtc (tstep f) (h, c, s) y.
Proof. intros E. by apply (rtc_l (tstep f) _ (h1, c1, s1)). Qed.

Lemma step_once f h c s h1 c1 s1 :
  exec f h c s = Ok (Running h1 c1, s1) → rtc (tstep f) (h, c, s) (h1, c1, s1).
Proof. intros E. by eapply step_then. Qed.

(** What evaluation ends with is what the coroutine does next. *)
Definition ends (st : St) (o : answer) : Prop :=
  match o with
  | Finished (Value v) => next st = Return v
  | Finished (Rethrow e) => next st = Throw e
  | Yielded v st' => next st = Yield v st'
  end.

Lemma finish_run f h st r : ends st (Finished r) → exec_op f h st = (return_value h r;; final_suspend h).
Proof. unfold exec_op. destruct r; simpl; by intros ->. Qed.

Lemma yielded_run f g st v st' : ends st (Yielded v st') → exec_op f g st = yield_value f g v st' (Exec st).
Proof. unfold exec_op. simpl. by intros ->. Qed.

Lemma promise_eta p : m_running p = true → frame p = None → mkPromise true (m_continuation p) None (self p) = p.
Proof. destruct p. simpl. congruence. Qed.


(** What the induction shows of an evaluation. *)
Definition runs_to (f : addr) (σ : Env) (st : St) (σ' : Env) (o : answer) : Prop := ∀ s h p,
  represents s σ → σ !! h = Some Active → s !! h = Some p → m_running p = true → frame p = None →
  ∃ s' st', rtc (tstep f) (h, Exec st, s) (h, Exec st', s') ∧ ends st' o ∧ represents s' σ' ∧ keeps σ s σ' s'.

Lemma runs_to_end f σ st o : ends st o → runs_to f σ st σ o.
Proof. intros E s h p R A Eh _ _. exists s, st. split_and!; [by constructor|done|done|apply keeps_refl]. Qed.

(** Steps of the coroutine itself, to a state that keeps it. *)
Lemma runs_to_steps f σ st σ1 st1 σ' o :
  (∀ s h p, represents s σ → σ !! h = Some Active → s !! h = Some p → m_running p = true → frame p = None →
     ∃ s1, rtc (tstep f) (h, Exec st, s) (h, Exec st1, s1) ∧ represents s1 σ1 ∧ keeps σ s σ1 s1) →
  runs_to f σ1 st1 σ' o → runs_to f σ st σ' o.
Proof.
  intros St1 IH s h p R A Eh Rn Fr. destruct (St1 s h p R A Eh Rn Fr) as (s1 & S1 & R1 & K1).
  destruct (K1 h A) as [A1 Q1]. rewrite Eh in Q1.
  destruct (IH s1 h p R1 A1 Q1 Rn Fr) as (s' & st' & S' & E' & R' & K').
  exists s', st'. split_and!; [by etrans|done|done|by eapply keeps_trans].
Qed.

Lemma runs_to_task f σ st t ret st0 σ1 r σ' o :
  next st = AwaitTask (Some t) ret → σ !! t = Some (Fresh st0) →
  runs_to f (<[t:=Active]> σ) st0 σ1 (Finished r) →
  runs_to f (<[t:=Done r]> σ1) (ret r) σ' o → runs_to f σ st σ' o.
Proof.
  intros E Et IH1. apply runs_to_steps. intros s h p R A Eh Rn Fr.
  assert (t ≠ h) as N by congruence.
  destruct (represents_lookup _ _ _ _ R Et) as (pt & Ept & ->).
  pose proof (await_fresh_run h p t ret st0 s Eh Rn Ept N) as S0.
  match type of S0 with _ = Ok (_, ?s2) => assert (represents s2 (<[t:=Active]> σ)) as R2 by by apply represents_visit end.
  destruct (IH1 _ t _ R2 (lookup_insert_eq _ _ _) (lookup_insert_eq _ _ _) eq_refl eq_refl) as (s3 & st3 & S3 & E3 & R3 & K3).
  destruct (visit σ s h p t _ _ _ (Done r) (mkPromise false None None (task_promise (future_is [] ([] ++ []) (Some r)))) σ1 s3
    R A Eh Et ltac:(done) K3 R3 ltac:(by eexists)) as (R4 & K4 & Et3 & Eh3 & _ & _).
  exists (<[h:=p]> (<[t:=mkPromise false None None (task_promise (future_is [] ([] ++ []) (Some r)))]> s3)).
  split; [|done].
  eapply step_then; [simpl; unfold exec_op; rewrite E; exact S0|]. etrans; [exact S3|].
  eapply step_then; [simpl; rewrite (finish_run f t _ _ E3); by apply (task_end_run t [] [] h _ _ r s3 Et3 Eh3)|].
  simpl m_continuation. simpl self. rewrite promise_eta by done.
  apply step_once. eapply task_resume_run; [by rewrite lookup_insert_ne by done; apply lookup_insert_eq|reflexivity].
Qed.

Lemma runs_to_value f σ st g ret st0 σ1 v st1 σ' o :
  next st = AwaitGenerator (Some g) ret → σ !! g = Some (Suspended st0) →
  runs_to f (<[g:=Active]> σ) st0 σ1 (Yielded v st1) →
  runs_to f (<[g:=Suspended st1]> σ1) (ret (Value v)) σ' o → runs_to f σ st σ' o.
Proof.
  intros E Eg IH1. apply runs_to_steps. intros s h p R A Eh Rn Fr.
  assert (g ≠ h) as N by congruence.
  destruct (represents_lookup _ _ _ _ R Eg) as (pg & Epg & a & ->).
  pose proof (await_generator_run h p g ret st0 a s Eh Rn Epg N) as S0.
  match type of S0 with _ = Ok (_, ?s2) => assert (represents s2 (<[g:=Active]> σ)) as R2 by by apply represents_visit end.
  destruct (IH1 _ g _ R2 (lookup_insert_eq _ _ _) (lookup_insert_eq _ _ _) eq_refl eq_refl) as (s3 & st3 & S3 & E3 & R3 & K3).
  destruct (visit σ s h p g _ _ _ (Suspended st1) (at_yield g st1 (Some (CoroTaker h))) σ1 s3
    R A Eh Eg ltac:(done) K3 R3 ltac:(by eexists)) as (R4 & K4 & Eg3 & Eh3 & _ & _).
  eexists. split; [|exact (conj R4 K4)].
  eapply step_then; [simpl; unfold exec_op; rewrite E; exact S0|]. etrans; [exact S3|].
  eapply step_then; [simpl; rewrite (yielded_run f g _ _ _ E3); by eapply (yield_to_run f g h _ _ a v st1 _ s3 Eg3 Eh3)|].
  simpl m_continuation. simpl self. rewrite promise_eta by done.
  apply step_once. simpl. erewrite mailbox_resume_value_run; [|by rewrite lookup_insert_ne by done; apply lookup_insert_eq].
  do 2 f_equal. rewrite (insert_insert_ne _ g h) by done. by rewrite insert_insert_eq.
Qed.

Lemma runs_to_gen_end f σ st g ret st0 σ1 r σ' o :
  next st = AwaitGenerator (Some g) ret → σ !! g = Some (Suspended st0) →
  runs_to f (<[g:=Active]> σ) st0 σ1 (Finished r) →
  runs_to f (<[g:=Ended]> σ1) (ret (Rethrow coro_already_completed)) σ' o → runs_to f σ st σ' o.
Proof.
  intros E Eg IH1. apply runs_to_steps. intros s h p R A Eh Rn Fr.
  assert (g ≠ h) as N by congruence.
  destruct (represents_lookup _ _ _ _ R Eg) as (pg & Epg & a & ->).
  pose proof (await_generator_run h p g ret st0 a s Eh Rn Epg N) as S0.
  match type of S0 with _ = Ok (_, ?s2) => assert (represents s2 (<[g:=Active]> σ)) as R2 by by apply represents_visit end.
  destruct (IH1 _ g _ R2 (lookup_insert_eq _ _ _) (lookup_insert_eq _ _ _) eq_refl eq_refl) as (s3 & st3 & S3 & E3 & R3 & K3).
  destruct (visit σ s h p g _ _ _ Ended (after_end (Some (CoroTaker h)) (Some h)) σ1 s3
    R A Eh Eg ltac:(done) K3 R3 ltac:(by eexists _, _)) as (R4 & K4 & Eg3 & Eh3 & _ & _).
  eexists. split; [|exact (conj R4 K4)].
  eapply step_then; [simpl; unfold exec_op; rewrite E; exact S0|]. etrans; [exact S3|].
  eapply step_then; [simpl; rewrite (finish_run f g _ _ E3); by eapply (gen_end_coro_run g h _ _ a r s3 Eg3 Eh3)|].
  simpl m_continuation. simpl self. rewrite promise_eta by done.
  apply step_once. simpl.
  by erewrite mailbox_resume_ended_run; [|by rewrite lookup_insert_ne by done; apply lookup_insert_eq|reflexivity].
Qed.

Lemma eval_runs f σ st σ' o : Eval σ st σ' o → runs_to f σ st σ' o.
Proof.
  induction 1 as [σ st v E|σ st e E|σ st v st' E|σ st st1 σ' o E _ IH|σ st k st0 ret σ' o E _ IH|σ st ret σ' o E _ IH
    |σ st t ret r σ' o E Et _ IH|σ st t ret st0 σ1 r σ' o E Et _ IH1 _ IH2|σ st g ret σ' o E Eg _ IH
    |σ st g ret st0 σ1 v st1 σ' o E Eg _ IH1 _ IH2|σ st g ret st0 σ1 r σ' o E Eg _ IH1 _ IH2].
  all: try by apply runs_to_end.
  - (* suspends and resumes itself *)
    revert IH. apply runs_to_steps. intros s h p R A Eh Rn Fr. exists s. split; [|split; [done|apply keeps_refl]].
    apply step_once. simpl. unfold exec_op. rewrite E, (bind_Ok _ _ _ _ _ (suspend_run h _ p s Eh Rn)). simpl transfer.
    erewrite resume_run; [|apply lookup_insert_eq|done|done]. rewrite insert_insert_eq. simpl.
    rewrite promise_eta by done. by rewrite insert_id.
  - (* a new coroutine *)
    revert IH. apply runs_to_steps. intros s h p R A Eh Rn Fr. pose proof (represents_dom _ _ R) as D.
    assert (σ !! fresh (dom σ) = None) as Nf by apply not_elem_of_dom, is_fresh.
    exists (<[fresh (dom σ):=new_promise (fresh (dom σ)) k st0]> s). split_and!.
    + apply step_once. simpl. unfold exec_op. rewrite E. unfold alloc. erewrite bind_Ok by reflexivity.
      by rewrite D.
    + apply represents_insert; [done|]. destruct k; [done|by exists None].
    + apply keeps_insert. congruence.
  - revert IH. apply runs_to_steps. intros s h p R A Eh Rn Fr. exists s. split; [|split; [done|apply keeps_refl]].
    eapply step_then; [simpl; unfold exec_op; by rewrite E|]. by apply step_once.
  - (* a task that has ended *)
    revert IH. apply runs_to_steps. intros s h p R A Eh Rn Fr. exists s. split; [|split; [done|apply keeps_refl]].
    destruct (represents_lookup _ _ _ _ R Et) as (pt & Ept & w & ->).
    eapply (step_then _ _ _ _ h (TaskResume (Some t) ret) s).
    + simpl. unfold exec_op. rewrite E. unfold await_task, task_await_ready.
      rewrite bind_assoc, (bind_Ok _ _ _ _ _ (promise_run t _ s Ept)), bind_ret. by destruct r.
    + apply step_once. by eapply task_resume_run.
  - by eapply runs_to_task.
  - (* a generator that has ended *)
    revert IH. apply runs_to_steps. intros s h p R A Eh Rn Fr. exists s. split; [|split; [done|apply keeps_refl]].
    destruct (represents_lookup _ _ _ _ R Eg) as (pg & Epg & a & w & ->).
    eapply step_then; [simpl; unfold exec_op; rewrite E; by eapply await_ended_run|].
    apply step_once. simpl. by eapply mailbox_resume_ended_run.
  - by eapply runs_to_value.
  - by eapply runs_to_gen_end.
Qed.


(** ** Calls of a fiber *)

Lemma run_fiber_steps f d h c s h' c' s' :
  rtc (tstep f) (h, c, s) (h', c', s') →
  ∃ n, ∀ m, run_fiber (n + m) f (Inside d h c false) s = run_fiber m f (Inside d h' c' false) s'.
Proof.
  intros S. remember (h, c, s) as x eqn:Ex. remember (h', c', s') as y eqn:Ey. revert h c s Ex.
  induction S as [x|x [[h1 c1] s1] y S1 S IH]; intros h c s ->.
  - injection Ey as -> -> ->. by exists 0.
  - destruct (IH Ey h1 c1 s1 eq_refl) as [n Hn]. exists (Datatypes.S n). intros m. simpl in S1 |- *.
    rewrite bind_assoc, (bind_Ok _ _ _ _ _ S1), bind_ret. simpl. apply Hn.
Qed.

(** The call comes back to its loop after [n] steps, wherever it stops. *)
Lemma run_fiber_back f d h st st' s s1 s2 :
  rtc (tstep f) (h, Exec st, s) (h, Exec st', s1) → exec f h (Exec st') s1 = Ok (Returned, s2) →
  ∃ n, ∀ m, run_fiber (n + m) f (Inside d h (Exec st) false) s = run_fiber m f (Native d false) s2.
Proof.
  intros S E. destruct (run_fiber_steps f d h _ s h _ s1 S) as [n Hn]. exists (n + 1). intros m.
  rewrite <-Nat.add_assoc, Hn. simpl. unfold exec in E. by rewrite bind_assoc, (bind_Ok _ _ _ _ _ E), bind_ret.
Qed.

Lemma task_run_end f t st ql w s r :
  s !! t = Some (mkPromise true None None (task_promise (future_is ql w None))) → ends st (Finished r) →
  exec f t (Exec st) s =
    Ok (Returned, <[t:=mkPromise false None None (task_promise (future_is [] (w ++ ql) (Some r)))]> s).
Proof.
  intros Et E. simpl. rewrite (finish_run _ _ _ _ E).
  rewrite (bind_Ok _ _ _ _ _ (task_return_run t _ _ _ ql w r s Et)).
  rewrite (task_final_run _ _ _ _ _ (lookup_insert_eq _ _ _)), insert_insert_eq.
  erewrite bind_Ok by apply continuation_run, lookup_insert_eq. by rewrite insert_insert_eq.
Qed.

Lemma run_task f σ t st σ1 r s :
  represents s σ → σ !! t = Some (Fresh st) → Eval (<[t:=Active]> σ) st σ1 (Finished r) →
  ∃ n s', represents s' (<[t:=Done r]> σ1) ∧
    ∀ m, do_call (n + m) f (Run (Some t)) s = Ok (Idle (Some r), s').
Proof.
  intros R Et Ev. destruct (represents_lookup _ _ _ _ R Et) as (p & Ep & ->).
  set (s1 := <[t:=mkPromise true None None (task_promise new_future)]> s).
  destruct (eval_runs f _ _ _ _ Ev s1 t _ (represents_insert s σ t Active _ R I)
    (lookup_insert_eq _ _ _) (lookup_insert_eq _ _ _) eq_refl eq_refl) as (s2 & st2 & S2 & E2 & R2 & K2).
  destruct (K2 t (lookup_insert_eq _ _ _)) as [_ Q2]. unfold s1 in Q2. rewrite lookup_insert_eq in Q2.
  pose proof (task_run_end f t st2 [] [] s2 r Q2 E2) as S3.
  set (s3 := <[t:=_]> s2) in S3.
  destruct (run_fiber_back f (InRun t) t st st2 s1 s2 s3 S2 S3) as [n Hn].
  exists (S (n + 1)), s3. split; [apply represents_insert; [done|by eexists]|]. intros m.
  unfold do_call, start. rewrite bind_assoc, (bind_Ok _ _ _ _ _ (promise_run t _ s Ep)), bind_ret.
  change (running _) with false. cbn iota. cbn [run_fiber Nat.add fiber_step native_step].
  rewrite bind_assoc, (bind_Ok _ _ _ _ _ (promise_run t _ s Ep)). change (completed _) with false. cbn iota.
  rewrite bind_assoc, (bind_Ok _ _ _ _ _ (resume_run t _ _ s Ep eq_refl eq_refl)), bind_ret. cbn [inside blocked].
  rewrite <-Nat.add_assoc, Hn. cbn [run_fiber Nat.add fiber_step native_step].
  erewrite bind_assoc, bind_Ok by apply promise_run, lookup_insert_eq.
  assert (completed (mkPromise false None None (task_promise (future_is [] ([] ++ []) (Some r)))) = true) as -> by by destruct r.
  cbn [self]. rewrite bind_assoc. erewrite bind_Ok by (eapply task_result_run; [apply lookup_insert_eq|reflexivity]).
  rewrite bind_ret. cbn [blocked]. by destruct m.
Qed.


(** A generator that yielded [v] to the fiber, which did not take it yet. *)
Definition pending (g : addr) (st : St) (v : V) : Promise :=
  mkPromise false None (Some (Exec st)) (generator_promise (mkMailbox (Some v) None [] [] (Some g) nullptr) false).

(** The heap after the generator was asked for a value, which is there or not. *)
Definition generated (g : addr) (σ1 : Env) (o : answer) (s : Heap) : Prop :=
  match o with
  | Yielded v st1 =>
      s !! g = Some (pending g st1 v) ∧ represents (<[g:=at_yield g st1 None]> s) (<[g:=Suspended st1]> σ1)
  | Finished _ => s !! g = Some (after_end None nullptr) ∧ represents s (<[g:=Ended]> σ1)
  end.

Lemma gen_stop f g st o σ1 s :
  s !! g = Some (generating g None (Some Noop) []) → ends st o → represents s σ1 →
  ∃ s', exec f g (Exec st) s = Ok (Returned, s') ∧ generated g σ1 o s'.
Proof.
  intros Eg E R. destruct o as [r|v st1]; simpl exec.
  - rewrite (finish_run _ _ _ _ E), (gen_end_noop_run g None r s Eg). eexists. split; [done|].
    split; [apply lookup_insert_eq|]. apply represents_insert; [done|by eexists _, _].
  - rewrite (yielded_run _ _ _ _ _ E), (yield_noop_run f g None v st1 _ s Eg). eexists. split; [done|].
    split; [apply lookup_insert_eq|]. rewrite insert_insert_eq. apply represents_insert; [done|by eexists].
Qed.

Lemma generated_done g σ1 o s : generated g σ1 o s →
  ∃ p m, s !! g = Some p ∧ self p = generator_promise m (completed p) ∧ mb_valid m || completed p = true.
Proof. destruct o; intros [-> _]; by eexists _, _. Qed.

Lemma generate_run f g σ st σ1 o s :
  represents s σ → σ !! g = Some (Suspended st) → s !! g = Some (at_yield g st None) →
  Eval (<[g:=Active]> σ) st σ1 o →
  ∃ n s', generated g σ1 o s' ∧ ∀ m, do_call (n + m) f (Generate (Some g)) s = Ok (Idle None, s').
Proof.
  intros R Eg Ep Ev. set (s1 := <[g:=generating g None (Some Noop) []]> s).
  destruct (eval_runs f _ _ _ _ Ev s1 g _ (represents_insert s σ g Active _ R I)
    (lookup_insert_eq _ _ _) (lookup_insert_eq _ _ _) eq_refl eq_refl) as (s2 & st2 & S2 & E2 & R2 & K2).
  destruct (K2 g (lookup_insert_eq _ _ _)) as [_ Q2]. unfold s1 in Q2. rewrite lookup_insert_eq in Q2.
  destruct (gen_stop f g st2 o σ1 s2 Q2 E2 R2) as (s3 & S3 & G3).
  destruct (run_fiber_back f (InGenerate g) g st st2 s1 s2 s3 S2 S3) as [n Hn].
  exists (S (n + 1)), s3. split; [done|]. intros m.
  unfold do_call, start. rewrite bind_assoc, (bind_Ok _ _ _ _ _ (promise_run g _ s Ep)).
  rewrite bind_assoc, (bind_Ok _ _ _ _ _ (mailbox_run g _ _ _ s Ep eq_refl)), bind_ret.
  change (completed _) with false. change (mb_valid _ || running _) with false. cbn iota.
  cbn [run_fiber Nat.add fiber_step native_step].
  rewrite bind_assoc, (bind_Ok _ _ _ _ _ (promise_run g _ s Ep)).
  rewrite bind_assoc, (bind_Ok _ _ _ _ _ (mailbox_run g _ _ _ s Ep eq_refl)).
  change (mb_valid _ || completed _) with false. cbn iota.
  rewrite bind_assoc, (bind_Ok _ _ _ _ _ (set_continuation_run g (Some Noop) _ s Ep (or_introl eq_refl))).
  erewrite bind_assoc, bind_Ok by (eapply resume_run; [apply lookup_insert_eq|reflexivity|reflexivity]).
  rewrite insert_insert_eq, bind_ret. cbn [inside blocked]. rewrite <-Nat.add_assoc.
  change (mkPromise _ _ _ _) with (generating g None (Some Noop) []). fold s1. rewrite Hn.
  cbn [run_fiber Nat.add fiber_step native_step].
  destruct (generated_done g σ1 o s3 G3) as (p & mb & Ep3 & Em & D).
  rewrite bind_assoc, (bind_Ok _ _ _ _ _ (promise_run g _ s3 Ep3)).
  rewrite bind_assoc, (bind_Ok _ _ _ _ _ (mailbox_run g _ _ _ s3 Ep3 Em)), D. rewrite bind_ret. cbn [blocked]. by destruct m.
Qed.

Lemma it_get_run f g st v n s :
  s !! g = Some (pending g st v) →
  it_get (S n) f g s = Ok (Some v, <[g:=at_yield g st None]> s).
Proof.
  intros Eg. unfold it_get, gen_valid. rewrite !bind_assoc, (bind_Ok _ _ _ _ _ (mailbox_run g _ _ _ s Eg eq_refl)).
  rewrite bind_assoc, (bind_Ok _ _ _ _ _ (promise_run g _ s Eg)), bind_ret.
  rewrite (bind_Ok _ _ s s tt) by by apply zth_assert_true. unfold do_call, start.
  rewrite !bind_assoc, (bind_Ok _ _ _ _ _ (promise_run g _ s Eg)). rewrite bind_ret.
  change (completed _) with false. cbn iota. cbn [run_fiber fiber_step native_step].
  rewrite !bind_assoc, (bind_Ok _ _ _ _ _ (take_value_run f g v _ _ s Eg)), bind_ret. cbn [blocked]. by destruct n.
Qed.

(** What the loop sees from [++it] on. *)
Lemma range_rest f g σ st l σ' :
  Yields g σ st l σ' → ∀ s acc, represents s σ → σ !! g = Some (Suspended st) → s !! g = Some (at_yield g st None) →
  ∃ n s', represents s' σ' ∧ ∀ m m', n ≤ m → n ≤ m' →
    (b ← it_next m f g; if b : bool then range_loop m' f g acc else mret None) s = Ok (Some (acc ++ l), s').
Proof.
  induction 1 as [σ st σ1 r Ev|σ st σ1 v st1 l σ' Ev Y IH]; intros s acc R Eg Ep.
  - destruct (generate_run f g σ st σ1 _ s R Eg Ep Ev) as (n & s' & [E' R'] & Hn). exists (S n), s'. split; [done|].
    intros m m' Lm Lm'. unfold it_next. replace m with (n + (m - n)) by lia.
    rewrite bind_assoc, (bind_Ok _ _ _ _ _ (Hn (m - n))), bind_ret. destruct m' as [|m']; [lia|]. cbn [range_loop].
    rewrite (bind_Ok _ _ _ _ _ (promise_run g _ s' E')). by rewrite app_nil_r.
  - destruct (generate_run f g σ st σ1 _ s R Eg Ep Ev) as (n & s1 & [E1 R1] & Hn).
    destruct (IH _ (acc ++ [v]) R1 (lookup_insert_eq _ _ _) (lookup_insert_eq _ _ _)) as (n2 & s' & R' & H2).
    exists (S (S (n + n2))), s'. split; [done|]. intros m m' Lm Lm'. unfold it_next at 1. replace m with (n + (m - n)) by lia.
    rewrite bind_assoc, (bind_Ok _ _ _ _ _ (Hn (m - n))), bind_ret. destruct m' as [|m']; [lia|].
    cbn [range_loop]. rewrite (bind_Ok _ _ _ _ _ (promise_run g _ s1 E1)).
    change (completed _) with false. cbn iota. destruct m' as [|m']; [lia|]. rewrite (bind_Ok _ _ _ _ _ (it_get_run f g st1 v m' s1 E1)).
    rewrite (H2 (S m') (S m')) by lia. by rewrite <-app_assoc.
Qed.

Lemma range_for_run f g σ st l σ' s :
  Yields g σ st l σ' → represents s σ → σ !! g = Some (Suspended st) → s !! g = Some (at_yield g st None) →
  ∃ n s', represents s' σ' ∧ ∀ m, n ≤ m → range_for m f g s = Ok (Some l, s').
Proof.
  intros Y R Eg Ep. destruct (range_rest f g σ st l σ' Y s [] R Eg Ep) as (n & s' & R' & Hn).
  exists n, s'. split; [done|]. intros m Lm. unfold range_for, it_begin, gen_valid.
  rewrite bind_assoc, (bind_Ok _ _ _ _ _ (promise_run g _ s Ep)).
  rewrite !bind_assoc, (bind_Ok _ _ _ _ _ (mailbox_run g _ _ _ s Ep eq_refl)).
  rewrite bind_assoc, (bind_Ok _ _ _ _ _ (promise_run g _ s Ep)), bind_ret. by apply Hn.
Qed.


(** ** Tasks in any number of fibers *)

(** Where a task is: not started; in fiber [f], executing or while it awaits [c], with
    continuation [k] and [ql] the fibers that wait for its result; ended with [r]. *)
Inductive place :=
| PFresh (st : St)
| PExec (f : addr) (k : option cont) (ql : list addr)
| PWait (f : addr) (k : option cont) (ql : list addr) (c : addr) (ret : result V → St)
| PDone (r : result V).

Definition place_rel (x : addr) (c : place) (p : Promise) : Prop :=
  match c with
  | PFresh st => p = new_promise x Task st
  | PExec _ k ql => ∃ w, p = mkPromise true k None (task_promise (future_is ql w None))
  | PWait _ k ql c ret => ∃ w, p = mkPromise false k (Some (TaskResume (Some c) ret)) (task_promise (future_is ql w None))
  | PDone r => ∃ w, p = mkPromise false None None (task_promise (future_is [] w (Some r)))
  end.

Abbreviation Places := (gmap addr place).

Definition placed (s : Heap) (hs : Places) : Prop := ∀ x, option_Forall2 (place_rel x) (hs !! x) (s !! x).

Definition owner (c : place) : option (addr * option cont) :=
  match c with PExec f k _ | PWait f k _ _ _ => Some (f, k) | _ => None end.

Definition started (c : place) : Prop := match c with PFresh _ => False | _ => True end.

(** [f] is in the queue of the task, or the task has ended. *)
Definition waits_for (f : addr) (c : place) : Prop :=
  match c with PFresh _ => False | PExec _ _ ql | PWait _ _ ql _ _ => f ∈ ql | PDone _ => True end.

Definition code_ok (hs : Places) (f : addr) (c : code) (b : bool) : Prop :=
  match c with
  | Exec _ => True
  | TaskResume None _ => True
  | TaskResume (Some t) _ => ∃ p, hs !! t = Some p ∧ started p
  | FutureValue t _ => ∃ p, hs !! t = Some p ∧ waits_for f p
  | FiberReturn _ => True
  | _ => False
  end.

Definition driver (x : fiber) : option addr :=
  match x with Native (InRun t) _ | Inside (InRun t) _ _ _ => Some t | _ => None end.

(** The tasks that [f] is in: the one that executes, and those that await each other,
    down to the one that [run] was called for. *)
Definition cont_of (l : list addr) : option cont := Handle <$> head l.

Fixpoint waiting (hs : Places) (f child : addr) (l : list addr) : Prop :=
  match l with
  | [] => True
  | q :: l => (∃ ql ret, hs !! q = Some (PWait f (cont_of l) ql child ret)) ∧ waiting hs f q l
  end.

Definition all_of (hs : Places) (f : addr) (l : list addr) : Prop :=
  ∀ x c k, hs !! x = Some c → owner c = Some (f, k) → x ∈ l.

Record stack (hs : Places) (f h t : addr) (l : list addr) : Prop := {
  st_top : ∃ ql, hs !! h = Some (PExec f (cont_of l) ql);
  st_rest : waiting hs f h l;
  st_root : last (h :: l) = Some t;
  st_nodup : NoDup (h :: l);
  st_all : all_of hs f (h :: l)
}.

Definition fiber_ok (hs : Places) (rs : gset addr) (f : addr) (x : fiber) : Prop :=
  match x with
  | Idle _ => all_of hs f []
  | Native (InRun t) b =>
      t ∈ rs ∧ ((∃ st, hs !! t = Some (PFresh st)) ∨ (∃ r, hs !! t = Some (PDone r))) ∧ all_of hs f []
  | Inside (InRun t) h c b => t ∈ rs ∧ code_ok hs f c b ∧ ∃ l, stack hs f h t l
  | _ => False
  end.

Record good (hs : Places) (fb : addr → fiber) (rs : gset addr) : Prop := {
  good_fiber f : fiber_ok hs rs f (fb f);
  good_root t c f k : t ∈ rs → hs !! t = Some c → owner c = Some (f, k) → k = None;
  good_driver f g t : driver (fb f) = Some t → driver (fb g) = Some t → f = g
}.

Definition inv (s : System) : Prop := ∃ hs, placed (heap s) hs ∧ good hs (fib s) (roots s).


(** *** What one fiber changes for the others *)

(** Equal, but for more fibers that wait. *)
Inductive more : place → place → Prop :=
| more_refl c : more c c
| more_exec f k ql ql' : ql ⊆ ql' → more (PExec f k ql) (PExec f k ql')
| more_wait f k ql ql' c ret : ql ⊆ ql' → more (PWait f k ql c ret) (PWait f k ql' c ret).

Record evolves (f : addr) (fb : addr → fiber) (x : addr) (c c' : place) : Prop := {
  ev_started : started c → started c';
  ev_waits g : waits_for g c → waits_for g c';
  ev_done r : c = PDone r → c' = c;
  ev_fresh st g : c = PFresh st → g ≠ f → driver (fb g) = Some x → c' = c;
  ev_other g k : g ≠ f → owner c = Some (g, k) → more c c';
  ev_back g k : g ≠ f → owner c' = Some (g, k) → more c c'
}.

Lemma more_started c c' : more c c' → started c → started c'.
Proof. by destruct 1. Qed.

Lemma more_waits f c c' : more c c' → waits_for f c → waits_for f c'.
Proof. destruct 1; simpl; set_solver. Qed.

Lemma more_trans c1 c2 c3 : more c1 c2 → more c2 c3 → more c1 c3.
Proof. intros [] M2; inversion M2; subst; try constructor; set_solver. Qed.

Lemma more_owner c c' : more c c' → owner c' = owner c.
Proof. by destruct 1. Qed.

Lemma evolves_more f fb x c c' : more c c' → evolves f fb x c c'.
Proof.
  intros M. constructor; [by apply more_started|intros; by eapply more_waits|..]; try done; intros; subst; by inversion M.
Qed.

Lemma evolves_refl f fb x c : evolves f fb x c c.
Proof. apply evolves_more. constructor. Qed.

Lemma evolves_trans f fb x c1 c2 c3 : evolves f fb x c1 c2 → evolves f fb x c2 c3 → evolves f fb x c1 c3.
Proof.
  intros [A1 A2 A3 A4 A5 A6] [B1 B2 B3 B4 B5 B6]. constructor; [auto|auto|..].
  - intros r ->. rewrite (A3 r eq_refl) in *. by eapply B3.
  - intros st g -> N D. rewrite (A4 st g eq_refl N D) in *. by eapply B4.
  - intros g k N O. pose proof (A5 g k N O) as M. eapply more_trans; [done|]. eapply B5; [done|]. by rewrite (more_owner _ _ M).
  - intros g k N O. pose proof (B6 g k N O) as M. eapply more_trans; [|done]. eapply A6; [done|]. by rewrite <-(more_owner _ _ M).
Qed.

(** A change by [f] of all places; new ones are fresh. *)
Record evolution (f : addr) (fb : addr → fiber) (hs hs' : Places) : Prop := {
  evo_old x c : hs !! x = Some c → ∃ c', hs' !! x = Some c' ∧ evolves f fb x c c';
  evo_new x c' : hs' !! x = Some c' → hs !! x = None → ∃ st, c' = PFresh st
}.

Lemma evolution_refl f fb hs : evolution f fb hs hs.
Proof. split; [eauto using evolves_refl|congruence]. Qed.

Lemma evolution_trans f fb hs1 hs2 hs3 :
  evolution f fb hs1 hs2 → evolution f fb hs2 hs3 →
  (∀ x c, hs1 !! x = None → hs2 !! x = Some c → hs3 !! x = Some c) → evolution f fb hs1 hs3.
Proof.
  intros [A1 A2] [B1 B2] N. split.
  - intros x c (c2 & E2 & V2)%A1. destruct (B1 x c2 E2) as (c3 & E3 & V3). eauto using evolves_trans.
  - intros x c' E' E. destruct (hs2 !! x) as [c2|] eqn:E2; [|by eapply B2].
    rewrite (N x c2 E E2) in E'. injection E' as <-. by eapply A2.
Qed.

Lemma evolution_insert f fb hs x c c' :
  hs !! x = Some c → evolves f fb x c c' → evolution f fb hs (<[x:=c']> hs).
Proof.
  intros E Vo. split.
  - intros y d D. destruct (decide (y = x)) as [->|].
    + rewrite E in D. injection D as <-. exists c'. by rewrite lookup_insert_eq.
    + exists d. rewrite lookup_insert_ne by done. split; [done|apply evolves_refl].
  - intros y d D N. rewrite lookup_insert_ne in D by congruence. congruence.
Qed.

Lemma evolution_insert_two f fb hs x c c' y d d' :
  hs !! x = Some c → evolves f fb x c c' → hs !! y = Some d → x ≠ y → evolves f fb y d d' →
  evolution f fb hs (<[y:=d']> (<[x:=c']> hs)).
Proof.
  intros Ex Vx Ey N Vy. apply (evolution_trans f fb hs (<[x:=c']> hs)); [by eapply evolution_insert|eapply evolution_insert; [|done]|].
  - by rewrite lookup_insert_ne.
  - intros z e Hz He. rewrite lookup_insert_ne in He by congruence. congruence.
Qed.

Lemma code_ok_evolution f fb hs hs' g c b : evolution f fb hs hs' → code_ok hs g c b → code_ok hs' g c b.
Proof.
  intros Vo C. destruct c as [| [t|]|t| | |]; simpl in *; try done; destruct C as (p & E & Q);
    destruct (evo_old _ _ _ _ Vo t p E) as (p' & E' & Vp); exists p'; split; try done.
  - by eapply ev_started.
  - by eapply ev_waits.
Qed.

Lemma waiting_more f hs hs' h l :
  (∀ x c k, hs !! x = Some c → owner c = Some (f, k) → ∃ c', hs' !! x = Some c' ∧ more c c') →
  waiting hs f h l → waiting hs' f h l.
Proof.
  intros M. revert h. induction l as [|q l IH]; intros h; simpl; [done|]. intros [(ql & ret & E) W].
  split; [|by apply IH]. destruct (M q _ _ E eq_refl) as (c' & E' & Mc). inversion Mc; subst; eauto.
Qed.

(** The stack of a fiber whose tasks only get more waiting fibers. *)
Lemma stack_more f hs hs' h t l :
  (∀ x c k, hs !! x = Some c → owner c = Some (f, k) → ∃ c', hs' !! x = Some c' ∧ more c c') →
  all_of hs' f (h :: l) → stack hs f h t l → stack hs' f h t l.
Proof.
  intros M A [(ql & E) S2 S3 S4 S5]. constructor; [|by eapply waiting_more|done|done|done].
  destruct (M h _ _ E eq_refl) as (c' & E' & Mc). inversion Mc; subst; eauto.
Qed.

Lemma evolution_back f g fb hs hs' x c k :
  evolution f fb hs hs' → g ≠ f → hs' !! x = Some c → owner c = Some (g, k) → ∃ c0, hs !! x = Some c0 ∧ more c0 c.
Proof.
  intros Vo N E O. destruct (hs !! x) as [c0|] eqn:E0; [|by destruct (evo_new _ _ _ _ Vo x c E E0) as [st ->]].
  destruct (evo_old _ _ _ _ Vo x c0 E0) as (c1 & E1 & V1). rewrite E in E1. injection E1 as <-.
  exists c0. split; [done|]. by eapply ev_back.
Qed.

Lemma all_of_evolution f g fb hs hs' l : evolution f fb hs hs' → g ≠ f → all_of hs g l → all_of hs' g l.
Proof.
  intros Vo N A x c k E O. destruct (evolution_back f g fb hs hs' x c k Vo N E O) as (c0 & E0 & M).
  rewrite (more_owner _ _ M) in O. by eapply A.
Qed.

Lemma fiber_ok_evolution f g fb hs hs' rs :
  evolution f fb hs hs' → g ≠ f → fiber_ok hs rs g (fb g) → fiber_ok hs' rs g (fb g).
Proof.
  intros Vo N. destruct (fb g) as [|[t| |] b|[t| |] h c b] eqn:Eg; simpl; try done.
  - by eapply all_of_evolution.
  - intros (Rt & D & A). split_and!; [done| |by eapply all_of_evolution].
    destruct D as [[st E]|[r E]]; destruct (evo_old _ _ _ _ Vo t _ E) as (c' & E' & Vc).
    + left. exists st. rewrite E'. f_equal. eapply ev_fresh; [done..|]. by rewrite Eg.
    + right. exists r. rewrite E'. f_equal. by eapply ev_done.
  - intros (Rt & C & l & S). split_and!; [done|by eapply code_ok_evolution|]. exists l.
    eapply stack_more; [|eapply all_of_evolution; [done|done|apply S]|done].
    intros x d k E O. destruct (evo_old _ _ _ _ Vo x _ E) as (c' & E' & Vc). exists c'. split; [done|].
    by eapply ev_other.
Qed.

(** The invariant after a step of [f], from what holds of [f] itself. *)
Lemma coro_good_step f fb hs hs' rs x :
  good hs fb rs → evolution f fb hs hs' → fiber_ok hs' rs f x →
  (∀ h c k, h ∈ rs → hs' !! h = Some c → owner c = Some (f, k) → k = None) →
  driver x = driver (fb f) ∨ driver x = None →
  good hs' (<[f:=x]> fb) rs.
Proof.
  intros [G1 G3 G4] Vo Fx Cx Dx. constructor.
  - intros g. destruct (decide (g = f)) as [->|N]; [by rewrite fn_lookup_insert|]. rewrite fn_lookup_insert_ne by done.
    by eapply fiber_ok_evolution.
  - intros t c g k Rt E O. destruct (decide (g = f)) as [->|N]; [by eapply Cx|].
    destruct (evolution_back f g fb hs hs' t c k Vo N E O) as (c0 & E0 & M). rewrite (more_owner _ _ M) in O. by eapply G3.
  - intros g g' t. assert (driver x = Some t → driver (fb f) = Some t) as Dx' by by destruct Dx as [->| ->].
    intros D D'. fn_cases; try done; try (apply G4 with t; auto; fail).
Qed.

(** *** The steps *)

Lemma placed_lookup s hs x c : placed s hs → hs !! x = Some c → ∃ p, s !! x = Some p ∧ place_rel x c p.
Proof. intros R E. specialize (R x). rewrite E in R. inversion R. eauto. Qed.

Lemma placed_insert s hs x c p : placed s hs → place_rel x c p → placed (<[x:=p]> s) (<[x:=c]> hs).
Proof.
  intros R C y. destruct (decide (y = x)) as [->|]; [rewrite !lookup_insert_eq; by constructor|].
  rewrite !lookup_insert_ne by done. apply R.
Qed.

Lemma placed_dom s hs x : placed s hs → x ∈ dom s → ∃ c, hs !! x = Some c.
Proof. intros R [p E]%elem_of_dom. specialize (R x). rewrite E in R. inversion R. eauto. Qed.

(** The invariant, when [f] gets to [x] and the heap becomes [s']. *)
Definition after (f : addr) (fb : addr → fiber) (rs : gset addr) (x : fiber) (s' : Heap) : Prop :=
  ∃ hs', placed s' hs' ∧ good hs' (<[f:=x]> fb) rs.


(** [f] goes on in the same task. *)
Lemma after_same f fb rs s' hs hs' t h c b c' b' :
  good hs fb rs → fb f = Inside (InRun t) h c b →
  placed s' hs' → evolution f fb hs hs' →
  (∀ x d d', hs !! x = Some d → hs' !! x = Some d' → more d d') →
  code_ok hs' f c' b' → after f fb rs (Inside (InRun t) h c' b') s'.
Proof.
  intros G E P' Vo M C. pose proof (good_fiber _ _ _ G f) as F. rewrite E in F. destruct F as (Rt & _ & l & S).
  assert (∀ x d k, hs' !! x = Some d → owner d = Some (f, k) → ∃ d0, hs !! x = Some d0 ∧ owner d0 = Some (f, k)) as Back.
  { intros x d k D O. destruct (hs !! x) as [d0|] eqn:E0; [|by destruct (evo_new _ _ _ _ Vo x d D E0) as [st ->]].
    pose proof (M x d0 d E0 D) as Mx. rewrite (more_owner _ _ Mx) in O. eauto. }
  exists hs'. split; [done|]. eapply coro_good_step; [done..| | |left; by rewrite E].
  - simpl. split_and!; [done..|]. exists l. eapply stack_more; [| |done].
    + intros x d k D _. destruct (evo_old _ _ _ _ Vo x d D) as (d' & D' & _). eauto.
    + intros x d k D O. destruct (Back x d k D O) as (d0 & D0 & O0). by eapply S.
  - intros x d k Rx D O. destruct (Back x d k D O) as (d0 & D0 & O0). by eapply (good_root _ _ _ G).
Qed.

Lemma after_nothing f fb rs s hs t h c b c' b' :
  placed s hs → good hs fb rs → fb f = Inside (InRun t) h c b →
  code_ok hs f c' b' → after f fb rs (Inside (InRun t) h c' b') s.
Proof.
  intros P G E C. eapply (after_same f fb rs s hs hs); [done..|apply evolution_refl| |done].
  intros x d d' D D'. rewrite D in D'. injection D' as <-. constructor.
Qed.

(** It calls a coroutine function. *)
Lemma after_create f fb rs s hs t h c b st0 a st1 :
  placed s hs → good hs fb rs → fb f = Inside (InRun t) h c b → a ∉ dom s →
  after f fb rs (Inside (InRun t) h (Exec st1) false) (<[a:=new_promise a Task st0]> s).
Proof.
  intros P G E N. assert (hs !! a = None) as Na.
  { specialize (P a). apply not_elem_of_dom in N. rewrite N in P. by inversion P. }
  eapply (after_same f fb rs _ hs (<[a:=PFresh st0]> hs)); [done..|by apply placed_insert| | |done].
  - split.
    + intros x d D. exists d. rewrite lookup_insert_ne by congruence. split; [done|apply evolves_refl].
    + intros x d D D0. destruct (decide (x = a)) as [->|]; [|rewrite lookup_insert_ne in D by done; congruence].
      rewrite lookup_insert_eq in D. injection D as <-. eauto.
  - intros x d d' D D'. rewrite lookup_insert_ne in D' by congruence. rewrite D in D'. injection D' as <-. constructor.
Qed.

(** It blocks on the future of [t'], which has not ended. *)
Lemma task_block_run f s t' p pt :
  s !! t' = Some pt → place_rel t' p pt → started p → (∀ r, p ≠ PDone r) →
  ∃ p' pt', task_result f (Some t') s = Ok (None, <[t':=pt']> s) ∧ place_rel t' p' pt' ∧ more p p' ∧ waits_for f p'.
Proof.
  intros Ept Rp Sp Np.
  assert (∀ ql w : list addr, self pt = task_promise (future_is ql w None) →
    task_result f (Some t') s = Ok (None, <[t':=with_self (task_promise (future_is (ql ++ [f]) w None)) pt]> s)) as R.
  { intros ql w F. unfold task_result. by rewrite (bind_Ok _ _ _ _ _ (with_future_run t' pt _ _ _ _ s Ept F eq_refl)). }
  destruct p as [st|g k ql|g k ql c rt|r]; [done| | |by destruct (Np r)]; destruct Rp as [w ->].
  - exists (PExec g k (ql ++ [f])). eexists. split; [by apply R|]. split; [by exists w|].
    split; [constructor; set_solver|simpl; set_solver].
  - exists (PWait g k (ql ++ [f]) c rt). eexists. split; [by apply R|]. split; [by exists w|].
    split; [constructor; set_solver|simpl; set_solver].
Qed.

Lemma after_block f fb rs s hs t h b t' ret c0 p :
  placed s hs → good hs fb rs → fb f = Inside (InRun t) h c0 b →
  hs !! t' = Some p → started p → (∀ r, p ≠ PDone r) →
  ∃ s', task_result f (Some t') s = Ok (None, s') ∧
    after f fb rs (Inside (InRun t) h (FutureValue t' ret) true) s'.
Proof.
  intros P G E Ep Sp Np. destruct (placed_lookup s hs t' p P Ep) as (pt & Ept & Rp).
  destruct (task_block_run f s t' p pt Ept Rp Sp Np) as (p' & pt' & R & Rp' & M & W).
  eexists. split; [exact R|].
  eapply (after_same f fb rs _ hs (<[t':=p']> hs)); [done..|by apply placed_insert| | |].
  - eapply evolution_insert; [done|by apply evolves_more].
  - intros x d d' D D'. destruct (decide (x = t')) as [->|].
    + rewrite lookup_insert_eq in D'. rewrite Ep in D. by injection D as <-; injection D' as <-.
    + rewrite lookup_insert_ne in D' by done. rewrite D in D'. injection D' as <-. constructor.
  - exists p'. by rewrite lookup_insert_eq.
Qed.

(** The rest of a stack is not touched by what happens to other tasks. *)
Lemma waiting_insert hs f h l x c : x ∉ l → waiting hs f h l → waiting (<[x:=c]> hs) f h l.
Proof.
  revert h. induction l as [|q l IH]; intros h; simpl; [done|]. intros N [(ql & ret & E) W].
  apply not_elem_of_cons in N as [N1 N2]. split; [|by apply IH]. exists ql, ret. by rewrite lookup_insert_ne.
Qed.

(** A task that a fiber waits to run is the fiber's own. *)
Lemma driver_in_roots hs fb rs g t : good hs fb rs → driver (fb g) = Some t → t ∈ rs.
Proof.
  intros G D. pose proof (good_fiber _ _ _ G g) as F.
  destruct (fb g) as [|[t1| |] b1|[t1| |] h1 c1 b1]; try done; injection D as ->; by destruct F as [? _].
Qed.

(** It awaits a task that has not started. *)
Lemma after_await f fb rs s hs t h b t' ret st0 c0 :
  placed s hs → good hs fb rs → fb f = Inside (InRun t) h c0 b →
  hs !! t' = Some (PFresh st0) → t' ∉ rs →
  ∃ s', await_task h (Some t') ret s = Ok (Running t' (Exec st0), s') ∧
    after f fb rs (Inside (InRun t) t' (Exec st0) false) s'.
Proof.
  intros P G E Et Nr. pose proof (good_fiber _ _ _ G f) as F. rewrite E in F.
  destruct F as (Rt & _ & l & [(ql & Eh) W Lt Nd A]). apply NoDup_cons in Nd as Nd'. destruct Nd' as [Nh Ndl].
  destruct (placed_lookup s hs h _ P Eh) as (ph & Eph & w & ->).
  destruct (placed_lookup s hs t' _ P Et) as (pt & Ept & ->).
  assert (t' ≠ h) as N by congruence.
  assert (t' ∉ l) as Ntl.
  { clear -W Et. revert h W. induction l as [|q l IH]; intros h; simpl; [set_solver|]. intros [(ql & rt & Eq) W].
    apply not_elem_of_cons. split; [congruence|by eapply IH]. }
  eexists. split; [by eapply await_fresh_run|].
  exists (<[t':=PExec f (Some (Handle h)) []]> (<[h:=PWait f (cont_of l) ql t' ret]> hs)). split.
  { apply placed_insert; [apply placed_insert; [done|by exists w]|by exists []]. }
  assert (∀ x d k, (<[t':=PExec f (Some (Handle h)) []]> (<[h:=PWait f (cont_of l) ql t' ret]> hs)) !! x = Some d →
    owner d = Some (f, k) → x = t' ∨ ∃ d0, hs !! x = Some d0 ∧ owner d0 = Some (f, k)) as Back.
  { intros x d k D O. destruct (decide (x = t')) as [|Nt]; [by left|]. right. rewrite lookup_insert_ne in D by done.
    destruct (decide (x = h)) as [->|]; [|rewrite lookup_insert_ne in D by done; eauto].
    rewrite lookup_insert_eq in D. injection D as <-. eauto. }
  eapply coro_good_step; [done| | | |left; by rewrite E].
  - apply (evolution_insert_two f fb hs h (PExec f (cont_of l) ql) _ t' (PFresh st0)); [done| |done|done|].
    + constructor; simpl; try done; intros; simplify_eq.
    + constructor; simpl; try done; intros; simplify_eq. by destruct Nr; eapply driver_in_roots.
  - simpl. split_and!; [done..|]. exists (h :: l). constructor.
    + eexists. apply lookup_insert_eq.
    + simpl. split; [eexists _, _; rewrite lookup_insert_ne by done; apply lookup_insert_eq|].
      by apply waiting_insert, waiting_insert.
    + done.
    + apply NoDup_cons. split; [|done]. by apply not_elem_of_cons.
    + intros x d k D O. destruct (Back x d k D O) as [->|(d0 & D0 & O0)]; [by left|]. right. by eapply A.
  - intros x d k Rx D O. destruct (Back x d k D O) as [->|(d0 & D0 & O0)]; [done|]. by eapply (good_root _ _ _ G).
Qed.

(** The task ends. *)
Lemma after_end_task f fb rs s hs t h b st r :
  placed s hs → good hs fb rs → fb f = Inside (InRun t) h (Exec st) b → ends st (Finished r) →
  ∃ w s', exec f h (Exec st) s = Ok (w, s') ∧ after f fb rs (inside (InRun t) w) s'.
Proof.
  intros P G E En. pose proof (good_fiber _ _ _ G f) as F. rewrite E in F.
  destruct F as (Rt & _ & l & [(ql & Eh) W Lt Nd A]). apply NoDup_cons in Nd as [Nh Ndl].
  destruct (placed_lookup s hs h _ P Eh) as (ph & Eph & w & ->).
  assert (evolves f fb h (PExec f (cont_of l) ql) (PDone r)) as Vh.
  { constructor; simpl; try done; intros; simplify_eq. }
  destruct l as [|q l].
  - injection Lt as <-. eexists _, _. split; [exact (task_run_end f h st ql w s r Eph En)|].
    exists (<[h:=PDone r]> hs). split; [apply placed_insert; [done|by eexists]|].
    assert (all_of (<[h:=PDone r]> hs) f []) as A'.
    { intros x d k D O. destruct (decide (x = h)) as [->|Nx]; [rewrite lookup_insert_eq in D; by injection D as <-|].
      rewrite lookup_insert_ne in D by done. pose proof (A x d k D O) as [|]%elem_of_cons; done. }
    eapply coro_good_step; [done|by eapply evolution_insert| | |left; by rewrite E].
    + simpl. split_and!; [done| |done]. right. exists r. apply lookup_insert_eq.
    + intros x d k _ D O. exfalso. by eapply not_elem_of_nil, A'.
  - destruct W as [(ql' & ret & Eq) W]. apply NoDup_cons in Ndl as [Nq Ndl].
    apply not_elem_of_cons in Nh as [Nhq Nhl].
    destruct (placed_lookup s hs q _ P Eq) as (pq & Epq & w' & ->).
    eexists _, _. split; [simpl; rewrite (finish_run f h _ _ En); exact (task_end_run h ql w q _ _ r s Eph Epq eq_refl eq_refl Nhq)|].
    exists (<[q:=PExec f (cont_of l) ql']> (<[h:=PDone r]> hs)). split.
    { apply placed_insert; [apply placed_insert; [done|by eexists]|by exists w']. }
    assert (∀ x d k, (<[q:=PExec f (cont_of l) ql']> (<[h:=PDone r]> hs)) !! x = Some d → owner d = Some (f, k) →
      x ≠ h ∧ ∃ d0, hs !! x = Some d0 ∧ owner d0 = Some (f, k)) as Back.
    { intros x d k D O. destruct (decide (x = q)) as [->|Nx].
      - rewrite lookup_insert_eq in D. injection D as <-. split; [done|]. eauto.
      - rewrite lookup_insert_ne in D by done. destruct (decide (x = h)) as [->|]; [|rewrite lookup_insert_ne in D by done; eauto].
        rewrite lookup_insert_eq in D. by injection D as <-. }
    eapply coro_good_step; [done| | | |left; by rewrite E].
    + eapply evolution_insert_two; [done|done|done|done|]. constructor; simpl; try done; intros; simplify_eq.
    + simpl. split_and!; [done|exists (PDone r); by rewrite lookup_insert_ne, lookup_insert_eq by done|].
      exists l. constructor.
      * eexists. apply lookup_insert_eq.
      * by apply waiting_insert, waiting_insert.
      * done.
      * by apply NoDup_cons.
      * intros x d k D O. destruct (Back x d k D O) as (Nx & d0 & D0 & O0).
        pose proof (A x d0 k D0 O0) as [|]%elem_of_cons; done.
    + intros x d k Rx D O. destruct (Back x d k D O) as (Nx & d0 & D0 & O0). by eapply (good_root _ _ _ G).
Qed.


(** Only what [run] was called for has no continuation while it has started. *)
Lemma no_continuation hs fb rs a c g :
  good hs fb rs → hs !! a = Some c → owner c = Some (g, None) → a ∈ rs.
Proof.
  intros G E O. pose proof (good_fiber _ _ _ G g) as F.
  destruct (fb g) as [|[t| |] b|[t| |] h cd b] eqn:Eg; try done.
  - exfalso. by eapply not_elem_of_nil, F.
  - destruct F as (_ & _ & A). exfalso. by eapply not_elem_of_nil, A.
  - destruct F as (Rt & _ & l & [(ql & Eh) W Lt _ A]). pose proof (A a c None E O) as I.
    enough (a = t) as -> by done. clear A. apply elem_of_cons in I as [->|I].
    + rewrite Eh in E. injection E as <-. injection O as O. destruct l; [by injection Lt|done].
    + clear Eh Eg. revert h W I Lt. induction l as [|q l IH]; intros h; simpl; [set_solver|].
      intros [(ql' & ret & Eq) W] I Lt. apply elem_of_cons in I as [->|I]; [|by eapply IH].
      rewrite Eq in E. injection E as <-. injection O as O. destruct l; [by injection Lt|done].
Qed.

Lemma not_queued f s x p : in_queue f s = false → s !! x = Some p → waits f p = false.
Proof.
  intros Q E. apply not_true_iff_false. intros W. apply not_true_iff_false in Q. apply Q.
  apply existsb_exists. exists (x, p). split; [|done]. by apply list_elem_of_In, elem_of_map_to_list.
Qed.

(** A fiber that is not in a queue any more can have the result. *)
Lemma woken_done f s hs t c :
  placed s hs → hs !! t = Some c → waits_for f c → in_queue f s = false → ∃ r, c = PDone r.
Proof.
  intros P E W Q. destruct (placed_lookup s hs t c P E) as (p & Ep & R). pose proof (not_queued f s t p Q Ep) as N.
  destruct c as [st|g k ql|g k ql c rt|r]; [done| | |by exists r]; destruct R as [w ->];
    unfold waits in N; cbn in W, N; by rewrite bool_decide_true in N.
Qed.

Lemma await_started_run h a ret c p s :
  s !! a = Some p → place_rel a c p → started c → (∀ g k, owner c = Some (g, k) → k ≠ None) →
  await_task h (Some a) ret s = Ok (Running h (TaskResume (Some a) ret), s).
Proof.
  intros E R Sc K. unfold await_task, task_await_ready. rewrite bind_assoc, (bind_Ok _ _ _ _ _ (promise_run a p s E)), bind_ret.
  assert (completed p || running p = true) as ->; [|done].
  destruct c as [st|g k ql|g k ql c rt|r]; [done|destruct R as [w ->]..].
  - by rewrite orb_true_r.
  - destruct k; [by rewrite orb_true_r|]. by destruct (K g None).
  - by destruct r.
Qed.

(** What the program may do at a step. *)
Definition allowed (s : Heap) (rs : gset addr) (c : code) : Prop :=
  match c with
  | Exec st =>
      match next st with
      | AwaitTask (Some t) _ => t ∈ dom s ∧ t ∉ rs
      | Create Generator _ _ | Yield _ _ | AwaitGenerator _ _ => False
      | _ => True
      end
  | FiberReturn _ => False
  | _ => True
  end.

Lemma step_exec f fb rs s hs t h st b :
  placed s hs → good hs fb rs → fb f = Inside (InRun t) h (Exec st) b → allowed s rs (Exec st) →
  ∃ w s', exec f h (Exec st) s = Ok (w, s') ∧ after f fb rs (inside (InRun t) w) s'.
Proof.
  intros P G E Al. destruct (next st) as [[|] st0 ret|[a|] ret|g ret|ret|st1|v st1|v|e] eqn:En;
    try (simpl in Al; rewrite En in Al; done).
  - simpl exec. unfold exec_op. rewrite En. eexists _, _. split; [reflexivity|]. simpl.
    eapply after_create; [done..|apply is_fresh].
  - simpl in Al. rewrite En in Al. destruct Al as [Da Na].
    destruct (placed_dom s hs a P Da) as [c Ec]. simpl exec. unfold exec_op. rewrite En.
    assert ((∃ st0, c = PFresh st0) ∨ started c) as [[st0 ->]|Sc] by (destruct c; simpl; eauto).
    + destruct (after_await f fb rs s hs t h b a ret st0 _ P G E Ec Na) as (s' & R & A). by eexists _, _.
    + destruct (placed_lookup s hs a c P Ec) as (p & Ep & Rp).
      eexists _, _. split.
      { eapply await_started_run; [done..|]. intros g k O ->. apply Na. by eapply no_continuation. }
      eapply after_nothing; [done..|by exists c].
  - simpl exec. unfold exec_op. rewrite En. eexists _, _. split; [reflexivity|]. by eapply after_nothing.
  - simpl exec. unfold exec_op. rewrite En. eexists _, _. split; [reflexivity|]. by eapply after_nothing.
  - pose proof (good_fiber _ _ _ G f) as F. rewrite E in F. destruct F as (_ & _ & l & [(ql & Eh) _ _ _ _]).
    destruct (placed_lookup s hs h _ P Eh) as (ph & Eph & w & ->).
    simpl exec. unfold exec_op. rewrite En, (bind_Ok _ _ _ _ _ (suspend_run h _ _ s Eph eq_refl)). simpl transfer.
    eexists _, _. split; [eapply resume_run; [apply lookup_insert_eq|done|done]|].
    rewrite insert_insert_eq. simpl. rewrite insert_id by done. by eapply after_nothing.
  - eapply (after_end_task f fb rs s hs t h b st (Value v)); done.
  - eapply (after_end_task f fb rs s hs t h b st (Rethrow e)); done.
Qed.


Lemma step_inside f fb rs s hs t h c b :
  placed s hs → good hs fb rs → fb f = Inside (InRun t) h c b → allowed s rs c → in_queue f s = false →
  ∃ x s', fiber_step f (Inside (InRun t) h c b) s = Ok (x, s') ∧ after f fb rs x s'.
Proof.
  intros P G E Al Q.
  assert (∀ w s', exec f h c s = Ok (w, s') → after f fb rs (inside (InRun t) w) s' →
    ∃ x s', fiber_step f (Inside (InRun t) h c b) s = Ok (x, s') ∧ after f fb rs x s') as Fin.
  { intros w s' R A. eexists _, _. split; [simpl; by rewrite (bind_Ok _ _ _ _ _ R)|done]. }
  pose proof (good_fiber _ _ _ G f) as F. rewrite E in F. destruct F as (_ & C & _).
  destruct c as [st|[a|] ret|a ret|g w ret|g ret|ret]; try done.
  - destruct (step_exec f fb rs s hs t h st b P G E Al) as (w & s' & R & A). by eapply Fin.
  - destruct C as (p & Ep & Sp). destruct (placed_lookup s hs a p P Ep) as (pt & Ept & Rp).
    assert ((∃ r, p = PDone r) ∨ ∀ r, p ≠ PDone r) as [[r ->]|Np] by (destruct p; eauto; by right).
    + destruct Rp as [w ->]. eapply Fin; [by eapply task_resume_run|]. by eapply after_nothing.
    + destruct (after_block f fb rs s hs t h b a ret _ p P G E Ep Sp Np) as (s' & R & A).
      eapply Fin; [unfold exec; by rewrite (bind_Ok _ _ _ _ _ R)|done].
  - eapply Fin; [reflexivity|]. by eapply after_nothing.
  - destruct C as (p & Ep & Wp). destruct (woken_done f s hs a p P Ep Wp Q) as [r ->].
    destruct (placed_lookup s hs a _ P Ep) as (pt & Ept & w & ->). eapply (Fin (Running h (Exec (ret r))) s).
    + unfold exec. rewrite (bind_Ok _ _ _ _ _ (with_future_run a _ _ _ _ _ s Ept eq_refl (Future.value_run r w []))).
      unfold with_self. simpl. by rewrite insert_id.
    + by eapply after_nothing.
Qed.

(** From the head of the loop of [run]. *)
Lemma step_native f fb rs s hs t b :
  placed s hs → good hs fb rs → fb f = Native (InRun t) b →
  ∃ x s', native_step f (InRun t) s = Ok (x, s') ∧ after f fb rs x s'.
Proof.
  intros P G E. pose proof (good_fiber _ _ _ G f) as F. rewrite E in F. destruct F as (Rt & D & A). unfold native_step.
  destruct D as [[st Et]|[r Et]]; destruct (placed_lookup s hs t _ P Et) as (p & Ep & Rp).
  - simpl in Rp. subst p. rewrite (bind_Ok _ _ _ _ _ (promise_run t _ s Ep)). change (completed _) with false. cbn iota.
    rewrite (bind_Ok _ _ _ _ _ (resume_run t _ _ s Ep eq_refl eq_refl)).
    eexists _, _. split; [reflexivity|]. simpl. exists (<[t:=PExec f None []]> hs).
    split; [apply placed_insert; [done|by exists []]|].
    assert (∀ x d k, (<[t:=PExec f None []]> hs) !! x = Some d → owner d = Some (f, k) → x = t ∧ k = None) as Own.
    { intros x d k Dx O. destruct (decide (x = t)) as [->|Nx].
      - rewrite lookup_insert_eq in Dx. injection Dx as <-. by injection O as <-.
      - rewrite lookup_insert_ne in Dx by done. exfalso. by eapply not_elem_of_nil, A. }
    eapply coro_good_step; [done| | | |left; by rewrite E].
    + eapply evolution_insert; [done|]. constructor; simpl; try done; intros; simplify_eq.
      assert (g = f) by (eapply (good_driver _ _ _ G); [done|by rewrite E]). done.
    + simpl. split_and!; [done..|]. exists []. constructor; [eexists; apply lookup_insert_eq|done|done|apply NoDup_singleton|].
      intros x d k Dx O. destruct (Own x d k Dx O) as [-> _]. by left.
    + intros x d k _ Dx O. by destruct (Own x d k Dx O).
  - destruct Rp as [w ->]. rewrite (bind_Ok _ _ _ _ _ (promise_run t _ s Ep)).
    assert (completed (mkPromise false None None (task_promise (future_is [] w (Some r)))) = true) as -> by by destruct r.
    cbn [self]. rewrite (bind_Ok _ _ _ _ _ (task_result_run f t _ [] w r s Ep eq_refl)).
    eexists _, _. split; [reflexivity|]. exists hs. split; [done|].
    eapply coro_good_step; [done|apply evolution_refl|exact A| |by right].
    intros x d k _ Dx O. exfalso. by eapply not_elem_of_nil, A.
Qed.

(** A call of [run] of a task that is not driven yet. *)
Lemma start_run_good f fb rs s hs t :
  placed s hs → good hs fb rs → is_idle (fb f) = true → t ∈ dom s → t ∉ rs →
  ∃ x, start (Run (Some t)) s = Ok (x, s) ∧
    good hs (<[f:=x]> fb) (match x with Native (InRun h) _ => {[h]} ∪ rs | _ => rs end).
Proof.
  clear next. intros P G If Dt Nt. destruct (placed_dom s hs t P Dt) as [c Ec]. destruct (placed_lookup s hs t c P Ec) as (p & Ep & Rp).
  destruct (fb f) as [o| |] eqn:Ef; try done. pose proof (good_fiber _ _ _ G f) as A. rewrite Ef in A. simpl in A.
  assert (∀ x, is_idle x = true → good hs (<[f:=x]> fb) rs) as Gi.
  { intros x Ix. eapply coro_good_step; [done|apply evolution_refl|by destruct x| |right; by destruct x].
    intros y d k Ry Dy O. by eapply (good_root _ _ _ G). }
  eexists. split; [unfold start; by rewrite (bind_Ok _ _ _ _ _ (promise_run t p s Ep))|].
  destruct (running p) eqn:Rn; [by apply Gi|]. simpl.
  assert ((∃ st, c = PFresh st) ∨ ∃ r, c = PDone r) as Cc.
  { destruct c as [st|g k ql|g k ql c' rt|r]; [eauto|by destruct Rp as [? ->]| |eauto].
    destruct Rp as [w ->]. destruct k as [k|]; [done|]. destruct Nt. by eapply (no_continuation hs fb rs t _ g G Ec). }
  pose proof G as [G1 G2 G3]. constructor.
  - intros g. destruct (decide (g = f)) as [->|N].
    + rewrite fn_lookup_insert. split_and!; [set_solver| |done]. destruct Cc as [[st ->]|[r ->]]; eauto.
    + rewrite fn_lookup_insert_ne by done. specialize (G1 g).
      destruct (fb g) as [|[t1| |] b1|[t1| |] h1 c1 b1]; simpl in *; try done; destruct G1 as (R1 & G1); (split; [set_solver|done]).
  - intros y d g k Ry Dy O. destruct (decide (y = t)) as [->|Ny]; [|eapply (G2 y); [set_solver|done..]].
    rewrite Ec in Dy. injection Dy as <-. by destruct Cc as [[st ->]|[r ->]].
  - intros g g' y D D'. fn_cases; try done.
    all: first [by eapply G3|simpl in *; simplify_eq; destruct Nt; by eapply driver_in_roots].
Qed.


(** Who is a continuation, awaits. *)
Lemma continuation_waits hs fb rs a c g q :
  good hs fb rs → hs !! a = Some c → owner c = Some (g, Some (Handle q)) →
  ∃ k ql ret, hs !! q = Some (PWait g k ql a ret).
Proof.
  intros G E O. pose proof (good_fiber _ _ _ G g) as F.
  destruct (fb g) as [|[t| |] b|[t| |] h cd b] eqn:Eg; try done.
  - exfalso. by eapply not_elem_of_nil, F.
  - destruct F as (_ & _ & A). exfalso. by eapply not_elem_of_nil, A.
  - destruct F as (_ & _ & l & [(ql & Eh) W _ _ A]). pose proof (A a c _ E O) as I. clear A.
    apply elem_of_cons in I as [->|I].
    + rewrite Eh in E. injection E as <-. injection O as O. destruct l as [|q' l]; [done|]. injection O as ->.
      destruct W as [(ql' & ret & Eq) _]. eauto.
    + clear Eh Eg. revert h W I. induction l as [|q' l IH]; intros h; simpl; [by intros _ ?%not_elem_of_nil|].
      intros [(ql' & ret & Eq) W] I. apply elem_of_cons in I as [->|I]; [|by eapply IH].
      rewrite Eq in E. injection E as <-. injection O as O. destruct l as [|q2 l]; [done|]. injection O as ->.
      destruct W as [(ql2 & ret2 & Eq2) _]. eauto.
Qed.

Lemma settle_run f x s : settle f x s =
  Ok (tt, mkSystem (heap s) (<[f:=x]> (fib s)) (if is_idle x || blocked x then nullptr else Some f) (roots s)).
Proof. done. Qed.

Lemma with_heap_run {A} (m : M Heap A) s a h :
  m (heap s) = Ok (a, h) → with_heap m s = Ok (a, mkSystem h (fib s) (cpu s) (roots s)).
Proof. intros E. unfold with_heap. by rewrite E. Qed.

Lemma coro_inv_step l s :
  inv s → enabled l s && disciplined l s = true → ∃ s', step l s = Ok (tt, s') ∧ inv s'.
Proof.
  intros (hs & P & G) [En Di]%andb_true_iff. destruct l as [f c|f|f r]; simpl in En, Di.
  - apply andb_true_iff in En as [_ If]. destruct c as [[t|]|g|g]; try done.
    + unfold may_await in Di. rewrite andb_true_iff, !bool_decide_eq_true in Di. destruct Di as [Dt Nt].
      destruct (start_run_good f _ _ (heap s) hs t P G If Dt Nt) as (x & R & G').
      unfold step. rewrite (bind_Ok _ _ _ _ _ (with_heap_run _ s _ _ R)), (bind_Ok _ _ _ _ _ (settle_run f x _)).
      destruct x as [o|[h| |] b|]; (eexists; split; [reflexivity|]; by exists hs).
    + eexists. split; [reflexivity|]. exists hs. split; [done|].
      eapply coro_good_step; [done|apply evolution_refl| | |by right].
      * pose proof (good_fiber _ _ _ G f) as A. by destruct (fib s f).
      * intros y d k Ry Dy O. by eapply (good_root _ _ _ G).
  - rewrite !andb_true_iff, !negb_true_iff in En. destruct En as [[[_ Ni] Np] Q]. unfold step.
    rewrite (bind_Ok _ _ s s (fib s f)) by done.
    assert (∃ x s', fiber_step f (fib s f) (heap s) = Ok (x, s') ∧ after f (fib s) (roots s) x s') as (x & s' & R & hs' & P' & G').
    { destruct (fib s f) as [o|d b|d h c b] eqn:Ef; [done| |].
      - pose proof (good_fiber _ _ _ G f) as F. rewrite Ef in F. destruct d as [t| |]; try done. by eapply step_native.
      - pose proof (good_fiber _ _ _ G f) as F. rewrite Ef in F. destruct d as [t| |]; try done.
        eapply step_inside; [done..| |done]. destruct c as [st| | | | |]; try done. simpl.
        destruct (next st) as [[|] ? ?|[a|] ?| | | | | |]; try done. unfold may_await in Di.
        by rewrite andb_true_iff, !bool_decide_eq_true in Di. }
    rewrite (bind_Ok _ _ _ _ _ (with_heap_run _ s _ _ R)), settle_run. eexists. split; [done|]. by exists hs'.
  - apply andb_true_iff in En as [_ Ip]. unfold step. rewrite (bind_Ok _ _ s s (fib s f)) by done.
    destruct (fib s f) as [|d b|d h [| | | | |ret] b] eqn:Ef; try done. rewrite settle_run. eexists. split; [done|].
    pose proof (good_fiber _ _ _ G f) as F. rewrite Ef in F. destruct d as [t| |]; try done.
    by eapply after_nothing.
Qed.

Lemma coro_init_inv s : map_Forall fresh_task s → inv (initial s).
Proof.
  intros Fr. exists (omap (λ p, match frame p with Some (Exec st) => Some (PFresh st) | _ => None end) s). split.
  - intros x. rewrite lookup_omap. simpl. destruct (s !! x) as [p|] eqn:E; simpl; [|constructor].
    destruct (Fr x p E) as [st ->]. by constructor.
  - assert (∀ x c, omap (λ p, match frame p with Some (Exec st) => Some (PFresh st) | _ => None end) s !! x = Some c →
      owner c = None) as No.
    { intros x c. rewrite lookup_omap. destruct (s !! x) as [p|]; simpl; [|done].
      destruct (frame p) as [[]|]; simpl; intros; by simplify_eq. }
    constructor; [|set_solver|done]. intros f x c k E O. by rewrite (No x c E) in O.
Qed.

(** ** Properties *)

(** C6: a task that is run computes what its body says, when awaiting is read as
    calling: it awaits tasks, which start and hand over to each other, tasks that have
    ended, and generators, which go on until their next value.  Enough fuel is any
    that is larger; the result, or the exception, is that of the body, the task keeps
    it, and every coroutine that was touched is where the body leaves it. *)
Theorem coro_run_evaluates f σ t st σ1 r s :
  represents s σ → σ !! t = Some (Fresh st) → Eval (<[t:=Active]> σ) st σ1 (Finished r) →
  ∃ n s', represents s' (<[t:=Done r]> σ1) ∧
    ∀ m, n ≤ m → do_call m f (Run (Some t)) s = Ok (Idle (Some r), s').
Proof.
  intros R Et Ev. destruct (run_task f σ t st σ1 r s R Et Ev) as (n & s' & R' & Hn). exists n, s'. split; [done|].
  intros m Lm. replace m with (n + (m - n)) by lia. apply Hn.
Qed.

(** C12: the iteration over a generator that is suspended, with an empty mailbox that was never
    assigned to a coroutine, so that none awaits it or did ([at_yield]; else see
    [generator_stays_assigned]), sees exactly the sequence that it yields, and ends when it
    returns; also when it ends with an exception, which nobody sees. *)
Theorem generator_enumerates f g σ st l σ' s :
  represents s σ → σ !! g = Some (Suspended st) → s !! g = Some (at_yield g st None) → Yields g σ st l σ' →
  ∃ n s', represents s' σ' ∧ ∀ m, n ≤ m → range_for m f g s = Ok (Some l, s').
Proof. intros R Eg Ep Y. by eapply range_for_run. Qed.

(** C9: any number of fibers run tasks, not generators, that await each other and block in
    primitives, in any order, when [run] is called at most once for a task and no coroutine
    awaits a task for which it was called (see [coro_run_twice]).  Then nothing faults: a
    coroutine is never resumed while it executes or after it ended, and a result is set once.
    Two fibers never execute the same task; what executes has not ended; a task is the
    continuation of at most one other; and a fiber that was woken from waiting for a result
    finds it. *)
Theorem coro_tasks_safe ls s0 :
  map_Forall fresh_task s0 → legal (λ l s, enabled l s && disciplined l s) step ls (initial s0) →
  ∃ s, run step ls (initial s0) = Ok (tt, s) ∧
    (∀ f g d d' h c c' b b', fib s f = Inside d h c b → fib s g = Inside d' h c' b' → f = g) ∧
    (∀ f d h c b, fib s f = Inside d h c b →
       ∃ p, heap s !! h = Some p ∧ m_running p = true ∧ frame p = None ∧ completed p = false) ∧
    (∀ h h' p p' q, heap s !! h = Some p → heap s !! h' = Some p' →
       m_continuation p = Some (Handle q) → m_continuation p' = Some (Handle q) → h = h') ∧
    (∀ f d h t ret b, fib s f = Inside d h (FutureValue t ret) b → in_queue f (heap s) = false →
       ∃ p, heap s !! t = Some p ∧ completed p = true).
Proof.
  intros Fr Lg. destruct (run_always _ _ inv ls _ coro_inv_step (coro_init_inv s0 Fr) Lg) as (s & R & hs & P & G).
  exists s. split; [done|].
  assert (∀ f d h c b, fib s f = Inside d h c b → code_ok hs f c b ∧ ∃ k ql, hs !! h = Some (PExec f k ql)) as In.
  { intros f d h c b E. pose proof (good_fiber _ _ _ G f) as F. rewrite E in F. destruct d as [t| |]; try done.
    destruct F as (_ & C & l & S). destruct (st_top _ _ _ _ _ S) as [ql ?]. eauto. }
  split_and!.
  - intros f g d d' h c c' b b' Ef Eg. destruct (In _ _ _ _ _ Ef) as (_ & k & ql & E1).
    destruct (In _ _ _ _ _ Eg) as (_ & k' & ql' & E2). congruence.
  - intros f d h c b Ef. destruct (In _ _ _ _ _ Ef) as (_ & k & ql & E1).
    destruct (placed_lookup _ _ h _ P E1) as (p & Ep & w & ->). by eexists.
  - intros h h' p p' q Eh Eh' K K'.
    assert (∀ x px, heap s !! x = Some px → m_continuation px = Some (Handle q) →
      ∃ f k ql ret, hs !! q = Some (PWait f k ql x ret)) as Cw.
    { intros x px Ex Kx. specialize (P x). rewrite Ex in P. inversion P as [c px' Rx Ec|]; subst px'.
      assert (∃ g, owner c = Some (g, Some (Handle q))) as [g O].
      { destruct c; simpl in Rx |- *; [by subst px|destruct Rx as [w ->]..]; simpl in Kx; subst; eauto; done. }
      exists g. by eapply continuation_waits. }
    destruct (Cw h p Eh K) as (? & ? & ? & ? & E1). destruct (Cw h' p' Eh' K') as (? & ? & ? & ? & E2). congruence.
  - intros f d h t ret b Ef Q. destruct (In _ _ _ _ _ Ef) as ((c & Ec & W) & _).
    destruct (woken_done f _ hs t c P Ec W Q) as [r ->]. destruct (placed_lookup _ _ t _ P Ec) as (p & Ep & w & ->).
    eexists. split; [done|]. by destruct r.
Qed.

End Coro.

(** ** Which mailbox of a generator of several types gets a value

    [find_type] chooses the yield type among [haystack]; [None] is [void]. *)

Section FindType.
Context {T : Type} `{EqDecision T} (decay : T → T) (std_is_convertible : T → T → bool).

Definition is_identical (a b : T) : bool := bool_decide (a = b).
Definition is_similar (a b : T) : bool := is_identical a b || bool_decide (decay a = decay b).
Definition is_convertible (a b : T) : bool := is_similar a b || std_is_convertible a b.

Fixpoint has_identical_type (needle : T) (haystack : list T) : bool :=
  match haystack with
  | [] => false
  | first :: rest => is_identical needle first || has_identical_type needle rest
  end.

Fixpoint has_similar_type (needle : T) (haystack : list T) : bool :=
  match haystack with
  | [] => false
  | first :: rest => is_similar needle first && negb (has_identical_type needle rest) || has_similar_type needle rest
  end.

Fixpoint find_convertible_type (needle : T) (haystack : list T) : option T :=
  match haystack with
  | [] => None
  | first :: rest =>
      if is_convertible needle first && negb (has_similar_type needle rest) then Some first
      else find_convertible_type needle rest
  end.

Definition find_type (needle : T) (haystack : list T) : option T := find_convertible_type needle haystack.

Lemma has_similar_existsb needle l : has_similar_type needle l = existsb (is_similar needle) l.
Proof.
  assert (∀ l, has_identical_type needle l = true → existsb (is_similar needle) l = true) as Hi.
  { intros l'. induction l' as [|a l' IH]; simpl; [done|]. unfold is_similar at 1.
    destruct (is_identical needle a); simpl; [done|]. intros ->%IH. by rewrite orb_true_r. }
  induction l as [|a l IH]; simpl; [done|]. rewrite <-IH. destruct (is_similar needle a); simpl; [|done].
  destruct (has_identical_type needle l) eqn:E; simpl; [|done]. apply Hi in E. by rewrite IH.
Qed.

(** The last similar type; without one, the first to which it can be converted. *)
Lemma find_type_spec needle l :
  find_type needle l =
    match last (filter (λ t, is_similar needle t = true) l) with
    | Some t => Some t
    | None => head (filter (λ t, is_convertible needle t = true) l)
    end.
Proof.
  assert (∀ l, existsb (is_similar needle) l = false ↔ filter (λ t, is_similar needle t = true) l = []) as Hf.
  { intros l'. induction l' as [|a l' IH]; simpl; [done|]. rewrite filter_cons, orb_false_iff, IH.
    destruct (is_similar needle a); [by rewrite decide_True by done; split; [intros [? _]|]|rewrite decide_False by done].
    naive_solver. }
  unfold find_type. induction l as [|a l IH]; simpl; [done|]. rewrite has_similar_existsb, IH, !filter_cons.
  destruct (existsb (is_similar needle) l) eqn:E; simpl.
  - rewrite andb_false_r. assert (filter (λ t, is_similar needle t = true) l ≠ []) as N.
    { intros N%Hf. congruence. }
    destruct (filter (λ t, is_similar needle t = true) l) as [|b m] eqn:Ef; [done|].
    destruct (proj2 (last_is_Some (b :: m)) N) as [t Et].
    assert (last (a :: b :: m) = Some t) as Et' by (by rewrite last_cons, Et).
    destruct (decide (is_similar needle a = true)); by rewrite Et, ?Et'.
  - apply Hf in E. rewrite E, andb_true_r. simpl. unfold is_convertible at 1 2.
    destruct (is_similar needle a) eqn:Sa; simpl; [done|].
    assert (is_convertible needle a = std_is_convertible needle a) as Cv by (unfold is_convertible; by rewrite Sa).
    rewrite Cv. by destruct (std_is_convertible needle a).
Qed.
End FindType.

(** ** Examples *)

Module Example.
Abbreviation completed_exn := 101%positive.
Abbreviation state_exn := 102%positive.

(** Task 1 awaits task 2 and generator 3, task 4 only yields the fiber, task 5 awaits
    task 6, which yields the fiber, and task 7 awaits task 5. *)
Definition value_of (r : result nat) : nat := match r with Value v => v | Rethrow _ => 0 end.

Definition next (st : nat) : op (V := nat) (St := nat) :=
  match st with
  | 10 => AwaitTask (Some 2%positive) (λ r, 100 + value_of r)
  | 107 => AwaitGenerator (Some 3%positive) (λ r, 200 + value_of r)
  | 205 => Return 12
  | 20 => Return 7
  | 30 => Yield 5 31
  | 31 => Yield 6 32
  | 32 => Throw 9
  | 40 => AwaitFiber (λ _, 41)
  | 41 => Return 4
  | 50 => AwaitTask (Some 6%positive) (λ _, 51)
  | 51 => Return 5
  | 60 => AwaitFiber (λ _, 61)
  | 61 => Return 6
  | 70 => AwaitTask (Some 5%positive) (λ _, 71)
  | 80 => Yield 8 81
  | 90 => AwaitGenerator (Some 3%positive) (λ _, 91)
  | _ => Return 1
  end.

Abbreviation E := (gmap addr (cell (V := nat) (St := nat))).
Definition env : E := <[3%positive:=Suspended 30]> (<[2%positive:=Fresh 20]> (<[1%positive:=Fresh 10]> ∅)).

Definition tasks : gmap addr (Promise (V := nat) (St := nat)) :=
  <[3%positive:=new_promise 3 Generator 30]>
    (<[2%positive:=new_promise 2 Task 20]> (<[1%positive:=new_promise 1 Task 10]> ∅)).

(** Generators 3 and 8, and task 9, which awaits the first. *)
Definition generators : gmap addr (Promise (V := nat) (St := nat)) :=
  <[9%positive:=new_promise 9 Task 90]> (<[8%positive:=new_promise 8 Generator 80]> (<[3%positive:=new_promise 3 Generator 30]> ∅)).

Lemma tasks_env : represents tasks env.
Proof.
  unfold tasks, env. repeat apply represents_insert; try done; [|by exists None].
  intros x. rewrite !lookup_empty. constructor.
Qed.

Definition chain : gmap addr (Promise (V := nat) (St := nat)) :=
  <[7%positive:=new_promise 7 Task 70]>
    (<[6%positive:=new_promise 6 Task 60]> (<[5%positive:=new_promise 5 Task 50]> (<[4%positive:=new_promise 4 Task 40]> ∅))).

Lemma chain_fresh : map_Forall fresh_task chain.
Proof.
  unfold chain. repeat (apply map_Forall_insert_2; [by eexists|]). apply map_Forall_empty.
Qed.

(** Fiber 2 awaits task 5 while fiber 1 runs it, in task 6. *)
Definition meet : list (label (V := nat)) :=
  [Call 1 (Run (Some 5%positive)); Step 1; Step 1; Step 1;
   Call 2 (Run (Some 7%positive)); Step 2; Step 2; Step 2;
   Give 1 (Value 0); Step 1].
End Example.

(** A task for which [run] was called and that awaits another does not count as
    running: when a second coroutine awaits it too, it is resumed in the second fiber,
    and again when what it waited for ends. *)
Lemma coro_run_twice `{Config} :
  legal enabled (step Example.completed_exn Example.state_exn Example.next) Example.meet (initial Example.chain) ∧
  run (step Example.completed_exn Example.state_exn Example.next) Example.meet (initial Example.chain) = Fault NullDeref.
Proof. destruct H as [[] ?]; (split; [by apply legalb_legal; vm_compute|by vm_compute]). Qed.

(** A generator that is run by a fiber of its own and ends before its last value was
    taken: [value] throws, though the mailbox still has it. *)
Lemma generator_last_value `{Config} :
  ∃ s m, do_call Example.completed_exn Example.state_exn Example.next 5 1 (Run (Some 8%positive)) Example.generators = Ok (Idle None, s) ∧
    mailbox 8 s = Ok (m, s) ∧ m_value m = Some 8 ∧
    do_call Example.completed_exn Example.state_exn Example.next 5 2 (TakeValue (Some 8%positive)) s =
      Ok (Idle (Some (Rethrow Example.completed_exn)), s).
Proof. destruct H as [[] ?]; eexists _, _; (split; [vm_compute; reflexivity|]); by vm_compute. Qed.

(** Once a coroutine has awaited the generator, its mailbox stays assigned to that
    coroutine: a fiber that iterates over the generator blocks, with the value there. *)
Lemma generator_stays_assigned `{Config} :
  ∃ s r s' m, do_call Example.completed_exn Example.state_exn Example.next 20 1 (Run (Some 9%positive)) Example.generators = Ok (Idle (Some r), s) ∧
    range_for Example.completed_exn Example.state_exn Example.next 20 1 3 s = Ok (None, s') ∧
    mailbox 3 s' = Ok (m, s') ∧ m_value m = Some 6 ∧ queue_take m = [FiberTaker 1].
Proof. destruct H as [[] ?]; eexists _, _, _, _; (split; [vm_compute; reflexivity|]); (split; [vm_compute; reflexivity|]); by vm_compute. Qed.

(** The type that a value has loses to a later one that only differs in qualifiers:
    [int] is put in the mailbox of [int const&] ([true] is the decayed type, [false]
    the qualified one). *)
Lemma find_type_not_identical :
  find_type (λ _ : bool, true) (λ _ _, true) true [true; false] = Some false.
Proof. done. Qed.

(** *** Witnesses *)

Lemma coro_run_evaluates_witness :
  ∃ n s', ∀ m, n ≤ m →
    do_call (H := debug_config) Example.completed_exn Example.state_exn Example.next m 1 (Run (Some 1%positive)) Example.tasks =
      Ok (Idle (Some (Value 12)), s').
Proof.
  destruct (coro_run_evaluates (H := debug_config) Example.completed_exn Example.state_exn Example.next 1
    Example.env 1 10 (<[3%positive:=Suspended 31]> (<[2%positive:=Done (Value 7)]> (<[1%positive:=Active]> Example.env)))
    (Value 12) Example.tasks Example.tasks_env eq_refl) as (n & s' & _ & R); [|by exists n, s'].
  eapply E_task; [reflexivity|reflexivity|by eapply E_return|].
  eapply E_value; [reflexivity|reflexivity|by eapply E_yield|].
  replace (<[3%positive:=Suspended 31]> (<[2%positive:=Done (Value 7)]> (<[1%positive:=Active]> Example.env)))
    with (<[3%positive:=Suspended 31]> (<[3%positive:=Active]> (<[2%positive:=Done (Value 7)]>
       (<[2%positive:=Active]> (<[1%positive:=Active]> Example.env))))) by (by vm_compute).
  by eapply E_return.
Defined.

Lemma generator_enumerates_witness :
  ∃ n s', ∀ m, n ≤ m →
    range_for (H := debug_config) Example.completed_exn Example.state_exn Example.next m 1 3 Example.tasks = Ok (Some [5; 6], s').
Proof.
  destruct (generator_enumerates (H := debug_config) Example.completed_exn Example.state_exn Example.next 1 3
    Example.env 30 [5; 6] (<[3%positive:=Ended]> (<[3%positive:=Active]> (<[3%positive:=Suspended 32]>
      (<[3%positive:=Active]> (<[3%positive:=Suspended 31]> (<[3%positive:=Active]> Example.env))))))
    Example.tasks Example.tasks_env eq_refl eq_refl) as (n & s' & _ & R); [|by exists n, s'].
  eapply Y_next; [by eapply E_yield|]. eapply Y_next; [by eapply E_yield|]. eapply Y_end. by eapply (E_throw _ _ _ _ 9%positive).
Defined.

Lemma coro_tasks_safe_witness :
  ∃ s, run (step (H := debug_config) Example.completed_exn Example.state_exn Example.next)
      [Call 1 (Run (Some 5%positive)); Step 1; Step 1; Step 1; Call 2 (Run (Some 4%positive)); Step 2; Step 2;
       Give 1 (Value 0); Step 1; Step 1; Step 1; Step 1] (initial Example.chain) = Ok (tt, s) ∧
    (∀ f g d d' h c c' b b', fib s f = Inside d h c b → fib s g = Inside d' h c' b' → f = g).
Proof.
  destruct (coro_tasks_safe (H := debug_config) Example.completed_exn Example.state_exn Example.next
    [Call 1 (Run (Some 5%positive)); Step 1; Step 1; Step 1; Call 2 (Run (Some 4%positive)); Step 2; Step 2;
     Give 1 (Value 0); Step 1; Step 1; Step 1; Step 1] Example.chain Example.chain_fresh) as (s & R & U & _);
    [by apply legalb_legal; vm_compute|]. by exists s.
Defined.
