(* ===== verification/FsmCompile.v ===== *)
(** * Descriptions of state machines (libzth/fsm14.h)

    The eDSL in which a state machine is written, and [compile], which turns a
    description into a table.  A description is a list of transitions; a
    transition names its state, or belongs to the one named before.  In the
    table, row 0 is the initial state, the rows of a state are next to each
    other, and targets are row numbers.  [compile_iff] says which descriptions
    can be compiled, [compile_table] what is in the table. *)

From stdpp Require Import base list strings.
From S2P Require Import Prelude Time.

Set Default Proof Using "Type".

(** ** Symbols *)

(** A pointer to a C string. *)
Definition Symbol := option string.
Abbreviation State := Symbol.

Definition valid (s : Symbol) : bool := match s with Some _ => true | None => false end.
Definition str (s : Symbol) : string := default "-" s.

(** [*s]; a C string ends with a zero. *)
Definition c_char (s : string) : Ascii.ascii :=
  match s with EmptyString => Ascii.zero | String c _ => c end.

(** [while( *a && *a == *b ) { a++; b++; } return *a == *b;] *)
Fixpoint c_equal (a b : string) : bool :=
  match a, b with
  | String x a', String y b' =>
      if negb (Ascii.eqb x Ascii.zero) && Ascii.eqb x y then c_equal a' b' else Ascii.eqb x y
  | _, _ => Ascii.eqb (c_char a) (c_char b)
  end.

Definition constexpr_eq (s t : Symbol) : bool :=
  if xorb (negb (valid s)) (negb (valid t)) then false
  else match s, t with Some a, Some b => c_equal a b | _, _ => true end.

(** What a symbol stands for: the characters up to the first zero. *)
Fixpoint c_str (s : string) : string :=
  match s with
  | EmptyString => EmptyString
  | String c s => if Ascii.eqb c Ascii.zero then EmptyString else String c (c_str s)
  end.
Definition name (s : Symbol) : option string := c_str <$> s.

#[local] Arguments Ascii.eqb : simpl never.

Lemma c_equal_spec (a b : string) : c_equal a b = bool_decide (c_str a = c_str b).
Proof.
  revert b. induction a as [|x a IH]; intros [|y b]; simpl; try done.
  - rewrite Ascii.eqb_sym. by destruct (Ascii.eqb y Ascii.zero).
  - by destruct (Ascii.eqb x Ascii.zero).
  - destruct (Ascii.eqb_spec x Ascii.zero) as [->|X]; simpl.
    + rewrite Ascii.eqb_sym. by destruct (Ascii.eqb y Ascii.zero).
    + destruct (Ascii.eqb_spec x y) as [->|E].
      * destruct (Ascii.eqb_spec y Ascii.zero); [done|]. rewrite IH.
        apply bool_decide_ext. split; [by intros ->|by intros [= ?]].
      * symmetry. apply bool_decide_eq_false. destruct (Ascii.eqb y Ascii.zero); by intros [=].
Qed.

Lemma constexpr_eq_spec (s t : Symbol) : constexpr_eq s t = bool_decide (name s = name t).
Proof.
  destruct s as [a|], t as [b|]; try done. unfold constexpr_eq. simpl. rewrite c_equal_spec.
  apply bool_decide_ext. unfold name. simpl. split; [by intros ->|by intros [= ?]].
Qed.

Lemma constexpr_eq_true (s t : Symbol) : constexpr_eq s t = true ↔ name s = name t.
Proof. rewrite constexpr_eq_spec. apply bool_decide_eq_true. Qed.

Lemma valid_name (s : Symbol) : valid s = bool_decide (is_Some (name s)).
Proof. by destruct s. Qed.

(** ** Guards and actions

    A guard or an action is an object that the description refers to; the
    predefined ones are recognised by their address.  [G] and [A] are the guards
    and actions that the program defines. *)

Section Description.
Context {G A : Type}.

Inductive Guard :=
| always
| never
| entry
| popped
| timeout_s (s : Z)
| timeout_ms (ms : Z)
| timeout_us (us : Z)
| InputGuard (input : Symbol)
| TypedGuard (g : G).

Inductive Action :=
| nothing
| push
| pop
| stop
| consume
| TypedAction (a : A).

Definition is_always (g : Guard) : bool := match g with always => true | _ => false end.
Definition is_never (g : Guard) : bool := match g with never => true | _ => false end.
Definition is_nothing (a : Action) : bool := match a with nothing => true | _ => false end.

(** *** Guarded actions *)

Record GuardedAction := mkGA { ga_guard : Guard; ga_input : Symbol; ga_action : Action }.

Definition ga_of (g : Guard) (a : Action) : GuardedAction := mkGA g None a.
Definition ga_of_input (s : Symbol) (a : Action) : GuardedAction := mkGA never s a.
Definition ga_of_action (a : Action) : GuardedAction := ga_of always a.
Definition input (s : Symbol) : GuardedAction := ga_of_input s nothing.

Definition ga_isInput (ga : GuardedAction) : bool := valid (ga_input ga).
Definition ga_hasGuard (ga : GuardedAction) : bool := negb (ga_isInput ga).

(** [guard / action] and [input / action]. *)
Definition guard_div (g : Guard) (a : Action) : GuardedAction := ga_of g a.
Definition ga_div (ga : GuardedAction) (a : Action) : string + GuardedAction :=
  if negb (ga_isInput ga && is_nothing (ga_action ga)) then inl "Ambiguous /"
  else inr (ga_of_input (ga_input ga) a).

(** *** Where a transition starts *)

Record TransitionStart := mkStart { ts_state : State; ts_ga : GuardedAction }.

Definition ts_isInput (t : TransitionStart) : bool := ga_isInput (ts_ga t).
Definition ts_hasGuard (t : TransitionStart) : bool := ga_hasGuard (ts_ga t).
Definition ts_guard (t : TransitionStart) : Guard := ga_guard (ts_ga t).
Definition ts_action (t : TransitionStart) : Action := ga_action (ts_ga t).

(** The conversions to it: from a state, a guard, an action, a guarded action. *)
Definition start_state (s : State) : TransitionStart := mkStart s (guard_div never nothing).
Definition start_guard (g : Guard) : TransitionStart := mkStart None (guard_div g nothing).
Definition start_action (a : Action) : TransitionStart := mkStart None (guard_div always a).
Definition start_ga (ga : GuardedAction) : TransitionStart := mkStart None ga.

(** [state + ...]. *)
Definition state_plus_ga (s : State) (ga : GuardedAction) : TransitionStart := mkStart s ga.
Definition state_plus_guard (s : State) (g : Guard) : TransitionStart := mkStart s (ga_of g nothing).
Definition state_plus_input (s : State) (i : Symbol) : TransitionStart := mkStart s (ga_of_input i nothing).
Definition state_div (s : State) (a : Action) : TransitionStart := mkStart s (ga_of always a).

(** ["a" + "b" / c] is read as ["a" + ("b" / c)], in which ["b"] is taken for a
    state. *)
Definition state_plus_start (s : State) (t : TransitionStart) : string + TransitionStart :=
  if negb (ts_hasGuard t && is_always (ts_guard t)) then inl "Ambiguous +"
  else inr (mkStart s (ga_of_input (ts_state t) (ts_action t))).

(** *** Transitions *)

Record Transition := mkTransition { m_from : TransitionStart; m_to : State }.

Definition transition (t : TransitionStart) : Transition := mkTransition t None.
Definition to_state (t : TransitionStart) (to : State) : Transition := mkTransition t to.
Definition state_to (from to : State) : Transition := mkTransition (state_plus_guard from always) to.
Definition guard_to (from : Guard) (to : State) : Transition := mkTransition (state_plus_guard None from) to.
Definition action_to (from : Action) (to : State) : Transition := mkTransition (state_div None from) to.
Definition ga_to (from : GuardedAction) (to : State) : Transition := mkTransition (state_plus_ga None from) to.

Definition tr_from (t : Transition) : State := ts_state (m_from t).
Definition tr_isInput (t : Transition) : bool := ts_isInput (m_from t).
Definition tr_hasGuard (t : Transition) : bool := ts_hasGuard (m_from t).
Definition tr_input (t : Transition) : Symbol := ga_input (ts_ga (m_from t)).
Definition tr_guard (t : Transition) : Guard := ts_guard (m_from t).
Definition tr_action (t : Transition) : Action := ts_action (m_from t).

(** ** The table *)

(** [void const* guard]: to a [Guard] or to the characters of an input. *)
Inductive AnyPtr := ToGuard (g : Guard) | ToChars (s : Symbol).

Record CompiledTransition := mkRow {
  c_guard : AnyPtr;
  c_action : Action;
  c_from : State;
  c_to : nat;
  c_flags : Z;
}.

Definition Flag_input : Z := 1.

(** [smallest_uint<Size>::type], in bits. *)
Definition smallest_uint (x : Z) : Z :=
  (if 0x100000000 <=? x then 64 else if 0x10000 <=? x then 32 else if 0x100 <=? x then 16 else 8)%Z.

(** [static_assert(std::numeric_limits<Index>::max() > Size)]. *)
Definition Index_fits (Size : nat) : bool := (Z.of_nat Size <? 2 ^ smallest_uint (Z.of_nat Size) - 1)%Z.
Definition to_Index (Size i : nat) : nat := Z.to_nat (Z.of_nat i `mod` 2 ^ smallest_uint (Z.of_nat Size)).

Fixpoint find_from (state : State) (l : list Transition) (i : nat) : string + nat :=
  match l with
  | [] => inl "Target state not found"
  | t :: l => if constexpr_eq (tr_from t) state then inr (i + 1) else find_from state l (i + 1)
  end.
Definition find (state : State) (l : list Transition) : string + nat :=
  if negb (valid state) then inr 0 else find_from state l 0.

(** The loop of [compile]: the rows of the transitions [ts], from row [i] on. *)
Fixpoint compile_rows (l : list Transition) (ts : list Transition) (i : nat) (prev : State) :
    string + list CompiledTransition :=
  match ts with
  | [] => inr []
  | t :: ts =>
      let named := negb (constexpr_eq prev (tr_from t)) && valid (tr_from t) in
      match (if named then find (tr_from t) l else inr i) with
      | inl e => inl e
      | inr j =>
          if negb (j =? i) then inl "State transitions are not contiguous"
          else match find (m_to t) l with
            | inl e => inl e
            | inr to =>
                match compile_rows l ts (i + 1) (if named then tr_from t else prev) with
                | inl e => inl e
                | inr rows =>
                    inr (mkRow (if tr_hasGuard t then ToGuard (tr_guard t) else ToChars (tr_input t))
                      (tr_action t) (if named then tr_from t else None) (to_Index (length l) to)
                      (if tr_hasGuard t then 0%Z else Flag_input) :: rows)
                end
            end
      end
  end.

Definition first_row (Size : nat) : CompiledTransition :=
  if Size =? 0 then mkRow (ToGuard never) nothing None 0 0
  else mkRow (ToGuard always) nothing None 1 0.

Definition Transitions := list CompiledTransition.

Definition compile (l : list Transition) : string + Transitions :=
  if negb (Index_fits (length l)) then inl "static_assert"
  else if negb (forallb (λ t, valid (tr_from t)) (take 1 l)) then inl "First state must be valid"
  else match compile_rows l l 1 None with
    | inl e => inl e
    | inr rows => inr (first_row (length l) :: rows)
    end.
End Description.

Arguments Guard : clear implicits.
Arguments Action : clear implicits.
Arguments GuardedAction : clear implicits.
Arguments TransitionStart : clear implicits.
Arguments Transition : clear implicits.
Arguments CompiledTransition : clear implicits.
Arguments Transitions : clear implicits.

(** ** What a description means *)

Section Meaning.
Context {G A : Type}.
#[local] Abbreviation Transition := (Transition G A).
#[local] Abbreviation CompiledTransition := (CompiledTransition G A).
Implicit Types (l ts : list Transition) (t : Transition) (prev : State) (s : option string).

(** Every transition with the state it belongs to. *)
Fixpoint owned (prev : option string) ts : list (option string * Transition) :=
  match ts with
  | [] => []
  | t :: ts =>
      let o := if valid (tr_from t) then name (tr_from t) else prev in (o, t) :: owned o ts
  end.

(** The transitions of a state, in order. *)
Definition transitions_of l s : list Transition := (filter (λ p, p.1 = s) (owned None l)).*2.

(** The transitions of a state are not interrupted by those of another. *)
Definition contiguous l : Prop := ∀ i j k o, i < j → j < k →
  (owned None l).*1 !! i = Some o → (owned None l).*1 !! k = Some o → (owned None l).*1 !! j = Some o.

Definition declared l s : Prop := ∃ t, t ∈ l ∧ name (tr_from t) = s.

Definition compilable l : Prop :=
  Index_fits (length l) = true ∧ (∀ t, head l = Some t → valid (tr_from t) = true) ∧
  contiguous l ∧ (∀ t, t ∈ l → valid (m_to t) = true → declared l (name (m_to t))).

(** The row in the table at which a target starts. *)
Definition target l (s : State) : nat := match find s l with inr i => i | inl _ => 0 end.

(** The rows of the state at row [i]: up to the next row with a name. *)
Fixpoint unnamed (rows : list CompiledTransition) : list CompiledTransition :=
  match rows with [] => [] | r :: rows => if valid (c_from r) then [] else r :: unnamed rows end.
Definition group (T : list CompiledTransition) (i : nat) : list CompiledTransition :=
  match drop i T with [] => [] | r :: rows => r :: unnamed rows end.

(** What is in a row, and what a transition asks for. *)
Definition row_data (r : CompiledTransition) := (c_guard r, c_flags r, c_action r, c_to r).
Definition guard_ptr t : AnyPtr := if tr_hasGuard t then ToGuard (tr_guard t) else ToChars (tr_input t).
Definition guard_flags t : Z := if tr_hasGuard t then 0%Z else Flag_input.
Definition asked l t := (guard_ptr t, guard_flags t, tr_action t, target l (m_to t)).

(** *** The loop of [compile] *)

Definition is_named prev t : bool := negb (constexpr_eq prev (tr_from t)) && valid (tr_from t).
Definition next_prev prev t : State := if is_named prev t then tr_from t else prev.

Definition row_for l (named : bool) t : CompiledTransition :=
  mkRow (guard_ptr t) (tr_action t) (if named then tr_from t else None)
    (to_Index (length l) (target l (m_to t))) (guard_flags t).

Fixpoint rows_of l prev ts : list CompiledTransition :=
  match ts with [] => [] | t :: ts => row_for l (is_named prev t) t :: rows_of l (next_prev prev t) ts end.

Fixpoint checked l (i : nat) prev ts : Prop :=
  match ts with
  | [] => True
  | t :: ts => (is_named prev t = true → find (tr_from t) l = inr i) ∧
      find (m_to t) l = inr (target l (m_to t)) ∧ checked l (i + 1) (next_prev prev t) ts
  end.

Lemma compile_rows_iff l ts i prev rows :
  compile_rows l ts i prev = inr rows ↔ checked l i prev ts ∧ rows = rows_of l prev ts.
Proof.
  revert i prev rows. induction ts as [|t ts IH]; intros i prev rows; simpl; [naive_solver|].
  fold (is_named prev t). change (if is_named prev t then tr_from t else prev) with (next_prev prev t).
  unfold target at 1.
  destruct (if is_named prev t then find (tr_from t) l else inr i) as [e|j] eqn:F.
  { split; [done|]. intros [[N _] _]. destruct (is_named prev t); [by rewrite N in F|done]. }
  destruct (Nat.eqb_spec j i) as [->|J]; simpl.
  - assert (N : is_named prev t = true → find (tr_from t) l = inr i).
    { intros N. by rewrite N in F. }
    unfold row_for, target at 1. destruct (find (m_to t) l) as [e|to]; [naive_solver|].
    destruct (compile_rows l ts (i + 1) (next_prev prev t)) as [e|rs] eqn:C.
    + split; [done|]. intros (C1 & _). destruct (IH (i + 1) (next_prev prev t) (rows_of l (next_prev prev t) ts)) as [_ R].
      rewrite R in C; [done|]. naive_solver.
    + apply IH in C as [C ->]. split; [intros [= <-]; naive_solver|]. by intros [_ ->].
  - split; [done|]. intros [[N _] _]. destruct (is_named prev t); [rewrite N in F by done|]; congruence.
Qed.

(** *** [find] *)

(** Transition [i] is the first that names [o]. *)
Definition first_at l (o : option string) (i : nat) : Prop :=
  (∃ t, l !! i = Some t ∧ name (tr_from t) = o) ∧
  ∀ j t, j < i → l !! j = Some t → name (tr_from t) ≠ o.

Lemma first_at_unique l o i j : first_at l o i → first_at l o j → i = j.
Proof.
  intros [(t & Hi & Ni) Fi] [(u & Hj & Nj) Fj]. destruct (decide (i < j)) as [L|]; [by destruct (Fj _ _ L Hi)|].
  destruct (decide (j < i)) as [L|]; [by destruct (Fi _ _ L Hj)|]. lia.
Qed.

Lemma first_at_le l o i j t : first_at l o i → l !! j = Some t → name (tr_from t) = o → i ≤ j.
Proof. intros [_ F] L N. destruct (decide (j < i)) as [J|]; [by destruct (F _ _ J L)|lia]. Qed.

Lemma first_at_cons t l o i : name (tr_from t) ≠ o → first_at (t :: l) o (S i) ↔ first_at l o i.
Proof.
  intros N. split; intros [E F]; (split; [done|]).
  - intros j u J. apply (F (S j)). lia.
  - intros [|j] u J; [by intros [= <-]|]. apply F. lia.
Qed.

Lemma find_from_spec s l k n : find_from s l k = inr n ↔ ∃ i, n = k + i + 1 ∧ first_at l (name s) i.
Proof.
  revert k. induction l as [|t l IH]; intros k; simpl.
  { split; [done|]. by intros (i & _ & (t & L & _) & _). }
  destruct (constexpr_eq (tr_from t) s) eqn:E.
  - apply constexpr_eq_true in E. assert (F : first_at (t :: l) (name s) 0).
    { split; [by exists t|]. intros j u J. lia. }
    split; [intros [= <-]; exists 0; split; [lia|done]|]. intros (i & -> & Fi).
    by rewrite (first_at_unique _ _ _ _ Fi F), Nat.add_0_r.
  - assert (N : name (tr_from t) ≠ name s) by by rewrite <-constexpr_eq_true, E.
    rewrite IH. split.
    + intros (i & -> & F). exists (S i). split; [lia|by apply first_at_cons].
    + intros ([|i] & -> & F); [destruct F as [(u & [= <-] & U) _]; done|].
      exists i. split; [lia|]. by apply first_at_cons in F.
Qed.

Lemma find_first s l n : valid s = true → find s l = inr n ↔ ∃ i, n = S i ∧ first_at l (name s) i.
Proof.
  intros V. unfold find. rewrite V. simpl. rewrite find_from_spec.
  split; intros (i & -> & F); exists i; split; (lia || done).
Qed.

Lemma find_declared s l : valid s = true → (∃ n, find s l = inr n) ↔ declared l (name s).
Proof.
  intros V. split.
  - intros [n F]. apply find_first in F as (i & -> & (t & L & N) & _); [|done].
    exists t. split; [by eapply list_elem_of_lookup_2|done].
  - intros (t & E & N). destruct (find s l) as [e|n] eqn:F; [exfalso|by exists n].
    unfold find in F. rewrite V in F. simpl in F. revert F. generalize 0. clear - E N.
    induction l as [|u l IH]; intros k; [by apply not_elem_of_nil in E|]. simpl.
    apply elem_of_cons in E as [->|E].
    + by rewrite (proj2 (constexpr_eq_true _ _) N).
    + destruct (constexpr_eq (tr_from u) s); [done|]. by apply IH.
Qed.

(** *** States are next to each other *)

Lemma is_named_true prev t : is_named prev t = true ↔ valid (tr_from t) = true ∧ name prev ≠ name (tr_from t).
Proof. unfold is_named. rewrite andb_true_iff, negb_true_iff, <-not_true_iff_false, constexpr_eq_true. tauto. Qed.

Lemma is_named_false prev t :
  is_named prev t = false → (if valid (tr_from t) then name (tr_from t) else name prev) = name prev.
Proof.
  rewrite <-not_true_iff_false, is_named_true. destruct (valid (tr_from t)); [|done]. intros N.
  destruct (decide (name prev = name (tr_from t))); [done|]. naive_solver.
Qed.

Lemma next_prev_name prev t :
  name (next_prev prev t) = if valid (tr_from t) then name (tr_from t) else name prev.
Proof.
  unfold next_prev. destruct (is_named prev t) eqn:N.
  - apply is_named_true in N as [-> _]. done.
  - symmetry. by apply is_named_false.
Qed.

(** Once a state has been left, it does not come back. *)
Lemma gone l (o : option string) k ts i prev :
  checked l i prev ts → first_at l o k → S k < i → name prev ≠ o → o ∉ (owned (name prev) ts).*1.
Proof.
  intros C F. revert i prev C. induction ts as [|t ts IH]; intros i prev C K P; simpl; [apply not_elem_of_nil|].
  destruct C as (N & _ & C). rewrite <-next_prev_name. apply not_elem_of_cons.
  assert (Q : o ≠ name (next_prev prev t)); [|split; [done|]; eapply (IH (i + 1)); eauto; lia].
  unfold next_prev. destruct (is_named prev t) eqn:E; [|done]. intros ->. specialize (N eq_refl).
  apply is_named_true in E as [V _]. apply find_first in N as (j & -> & Fj); [|done].
  pose proof (first_at_unique _ _ _ _ F Fj). lia.
Qed.

Lemma target_bound l s : target l s ≤ length l.
Proof.
  unfold target. destruct (find s l) as [|n] eqn:F; [lia|]. destruct (valid s) eqn:V.
  - apply find_first in F as (i & -> & (t & L & _) & _); [|done]. by apply lookup_lt_Some in L.
  - unfold find in F. rewrite V in F. simpl in F. injection F as <-. lia.
Qed.

Lemma to_Index_id (Size i : nat) : Index_fits Size = true → i ≤ Size → to_Index Size i = i.
Proof. unfold Index_fits, to_Index. intros F%Z.ltb_lt L. rewrite Z.mod_small by lia. lia. Qed.

Lemma row_data_for l b t : Index_fits (length l) = true → row_data (row_for l b t) = asked l t.
Proof. intros F. unfold row_data, row_for, asked. simpl. by rewrite to_Index_id by auto using target_bound. Qed.

Lemma row_for_valid l prev t : valid (c_from (row_for l (is_named prev t) t)) = is_named prev t.
Proof. simpl. destruct (is_named prev t) eqn:E; [|done]. by apply is_named_true in E as [-> _]. Qed.

Lemma filter_gone (o p : option string) ts : o ∉ (owned p ts).*1 → filter (λ x, x.1 = o) (owned p ts) = [].
Proof. intros N. apply filter_none. intros x E <-. apply N. by apply list_elem_of_fmap_2. Qed.

(** The rest of the rows of the state that is being compiled. *)
Lemma unnamed_rows l (o : option string) k i prev ts :
  Index_fits (length l) = true → checked l i prev ts → first_at l o k → S k < i → name prev = o →
  row_data <$> unnamed (rows_of l prev ts) = asked l <$> (filter (λ p, p.1 = o) (owned o ts)).*2.
Proof.
  intros I. revert i prev. induction ts as [|t ts IH]; intros i prev C F K P; [done|].
  cbn [rows_of unnamed]. rewrite row_for_valid. destruct (is_named prev t) eqn:E.
  - rewrite filter_gone; [done|]. simpl. subst o. rewrite <-next_prev_name. destruct C as (_ & _ & C).
    apply is_named_true in E as E'. destruct E' as [V D]. assert (Q : name (next_prev prev t) ≠ name prev).
    { rewrite next_prev_name, V. by apply not_eq_sym. }
    apply not_elem_of_cons. split; [done|]. eapply gone; [done..|lia|done].
  - simpl. pose proof (is_named_false _ _ E) as Q. rewrite P in Q. rewrite Q. destruct C as (_ & _ & C).
    rewrite filter_cons_True by done. cbn [fmap list_fmap].
    f_equal; [by apply (row_data_for l false)|]. unfold next_prev in *. rewrite E in *.
    apply (IH (i + 1)); [done..|lia|done].
Qed.

(** The rows of state [o], wherever they start. *)
Lemma group_rows l (o : option string) k i prev ts pre :
  Index_fits (length l) = true → l = pre ++ ts → i = S (length pre) → checked l i prev ts →
  first_at l o k → i ≤ S k → name prev ≠ o → is_Some o →
  row_data <$> group (rows_of l prev ts) (S k - i) = asked l <$> (filter (λ p, p.1 = o) (owned (name prev) ts)).*2.
Proof.
  intros I. revert i prev pre. induction ts as [|t ts IH]; intros i prev pre L Hi C F K P [x So].
  - destruct F as [(t & Lt & _) _]. apply lookup_lt_Some in Lt. rewrite L, app_nil_r in Lt. lia.
  - assert (Lt : l !! length pre = Some t) by by rewrite L, list_lookup_middle.
    destruct C as (N & T & C). destruct (decide (name (tr_from t) = o)) as [D|D].
    + pose proof (first_at_le _ _ _ _ _ F Lt D). assert (V : valid (tr_from t) = true).
      { rewrite valid_name, D, So. done. }
      assert (E : is_named prev t = true) by by apply is_named_true; rewrite D.
      replace (S k - i) with 0 by lia. unfold group. cbn [drop rows_of owned].
      rewrite V, D, filter_cons_True by done. cbn [fmap list_fmap]. f_equal; [by apply row_data_for|].
      apply (unnamed_rows _ _ k (i + 1)); [done..|lia|]. unfold next_prev. by rewrite E.
    + assert (Q : name (next_prev prev t) ≠ o).
      { rewrite next_prev_name. by destruct (valid _). }
      assert (S k ≠ i).
      { intros <-. injection Hi as ->. destruct F as [(u & Lu & Nu) _]. congruence. }
      replace (S k - i) with (S (S k - (i + 1))) by lia. cbn [rows_of owned].
      rewrite <-next_prev_name, filter_cons_False by done.
      apply (IH (i + 1) _ (pre ++ [t])); [by rewrite L, <-app_assoc| | |done|lia|done|by exists x].
      * rewrite length_app. simpl. lia.
      * done.
Qed.

(** *** Which descriptions can be compiled *)

Definition last_owner (p : option string) ts : option string := default p (last (owned p ts).*1).

Lemma owned_app (p : option string) ts ts' : owned p (ts ++ ts') = owned p ts ++ owned (last_owner p ts) ts'.
Proof.
  revert p. induction ts as [|t ts IH]; intros p; [done|]. simpl. rewrite IH. unfold last_owner.
  do 3 f_equal. cbn [owned]. rewrite fmap_cons, last_cons. by destruct (last _).
Qed.

Lemma last_owner_snoc (p : option string) ts t :
  last_owner p (ts ++ [t]) = if valid (tr_from t) then name (tr_from t) else last_owner p ts.
Proof.
  unfold last_owner at 1. rewrite owned_app, fmap_app. cbn [owned]. rewrite fmap_cons, fmap_nil. by rewrite last_snoc.
Qed.

Lemma owned_length (p : option string) ts : length (owned p ts).*1 = length ts.
Proof. revert p. induction ts as [|t ts IH]; intros p; [done|]. simpl. by rewrite IH. Qed.

Lemma owned_named (p : option string) ts i t :
  ts !! i = Some t → valid (tr_from t) = true → (owned p ts).*1 !! i = Some (name (tr_from t)).
Proof.
  revert p i. induction ts as [|u ts IH]; intros p [|i] L V; simplify_eq/=; [by rewrite V|by apply IH].
Qed.

Lemma owner_declared (p : option string) ts i o :
  (owned p ts).*1 !! i = Some o → o = p ∨ ∃ j t, j ≤ i ∧ ts !! j = Some t ∧ name (tr_from t) = o.
Proof.
  revert p i. induction ts as [|u ts IH]; intros p [|i] L; simplify_eq/=.
  - destruct (valid (tr_from u)); [right; by exists 0, u|by left].
  - apply IH in L as [->|(j & t & J & L & N)]; [|right; exists (S j), t; split_and!; [lia|done..]].
    destruct (valid (tr_from u)); [|by left]. right. exists 0, u. split; [lia|done].
Qed.

Lemma declared_first l (o : option string) : is_Some o → declared l o → ∃ k, first_at l o k.
Proof.
  intros [x ->] (t & E & N). assert (V : valid (tr_from t) = true) by by rewrite valid_name, N.
  destruct (proj2 (find_declared (tr_from t) l V)) as [n F]; [by exists t|].
  apply find_first in F as (i & _ & F); [|done]. exists i. by rewrite <-N.
Qed.

Lemma owner_first l (o : option string) i :
  is_Some o → (owned None l).*1 !! i = Some o → ∃ k, first_at l o k ∧ k ≤ i.
Proof.
  intros So L. apply owner_declared in L as [->|(j & t & J & L & N)]; [by destruct So|].
  destruct (declared_first l o So) as [k F]; [exists t; split; [by eapply list_elem_of_lookup_2|done]|].
  exists k. split; [done|]. pose proof (first_at_le _ _ _ _ _ F L N). lia.
Qed.

Lemma owners_valid l i (o : option string) :
  (∀ t, head l = Some t → valid (tr_from t) = true) → (owned None l).*1 !! i = Some o → is_Some o.
Proof.
  destruct l as [|t l]; [done|]. intros V. specialize (V t eq_refl). simpl. rewrite V.
  assert (St : is_Some (name (tr_from t))) by by rewrite valid_name in V; apply bool_decide_eq_true in V.
  revert i St. generalize (name (tr_from t)). clear V. intros p [|i] St; simpl; [by intros [= <-]|].
  revert p i St. induction l as [|u l IH]; intros p [|i] St; simpl; [done..| |].
  - intros [= <-]. destruct (valid (tr_from u)) eqn:V; [|done].
    rewrite valid_name in V. by apply bool_decide_eq_true in V.
  - apply IH. destruct (valid (tr_from u)) eqn:V; [|done]. rewrite valid_name in V. by apply bool_decide_eq_true in V.
Qed.

(** What was checked when the loop gets past transition [j]. *)
Lemma checked_drop l i prev ts j o :
  checked l i prev ts → (owned (name prev) ts).*1 !! j = Some o →
  ∃ prev', name prev' = o ∧ checked l (i + S j) prev' (drop (S j) ts) ∧
    drop (S j) (owned (name prev) ts) = owned o (drop (S j) ts).
Proof.
  revert i prev j. induction ts as [|t ts IH]; intros i prev j C L; [done|]. simpl in L.
  rewrite <-next_prev_name in L. destruct C as (_ & _ & C). destruct j as [|j].
  - injection L as L. exists (next_prev prev t). simpl. rewrite drop_0, <-next_prev_name, L. by split_and!.
  - destruct (IH _ _ _ C L) as (prev' & P & C' & D). exists prev'. split; [done|].
    replace (i + S (S j)) with (i + 1 + S j) by lia. split; [done|]. simpl. by rewrite <-next_prev_name.
Qed.

Lemma checked_contiguous l :
  (∀ t, head l = Some t → valid (tr_from t) = true) → checked l 1 None l → contiguous l.
Proof.
  intros V C i j k o I J Li Lk. destruct ((owned None l).*1 !! j) as [p|] eqn:Lj.
  2: { apply lookup_ge_None in Lj. apply lookup_lt_Some in Lk. lia. }
  f_equal. destruct (decide (p = o)) as [|N]; [done|exfalso].
  destruct (owner_first l o i) as (k0 & F & K0); [by eapply owners_valid|done|].
  destruct (checked_drop l 1 None l j p C Lj) as (prev & <- & C' & D).
  apply (gone l o k0 _ _ _ C' F); [lia|done|]. rewrite <-D, fmap_drop.
  apply list_elem_of_lookup. exists (k - S j). rewrite lookup_drop. by replace (S j + (k - S j)) with k by lia.
Qed.

Lemma checked_targets l i prev ts :
  checked l i prev ts → ∀ t, t ∈ ts → find (m_to t) l = inr (target l (m_to t)).
Proof.
  revert i prev. induction ts as [|u ts IH]; intros i prev C t E; [by apply not_elem_of_nil in E|].
  destruct C as (_ & T & C). apply elem_of_cons in E as [->|E]; [done|by eapply IH].
Qed.

Lemma contiguous_checked l i prev pre ts :
  l = pre ++ ts → i = S (length pre) → name prev = last_owner None pre → contiguous l →
  (∀ t, t ∈ l → valid (m_to t) = true → declared l (name (m_to t))) → checked l i prev ts.
Proof.
  revert i prev pre. induction ts as [|t ts IH]; intros i prev pre L Hi P C T; [done|]. simpl.
  assert (Lt : l !! length pre = Some t) by by rewrite L, list_lookup_middle.
  split_and!.
  - intros [V N]%is_named_true. apply find_first; [done|]. exists (length pre). split; [done|].
    split; [by exists t|]. intros j u J Lu E. apply N. rewrite P. unfold last_owner.
    assert (Vu : valid (tr_from u) = true) by by rewrite valid_name, E, <-valid_name.
    assert (Lp : ∃ o, last (owned None pre).*1 = Some o).
    { destruct (last (owned None pre).*1) eqn:X; [by eexists|]. apply last_None in X.
      apply (f_equal length) in X. rewrite owned_length in X. simpl in X. lia. }
    destruct Lp as [o Lp]. rewrite Lp. simpl. rewrite last_lookup, owned_length in Lp.
    assert (Lo : (owned None l).*1 !! pred (length pre) = Some o).
    { rewrite L, owned_app, fmap_app. by apply lookup_app_l_Some. }
    pose proof (owned_named None l _ _ Lu Vu) as Oj. rewrite E in Oj.
    pose proof (owned_named None l _ _ Lt V) as Oi.
    destruct (decide (j = pred (length pre))) as [->|]; [congruence|].
    rewrite (C j (pred (length pre)) (length pre) (name (tr_from t))) in Lo; [congruence|lia..|done|done].
  - unfold target. destruct (valid (m_to t)) eqn:V.
    + destruct (proj2 (find_declared (m_to t) l V)) as [n F]; [|by rewrite F].
      apply T; [|done]. rewrite L. auto with zth.
    + unfold find. by rewrite V.
  - apply (IH _ _ (pre ++ [t])); [by rewrite L, <-app_assoc|rewrite length_app; simpl; lia| |done..].
    by rewrite next_prev_name, last_owner_snoc, P.
Qed.

Lemma compile_run l T : compile l = inr T ↔
  Index_fits (length l) = true ∧ (∀ t, head l = Some t → valid (tr_from t) = true) ∧ checked l 1 None l ∧
  T = first_row (length l) :: rows_of l None l.
Proof.
  unfold compile. destruct (Index_fits (length l)); simpl; [|naive_solver].
  assert (V : forallb (λ t, valid (tr_from t)) (take 1 l) = true ↔ ∀ t, head l = Some t → valid (tr_from t) = true).
  { destruct l as [|t l]; simpl; [naive_solver|]. rewrite andb_true_r. naive_solver. }
  destruct (forallb _ _); simpl.
  - destruct (compile_rows l l 1 None) as [e|rows] eqn:C.
    + split; [done|]. intros (_ & _ & K & _).
      rewrite (proj2 (compile_rows_iff l l 1 None _) (conj K eq_refl)) in C. done.
    + apply compile_rows_iff in C as [C ->]. split; [|naive_solver]. intros [= <-].
      split_and!; [done|by apply V|done..].
  - split; [done|]. intros (_ & K & _). by apply V in K.
Qed.

Lemma compile_checked l : compilable l ↔
  Index_fits (length l) = true ∧ (∀ t, head l = Some t → valid (tr_from t) = true) ∧ checked l 1 None l.
Proof.
  split; intros (I & V & C); (split; [done|]; split; [done|]).
  - destruct C as [C T]. by apply (contiguous_checked l 1 None []).
  - split; [by apply checked_contiguous|]. intros t E U. apply find_declared; [done|].
    eexists. by eapply checked_targets.
Qed.

Lemma compile_iff l : (∃ T, compile l = inr T) ↔ compilable l.
Proof.
  rewrite compile_checked. split.
  - intros [T (I & V & C & _)%compile_run]. done.
  - intros (I & V & C). eexists. by apply compile_run.
Qed.

Lemma rows_length l prev ts : length (rows_of l prev ts) = length ts.
Proof. revert prev. induction ts as [|t ts IH]; intros prev; [done|]. simpl. by rewrite IH. Qed.

(** The rows of a state that the description names. *)
Lemma compile_group l T s i :
  compile l = inr T → valid s = true → find s l = inr i →
  row_data <$> group T i = asked l <$> transitions_of l (name s).
Proof.
  intros (I & V & C & ->)%compile_run Vs F. apply find_first in F as (k & -> & F); [|done].
  assert (So : is_Some (name s)) by by rewrite valid_name in Vs; apply bool_decide_eq_true in Vs.
  pose proof (group_rows l (name s) k 1 None l [] I eq_refl eq_refl C F) as R.
  replace (S k - 1) with k in R by lia. apply R; [lia| |done]. intros E. simpl in E. rewrite <-E in So. by destruct So.
Qed.

(** A row with a name is where its state starts. *)
Lemma rows_named l prev ts i k r :
  checked l i prev ts → rows_of l prev ts !! k = Some r → valid (c_from r) = true → find (c_from r) l = inr (i + k).
Proof.
  revert i prev k. induction ts as [|t ts IH]; intros i prev k C L V; [done|].
  destruct C as (N & T & C). destruct k as [|k].
  - injection L as <-. rewrite row_for_valid in V. simpl. rewrite V, Nat.add_0_r. auto.
  - simpl in L. rewrite (IH _ _ _ C L V). f_equal. lia.
Qed.

Lemma rows_lookup l prev ts k t :
  ts !! k = Some t → ∃ prev', name prev' = last_owner (name prev) (take k ts) ∧
    rows_of l prev ts !! k = Some (row_for l (is_named prev' t) t).
Proof.
  revert prev k. induction ts as [|u ts IH]; intros prev [|k] L; simplify_eq/=; [by exists prev|].
  destruct (IH (next_prev prev u) k L) as (prev' & P & R). exists prev'. split; [|done].
  rewrite P, next_prev_name. unfold last_owner. cbn [owned]. rewrite fmap_cons, last_cons. by destruct (last _).
Qed.

Lemma last_owner_declared ts o : last_owner None ts = Some o → ∃ j t, ts !! j = Some t ∧ name (tr_from t) = Some o.
Proof.
  unfold last_owner. destruct (last _) as [p|] eqn:L; simpl; [|done]. intros ->.
  rewrite last_lookup in L. apply owner_declared in L as [|(j & t & _ & L)]; [done|]. by exists j, t.
Qed.

(** The first row of a state has its name. *)
Lemma head_row l T s i : compile l = inr T → valid s = true → find s l = inr i →
  ∃ r, T !! i = Some r ∧ name (c_from r) = name s.
Proof.
  intros (I & V & C & ->)%compile_run Vs F. apply find_first in F as (k & -> & (t & L & N) & F); [|done].
  destruct (rows_lookup l None l k t L) as (prev & P & R). exists (row_for l (is_named prev t) t). split; [done|].
  assert (D : is_named prev t = true); [|simpl; by rewrite D].
  apply is_named_true. split; [by rewrite valid_name, N, <-valid_name|]. rewrite N, P. simpl. intros E.
  destruct (name s) as [x|] eqn:X; [|by rewrite valid_name, X in Vs].
  apply last_owner_declared in E as (j & u & [L' J]%lookup_take_Some & U). by eapply F.
Qed.

(** A target is no state, or the first row of one. *)
Lemma row_target l T i r : compile l = inr T → T !! i = Some r →
  c_to r = 0 ∨ ∃ r', T !! c_to r = Some r' ∧ valid (c_from r') = true.
Proof.
  intros CT L. pose proof CT as (I & V & C & ->)%compile_run. destruct i as [|i].
  - injection L as <-. unfold first_row. destruct l as [|t l]; [by left|]. right. specialize (V t eq_refl).
    assert (F : find (tr_from t) (t :: l) = inr 1).
    { unfold find. rewrite V. simpl. by rewrite (proj2 (constexpr_eq_true _ _) eq_refl). }
    destruct (head_row _ _ _ _ CT V F) as (r & L & N). exists r. split; [done|]. by rewrite valid_name, N, <-valid_name.
  - simpl in L. destruct (l !! i) as [t|] eqn:Lt.
    2: { apply lookup_ge_None in Lt. apply lookup_lt_Some in L. rewrite rows_length in L. lia. }
    destruct (rows_lookup l None l i t Lt) as (prev & _ & R). rewrite R in L. injection L as <-.
    cbn [c_to row_for]. rewrite to_Index_id by auto using target_bound.
    pose proof (checked_targets _ _ _ _ C t (list_elem_of_lookup_2 _ _ _ Lt)) as F.
    destruct (valid (m_to t)) eqn:Vt.
    + right. destruct (head_row _ _ _ _ CT Vt F) as (r & Lr & N). exists r. split; [done|].
      by rewrite valid_name, N, <-valid_name.
    + left. unfold target, find. by rewrite Vt.
Qed.
Lemma transitions_of_sub l (s : option string) : transitions_of l s ⊆ l.
Proof.
  intros t (x & -> & [_ E]%list_elem_of_filter)%list_elem_of_fmap. revert E. generalize (@None string).
  induction l as [|u l IH]; intros p E; [by apply not_elem_of_nil in E|]. simpl in E.
  apply elem_of_cons in E as [->|E]; [left|right; by eapply IH].
Qed.
End Meaning.

(** ** Compiling *)

(** C3: a description can be compiled exactly when it is small enough for the
    index type, its first transition names a state, the transitions of a state
    are next to each other, and every target is the state of some transition.
    The table then has one row more than there are transitions.  Row 0 leads to
    the first state; every target is row 0, for none, or the first row of a
    state.  The rows of a state are its transitions in the order of the
    description, with their guards, actions and targets; names are compared as
    strings, not as pointers. *)
Theorem fsm_compile {G A : Type} (l : list (Transition G A)) :
  ((∃ T, compile l = inr T) ↔ compilable l) ∧
  ∀ T, compile l = inr T →
    length T = S (length l) ∧ T !! 0 = Some (first_row (length l)) ∧
    (∀ i r, T !! i = Some r → c_to r = 0 ∨ ∃ r', T !! c_to r = Some r' ∧ valid (c_from r') = true) ∧
    ∀ s, valid s = true → declared l (name s) →
      ∃ r, T !! target l s = Some r ∧ name (c_from r) = name s ∧
        row_data <$> group T (target l s) = asked l <$> transitions_of l (name s).
Proof.
  split; [apply compile_iff|]. intros T CT. pose proof CT as (I & V & C & ET)%compile_run.
  split; [rewrite ET; simpl; by rewrite rows_length|]. split; [by rewrite ET|].
  split; [intros i r; by apply (row_target l T)|]. intros s Vs D.
  destruct (proj2 (find_declared s l Vs) D) as [i F]. destruct (head_row l T s i CT Vs F) as (r & L & N).
  unfold target. rewrite F. exists r. split; [done|]. split; [done|]. by apply compile_group.
Qed.

(** The index type has no room for its own maximum: 254 and 256 transitions can be
    compiled, 255 cannot. *)
Lemma Index_limit : Index_fits 254 = true ∧ Index_fits 255 = false ∧ Index_fits 256 = true.
Proof. done. Qed.

(** *** The forms of the eDSL *)

(** ["a" + "b" / c] is the input ["b"] with action [c] in state ["a"], as is
    ["a" + input("b") / c]; a guard that is not [always] is refused. *)
Lemma plus_input_action {G A : Type} (s i : Symbol) (a : Action A) :
  valid i = true →
  state_plus_start s (state_div i a) = inr (state_plus_ga s (ga_of_input i a) : TransitionStart G A) ∧
  ga_div (input i) a = inr (ga_of_input i a : GuardedAction G A) ∧
  ∀ g : Guard G, is_always g = false → state_plus_start s (state_plus_guard i g : TransitionStart G A) = inl "Ambiguous +".
Proof.
  intros V. unfold state_plus_start, ga_div, ga_isInput. simpl. rewrite V. simpl. split_and!; [done|done|].
  intros g N. unfold ts_guard. simpl. by rewrite N.
Qed.

(** *** An example: two states, the second of which returns to the first *)

Definition example_description : list (Transition unit unit) :=
  [ to_state (state_plus_ga (Some "a") (ga_of_input (Some "go") push)) (Some "b");
    transition (state_plus_ga (Some "b") (guard_div entry (TypedAction tt)));
    transition (start_ga (ga_of_input (Some "back") pop));
    to_state (start_guard (timeout_s 10)) (Some "a") ].

Definition example_table : Transitions unit unit :=
  [ mkRow (ToGuard always) nothing None 1 0;
    mkRow (ToChars (Some "go")) push (Some "a") 2 1;
    mkRow (ToGuard entry) (TypedAction tt) (Some "b") 0 0;
    mkRow (ToChars (Some "back")) pop None 0 1;
    mkRow (ToGuard (timeout_s 10)) nothing None 1 0 ].

Lemma example_compiles : compile example_description = inr example_table.
Proof. reflexivity. Qed.

Lemma fsm_compile_witness : compilable example_description ∧
  ∃ r, example_table !! 2 = Some r ∧ name (c_from r) = Some "b" ∧
    row_data <$> group example_table 2 = asked example_description <$> transitions_of example_description (Some "b").
Proof.
  destruct (fsm_compile example_description) as [E T]. split; [apply E; by exists example_table|].
  destruct (T example_table eq_refl) as (_ & _ & _ & S). apply (S (Some "b")); [done|].
  exists (transition (state_plus_ga (Some "b") (guard_div entry (TypedAction tt)))). split; [|done].
  right. left.
Defined.
