(* ===== verification/Fsm.v ===== *)
(** * State machines at work (libzth/fsm14.h)

    [BasicFsm] and [Fsm]: a step of a machine, its flags, stack and inputs, and
    [run], which waits for a signal or for the time at which a guard wants to be
    evaluated again.  The guards and actions of the program are parameters; they
    run code that may use the machine.  Descriptions and tables are those of
    FsmCompile.v, time is that of Time.v, and the trigger is the signal of
    Sync.v. *)

From stdpp Require Import base list strings.
From S2P Require Import Prelude Time Sync FsmCompile.

Set Default Proof Using "Type".

(** ** Poll intervals *)

Abbreviation GuardPollInterval := TimeInterval.
Definition of_bool (enabled : bool) : GuardPollInterval := if enabled then null else infinity.

(** ** Flags *)

Inductive Flag := F_entry | F_selfloop | F_blocked | F_transition | F_pushed | F_popped | F_stop | F_input.

#[export] Instance Flag_eq_dec : EqDecision Flag.
Proof. solve_decision. Defined.

Definition flagIndex (f : Flag) : N :=
  match f with
  | F_entry => 0 | F_selfloop => 1 | F_blocked => 2 | F_transition => 3
  | F_pushed => 4 | F_popped => 5 | F_stop => 6 | F_input => 7
  end.

(** [std::bitset]'s [test] and [set]. *)
Definition bitset_test (b : N) (f : Flag) : bool := N.testbit b (flagIndex f).
Definition bitset_set (b : N) (f : Flag) (v : bool) : N :=
  if v then N.setbit b (flagIndex f) else N.clearbit b (flagIndex f).

Lemma flagIndex_inj f g : flagIndex f = flagIndex g → f = g.
Proof. by destruct f, g. Qed.

Lemma bitset_test_set b f g v : bitset_test (bitset_set b f v) g = if decide (f = g) then v else bitset_test b g.
Proof.
  unfold bitset_test, bitset_set. destruct (decide (f = g)) as [->|N].
  - destruct v; [apply N.setbit_eq|apply N.clearbit_eq].
  - assert (flagIndex f ≠ flagIndex g) by (intros E; by apply N, flagIndex_inj).
    destruct v; [by apply N.setbit_neq|by apply N.clearbit_neq].
Qed.

#[local] Arguments bitset_test : simpl never.
#[local] Arguments bitset_set : simpl never.

(** ** The machine *)

Record Machine {G A U : Type} := mkFsm {
  m_fsm : option (Transitions G A);
  m_flags : N;
  m_prev : nat;
  m_transition : nat;
  m_state : nat;
  m_stack : list nat;
  m_inputs : list Symbol;
  (** of [Fsm] *)
  m_t : Timestamp;
  m_trigger : Obj Z;
  (** how often the clock was read; what the program keeps in a subclass *)
  ticks : nat;
  user : U;
}.
Arguments Machine : clear implicits.

(** The program's guards and actions; the readings of the clock, in order; and
    whether the object is an [Fsm], or only a [BasicFsm]. *)
Class Program (G A U : Type) := {
  guard_call : G → M (Machine G A U) GuardPollInterval;
  action_call : A → M (Machine G A U) unit;
  clock : nat → Timestamp;
  is_Fsm : bool;
}.

Section Machine.
Context `{Config} {G A U : Type}.
#[local] Abbreviation Machine := (Machine G A U).

Definition set_flags v (m : Machine) : Machine :=
  mkFsm G A U (m_fsm m) v (m_prev m) (m_transition m) (m_state m) (m_stack m) (m_inputs m) (m_t m) (m_trigger m) (ticks m) (user m).
Definition set_prev v (m : Machine) : Machine :=
  mkFsm G A U (m_fsm m) (m_flags m) v (m_transition m) (m_state m) (m_stack m) (m_inputs m) (m_t m) (m_trigger m) (ticks m) (user m).
Definition set_transition v (m : Machine) : Machine :=
  mkFsm G A U (m_fsm m) (m_flags m) (m_prev m) v (m_state m) (m_stack m) (m_inputs m) (m_t m) (m_trigger m) (ticks m) (user m).
Definition set_state v (m : Machine) : Machine :=
  mkFsm G A U (m_fsm m) (m_flags m) (m_prev m) (m_transition m) v (m_stack m) (m_inputs m) (m_t m) (m_trigger m) (ticks m) (user m).
Definition set_stack v (m : Machine) : Machine :=
  mkFsm G A U (m_fsm m) (m_flags m) (m_prev m) (m_transition m) (m_state m) v (m_inputs m) (m_t m) (m_trigger m) (ticks m) (user m).
Definition set_inputs v (m : Machine) : Machine :=
  mkFsm G A U (m_fsm m) (m_flags m) (m_prev m) (m_transition m) (m_state m) (m_stack m) v (m_t m) (m_trigger m) (ticks m) (user m).
Definition set_t v (m : Machine) : Machine :=
  mkFsm G A U (m_fsm m) (m_flags m) (m_prev m) (m_transition m) (m_state m) (m_stack m) (m_inputs m) v (m_trigger m) (ticks m) (user m).
Definition set_trigger v (m : Machine) : Machine :=
  mkFsm G A U (m_fsm m) (m_flags m) (m_prev m) (m_transition m) (m_state m) (m_stack m) (m_inputs m) (m_t m) v (ticks m) (user m).
Definition set_ticks v (m : Machine) : Machine :=
  mkFsm G A U (m_fsm m) (m_flags m) (m_prev m) (m_transition m) (m_state m) (m_stack m) (m_inputs m) (m_t m) (m_trigger m) v (user m).

(** *** Flags *)

Definition flag (f : Flag) : M Machine bool := gets (λ m, bitset_test (m_flags m) f).
Definition setFlag (f : Flag) (v : bool) : M Machine unit := modify (λ m, set_flags (bitset_set (m_flags m) f v) m).
Definition clearFlag (f : Flag) : M Machine unit := setFlag f false.

(** *** The table *)

(** [m_fsm->...]. *)
Definition the_fsm : M Machine (Transitions G A) := λ m,
  match m_fsm m with Some T => Ok (T, m) | None => Fault NullDeref end.

(** Row [i] of the array. *)
Definition row (i : nat) : M Machine (CompiledTransition G A) :=
  T ← the_fsm; match T !! i with Some r => mret r | None => fail NullDeref end.

Definition size : M Machine nat := T ← the_fsm; mret (length T).
Definition row_isInput (r : CompiledTransition G A) : bool := negb (Z.land (c_flags r) Flag_input =? 0)%Z.
Definition isInput (i : nat) : M Machine bool := r ← row i; mret (row_isInput r).
Definition hasGuard (i : nat) : M Machine bool := b ← isInput i; mret (negb b).
Definition hasInput_at (i : nat) : M Machine bool := b ← hasGuard i; mret (negb b).

Definition guard (i : nat) : M Machine (Guard G) :=
  n ← size; zth_assert (i <? n);; b ← hasGuard i; zth_assert b;; r ← row i;
  match c_guard r with ToGuard g => mret g | ToChars _ => fail NullDeref end.
Definition input_at (i : nat) : M Machine Symbol :=
  n ← size; zth_assert (i <? n);; b ← hasGuard i; zth_assert (negb b);; r ← row i;
  match c_guard r with ToChars s => mret s | ToGuard _ => fail NullDeref end.
Definition action (i : nat) : M Machine (Action A) := n ← size; zth_assert (i <? n);; r ← row i; mret (c_action r).
Definition to (i : nat) : M Machine nat := n ← size; zth_assert (i <? n);; r ← row i; mret (c_to r).
Definition state_at (i : nat) : M Machine State := n ← size; zth_assert (i <? n);; r ← row i; mret (c_from r).

Definition fsm_valid : M Machine bool := gets (λ m, match m_fsm m with Some _ => true | None => false end).

(** [state()] and [prev()]. *)
Definition state : M Machine State := b ← fsm_valid; zth_assert b;; i ← gets m_state; state_at i.
Definition prev : M Machine State := b ← fsm_valid; zth_assert b;; i ← gets m_prev; state_at i.

(** *** Inputs *)

Definition hasInput (i : Symbol) : M Machine bool :=
  if negb (valid i) then mret false else gets (λ m, existsb (λ x, constexpr_eq x i) (m_inputs m)).

Definition pop_back {B : Type} (l : list B) : list B := take (pred (length l)) l.

(** The first input that is [i]. *)
Fixpoint input_index (l : list Symbol) (i : Symbol) (j : nat) : option nat :=
  match l with [] => None | x :: l => if constexpr_eq x i then Some j else input_index l i (S j) end.

Definition clearInput (i : Symbol) : M Machine bool :=
  if negb (valid i) then mret false
  else l ← gets m_inputs;
    match input_index l i 0, last l with
    | Some j, Some back => modify (set_inputs (pop_back (<[j:=back]> l)));; mret true
    | _, _ => mret false
    end.

Definition clearInputs : M Machine unit := modify (set_inputs []).

(** [input()]: what triggered the transition to the current state. *)
Definition input_symbol : M Machine Symbol :=
  b ← flag F_input;
  if negb b then mret None
  else v ← fsm_valid; zth_assert v;; i ← gets m_transition; h ← hasInput_at i; zth_assert h;; input_at i.

(** [clearInput()], the action [consume]. *)
Definition consume_input : M Machine unit := i ← input_symbol; clearInput i;; mret tt.

(** *** Time and trigger *)

Context {P : Program G A U}.

Definition now : M Machine Timestamp := n ← gets ticks; modify (set_ticks (S n));; mret (clock n).

Definition with_trigger {B : Type} (c : M (Obj Z) B) : M Machine B := λ m,
  match c (m_trigger m) with Ok (b, o) => Ok (b, set_trigger o m) | Fault e => Fault e end.

Definition trigger : M Machine unit := with_trigger (Signal.signal false false).

Definition dt : M Machine TimeInterval := t ← gets m_t; n ← now; passed n t.

(** *** The methods *)

Definition base_reset : M Machine unit :=
  modify (set_state 0);; modify (set_transition 0);; modify (set_prev 0);; modify (set_flags 0%N);; modify (set_stack []).
Definition reset : M Machine unit :=
  if is_Fsm then base_reset;; n ← now; modify (set_t n);; trigger else base_reset.

Definition init (c : Transitions G A) : M Machine unit :=
  if length c =? 0 then mret tt
  else modify (λ m, mkFsm G A U (Some c) (m_flags m) (m_prev m) (m_transition m) (m_state m) (m_stack m)
    (m_inputs m) (m_t m) (m_trigger m) (ticks m) (user m));; reset.

(** A new object. *)
Definition new_fsm (u : U) : Machine := mkFsm G A U None 0%N 0 0 0 [] [] (mkTs 0 0) (mkObj [[]] [] 0%Z) 0 u.
Definition spawn (c : Transitions G A) (u : U) : outcome (unit * Machine) := init c (new_fsm u).

Definition base_input (i : Symbol) : M Machine unit :=
  if negb (valid i) then mret tt else modify (λ m, set_inputs (m_inputs m ++ [i]) m).
Definition input (i : Symbol) : M Machine unit :=
  if is_Fsm then if negb (valid i) then mret tt else base_input i;; trigger else base_input i.

Definition push : M Machine unit :=
  b ← fsm_valid; zth_assert b;;
  modify (λ m, set_stack (m_stack m ++ [m_prev m]) m);; setFlag F_pushed true.

Definition popped : M Machine bool := flag F_popped.

Definition entry : M Machine bool :=
  b ← flag F_entry; if negb b then mret false else clearFlag F_entry;; mret true.

Definition leave : M Machine unit := mret tt.

(** [enter]; [run] runs an action. *)
Definition base_enter (run : Action A → M Machine unit) : M Machine unit :=
  i ← gets m_transition; if negb (i =? 0) then a ← action i; run a else mret tt.
Definition enter (run : Action A → M Machine unit) : M Machine unit :=
  if is_Fsm then b ← flag F_transition; (if b : bool then n ← now; modify (set_t n) else mret tt);; base_enter run
  else base_enter run.

Definition pop (run : Action A → M Machine unit) : M Machine unit :=
  b ← fsm_valid; zth_assert b;;
  st ← gets m_stack; zth_assert (negb (length st =? 0));;
  match last st with
  | None => fail NullDeref
  | Some to =>
      zth_assert (negb (to =? 0));;
      clearFlag F_blocked;;
      i ← gets m_state; setFlag F_selfloop (i =? to);;
      t ← flag F_transition; when (negb t) (setFlag F_transition true;; leave);;
      i ← gets m_state; modify (set_prev i);;
      modify (set_state to);;
      modify (λ m, set_stack (pop_back (m_stack m)) m);;
      modify (set_transition 0);;
      clearFlag F_pushed;; setFlag F_popped true;; clearFlag F_input;;
      enter run;;
      setFlag F_entry true
  end.

Definition stop : M Machine unit := setFlag F_stop true.

(** *** Guards and actions *)

(** An [Fsm&] is asked for; with RTTI, it is checked that it is one. *)
Definition need_Fsm : M Machine unit := zth_assert is_Fsm;; if is_Fsm then mret tt else fail NullDeref.

Definition timeoutGuard_s (s : Z) : M Machine GuardPollInterval := d ← dt; mret (sub (interval s 0 false) d).
Definition timeoutGuard_ms (ms : Z) : M Machine GuardPollInterval :=
  d ← dt; mret (sub (interval (s64 (ms `div` 1000)) (Z.rem (s64 (u64 (ms * 1000000))) 1000000000) false) d).
Definition timeoutGuard_us (us : Z) : M Machine GuardPollInterval :=
  d ← dt; mret (sub (interval (s64 (us `div` 1000000)) (Z.rem (s64 (u64 (us * 1000))) 1000000000) false) d).

Definition guard_enabled (g : Guard G) : M Machine GuardPollInterval :=
  match g with
  | always => mret (of_bool true)
  | never => mret (of_bool false)
  | FsmCompile.entry => b ← entry; mret (of_bool b)
  | FsmCompile.popped => b ← popped; mret (of_bool b)
  | timeout_s s => need_Fsm;; timeoutGuard_s s
  | timeout_ms ms => need_Fsm;; timeoutGuard_ms ms
  | timeout_us us => need_Fsm;; timeoutGuard_us us
  | InputGuard i => b ← hasInput i; mret (of_bool b)
  | TypedGuard g => guard_call g
  end.

(** [Transitions::enabled]. *)
Definition enabled (i : nat) : M Machine GuardPollInterval :=
  b ← isInput i;
  if b : bool then s ← input_at i; b ← hasInput s; mret (of_bool b) else g ← guard i; guard_enabled g.

(** [Action::run].  [pop] enters the state that it returns to, which runs an
    action in turn; [d] is how deep that goes. *)
Fixpoint action_run (d : nat) (a : Action A) : M Machine unit :=
  match a with
  | nothing => mret tt
  | FsmCompile.push => push
  | FsmCompile.pop => pop (match d with 0 => λ _, fail OutOfFuel | S d => action_run d end)
  | FsmCompile.stop => need_Fsm;; stop
  | consume => consume_input
  | TypedAction a => action_call a
  end.

(** [GuardedAction]: [enabled] and [tryRun]. *)
Definition ga_enabled (ga : GuardedAction G A) : M Machine GuardPollInterval :=
  if ga_isInput ga then b ← hasInput (ga_input ga); mret (of_bool b) else guard_enabled (ga_guard ga).
Definition ga_tryRun (ga : GuardedAction G A) : M Machine GuardPollInterval :=
  p ← ga_enabled ga;
  let e := negb (hasPassed p) in
  if e then mret (of_bool e) else action_run 0 (ga_action ga);; mret (of_bool true).

(** *** A step *)

(** The loop over the guards of the current state: from row [i] on, [again] is the
    shortest interval so far. *)
Fixpoint find_enabled (d : nat) (n : nat) (i : nat) (again : GuardPollInterval) : M Machine (GuardPollInterval + nat) :=
  p ← enabled i;
  if hasPassed p then mret (inr i)
  else
    let again := if ti_lt p again then p else again in
    if S i =? n then mret (inl again)
    else s ← state_at (S i);
      if valid s then mret (inl again)
      else match d with 0 => fail OutOfFuel | S d => find_enabled d n (S i) again end.

Definition take_transition (i : nat) : M Machine GuardPollInterval :=
  modify (set_transition i);;
  t ← to i;
  clearFlag F_blocked;;
  if t =? 0 then
    clearFlag F_transition;;
    h ← hasInput_at i; setFlag F_input h;;
    enter (action_run 0);; mret (of_bool true)
  else
    s ← gets m_state; setFlag F_selfloop (t =? s);;
    setFlag F_transition true;;
    s ← gets m_state; when (negb (s =? 0)) leave;;
    s ← gets m_state; modify (set_prev s);;
    modify (set_state t);;
    clearFlag F_popped;; clearFlag F_pushed;;
    h ← hasInput_at i; setFlag F_input h;;
    enter (action_run 0);;
    setFlag F_entry true;; mret (of_bool true).

Definition step : M Machine GuardPollInterval :=
  b ← fsm_valid; zth_assert b;;
  i ← gets m_state; n ← size;
  r ← find_enabled n n i (of_bool false);
  match r with
  | inl again => setFlag F_blocked true;; mret again
  | inr i => take_transition i
  end.

(** *** [run] *)

Inductive progress := Returns (p : GuardPollInterval) | Waits (deadline : Timestamp).

Definition ts_min (a b : Timestamp) : Timestamp := if isBefore b a then b else a.

(** [m_trigger.wait(timeout, now)] in fiber [f]; [true] when it has to wait. *)
Definition wait_trigger (f : addr) (timeout now : Timestamp) : M Machine bool :=
  r ← with_trigger (Signal.wait_until f timeout now);
  match r with None => mret true | Some _ => mret false end.

(** Once around the loop of [run(until)]; [None] when it goes on. *)
Definition round_until (f : addr) (until : Timestamp) : M Machine (option progress) :=
  p ← step;
  s ← flag F_stop;
  if s : bool then mret (Some (Returns p))
  else n ← now;
    if ts_gt n until then mret (Some (Returns p))
    else if hasPassed p then mret None
    else p_end ← ts_add n p;
      let timeout := ts_min p_end until in
      w ← wait_trigger f timeout n; mret (if w : bool then Some (Waits timeout) else None).

Definition round (f : addr) (returnWhenBlocked : bool) : M Machine (option progress) :=
  p ← step;
  s ← flag F_stop;
  if s : bool then mret (Some (Returns p))
  else if hasPassed p then mret None
  else if returnWhenBlocked then mret (Some (Returns p))
  else n ← now; timeout ← ts_add n p; w ← wait_trigger f timeout n;
    mret (if w : bool then Some (Waits timeout) else None).

Fixpoint loop (fuel : nat) (round : M Machine (option progress)) : M Machine progress :=
  match fuel with
  | 0 => fail OutOfFuel
  | S fuel => r ← round; match r with Some p => mret p | None => loop fuel round end
  end.

(** [run], until it returns or waits, and when it has waited; [rang] when the
    time was over. *)
Definition run_until (fuel : nat) (f : addr) (until : Timestamp) : M Machine progress :=
  clearFlag F_stop;; loop fuel (round_until f until).
Definition run_until_resume (fuel : nat) (f : addr) (until : Timestamp) (rang : bool) : M Machine progress :=
  with_trigger (Signal.wait_until_exit rang);; loop fuel (round_until f until).
Definition run (fuel : nat) (f : addr) (returnWhenBlocked : bool) : M Machine progress :=
  clearFlag F_stop;; loop fuel (round f returnWhenBlocked).
Definition run_resume (fuel : nat) (f : addr) (returnWhenBlocked rang : bool) : M Machine progress :=
  with_trigger (Signal.wait_until_exit rang);; loop fuel (round f returnWhenBlocked).

(** *** Moving *)

(** [operator=(Fsm&& )] takes over what [BasicFsm] holds. *)
Definition move_assign (this f : Machine) : Machine * Machine :=
  (mkFsm G A U (m_fsm f) (m_flags f) (m_prev f) (m_transition f) (m_state f) (m_stack f) (m_inputs f)
     (m_t this) (m_trigger this) (ticks this) (user this),
   mkFsm G A U None (m_flags f) (m_prev f) (m_transition f) 0 [] []
     (m_t f) (m_trigger f) (ticks f) (user f)).

(** ** Well-formed machines *)

(** No state, or a row at which a state starts. *)
Definition starts (T : Transitions G A) (i : nat) : Prop :=
  i = 0 ∨ ∃ r, T !! i = Some r ∧ valid (c_from r) = true.

Definition consistent (r : CompiledTransition G A) : Prop :=
  match c_guard r with ToGuard _ => row_isInput r = false | ToChars _ => row_isInput r = true end.

(** What [compile] makes. *)
Definition table (T : Transitions G A) : Prop :=
  0 < length T ∧ Forall (λ r, starts T (c_to r) ∧ consistent r) T.

(** All that the machine holds are places in its table; [ok] besides, an input
    brought it to its state only if the last transition has one. *)
Record placed (T : Transitions G A) (m : Machine) : Prop := {
  p_fsm : m_fsm m = Some T;
  p_state : starts T (m_state m);
  p_prev : starts T (m_prev m);
  p_stack : Forall (starts T) (m_stack m);
  p_transition : m_transition m < length T;
  p_inputs : Forall (λ i, valid i = true) (m_inputs m);
  p_trigger : ∃ q w, m_trigger m = mkObj [q] w 0%Z;
}.

Definition ok (T : Transitions G A) (m : Machine) : Prop :=
  placed T m ∧
  (bitset_test (m_flags m) F_input = true → ∃ r, T !! m_transition m = Some r ∧ row_isInput r = true).

(** [c] keeps the machine well-formed, and ends, but for a failing assertion. *)
Definition triple {B : Type} (Pre : Machine → Prop) (c : M Machine B) (Post : B → Machine → Prop) : Prop :=
  ∀ m, Pre m → match c m with Ok (b, m') => Post b m' | Fault e => e = AssertFailed end.
Definition safe {B : Type} (T : Transitions G A) (c : M Machine B) : Prop := triple (ok T) c (λ _, ok T).

Lemma triple_bind {B C : Type} Pre Mid Post (c : M Machine B) (k : B → M Machine C) :
  triple Pre c Mid → (∀ b, triple (Mid b) (k b) Post) → triple Pre (c ≫= k) Post.
Proof.
  intros Hc Hk m Hm. specialize (Hc m Hm). unfold mbind, M_bind. destruct (c m) as [[b m']|e]; [|done]. by apply Hk.
Qed.

Lemma triple_ret {B : Type} (Pre : Machine → Prop) Post (b : B) : (∀ m, Pre m → Post b m) → triple Pre (mret b) Post.
Proof. intros K m. apply K. Qed.

Lemma triple_gets {B : Type} (Pre : Machine → Prop) Post (f : Machine → B) :
  (∀ m, Pre m → Post (f m) m) → triple Pre (gets f) Post.
Proof. intros K m. apply K. Qed.

Lemma triple_modify (Pre : Machine → Prop) Post (f : Machine → Machine) :
  (∀ m, Pre m → Post tt (f m)) → triple Pre (modify f) Post.
Proof. intros K m. apply K. Qed.

Lemma triple_assert (Pre : Machine → Prop) Post (b : bool) :
  (EnableAssert = true) → (∀ m, Pre m → b = true → Post tt m) → triple Pre (zth_assert b) Post.
Proof. intros E K m Hm. unfold zth_assert. rewrite E. destruct b; [by apply K|done]. Qed.

Lemma triple_weaken {B : Type} (Pre Pre' : Machine → Prop) (Post Post' : B → Machine → Prop) c :
  triple Pre' c Post' → (∀ m, Pre m → Pre' m) → (∀ b m, Post' b m → Post b m) → triple Pre c Post.
Proof. intros K I J m Hm. specialize (K m (I m Hm)). destruct (c m) as [[b m']|e]; auto. Qed.

Lemma safe_bind {B C : Type} T (c : M Machine B) (k : B → M Machine C) :
  safe T c → (∀ b, safe T (k b)) → safe T (c ≫= k).
Proof. apply triple_bind. Qed.

Lemma safe_ret {B : Type} T (b : B) : safe T (mret b).
Proof. by apply triple_ret. Qed.

Lemma safe_gets {B : Type} T (f : Machine → B) : safe T (gets f).
Proof. by apply triple_gets. Qed.

(** *** What the parts keep *)

Lemma starts_lt T i : table T → starts T i → i < length T.
Proof. intros [L _] [->|(r & E & _)]; [done|by apply lookup_lt_Some in E]. Qed.

Lemma assert_safe T b : safe T (zth_assert b).
Proof. intros m K. unfold zth_assert. by destruct (_ && _). Qed.

(** Takes a function apart into its calls. *)
Ltac safe_steps :=
  repeat match goal with
    | |- safe _ (mret _) => apply safe_ret
    | |- safe _ (gets _) => apply safe_gets
    | |- safe _ (flag _) => apply safe_gets
    | |- safe _ fsm_valid => apply safe_gets
    | |- safe _ popped => apply safe_gets
    | |- safe _ (zth_assert _) => apply assert_safe
    | |- safe _ (mbind _ _) => apply safe_bind; [|intros ?]
    | |- safe _ (if ?b then _ else _) => destruct b
    end.

Lemma placed_flags T v m : placed T m → placed T (set_flags v m).
Proof. by intros []. Qed.

Lemma placed_t T v m : placed T m → placed T (set_t v m).
Proof. by intros []. Qed.

Lemma placed_ticks T v m : placed T m → placed T (set_ticks v m).
Proof. by intros []. Qed.

Lemma ok_flags T v m : (bitset_test v F_input = true → bitset_test (m_flags m) F_input = true) →
  ok T m → ok T (set_flags v m).
Proof. intros F [K I]. split; [by apply placed_flags|]. intros E. by apply I, F. Qed.

Lemma ok_t T v m : ok T m → ok T (set_t v m).
Proof. by intros [[] I]. Qed.

Lemma ok_ticks T v m : ok T m → ok T (set_ticks v m).
Proof. by intros [[] I]. Qed.

Lemma setFlag_placed T f v : triple (placed T) (setFlag f v) (λ _, placed T).
Proof. apply triple_modify. auto using placed_flags. Qed.

Lemma setFlag_safe T f v : f ≠ F_input → safe T (setFlag f v).
Proof.
  intros N. apply triple_modify. intros m K. apply ok_flags; [|done]. by rewrite bitset_test_set, decide_False.
Qed.

Lemma now_safe T : safe T now.
Proof.
  apply safe_bind; [apply safe_gets|]. intros n. apply safe_bind; [|intros; apply safe_ret].
  apply triple_modify. auto using ok_ticks.
Qed.

Lemma valid_run T m : m_fsm m = Some T → fsm_valid m = Ok (true, m).
Proof. intros E. unfold fsm_valid, gets. by rewrite E. Qed.

Lemma size_run T m : m_fsm m = Some T → size m = Ok (length T, m).
Proof. intros E. unfold size, the_fsm, mbind, M_bind. by rewrite E. Qed.

Lemma row_run T i r m : m_fsm m = Some T → T !! i = Some r → row i m = Ok (r, m).
Proof. intros E L. unfold row, the_fsm, mbind, M_bind. by rewrite E, L. Qed.

(** Reading the table at a row that it has. *)
Ltac at_row E L :=
  let B := fresh in
  repeat first
    [ rewrite (bind_Ok _ _ _ _ _ (size_run _ _ E))
    | rewrite (bind_Ok _ _ _ _ _ (row_run _ _ _ _ E L))
    | erewrite bind_Ok by (apply zth_assert_true, Nat.ltb_lt, (lookup_lt_Some _ _ _ L)) ].

Lemma to_run T i r m : m_fsm m = Some T → T !! i = Some r → to i m = Ok (c_to r, m).
Proof. intros E L. unfold to. by at_row E L. Qed.

Lemma action_run_row T i r m : m_fsm m = Some T → T !! i = Some r → action i m = Ok (c_action r, m).
Proof. intros E L. unfold action. by at_row E L. Qed.

Lemma state_at_run T i r m : m_fsm m = Some T → T !! i = Some r → state_at i m = Ok (c_from r, m).
Proof. intros E L. unfold state_at. by at_row E L. Qed.

Lemma isInput_run T i r m : m_fsm m = Some T → T !! i = Some r → isInput i m = Ok (row_isInput r, m).
Proof. intros E L. unfold isInput. by at_row E L. Qed.

Lemma hasGuard_run T i r m : m_fsm m = Some T → T !! i = Some r → hasGuard i m = Ok (negb (row_isInput r), m).
Proof. intros E L. unfold hasGuard. by rewrite (bind_Ok _ _ _ _ _ (isInput_run _ _ _ _ E L)). Qed.

Lemma hasInput_at_run T i r m : m_fsm m = Some T → T !! i = Some r → hasInput_at i m = Ok (row_isInput r, m).
Proof.
  intros E L. unfold hasInput_at. rewrite (bind_Ok _ _ _ _ _ (hasGuard_run _ _ _ _ E L)).
  by rewrite negb_involutive.
Qed.

Lemma input_at_run T i r s m :
  m_fsm m = Some T → T !! i = Some r → row_isInput r = true → c_guard r = ToChars s → input_at i m = Ok (s, m).
Proof.
  intros E L R C. unfold input_at. at_row E L. rewrite (bind_Ok _ _ _ _ _ (hasGuard_run _ _ _ _ E L)), R.
  erewrite bind_Ok by by apply zth_assert_true. at_row E L. by rewrite C.
Qed.

Lemma guard_run T i r g m :
  m_fsm m = Some T → T !! i = Some r → row_isInput r = false → c_guard r = ToGuard g → guard i m = Ok (g, m).
Proof.
  intros E L R C. unfold guard. at_row E L. rewrite (bind_Ok _ _ _ _ _ (hasGuard_run _ _ _ _ E L)), R.
  erewrite bind_Ok by by apply zth_assert_true. at_row E L. by rewrite C.
Qed.

(** *** Inputs *)

Lemma input_index_spec (l : list Symbol) i k j : input_index l i k = Some j →
  ∃ x n, j = k + n ∧ l !! n = Some x ∧ constexpr_eq x i = true.
Proof.
  revert k. induction l as [|x l IH]; intros k; simpl; [done|]. destruct (constexpr_eq x i) eqn:E.
  - intros [= <-]. exists x, 0. split_and!; [lia|done|done].
  - intros F. apply IH in F as (y & n & -> & L & Y). exists y, (S n). split_and!; [lia|done|done].
Qed.

Lemma input_index_None (l : list Symbol) i k :
  input_index l i k = None ↔ existsb (λ x, constexpr_eq x i) l = false.
Proof.
  revert k. induction l as [|x l IH]; intros k; simpl; [done|]. by destruct (constexpr_eq x i).
Qed.

(** Overwriting an element with the last, which is then dropped. *)
Lemma swap_remove {B : Type} (l : list B) (j : nat) (x back : B) :
  l !! j = Some x → last l = Some back → x :: pop_back (<[j:=back]> l) ≡ₚ l.
Proof.
  intros L K. apply last_Some in K as [l' ->]. unfold pop_back. rewrite length_insert, length_app. simpl.
  replace (pred (length l' + 1)) with (length l') by lia. destruct (decide (j < length l')) as [J|J].
  - rewrite insert_app_l by done. rewrite take_app_length' by by rewrite length_insert.
    rewrite lookup_app_l in L by done. apply list_elem_of_split_length in L as (l1 & l2 & -> & ->).
    rewrite insert_app_r_alt, Nat.sub_diag by lia. simpl. solve_Permutation.
  - apply lookup_lt_Some in L as J'. rewrite length_app in J'. simpl in J'. assert (j = length l') as -> by lia.
    rewrite list_lookup_middle in L by done. injection L as <-.
    rewrite insert_app_r_alt, Nat.sub_diag, take_app_length by lia. by rewrite Permutation_cons_append.
Qed.

(** Removing an input takes out one that is equal, if there is one. *)
Lemma clearInput_run i m :
  (clearInput i m = Ok (false, m) ∧ hasInput i m = Ok (false, m)) ∨
  ∃ l x, clearInput i m = Ok (true, set_inputs l m) ∧ hasInput i m = Ok (true, m) ∧
    name x = name i ∧ m_inputs m ≡ₚ x :: l.
Proof.
  unfold clearInput, hasInput. destruct (valid i); cbn [negb]; [|by left].
  rewrite (bind_Ok _ _ m m (m_inputs m)) by done. unfold gets. destruct (input_index (m_inputs m) i 0) as [j|] eqn:F.
  - right. apply input_index_spec in F as E. destruct E as (x & n & -> & L & X).
    destruct (last (m_inputs m)) as [back|] eqn:B.
    2: { apply last_None in B. rewrite B in L. done. }
    exists (pop_back (<[0 + n:=back]> (m_inputs m))), x. split; [done|]. split.
    + destruct (existsb _ _) eqn:Z; [done|]. apply (input_index_None _ _ 0) in Z. congruence.
    + split; [by apply constexpr_eq_true|]. symmetry. by apply swap_remove.
  - left. apply input_index_None in F. by rewrite F.
Qed.

Lemma hasInput_run i m : ∃ b, hasInput i m = Ok (b, m).
Proof. unfold hasInput. destruct (valid i); eexists; done. Qed.

Lemma hasInput_safe T i : safe T (hasInput i).
Proof. intros m K. by destruct (hasInput_run i m) as [b ->]. Qed.

Lemma clearInput_safe T i : safe T (clearInput i).
Proof.
  intros m [[] I]. destruct (clearInput_run i m) as [[-> _]|(l & x & -> & _ & _ & R)]; [done|].
  split; [|done]. split; try done. simpl. rewrite R in p_inputs0. by inversion p_inputs0.
Qed.

Lemma input_symbol_run T m : table T → ok T m →
  ∃ s, input_symbol m = Ok (s, m) ∧ (bitset_test (m_flags m) F_input = false → s = None) ∧
    (bitset_test (m_flags m) F_input = true → ∃ r, T !! m_transition m = Some r ∧ c_guard r = ToChars s).
Proof.
  intros [_ W] [[] I]. unfold input_symbol. rewrite (bind_Ok _ _ m m (bitset_test (m_flags m) F_input)) by done.
  destruct (bitset_test (m_flags m) F_input); cbn [negb]; [|by exists None].
  destruct (I eq_refl) as (r & L & R). rewrite (bind_Ok _ _ _ _ _ (valid_run _ _ p_fsm0)).
  rewrite (bind_Ok _ _ m m tt) by by apply zth_assert_true.
  rewrite (bind_Ok _ _ m m (m_transition m)) by done.
  rewrite (bind_Ok _ _ _ _ _ (hasInput_at_run _ _ _ _ p_fsm0 L)), R.
  rewrite (bind_Ok _ _ m m tt) by by apply zth_assert_true.
  destruct (Forall_lookup_1 _ _ _ _ W L) as [_ C]. unfold consistent in C.
  destruct (c_guard r) as [g|s] eqn:Cr; [congruence|]. exists s.
  split; [by eapply input_at_run|]. split; [done|]. intros _. by exists r.
Qed.

Lemma consume_safe T : table T → safe T consume_input.
Proof.
  intros W. apply safe_bind.
  - intros m K. by destruct (input_symbol_run T m W K) as (s & -> & _).
  - intros i. apply safe_bind; [apply clearInput_safe|]. intros. apply safe_ret.
Qed.

Lemma entry_safe T : safe T entry.
Proof. unfold entry. safe_steps. by apply setFlag_safe. Qed.

Lemma push_safe T : safe T push.
Proof.
  unfold push. safe_steps; [|by apply setFlag_safe]. apply triple_modify. intros m [[] I].
  split; [|done]. split; try done. simpl. by apply Forall_app_2; [|constructor].
Qed.

Lemma with_trigger_safe {B : Type} T (c : M (Obj Z) B) :
  (∀ q w, ∃ b q' w', c (mkObj [q] w 0%Z) = Ok (b, mkObj [q'] w' 0%Z)) → safe T (with_trigger c).
Proof.
  intros K m [[] I]. destruct p_trigger0 as (q & w & E). unfold with_trigger. rewrite E.
  destruct (K q w) as (b & q' & w' & ->). split; [|done]. split; try done. simpl. by exists q', w'.
Qed.

(** The signal wakes the first fiber that waits, and remembers nothing. *)
Lemma signal_run (q w : list addr) :
  Signal.signal false false (mkObj [q] w 0%Z) = Ok (tt, mkObj [tail q] (w ++ take 1 q) 0%Z).
Proof. destruct q as [|f q]; [by rewrite app_nil_r|]. done. Qed.

Lemma trigger_safe T : safe T trigger.
Proof. apply with_trigger_safe. intros q w. rewrite signal_run. by eexists _, _, _. Qed.

Lemma input_safe T i : safe T (input i).
Proof.
  assert (B : safe T (base_input i)).
  { unfold base_input. destruct (valid i) eqn:V; cbn [negb]; [|apply safe_ret]. apply triple_modify. intros m [[] I].
    split; [|done]. split; try done. simpl. apply Forall_app_2; [done|]. by constructor. }
  unfold input. destruct is_Fsm; [|done]. destruct (negb (valid i)); [apply safe_ret|].
  apply safe_bind; [done|]. intros. apply trigger_safe.
Qed.

Lemma dt_safe T : safe T dt.
Proof. unfold dt, passed. safe_steps; apply now_safe. Qed.

(** *** The program's part *)

(** The guards and actions of the program keep the machine well-formed; the
    program is built with assertions. *)
Class SafeProgram (T : Transitions G A) : Prop := {
  asserts_on : EnableAssert = true;
  guard_safe g : safe T (guard_call g);
  action_safe a : safe T (action_call a);
}.

Lemma need_Fsm_safe `{!SafeProgram T} : safe T need_Fsm.
Proof.
  intros m K. unfold need_Fsm, mbind, M_bind, zth_assert. rewrite asserts_on. by destruct is_Fsm.
Qed.

Lemma guard_enabled_safe `{!SafeProgram T} g : safe T (guard_enabled g).
Proof.
  destruct g; cbn [guard_enabled]; unfold timeoutGuard_s, timeoutGuard_ms, timeoutGuard_us;
    safe_steps; auto using entry_safe, need_Fsm_safe, dt_safe, hasInput_safe, guard_safe.
Qed.

(** *** A step *)

Lemma base_enter_safe T run : (∀ a, safe T (run a)) → safe T (base_enter run).
Proof.
  intros R m K. unfold base_enter. rewrite (bind_Ok _ _ m m (m_transition m)) by done.
  destruct (negb _); [|done]. pose proof K as [[] _].
  apply lookup_lt_is_Some in p_transition0 as [r L].
  rewrite (bind_Ok _ _ _ _ _ (action_run_row _ _ _ _ p_fsm0 L)). by apply R.
Qed.

Lemma enter_safe T run : (∀ a, safe T (run a)) → safe T (enter run).
Proof.
  intros R. unfold enter. safe_steps; try by apply base_enter_safe.
  - apply now_safe.
  - apply triple_modify. auto using ok_t.
Qed.

(** The dummy transition runs no action. *)
Lemma enter_dummy run run' m : m_transition m = 0 → enter run m = enter run' m.
Proof.
  intros E. unfold enter, base_enter, mbind, M_bind, gets, flag, now, modify. simpl.
  destruct is_Fsm; [destruct (bitset_test _ _)|]; simpl; by rewrite E.
Qed.

(** What [enter] of an [Fsm] notes. *)
Definition timed (m : Machine) : Machine :=
  if is_Fsm && bitset_test (m_flags m) F_transition then set_t (clock (ticks m)) (set_ticks (S (ticks m)) m) else m.

Lemma enter_dummy_run run m : m_transition m = 0 → enter run m = Ok (tt, timed m).
Proof.
  intros E. unfold enter, base_enter, timed, mbind, M_bind, gets, flag, now, modify. simpl.
  destruct is_Fsm; simpl; [destruct (bitset_test _ _)|]; simpl; by rewrite E.
Qed.

(** The machine as the action of a transition finds it: one without a target,
    one with a target, and what [pop] returns to. *)
Definition staying (i : nat) (by_input : bool) (m : Machine) : Machine :=
  set_flags (bitset_set (bitset_set (bitset_set (m_flags m) F_blocked false) F_transition false)
    F_input by_input) (set_transition i m).

Definition moving (i : nat) (by_input : bool) (to : nat) (m : Machine) : Machine :=
  set_flags (bitset_set (bitset_set (bitset_set (bitset_set (bitset_set
      (bitset_set (m_flags m) F_blocked false) F_selfloop (to =? m_state m)) F_transition true)
      F_popped false) F_pushed false) F_input by_input)
    (set_state to (set_prev (m_state m) (set_transition i m))).

Definition popping (st : list nat) (to : nat) (m : Machine) : Machine :=
  let b := bitset_set (bitset_set (m_flags m) F_blocked false) F_selfloop (m_state m =? to) in
  set_flags (bitset_set (bitset_set (bitset_set
      (if bitset_test b F_transition then b else bitset_set b F_transition true)
      F_pushed false) F_popped true) F_input false)
    (set_transition 0 (set_stack st (set_state to (set_prev (m_state m) m)))).

Lemma pop_run T run st to m : m_fsm m = Some T → m_stack m = st ++ [to] → to ≠ 0 →
  pop run m = (enter run;; setFlag F_entry true) (popping st to m).
Proof.
  intros E S N. unfold pop. rewrite (bind_Ok _ _ _ _ _ (valid_run _ _ E)).
  rewrite (bind_Ok _ _ m m tt) by by apply zth_assert_true.
  rewrite (bind_Ok _ _ m m (st ++ [to])) by (unfold gets; by rewrite S).
  rewrite (bind_Ok _ _ m m tt) by (apply zth_assert_true; rewrite length_app; simpl; by rewrite Nat.add_1_r).
  rewrite last_snoc. rewrite (bind_Ok _ _ m m tt).
  2: { apply zth_assert_true. by apply negb_true_iff, Nat.eqb_neq. }
  assert (D : pop_back (st ++ [to]) = st).
  { unfold pop_back. rewrite length_app. simpl. replace (pred _) with (length st) by lia. apply take_app_length. }
  unfold clearFlag. do 4 (erewrite bind_Ok by reflexivity). simpl.
  unfold popping. destruct (bitset_test _ F_transition); simpl.
  all: repeat (erewrite bind_Ok by reflexivity); simpl; by rewrite S, D.
Qed.

Lemma take_stay T i r m : m_fsm m = Some T → T !! i = Some r → c_to r = 0 →
  take_transition i m = (enter (action_run 0);; mret (of_bool true)) (staying i (row_isInput r) m).
Proof.
  intros E L Z. unfold take_transition. erewrite bind_Ok by reflexivity.
  rewrite (bind_Ok _ _ _ _ _ (to_run T i r (set_transition i m) E L)), Z. simpl.
  do 2 (erewrite bind_Ok by reflexivity). simpl.
  erewrite bind_Ok by (eapply hasInput_at_run; [exact E|exact L]). by erewrite bind_Ok by reflexivity.
Qed.

Lemma when_leave b m : when b leave m = Ok (tt, m).
Proof. by destruct b. Qed.

Lemma take_move T i r m : m_fsm m = Some T → T !! i = Some r → c_to r ≠ 0 →
  take_transition i m = (enter (action_run 0);; setFlag F_entry true;; mret (of_bool true)) (moving i (row_isInput r) (c_to r) m).
Proof.
  intros E L Z. unfold take_transition. erewrite bind_Ok by reflexivity.
  rewrite (bind_Ok _ _ _ _ _ (to_run T i r (set_transition i m) E L)). apply Nat.eqb_neq in Z. rewrite Z.
  do 5 (erewrite bind_Ok by reflexivity). erewrite bind_Ok by apply when_leave.
  do 5 (erewrite bind_Ok by reflexivity). erewrite bind_Ok by (eapply hasInput_at_run; [exact E|exact L]).
  by erewrite bind_Ok by reflexivity.
Qed.

Lemma popping_ok T st to m : table T → ok T m → m_stack m = st ++ [to] → ok T (popping st to m).
Proof.
  intros [L _] [[] _] S. rewrite S in p_stack0. apply Forall_app in p_stack0 as [F1 F2]. inversion F2; subst.
  split; [by split|]. unfold popping. simpl.
  rewrite bitset_test_set, decide_True by done. done.
Qed.

(** [pop] with nothing to return to. *)
Lemma pop_fault run m T : m_fsm m = Some T → EnableAssert = true →
  (m_stack m = [] ∨ last (m_stack m) = Some 0) → pop run m = Fault AssertFailed.
Proof.
  intros E As C. unfold pop. rewrite (bind_Ok _ _ _ _ _ (valid_run _ _ E)).
  rewrite (bind_Ok _ _ m m tt) by by apply zth_assert_true. rewrite (bind_Ok _ _ m m (m_stack m)) by done.
  destruct C as [->|C]; [by rewrite (bind_Fault _ _ _ AssertFailed) by by apply zth_assert_false|].
  rewrite C. rewrite (bind_Ok _ _ m m tt).
  - by rewrite (bind_Fault _ _ _ AssertFailed) by by apply zth_assert_false.
  - apply zth_assert_true. by destruct (m_stack m).
Qed.

Lemma stack_cases (m : Machine) :
  (m_stack m = [] ∨ last (m_stack m) = Some 0) ∨ ∃ st to, m_stack m = st ++ [to] ∧ to ≠ 0.
Proof.
  destruct (last (m_stack m)) as [[|i]|] eqn:L; [by left; right| |left; left; by apply last_None].
  right. apply last_Some in L as [st E]. by exists st, (S i).
Qed.

Lemma pop_safe `{!SafeProgram T} run : table T → safe T (pop run).
Proof.
  intros W m K. pose proof K as [[] _]. destruct (stack_cases m) as [C|(st & to & S & N)].
  - by rewrite (pop_fault run m T) by (done || apply asserts_on).
  - rewrite (pop_run T run st to m p_fsm0 S N). apply (popping_ok T st to m W) in K; [|done]. revert K.
    unfold mbind, M_bind. rewrite (enter_dummy run (λ _, mret tt)) by done. intros K.
    apply (safe_bind T (enter (λ _, mret tt)) (λ _, setFlag F_entry true)); [| |exact K].
    + apply enter_safe. intros. apply safe_ret.
    + intros _. by apply setFlag_safe.
Qed.

Lemma action_run_safe `{!SafeProgram T} d a : table T → safe T (action_run d a).
Proof.
  intros W. destruct d, a; cbn [action_run];
    try solve [apply safe_ret|apply push_safe|by apply consume_safe|apply action_safe
      |apply safe_bind; [apply need_Fsm_safe|intros _; by apply setFlag_safe]|by apply pop_safe].
Qed.

(** The fuel for [pop] in [pop] is not needed. *)
Lemma action_run_depth d a m T : m_fsm m = Some T → EnableAssert = true → action_run d a m = action_run 0 a m.
Proof.
  intros E As. destruct d as [|d]; [done|]. destruct a; [done|done| |done..]. cbn [action_run]. destruct (stack_cases m) as [C|(st & to & S & N)].
  - by rewrite !(pop_fault _ m T).
  - rewrite !(pop_run T _ st to m E S N). unfold mbind, M_bind. by rewrite (enter_dummy _ (λ _, fail OutOfFuel)).
Qed.

Lemma take_safe `{!SafeProgram T} i : table T → i < length T → safe T (take_transition i).
Proof.
  intros W [r L]%lookup_lt_is_Some m K. destruct W as [Lt F] eqn:EW. clear EW.
  destruct (Forall_lookup_1 _ _ _ _ F L) as [St _]. pose proof K as [[] _].
  assert (I : i < length T) by by eapply lookup_lt_Some. destruct (decide (c_to r = 0)) as [Z|Z].
  - rewrite (take_stay T i r m p_fsm0 L Z). apply (safe_bind T).
    + apply enter_safe. intros a. by apply action_run_safe.
    + intros _. apply safe_ret.
    + split; [by split|]. unfold staying. simpl. rewrite bitset_test_set, decide_True by done. by exists r.
  - rewrite (take_move T i r m p_fsm0 L Z). apply (safe_bind T).
    + apply enter_safe. intros a. by apply action_run_safe.
    + intros _. apply safe_bind; [by apply setFlag_safe|]. intros _. apply safe_ret.
    + split; [by split|]. unfold moving. simpl. rewrite bitset_test_set, decide_True by done. by exists r.
Qed.

Lemma enabled_safe `{!SafeProgram T} i : table T → i < length T → safe T (enabled i).
Proof.
  intros [_ F] [r L]%lookup_lt_is_Some m K. destruct (Forall_lookup_1 _ _ _ _ F L) as [_ C].
  pose proof K as [[] _]. unfold enabled. rewrite (bind_Ok _ _ _ _ _ (isInput_run _ _ _ _ p_fsm0 L)).
  unfold consistent in C. destruct (c_guard r) as [g|s] eqn:G'; rewrite C.
  - rewrite (bind_Ok _ _ _ _ _ (guard_run _ _ _ _ _ p_fsm0 L C G')). by apply guard_enabled_safe.
  - rewrite (bind_Ok _ _ _ _ _ (input_at_run _ _ _ _ _ p_fsm0 L C G')).
    apply (safe_bind T); [apply hasInput_safe|intros; apply safe_ret|done].
Qed.

Lemma find_enabled_safe `{!SafeProgram T} d i again : table T → i < length T → length T ≤ i + d →
  triple (ok T) (find_enabled d (length T) i again)
    (λ r m, ok T m ∧ match r with inl _ => True | inr j => j < length T end).
Proof.
  intros W. revert i again. induction d as [|d IH]; intros i again I D; cbn [find_enabled]; [lia|].
  apply (triple_bind _ (λ _, ok T)); [by apply enabled_safe|]. intros p.
  destruct (hasPassed p); [by apply triple_ret|]. destruct (Nat.eqb_spec (S i) (length T)) as [|N]; [by apply triple_ret|].
  apply (triple_bind _ (λ _, ok T)).
  - intros m K. pose proof K as [[] _]. destruct (lookup_lt_is_Some_2 T (S i)) as [r L]; [lia|].
    by rewrite (state_at_run _ _ _ _ p_fsm0 L).
  - intros s. destruct (valid s); [by apply triple_ret|]. apply IH; lia.
Qed.

Lemma step_safe `{!SafeProgram T} : table T → safe T step.
Proof.
  intros W m K. pose proof K as [[] _]. unfold step. rewrite (bind_Ok _ _ _ _ _ (valid_run _ _ p_fsm0)).
  rewrite (bind_Ok _ _ m m tt) by by apply zth_assert_true. rewrite (bind_Ok _ _ m m (m_state m)) by done.
  rewrite (bind_Ok _ _ _ _ _ (size_run _ _ p_fsm0)).
  eapply triple_bind; [apply find_enabled_safe; [done|by apply starts_lt|lia]| |done].
  intros [again|i]; cbn beta iota.
  - eapply triple_weaken; [apply (safe_bind T (setFlag F_blocked true) (λ _, mret again))| |]; [|intros; apply safe_ret|by intros ? []|done].
    by apply setFlag_safe.
  - intros m' [K' I]. by apply take_safe.
Qed.

(** ** Steps of a description

    The same step, on the description: which of the transitions of the current
    state is taken is found by going over them, and targets are names. *)

Section Description.
Context (l : list (Transition G A)) (T : Transitions G A) (compiled : compile l = inr T).

Definition trans_enabled (t : Transition G A) : M Machine GuardPollInterval :=
  if tr_hasGuard t then guard_enabled (tr_guard t) else b ← hasInput (tr_input t); mret (of_bool b).

(** The first that is enabled, with its number from [k] on, or the time after
    which to look again. *)
Fixpoint first_enabled (ts : list (Transition G A)) (k : nat) (again : GuardPollInterval) :
    M Machine (GuardPollInterval + nat * Transition G A) :=
  match ts with
  | [] => mret (inl again)
  | t :: ts =>
      p ← trans_enabled t;
      if hasPassed p then mret (inr (k, t)) else first_enabled ts (S k) (if ti_lt p again then p else again)
  end.

(** The action of a transition runs in the state that it leads to; an [Fsm] notes
    the time. *)
Definition arrive (a : Action A) : M Machine unit := modify timed;; action_run 0 a.

Definition step_in (s : State) : M Machine GuardPollInterval :=
  r ← first_enabled (transitions_of l (name s)) (target l s) (of_bool false);
  match r with
  | inl again => setFlag F_blocked true;; mret again
  | inr (k, t) =>
      if valid (m_to t) then
        modify (moving k (tr_isInput t) (target l (m_to t)));; arrive (tr_action t);;
        setFlag F_entry true;; mret (of_bool true)
      else modify (staying k (tr_isInput t));; arrive (tr_action t);; mret (of_bool true)
  end.

(** The first step: to the first state, and no action runs. *)
Definition step_initial (m : Machine) : Machine :=
  let m := timed (moving 0 false 1 m) in set_flags (bitset_set (m_flags m) F_entry true) m.

(** The guards of the program leave the table alone. *)
Definition guards_keep_table : Prop := ∀ g (m : Machine) p m', guard_call g m = Ok (p, m') → m_fsm m' = m_fsm m.

Context (keep : guards_keep_table).

Lemma compiled_rows k r : T !! k = Some r → consistent r.
Proof using compiled.
  apply compile_run in compiled as (_ & _ & _ & ->). destruct k as [|k].
  - intros [= <-]. unfold first_row. by destruct (length l =? 0).
  - simpl. intros L. destruct (l !! k) as [t|] eqn:Lt.
    + destruct (rows_lookup l None l k t Lt) as (prev & _ & R). rewrite R in L. injection L as <-.
      unfold consistent, row_isInput, row_for, guard_ptr, guard_flags. simpl. by destruct (tr_hasGuard t).
    + apply lookup_ge_None in Lt. apply lookup_lt_Some in L. rewrite rows_length in L. lia.
Qed.

Lemma compiled_table : table T.
Proof using compiled.
  split; [apply compile_run in compiled as (_ & _ & _ & ->); simpl; lia|].
  apply Forall_lookup. intros k r L. split; [by apply (row_target l T k)|by eapply compiled_rows].
Qed.

Lemma guard_enabled_keeps g m p m' : guard_enabled g m = Ok (p, m') → m_fsm m' = m_fsm m.
Proof using keep.
  destruct g; cbn [guard_enabled]; try by intros [= <- <-].
  - unfold entry. unfold mbind, M_bind, flag, gets, clearFlag, setFlag, modify. simpl.
    destruct (bitset_test _ _); by intros [= <- <-].
  - unfold need_Fsm, timeoutGuard_s, dt, now, passed, zth_assert, mbind, M_bind. destruct (_ && _); [done|].
    destruct is_Fsm; [|done]. simpl. destruct (_ && _); [done|]. simpl. by intros [= <- <-].
  - unfold need_Fsm, timeoutGuard_ms, dt, now, passed, zth_assert, mbind, M_bind. destruct (_ && _); [done|].
    destruct is_Fsm; [|done]. simpl. destruct (_ && _); [done|]. simpl. by intros [= <- <-].
  - unfold need_Fsm, timeoutGuard_us, dt, now, passed, zth_assert, mbind, M_bind. destruct (_ && _); [done|].
    destruct is_Fsm; [|done]. simpl. destruct (_ && _); [done|]. simpl. by intros [= <- <-].
  - unfold mbind, M_bind. destruct (hasInput_run input0 m) as [b ->]. by intros [= <- <-].
  - apply keep.
Qed.

Lemma trans_enabled_keeps t m p m' : trans_enabled t m = Ok (p, m') → m_fsm m' = m_fsm m.
Proof using keep.
  unfold trans_enabled. destruct (tr_hasGuard t); [apply guard_enabled_keeps|].
  unfold mbind, M_bind. destruct (hasInput_run (tr_input t) m) as [b ->]. by intros [= <- <-].
Qed.

(** A row that has the data of a transition is enabled when that is. *)
Lemma enabled_asked k r t m :
  m_fsm m = Some T → T !! k = Some r → row_data r = asked l t → enabled k m = trans_enabled t m.
Proof using compiled.
  intros E L D. pose proof (compiled_rows k r L) as C. unfold row_data, asked, guard_ptr in D. injection D as Dg Df _ _.
  unfold consistent in C. unfold enabled, trans_enabled. rewrite (bind_Ok _ _ _ _ _ (isInput_run _ _ _ _ E L)).
  destruct (tr_hasGuard t); rewrite Dg in C; rewrite C.
  - by rewrite (bind_Ok _ _ _ _ _ (guard_run _ _ _ _ _ E L C Dg)).
  - by rewrite (bind_Ok _ _ _ _ _ (input_at_run _ _ _ _ _ E L C Dg)).
Qed.

Lemma group_cons i r : T !! i = Some r →
  group T i = r :: match T !! S i with Some r' => if valid (c_from r') then [] else group T (S i) | None => [] end.
Proof using Type.
  intros L. unfold group. rewrite (drop_S _ _ _ L). f_equal. destruct (T !! S i) as [r'|] eqn:L'.
  - rewrite (drop_S _ _ _ L'). simpl. by destruct (valid (c_from r')).
  - apply lookup_ge_None in L'. by rewrite drop_ge.
Qed.

(** The loop over the rows is the one over the transitions. *)
Lemma find_enabled_first d i ts again m :
  m_fsm m = Some T → row_data <$> group T i = asked l <$> ts → ts ≠ [] → length T ≤ i + d →
  find_enabled d (length T) i again m =
    (r ← first_enabled ts i again; mret (match r with inl a => inl a | inr (k, _) => inr k end)) m.
Proof using compiled keep.
  revert i ts again m. induction d as [|d IH]; intros i [|t ts] again m E D N Ld; try done.
  { unfold group in D. rewrite drop_ge in D by lia. done. }
  destruct (T !! i) as [r|] eqn:L; [|unfold group in D; apply lookup_ge_None in L; by rewrite drop_ge in D].
  rewrite (group_cons i r L) in D. rewrite fmap_cons, fmap_cons in D. apply (f_equal head) in D as Dr. apply (f_equal tail) in D. cbn [tail head] in D, Dr.
  assert (Dr' : row_data r = asked l t) by congruence. clear Dr.
  pose proof (enabled_asked i r t m E L Dr') as Q.
  cbn [find_enabled first_enabled]. rewrite bind_assoc.
  destruct (trans_enabled t m) as [[p m']|e] eqn:Et; [|by rewrite !(bind_Fault _ _ _ e)].
  rewrite (bind_Ok _ _ _ _ _ Q), (bind_Ok _ _ _ _ _ Et).
  assert (E' : m_fsm m' = Some T) by by rewrite (trans_enabled_keeps t m p m').
  destruct (hasPassed p); [done|]. destruct (T !! S i) as [r'|] eqn:L'.
  - apply lookup_lt_Some in L' as Z. replace (S i =? length T) with false by (symmetry; apply Nat.eqb_neq; lia).
    rewrite (bind_Ok _ _ _ _ _ (state_at_run _ _ _ _ E' L')).
    destruct (valid (c_from r')); [by destruct ts|]. apply IH; [done..| |lia].
    intros ->. by rewrite (group_cons (S i) r' L') in D.
  - apply lookup_ge_None in L'. apply lookup_lt_Some in L as Z.
    replace (S i =? length T) with true by (symmetry; apply Nat.eqb_eq; lia). by destruct ts.
Qed.

Lemma first_enabled_row ts i again m k t m' :
  m_fsm m = Some T → row_data <$> group T i = asked l <$> ts → first_enabled ts i again m = Ok (inr (k, t), m') →
  m_fsm m' = Some T ∧ i ≤ k ∧ t ∈ ts ∧ ∃ r, T !! k = Some r ∧ row_data r = asked l t.
Proof using keep.
  revert i again m. induction ts as [|u ts IH]; intros i again m E D F; [done|].
  destruct (T !! i) as [r|] eqn:L; [|unfold group in D; apply lookup_ge_None in L; by rewrite drop_ge in D].
  rewrite (group_cons i r L) in D. rewrite fmap_cons, fmap_cons in D.
  apply (f_equal head) in D as Dr. apply (f_equal tail) in D. cbn [tail head] in D, Dr.
  cbn [first_enabled] in F. destruct (trans_enabled u m) as [[p m1]|e] eqn:Et; [|by rewrite (bind_Fault _ _ _ e) in F].
  rewrite (bind_Ok _ _ _ _ _ Et) in F. assert (E1 : m_fsm m1 = Some T) by by rewrite (trans_enabled_keeps u m p m1).
  destruct (hasPassed p).
  - injection F as <- <- <-. split_and!; [done|lia|auto with zth|]. exists r. split; [done|]. congruence.
  - destruct (T !! S i) as [r'|]; [destruct (valid (c_from r'))|]; [by destruct ts| |by destruct ts].
    destruct (IH _ _ _ E1 D F) as (E' & K & I & R). split_and!; [done|lia|auto with zth|done].
Qed.

Lemma target_valid t : t ∈ l → (target l (m_to t) =? 0) = negb (valid (m_to t)).
Proof using compiled.
  intros I. apply compile_run in compiled as (_ & _ & C & _). pose proof (checked_targets _ _ _ _ C t I) as F.
  destruct (valid (m_to t)) eqn:V.
  - apply find_first in F as (i & -> & _); [|done]. done.
  - unfold target, find. by rewrite V.
Qed.

Lemma asked_isInput r t : row_data r = asked l t → row_isInput r = tr_isInput t.
Proof using Type.
  intros [= _ F _ _]. unfold row_isInput, guard_flags in *. rewrite F. unfold tr_hasGuard, ts_hasGuard, ga_hasGuard.
  change (ga_isInput (ts_ga (m_from t))) with (tr_isInput t). by destruct (tr_isInput t).
Qed.

(** Entering after a transition is running its action. *)
Lemma enter_arrive k r m : m_fsm m = Some T → T !! k = Some r → m_transition m = k → k ≠ 0 →
  enter (action_run 0) m = arrive (c_action r) m.
Proof using Type.
  intros E L N K. apply Nat.eqb_neq in K. unfold enter, arrive, base_enter.
  assert (B : ∀ m', m_fsm m' = Some T → m_transition m' = k →
    (i ← gets m_transition; (if negb (i =? 0) then a ← action i; action_run 0 a else mret tt)) m' =
    action_run 0 (c_action r) m').
  { intros m' E' N'. rewrite (bind_Ok _ _ m' m' k) by (unfold gets; by rewrite N'). rewrite K. cbn [negb].
    by rewrite (bind_Ok _ _ _ _ _ (action_run_row _ _ _ _ E' L)). }
  rewrite (bind_Ok (modify timed) _ m (timed m) tt) by done. unfold timed.
  destruct is_Fsm; cbn [andb]; [|by rewrite B].
  rewrite (bind_Ok (flag F_transition) _ m m (bitset_test (m_flags m) F_transition)) by done.
  destruct (bitset_test (m_flags m) F_transition); [|by rewrite bind_ret, B].
  by rewrite (bind_Ok _ _ m (set_t (clock (ticks m)) (set_ticks (S (ticks m)) m)) tt), B.
Qed.

(** *** The theorems *)

Lemma step_in_run s m : m_fsm m = Some T → valid s = true → declared l (name s) → m_state m = target l s →
  step m = step_in s m.
Proof using compiled keep.
  intros E V D St. destruct (proj2 (fsm_compile l) T compiled) as (_ & _ & _ & G').
  destruct (G' s V D) as (r0 & L0 & N0 & Gr). clear G'.
  apply (find_declared s l V) in D as [i0 F0]. pose proof F0 as (k0 & -> & _)%find_first; [|done].
  assert (T0 : target l s = S k0) by (unfold target; by rewrite F0).
  assert (Ne : transitions_of l (name s) ≠ []).
  { intros Z. unfold group in Gr. rewrite (drop_S _ _ _ L0), Z in Gr. done. }
  unfold step. rewrite (bind_Ok _ _ _ _ _ (valid_run _ _ E)).
  rewrite (bind_Ok _ _ m m tt) by by apply zth_assert_true. rewrite (bind_Ok _ _ m m (target l s)) by (unfold gets; by rewrite St).
  rewrite (bind_Ok _ _ _ _ _ (size_run _ _ E)). unfold step_in.
  pose proof (find_enabled_first (length T) (target l s) _ (of_bool false) m E Gr Ne ltac:(lia)) as FE.
  destruct (first_enabled (transitions_of l (name s)) (target l s) (of_bool false) m) as [[[again|[k t]] m1]|e] eqn:FF.
  - rewrite (bind_Ok _ _ _ _ _ FF) in FE. by rewrite (bind_Ok _ _ _ _ _ FE), (bind_Ok _ _ _ _ _ FF).
  - rewrite (bind_Ok _ _ _ _ _ FF) in FE. rewrite (bind_Ok _ _ _ _ _ FE), (bind_Ok _ _ _ _ _ FF).
    destruct (first_enabled_row _ _ _ _ _ _ _ E Gr FF) as (E1 & K & I%transitions_of_sub & r & L & R).
    pose proof (target_valid t I) as Tv. pose proof (asked_isInput r t R) as Hi. injection R as _ _ Ha Ht.
    rewrite <-Ht in Tv. destruct (valid (m_to t)); cbn [negb] in Tv.
    + apply Nat.eqb_neq in Tv. rewrite (take_move T k r m1 E1 L Tv), Hi, Ht, <-Ha.
      erewrite (bind_Ok (modify _)) by reflexivity. apply bind_eq. apply (enter_arrive k r); [done..|lia].
    + apply Nat.eqb_eq in Tv. rewrite (take_stay T k r m1 E1 L Tv), Hi, <-Ha.
      erewrite (bind_Ok (modify _)) by reflexivity. apply bind_eq. apply (enter_arrive k r); [done..|lia].
  - rewrite (bind_Fault _ _ _ _ FF) in FE. by rewrite (bind_Fault _ _ _ _ FE), (bind_Fault _ _ _ _ FF).
Qed.

Lemma step_initial_run m : m_fsm m = Some T → l ≠ [] → m_state m = 0 → step m = Ok (of_bool true, step_initial m).
Proof using compiled keep.
  intros E N St. destruct (proj2 (fsm_compile l) T compiled) as (_ & L & _ & _).
  assert (L0 : T !! 0 = Some (mkRow (ToGuard always) nothing None 1 0)) by (rewrite L; by destruct l).
  unfold step. rewrite (bind_Ok _ _ _ _ _ (valid_run _ _ E)). rewrite (bind_Ok _ _ m m tt) by by apply zth_assert_true.
  rewrite (bind_Ok _ _ m m 0) by (unfold gets; by rewrite St). rewrite (bind_Ok _ _ _ _ _ (size_run _ _ E)).
  rewrite (bind_Ok _ _ m m (inr 0)).
  - rewrite (take_move T 0 _ m E L0) by done. unfold step_initial.
    rewrite (bind_Ok _ _ _ (timed (moving 0 false 1 m)) tt); [by erewrite bind_Ok by reflexivity|].
    by apply enter_dummy_run.
  - destruct (length T) eqn:X; [by destruct T|]. cbn [find_enabled].
    rewrite (bind_Ok _ _ m m null); [done|]. unfold enabled. rewrite (bind_Ok _ _ _ _ _ (isInput_run _ _ _ _ E L0)).
    transitivity ((g ← guard 0; guard_enabled g) m); [done|].
    by rewrite (bind_Ok _ _ _ _ _ (guard_run _ _ _ always _ E L0 eq_refl eq_refl)).
Qed.
End Description.

(** [tryRun] says that the guard was enabled even when it was not. *)
Lemma tryRun_null ga m m' p : ga_tryRun ga m = Ok (p, m') → p = null.
Proof.
  unfold ga_tryRun. destruct (ga_enabled ga m) as [[q m1]|e] eqn:E; [|by rewrite (bind_Fault _ _ _ _ E)].
  rewrite (bind_Ok _ _ _ _ _ E). cbv zeta. destruct (hasPassed q); cbn [negb]; [|by intros [= <- _]].
  destruct (action_run 0 (ga_action ga) m1) as [[[] m2]|e] eqn:R; [|by rewrite (bind_Fault _ _ _ _ R)].
  rewrite (bind_Ok _ _ _ _ _ R). by intros [= <- _].
Qed.

(** *** From the start *)

Lemma reset_ok T m : table T → m_fsm m = Some T → Forall (λ i, valid i = true) (m_inputs m) →
  (∃ q w, m_trigger m = mkObj [q] w 0%Z) → ∃ m', reset m = Ok (tt, m') ∧ ok T m' ∧ m_state m' = 0.
Proof.
  intros [L _] E I (q & w & Tr). unfold reset. destruct is_Fsm.
  - do 2 (erewrite bind_Ok by reflexivity). erewrite bind_Ok by reflexivity.
    unfold trigger, with_trigger. cbn [m_trigger set_t set_ticks set_stack set_flags set_prev set_transition set_state].
    rewrite Tr, signal_run. eexists. split; [done|]. split; [|done]. split; [|done].
    split; try done; [by left|by left|by exists (tail q), (w ++ take 1 q)].
  - eexists. split; [reflexivity|]. split; [|done]. split; [|done]. split; try done; [by left|by left|by exists q, w].
Qed.

Lemma spawn_ok T u : table T → ∃ m, spawn T u = Ok (tt, m) ∧ ok T m ∧ m_state m = 0.
Proof.
  intros W. unfold spawn, init. destruct (Nat.eqb_spec (length T) 0) as [Z|_]; [destruct W; lia|].
  erewrite bind_Ok by reflexivity. apply reset_ok; [done..|constructor|by exists [], []].
Qed.

Lemma state_run T m : table T → ok T m → ∃ s, state m = Ok (s, m).
Proof.
  intros W [[] _]. unfold state. rewrite (bind_Ok _ _ _ _ _ (valid_run _ _ p_fsm0)).
  rewrite (bind_Ok _ _ m m tt) by by apply zth_assert_true. rewrite (bind_Ok _ _ m m (m_state m)) by done.
  destruct (lookup_lt_is_Some_2 T (m_state m)) as [r L]; [by apply starts_lt|].
  exists (c_from r). by apply (state_at_run T).
Qed.

(** *** The number of times the clock was read *)

Definition grows {B : Type} (c : M Machine B) : Prop :=
  ∀ m, match c m with Ok (_, m') => ticks m ≤ ticks m' | Fault _ => True end.

Class SteadyProgram : Prop := {
  guard_grows g : grows (guard_call g);
  action_grows a : grows (action_call a);
}.

Ltac grows_leaf := first [exact I | exact (le_n _)].

Lemma grows_bind {B C : Type} (c : M Machine B) (k : B → M Machine C) :
  grows c → (∀ b, grows (k b)) → grows (c ≫= k).
Proof.
  intros Hc Hk m. specialize (Hc m). unfold mbind, M_bind. destruct (c m) as [[b m']|]; [|done].
  specialize (Hk b m'). destruct (k b m') as [[]|]; [lia|done].
Qed.

Lemma grows_modify (f : Machine → Machine) : (∀ m, ticks m ≤ ticks (f m)) → grows (modify f).
Proof. done. Qed.

Lemma grows_same {B : Type} (c : M Machine B) : (∀ m b m', c m = Ok (b, m') → ticks m' = ticks m) → grows c.
Proof. intros K m. destruct (c m) as [[b m']|] eqn:E; [|done]. by rewrite (K _ _ _ E). Qed.

Lemma grows_with_trigger {B : Type} (c : M (Obj Z) B) : grows (with_trigger c).
Proof. intros m. unfold with_trigger. destruct (c _) as [[]|]; grows_leaf. Qed.

Lemma grows_the_fsm : grows the_fsm.
Proof. intros m. unfold the_fsm. destruct (m_fsm m); grows_leaf. Qed.

Lemma grows_now : grows now.
Proof. intros m. unfold now, mbind, M_bind. simpl. lia. Qed.

Lemma grows_assert b : grows (zth_assert b).
Proof. intros m. unfold zth_assert. destruct (_ && _); grows_leaf. Qed.

Lemma grows_when b (c : M Machine unit) : grows c → grows (when b c).
Proof. destruct b; [done|]. intros _ m. grows_leaf. Qed.

Ltac grows_steps :=
  repeat match goal with
    | |- grows (mbind _ _) => apply grows_bind; [|intros ?]
    | |- grows (zth_assert _) => apply grows_assert
    | |- grows (with_trigger _) => apply grows_with_trigger
    | |- grows the_fsm => apply grows_the_fsm
    | |- grows now => apply grows_now
    | |- grows (when _ _) => apply grows_when
    | |- grows (modify _) => intros m; grows_leaf
    | |- grows (gets _) => intros m; grows_leaf
    | |- grows (mret _) => intros m; grows_leaf
    | |- grows (fail _) => intros m; grows_leaf
    | |- grows (flag _) => intros m; grows_leaf
    | |- grows (setFlag _ _) => intros m; grows_leaf
    | |- grows (clearFlag _) => intros m; grows_leaf
    | |- grows (if ?b then _ else _) => destruct b
    | |- grows (match ?x with _ => _ end) => destruct x
    | |- grows (let _ := _ in _) => cbv zeta
    end.

Lemma grows_row i : grows (row i).
Proof. unfold row. by grows_steps. Qed.

Lemma grows_at i :
  grows (isInput i) ∧ grows (hasInput_at i) ∧ grows (input_at i) ∧ grows (guard i) ∧
  grows (action i) ∧ grows (to i) ∧ grows (state_at i).
Proof.
  unfold hasInput_at, input_at, guard, action, to, state_at, hasGuard, isInput, size.
  split_and!; grows_steps; apply grows_row.
Qed.

Lemma grows_clearInput i : grows (clearInput i).
Proof. unfold clearInput. grows_steps. Qed.

Lemma grows_guard `{!SteadyProgram} g : grows (guard_enabled g).
Proof.
  destruct g; cbn [guard_enabled];
    unfold entry, popped, need_Fsm, timeoutGuard_s, timeoutGuard_ms, timeoutGuard_us, dt, passed, hasInput;
    grows_steps; apply guard_grows.
Qed.

Lemma grows_enter run : (∀ a, grows (run a)) → grows (enter run).
Proof. intros R. unfold enter, base_enter. grows_steps; auto; apply grows_at. Qed.

Lemma grows_pop run : (∀ a, grows (run a)) → grows (pop run).
Proof. intros R. unfold pop, fsm_valid, leave. grows_steps. by apply grows_enter. Qed.

Lemma grows_action `{!SteadyProgram} a : grows (action_run 0 a).
Proof.
  destruct a; cbn [action_run]; unfold push, stop, need_Fsm, consume_input, input_symbol, fsm_valid; grows_steps;
    try apply grows_at; [by apply grows_pop|apply grows_clearInput|apply action_grows].
Qed.

Lemma grows_step `{!SteadyProgram} : grows step.
Proof.
  assert (E : ∀ i, grows (enabled i)).
  { intros i. unfold enabled, hasInput. grows_steps; try apply grows_at. apply grows_guard. }
  assert (F : ∀ d n i again, grows (find_enabled d n i again)).
  { induction d as [|d IH]; intros n i again; cbn [find_enabled]; grows_steps; auto; apply grows_at. }
  unfold step, size, fsm_valid. grows_steps; auto. unfold take_transition, leave. grows_steps;
    try apply grows_at; apply grows_enter; apply grows_action.
Qed.

(** *** The loop of [run] *)

Lemma ts_add_safe {S : Type} t d (s : S) :
  (∃ t', ts_add t d s = Ok (t', s)) ∨ ts_add t d s = Fault AssertFailed.
Proof.
  unfold ts_add, zth_assert, mbind, M_bind. destruct (_ && _); [by right|left]. by eexists.
Qed.

(** The fiber gets into the queue of the trigger, unless the time has come. *)
Lemma wait_trigger_run f timeout n q w m : m_trigger m = mkObj [q] w 0%Z →
  wait_trigger f timeout n m =
    if ts_le timeout n then Ok (false, m) else Ok (true, set_trigger (mkObj [q ++ [f]] w 0%Z) m).
Proof.
  intros E. assert (R : Signal.wait_until f timeout n (mkObj [q] w 0%Z) =
    if ts_le timeout n then Ok (Some true, mkObj [q] w 0%Z) else Ok (None, mkObj [q ++ [f]] w 0%Z)).
  { unfold Signal.wait_until. erewrite bind_Ok by reflexivity. simpl. by destruct (ts_le timeout n). }
  unfold wait_trigger. unfold mbind, M_bind at 1. unfold with_trigger. rewrite E, R.
  destruct (ts_le timeout n); [|done]. rewrite <-E. by destruct m.
Qed.

Lemma exit_run rang q w m : m_trigger m = mkObj [q] w 0%Z →
  with_trigger (Signal.wait_until_exit rang) m = Ok (negb rang, m).
Proof.
  intros E. unfold with_trigger. rewrite E. transitivity (Ok (negb rang, set_trigger (mkObj [q] w 0%Z) m)); [by destruct rang|].
  rewrite <-E. by destruct m.
Qed.

Lemma ok_trigger T q w m : ok T m → ok T (set_trigger (mkObj [q] w 0%Z) m).
Proof. intros [[] I]. split; [|done]. split; try done. by exists q, w. Qed.

(** How [run] can end: it returns because it was stopped or the time has come, or
    the fiber waits. *)
Definition ended (T : Transitions G A) (f : addr) (until : Timestamp) (r : progress) (m : Machine) : Prop :=
  ok T m ∧
  match r with
  | Returns _ => bitset_test (m_flags m) F_stop = true ∨ ∃ n, ticks m = S n ∧ ts_gt (clock n) until = true
  | Waits d => (d = until ∨ isBefore until d = false) ∧ ∃ q w, m_trigger m = mkObj [q ++ [f]] w 0%Z
  end.

Lemma round_until_run `{!SafeProgram T, !SteadyProgram} f until m : table T → ok T m →
  match round_until f until m with
  | Ok (Some r, m') => ended T f until r m'
  | Ok (None, m') => ok T m' ∧ ticks m < ticks m' ∧ ∃ n, ticks m ≤ n ∧ ts_gt (clock n) until = false
  | Fault e => e = AssertFailed
  end.
Proof.
  intros W K. unfold round_until. pose proof (step_safe W m K) as Sf. pose proof (grows_step m) as Gr.
  destruct (step m) as [[p m1]|e] eqn:Es; [|by rewrite (bind_Fault _ _ _ _ Es)].
  rewrite (bind_Ok _ _ _ _ _ Es), (bind_Ok (flag F_stop) _ m1 m1 (bitset_test (m_flags m1) F_stop)) by done.
  destruct (bitset_test (m_flags m1) F_stop) eqn:St; [by split; [|left]|].
  set (m2 := set_ticks (S (ticks m1)) m1). rewrite (bind_Ok now _ m1 m2 (clock (ticks m1))) by done.
  assert (K2 : ok T m2) by by apply ok_ticks. destruct (ts_gt (clock (ticks m1)) until) eqn:Un.
  { split; [done|]. right. by exists (ticks m1). }
  destruct (hasPassed p).
  { split; [done|]. split; [unfold m2; simpl; lia|]. by exists (ticks m1). }
  destruct (ts_add_safe (clock (ticks m1)) p m2) as [[e Ea]|Ea]; [|by rewrite (bind_Fault _ _ _ _ Ea)].
  rewrite (bind_Ok _ _ _ _ _ Ea). pose proof K2 as [[] _]. destruct p_trigger0 as (q & w & Tr).
  cbv zeta. set (d := ts_min e until). pose proof (wait_trigger_run f d (clock (ticks m1)) q w m2 Tr) as Wt.
  destruct (ts_le d (clock (ticks m1))); rewrite (bind_Ok _ _ _ _ _ Wt).
  - split; [done|]. split; [unfold m2; simpl; lia|]. by exists (ticks m1).
  - split; [by apply ok_trigger|]. split; [|by exists q, w]. unfold d, ts_min.
    destruct (isBefore until e) eqn:B; [by left|by right].
Qed.

(** Every time around the loop reads the clock, so that it ends. *)
Lemma loop_until_run `{!SafeProgram T, !SteadyProgram} f until N fuel m : table T →
  (∀ n, N ≤ n → ts_gt (clock n) until = true) → N - ticks m < fuel → ok T m →
  match loop fuel (round_until f until) m with
  | Ok (r, m') => ended T f until r m'
  | Fault e => e = AssertFailed
  end.
Proof.
  intros W L. revert m. induction fuel as [|fuel IH]; intros m Fu K; [lia|]. cbn [loop].
  pose proof (round_until_run f until m W K) as R.
  destruct (round_until f until m) as [[[r|] m1]|e] eqn:E; [by rewrite (bind_Ok _ _ _ _ _ E)| |by rewrite (bind_Fault _ _ _ _ E)].
  rewrite (bind_Ok _ _ _ _ _ E). destruct R as (K1 & Lt & n & Ge & Un). apply IH; [|done].
  destruct (decide (N ≤ n)) as [Nn|Nn]; [by rewrite L in Un|]. lia.
Qed.

(** An input gets a fiber that waits out of the queue. *)
Lemma input_wakes i f q w m : is_Fsm = true → valid i = true → m_trigger m = mkObj [f :: q] w 0%Z →
  ∃ m', input i m = Ok (tt, m') ∧ m_trigger m' = mkObj [q] (w ++ [f]) 0%Z ∧ m_inputs m' = m_inputs m ++ [i].
Proof.
  intros F V Tr. unfold input, base_input. rewrite F, V. cbn [negb]. erewrite bind_Ok by reflexivity.
  unfold trigger, with_trigger. cbn [m_trigger set_inputs]. rewrite Tr, signal_run. by eexists.
Qed.

(** *** Push and pop *)

Lemma timed_same m : m_fsm (timed m) = m_fsm m ∧ m_stack (timed m) = m_stack m ∧ m_prev (timed m) = m_prev m ∧
  m_state (timed m) = m_state m ∧ m_flags (timed m) = m_flags m ∧ m_transition (timed m) = m_transition m.
Proof. unfold timed. by destruct (_ && _). Qed.

Lemma take_push T i r m : m_fsm m = Some T → T !! i = Some r → i ≠ 0 → c_action r = FsmCompile.push →
  ∃ m', take_transition i m = Ok (null, m') ∧ m_fsm m' = Some T ∧
    m_stack m' = m_stack m ++ [if c_to r =? 0 then m_prev m else m_state m] ∧
    m_state m' = (if c_to r =? 0 then m_state m else c_to r) ∧ bitset_test (m_flags m') F_pushed = true.
Proof.
  intros E L N Ac. assert (Pu : ∀ m0, m_fsm m0 = Some T →
    push m0 = Ok (tt, set_flags (bitset_set (m_flags m0) F_pushed true) (set_stack (m_stack m0 ++ [m_prev m0]) m0))).
  { intros m0 E0. unfold push. rewrite (bind_Ok _ _ _ _ _ (valid_run _ _ E0)).
    by rewrite (bind_Ok _ _ m0 m0 tt) by by apply zth_assert_true. }
  assert (Ar : ∀ m0, arrive (c_action r) m0 = push (timed m0)).
  { intros m0. unfold arrive. erewrite (bind_Ok (modify timed)) by reflexivity. by rewrite Ac. }
  destruct (Nat.eqb_spec (c_to r) 0) as [Z|Z].
  - rewrite (take_stay T i r m E L Z). set (m1 := staying i (row_isInput r) m). destruct (timed_same m1) as (T1 & T2 & T3 & T4 & _).
    rewrite (bind_eq _ (arrive (c_action r))) by by apply (enter_arrive T i r).
    rewrite (bind_Ok _ _ _ _ _ (eq_trans (Ar m1) (Pu _ (eq_trans T1 E)))). eexists. split; [done|].
    cbn [m_fsm m_stack m_state m_flags set_flags set_stack]. rewrite T1, T2, T3, T4, bitset_test_set. done.
  - rewrite (take_move T i r m E L Z). set (m1 := moving i (row_isInput r) (c_to r) m).
    destruct (timed_same m1) as (T1 & T2 & T3 & T4 & _).
    rewrite (bind_eq _ (arrive (c_action r))) by by apply (enter_arrive T i r).
    rewrite (bind_Ok _ _ _ _ _ (eq_trans (Ar m1) (Pu _ (eq_trans T1 E)))). eexists. split; [done|].
    cbn [m_fsm m_stack m_state m_flags set_flags set_stack]. rewrite T1, T2, T3, T4, !bitset_test_set. done.
Qed.

(** After [pop], from the machine [m] in which the action found itself. *)
Lemma pop_done run T st a m : m_fsm m = Some T → m_stack m = st ++ [a] → a ≠ 0 →
  ∃ m', pop run m = Ok (tt, m') ∧ m_fsm m' = Some T ∧ m_stack m' = st ∧ m_state m' = a ∧
    bitset_test (m_flags m') F_popped = true ∧ bitset_test (m_flags m') F_pushed = false ∧
    bitset_test (m_flags m') F_entry = true ∧ bitset_test (m_flags m') F_input = false.
Proof.
  intros E S N. rewrite (pop_run T run st a m E S N).
  rewrite (bind_Ok _ _ _ _ _ (enter_dummy_run run (popping st a m) eq_refl)). eexists. split; [done|].
  cbn [m_fsm m_stack m_state m_flags set_flags]. destruct (timed_same (popping st a m)) as (-> & -> & _ & -> & -> & _).
  split_and!; [done..| | | |]; unfold popping; cbn [m_flags set_flags]; by rewrite !bitset_test_set.
Qed.

Lemma take_pop T i r st a m : m_fsm m = Some T → T !! i = Some r → i ≠ 0 → c_action r = FsmCompile.pop →
  m_stack m = st ++ [a] → a ≠ 0 →
  ∃ m', take_transition i m = Ok (null, m') ∧ m_fsm m' = Some T ∧ m_stack m' = st ∧ m_state m' = a ∧
    bitset_test (m_flags m') F_popped = true ∧ bitset_test (m_flags m') F_pushed = false ∧
    bitset_test (m_flags m') F_entry = true ∧ input_symbol m' = Ok (None, m').
Proof.
  intros E L N Ac S Na. assert (In : ∀ m0, bitset_test (m_flags m0) F_input = false → input_symbol m0 = Ok (None, m0)).
  { intros m0 F. unfold input_symbol. by rewrite (bind_Ok _ _ m0 m0 false) by (unfold flag, gets; by rewrite F). }
  assert (Ar : ∀ m0, m_fsm m0 = Some T → m_stack m0 = st ++ [a] → ∃ m', arrive (c_action r) m0 = Ok (tt, m') ∧
    m_fsm m' = Some T ∧ m_stack m' = st ∧ m_state m' = a ∧ bitset_test (m_flags m') F_popped = true ∧
    bitset_test (m_flags m') F_pushed = false ∧ bitset_test (m_flags m') F_entry = true ∧
    bitset_test (m_flags m') F_input = false).
  { intros m0 E0 S0. unfold arrive. erewrite (bind_Ok (modify timed)) by reflexivity. rewrite Ac.
    destruct (timed_same m0) as (T1 & T2 & _). apply pop_done; [by rewrite T1|by rewrite T2|done]. }
  destruct (Nat.eqb_spec (c_to r) 0) as [Z|Z].
  - rewrite (take_stay T i r m E L Z), (bind_eq _ (arrive (c_action r))) by by apply (enter_arrive T i r).
    destruct (Ar (staying i (row_isInput r) m)) as (m' & R & F); [done..|]. rewrite (bind_Ok _ _ _ _ _ R).
    exists m'. naive_solver.
  - rewrite (take_move T i r m E L Z), (bind_eq _ (arrive (c_action r))) by by apply (enter_arrive T i r).
    destruct (Ar (moving i (row_isInput r) (c_to r) m)) as (m' & R & F); [done..|]. rewrite (bind_Ok _ _ _ _ _ R).
    eexists. split; [done|]. cbn [m_fsm m_stack m_state m_flags set_flags]. rewrite !bitset_test_set.
    cbn [decide Flag_eq_dec]. split_and!; try apply F; [by destruct F as (_ & _ & _ & -> & _)..|done|].
    apply In. cbn [m_flags set_flags]. rewrite bitset_test_set. by destruct F as (_ & _ & _ & _ & _ & _ & ->).
Qed.
End Machine.

(** ** What holds of state machines *)

Section Theorems.
Context `{Config} {G A U : Type} {P : Program G A U}.
Implicit Types (m : Machine G A U) (T : Transitions G A).

(** C2: a step on the compiled table is a step of the description: in a state that
    the description names, the first transition of that state that is enabled is
    taken, in the order in which they are written; its action runs in the state
    that it leads to.  If there is none, the shortest of the intervals is
    returned.  The first step leads to the first state, without running an
    action.  The guards that the program defines do not replace the table. *)
Theorem fsm_step_refines (l : list (Transition G A)) T m :
  compile l = inr T → guards_keep_table (U := U) → m_fsm m = Some T →
  (∀ s, valid s = true → declared l (name s) → m_state m = target l s → step m = step_in l s m) ∧
  (l ≠ [] → m_state m = 0 → step m = Ok (null, step_initial m)).
Proof.
  intros C K E. split; [intros s; by apply (step_in_run l T)|]. by apply (step_initial_run l T).
Qed.

(** C4: a machine starts in order and stays so, whatever is done with it: its state,
    the previous one and those on the stack are places where a state starts in
    the table, and [input()] and [state()] find what they ask for.  No function
    reads past the table; the only way in which one fails is an assertion, which are
    enabled.  The guards and actions of the program are held to the same. *)
Theorem fsm_safe (l : list (Transition G A)) T :
  compile l = inr T → SafeProgram (U := U) T →
  (∀ u, ∃ m, spawn T u = Ok (tt, m) ∧ ok T m ∧ m_state m = 0) ∧
  safe (U := U) T step ∧ (∀ d a, safe (U := U) T (action_run d a)) ∧ (∀ i, safe (U := U) T (input i)) ∧
  (∀ i, safe (U := U) T (clearInput i)) ∧ safe (U := U) T trigger ∧
  ∀ m, ok T m →
    (∃ s, state m = Ok (s, m)) ∧ (∃ i, input_symbol m = Ok (i, m)) ∧
    (∀ d, action_run d FsmCompile.pop m = Fault AssertFailed ↔ m_stack m = [] ∨ last (m_stack m) = Some 0).
Proof.
  intros C S. pose proof (compiled_table l T C) as W.
  split; [intros u; by apply spawn_ok|]. split; [by apply step_safe|].
  split; [intros d a; by apply action_run_safe|]. split; [apply input_safe|]. split; [apply clearInput_safe|].
  split; [apply trigger_safe|]. intros m K. split; [by apply (state_run T)|].
  split; [destruct (input_symbol_run T m W K) as (i & R & _); by exists i|]. intros d. pose proof K as [[] _].
  assert (E : action_run d FsmCompile.pop m = pop (λ _, fail OutOfFuel) m).
  { by rewrite (action_run_depth d _ m T) by (done || apply S). }
  rewrite E. split; [|intros Z; apply (pop_fault _ m T); [done|apply S|done]]. intros F.
  destruct (stack_cases m) as [|(st & a & Ss & N)]; [done|].
  destruct (pop_done (λ _, fail OutOfFuel) T st a m p_fsm0 Ss N) as (m' & R & _). congruence.
Qed.

(** C11: [push] and [pop] are each other's inverse: a transition with [push] that
    leaves a state for another puts the state that is left on the stack; when the
    stack is as [push] left it, a transition with [pop] returns to that state, and
    the stack is what it was before.  The state that is returned to can see that
    it was, and has no input.  A transition without a target that does [push]
    saves not the current state, but the one before it. *)
Theorem fsm_push_pop T m i r :
  m_fsm m = Some T → T !! i = Some r → i ≠ 0 → c_action r = FsmCompile.push →
  ∃ m1, take_transition i m = Ok (null, m1) ∧ bitset_test (m_flags m1) F_pushed = true ∧
    m_state m1 = (if c_to r =? 0 then m_state m else c_to r) ∧
    m_stack m1 = m_stack m ++ [if c_to r =? 0 then m_prev m else m_state m] ∧
    ∀ m2 j r', m_fsm m2 = Some T → m_stack m2 = m_stack m1 → T !! j = Some r' → j ≠ 0 →
      c_action r' = FsmCompile.pop → (if c_to r =? 0 then m_prev m else m_state m) ≠ 0 →
      ∃ m3, take_transition j m2 = Ok (null, m3) ∧ m_stack m3 = m_stack m ∧
        m_state m3 = (if c_to r =? 0 then m_prev m else m_state m) ∧
        bitset_test (m_flags m3) F_popped = true ∧ bitset_test (m_flags m3) F_pushed = false ∧
        bitset_test (m_flags m3) F_entry = true ∧ input_symbol m3 = Ok (None, m3).
Proof.
  intros E L N Ac. destruct (take_push T i r m E L N Ac) as (m1 & R & _ & St & Sa & Pu). exists m1.
  split_and!; [done..|]. intros m2 j r' E2 S2 L2 N2 Ac2 Na. rewrite St in S2.
  destruct (take_pop T j r' _ _ m2 E2 L2 N2 Ac2 S2 Na) as (m3 & R3 & _ & K). exists m3. naive_solver.
Qed.

(** The inputs are a bag of names: [input] adds a valid symbol, [hasInput] says
    whether an equal one is there, [clearInput] removes one of those, and says
    whether there was one; it touches no other.  The input of an [Fsm] also makes
    the first of the fibers that wait in [run] ready, once. *)
Theorem fsm_inputs m i q w : m_trigger m = mkObj [q] w 0%Z →
  (input i m = Ok (tt, if valid i then set_trigger (if is_Fsm then mkObj [tail q] (w ++ take 1 q) 0%Z else m_trigger m)
    (set_inputs (m_inputs m ++ [i]) m) else m)) ∧
  ∃ b l, clearInput i m = Ok (b, set_inputs l m) ∧ hasInput i m = Ok (b, m) ∧
    (b = true ↔ valid i = true ∧ ∃ x, x ∈ m_inputs m ∧ name x = name i) ∧
    if b then ∃ x, name x = name i ∧ m_inputs m ≡ₚ x :: l else l = m_inputs m.
Proof.
  intros Tr. split.
  - unfold input, base_input. destruct (valid i); cbn [negb]; [|by destruct is_Fsm]. destruct is_Fsm; [|by destruct m].
    erewrite bind_Ok by reflexivity. unfold trigger, with_trigger. cbn [m_trigger set_inputs]. by rewrite Tr, signal_run.
  - assert (B : ∀ b, hasInput i m = Ok (b, m) → b = true ↔ valid i = true ∧ ∃ x, x ∈ m_inputs m ∧ name x = name i).
    { intros b. unfold hasInput, gets. destruct (valid i); cbn [negb]; [|intros [= <-]; naive_solver].
      intros [= <-]. rewrite existsb_exists. setoid_rewrite constexpr_eq_true. setoid_rewrite list_elem_of_In. naive_solver. }
    destruct (clearInput_run i m) as [[C I]|(l & x & C & I & N & R)].
    + exists false, (m_inputs m). split_and!; [rewrite C; by destruct m|done|by apply B|done].
    + exists true, l. split_and!; [done|done|by apply B|by exists x].
Qed.

(** C21: [run(until)] ends: when the clock is past [until] from its [N]-th reading on,
    the loop goes around at most [N] times.  It returns because [stop] was asked
    for or because the time has come, or its fiber waits in the queue of the
    trigger for no longer than [until]; so it is with what it does when it has
    waited.  The guards and actions of the program do not turn back the clock. *)
Theorem fsm_run_until (l : list (Transition G A)) T f until N fuel m rang :
  compile l = inr T → SafeProgram (U := U) T → SteadyProgram (G := G) (A := A) (U := U) →
  (∀ n, N ≤ n → ts_gt (clock n) until = true) → N - ticks m < fuel → ok T m →
  (match run_until fuel f until m with Ok (r, m') => ended T f until r m' | Fault e => e = AssertFailed end) ∧
  (match run_until_resume fuel f until rang m with
   | Ok (r, m') => ended T f until r m' | Fault e => e = AssertFailed end).
Proof.
  intros C S St L Fu K. pose proof (compiled_table l T C) as W. split.
  - unfold run_until. erewrite bind_Ok by reflexivity. apply (loop_until_run f until N); [done..|].
    apply ok_flags; [|done]. by rewrite bitset_test_set.
  - unfold run_until_resume. pose proof K as [[] _]. destruct p_trigger0 as (q & w & Tr).
    rewrite (bind_Ok _ _ _ _ _ (exit_run rang q w m Tr)). by apply (loop_until_run f until N).
Qed.

(** The seconds and nanoseconds of a count of milliseconds or microseconds. *)
Lemma ms_parts ms : (0 ≤ ms * 1000000 < 2 ^ 63)%Z →
  let t := interval (s64 (ms `div` 1000)) (Z.rem (s64 (u64 (ms * 1000000))) 1000000000) false in
  wf t ∧ (sec t * BILLION + nsec t = ms * 1000000)%Z.
Proof.
  intros B. cbv zeta. pose proof (Z.div_mod ms 1000). pose proof (Z.mod_pos_bound ms 1000).
  rewrite u64_small, !s64_small by lia. rewrite Z.rem_mod_nonneg by lia.
  change 1000000000%Z with (1000 * 1000000)%Z. rewrite Z.mul_mod_distr_r by lia.
  unfold wf, sec, nsec, BILLION, time_max. simpl. lia.
Qed.

Lemma us_parts us : (0 ≤ us * 1000 < 2 ^ 63)%Z →
  let t := interval (s64 (us `div` 1000000)) (Z.rem (s64 (u64 (us * 1000))) 1000000000) false in
  wf t ∧ (sec t * BILLION + nsec t = us * 1000)%Z.
Proof.
  intros B. cbv zeta. pose proof (Z.div_mod us 1000000). pose proof (Z.mod_pos_bound us 1000000).
  rewrite u64_small, !s64_small by lia. rewrite Z.rem_mod_nonneg by lia.
  change 1000000000%Z with (1000000 * 1000)%Z. rewrite Z.mul_mod_distr_r by lia.
  unfold wf, sec, nsec, BILLION, time_max. simpl. lia.
Qed.

(** What is left of a span of time. *)
Lemma time_left (t now : Timestamp) a b (s : Machine G A U) :
  wf (interval a b false) → wf_ts t → wf_ts now → isBefore now t = false →
  ∃ d, passed now t s = Ok (d, s) ∧
    value (sub (interval a b false) d) = (a * BILLION + b - (ns_of now - ns_of t))%Z ∧
    hasPassed (sub (interval a b false) d) = (a * BILLION + b <=? ns_of now - ns_of t)%Z.
Proof.
  intros Wx Wt Wn B. destruct (passed_exact now t s Wt Wn B) as (d & R & V & W). exists d. split; [done|].
  assert (Nd : m_negative d = false).
  { revert R. unfold passed. rewrite (bind_Ok _ _ s s tt) by (apply zth_assert_true; unfold isAfter; by rewrite B).
    intros [= <-]. by destruct (_ <? 0)%Z. }
  rewrite sub_add_neg. assert (Sg : m_negative (interval a b false) ≠ m_negative (neg d)) by by simpl; unfold isNegative; rewrite Nd.
  destruct (add_exact (interval a b false) (neg d) Wx (wf_neg d W) (or_introl Sg)) as (E & Es & En & Eb).
  rewrite value_neg, V in E. change (value (interval a b false)) with (a * BILLION + b)%Z in E.
  split; [rewrite E; lia|]. assert (Nb : nsec (add (interval a b false) (neg d)) ≠ BILLION) by (intros [? _]%Eb; done).
  revert E Es En Nb. generalize (add (interval a b false) (neg d)). intros [[ps pn] pg] E Es En Nb.
  unfold hasPassed, isNegative, isNull, value, abs_value, sec, nsec in *. simpl in *. unfold BILLION in *. symmetry.
  destruct pg; simpl; [apply Z.leb_le; lia|].
  destruct (Z.eqb_spec ps 0), (Z.eqb_spec pn 0); simpl; [apply Z.leb_le|apply Z.leb_gt..]; lia.
Qed.

(** What a time-out guard asks for, in nanoseconds, if its arithmetic does not
    overflow. *)
Definition timeout_of (g : Guard G) : option Z :=
  match g with
  | timeout_s s => if bool_decide (0 ≤ s ≤ time_max)%Z then Some (s * BILLION)%Z else None
  | timeout_ms ms => if bool_decide (0 ≤ ms * 1000000 < 2 ^ 63)%Z then Some (ms * 1000000)%Z else None
  | timeout_us us => if bool_decide (0 ≤ us * 1000 < 2 ^ 63)%Z then Some (us * 1000)%Z else None
  | _ => None
  end.

(** A time-out guard is enabled exactly when the time since the last transition,
    to the nanosecond, is at least what it asks for; before that, the interval that
    it returns is what is left.  It reads the clock once, and changes nothing
    else. *)
Theorem fsm_timeouts m g span :
  is_Fsm = true → timeout_of g = Some span → wf_ts (m_t m) → wf_ts (clock (ticks m)) →
  isBefore (clock (ticks m)) (m_t m) = false →
  ∃ p, guard_enabled g m = Ok (p, set_ticks (S (ticks m)) m) ∧
    (value p = span - (ns_of (clock (ticks m)) - ns_of (m_t m)))%Z ∧
    hasPassed p = (span <=? ns_of (clock (ticks m)) - ns_of (m_t m))%Z.
Proof.
  intros F Sp Wt Wn B. assert (N : need_Fsm m = Ok (tt, m)) by by unfold need_Fsm, zth_assert; rewrite F, andb_false_r.
  set (m' := set_ticks (S (ticks m)) m).
  assert (L : ∀ a b, wf (interval a b false) → (a * BILLION + b = span)%Z →
    ∃ p, (d ← dt; mret (sub (interval a b false) d)) m = Ok (p, m') ∧
      (value p = span - (ns_of (clock (ticks m)) - ns_of (m_t m)))%Z ∧
      hasPassed p = (span <=? ns_of (clock (ticks m)) - ns_of (m_t m))%Z).
  { intros a b W <-. destruct (time_left (m_t m) (clock (ticks m)) a b m' W Wt Wn B) as (d & R & V & Hp).
    exists (sub (interval a b false) d). split; [|done]. unfold dt. rewrite bind_assoc.
    rewrite (bind_Ok _ _ m m (m_t m)), bind_assoc by done. rewrite (bind_Ok now _ m m' (clock (ticks m))) by done.
    by rewrite (bind_Ok _ _ _ _ _ R). }
  destruct g; try done; cbn [timeout_of guard_enabled] in *; case_bool_decide as D; try done; injection Sp as Sp;
    rewrite (bind_Ok _ _ _ _ _ N).
  - apply L; [|lia]. unfold wf, sec, nsec, interval. cbn [Time.m_t tv_sec tv_nsec]. split; [done|]. by unfold BILLION.
  - apply ms_parts in D as (W & V). apply L; [done|exact (eq_trans V Sp)].
  - apply us_parts in D as (W & V). apply L; [done|exact (eq_trans V Sp)].
Qed.
End Theorems.

(** ** An example *)

(** The program counts how often its action ran; its clock goes a second at a
    time. *)
#[export] Instance example_program : Program unit unit nat := {|
  guard_call _ := mret null;
  action_call _ := modify (λ m, mkFsm _ _ _ (m_fsm m) (m_flags m) (m_prev m) (m_transition m) (m_state m) (m_stack m)
    (m_inputs m) (m_t m) (m_trigger m) (ticks m) (S (user m)));
  clock n := mkTs (Z.of_nat n) 0;
  is_Fsm := true;
|}.

#[local] Existing Instance debug_config.

Lemma example_keeps : guards_keep_table (G := unit) (A := unit) (U := nat).
Proof. by intros g m p m' [= <- <-]. Qed.

Lemma example_safe : SafeProgram (U := nat) example_table.
Proof.
  split; [done|intros g; apply safe_ret|]. intros a. apply triple_modify. intros m [[] I]. by split.
Qed.

Lemma example_steady : SteadyProgram (G := unit) (A := unit) (U := nat).
Proof. by split; intros [] m; simpl. Qed.

(** In state "b", which was entered from "a" with [push]. *)
Definition example_fsm : Machine unit unit nat :=
  mkFsm _ _ _ (Some example_table) (bitset_set (bitset_set 0 F_pushed true) F_transition true) 1 1 2 [1] [Some "back"]
    (mkTs 3 0) (mkObj [[7%positive]] [] 0%Z) 5 0.

Lemma example_fsm_ok : ok example_table example_fsm.
Proof.
  split; [split; try done|done].
  - right. by eexists.
  - right. by eexists.
  - apply Forall_singleton. right. by eexists.
  - simpl. lia.
  - by repeat constructor.
  - by exists [7%positive], [].
Qed.

(** From the start: to "a", on the input to "b", its action, on the input back to
    "a". *)
Lemma example_run :
  match (spawn example_table 0 : outcome (unit * Machine unit unit nat)) with
  | Ok (_, m) =>
      match (step;; input (Some "go");; step;; consume_input;; input (Some "back");; step;; step) m with
      | Ok (_, m) => (m_state m, m_stack m, user m, bitset_test (m_flags m) F_popped) = (1, [], 1, true)
      | Fault _ => False
      end
  | Fault _ => False
  end.
Proof. by vm_compute. Qed.

Lemma fsm_step_refines_witness :
  step example_fsm = step_in example_description (Some "b") example_fsm.
Proof.
  apply (fsm_step_refines example_description example_table example_fsm example_compiles example_keeps); [done|done| |done].
  exists (transition (state_plus_ga (Some "b") (guard_div FsmCompile.entry (TypedAction tt)))). split; [right; left|done].
Defined.

Lemma fsm_safe_witness : ∃ m : Machine unit unit nat, spawn example_table 0 = Ok (tt, m) ∧ ok example_table m ∧ m_state m = 0.
Proof. apply (fsm_safe example_description example_table example_compiles example_safe). Defined.

(** In state "a", with the input that leads to "b". *)
Definition example_fsm_a : Machine unit unit nat :=
  mkFsm _ _ _ (Some example_table) 0 0 0 1 [] [Some "go"] (mkTs 3 0) (mkObj [[7%positive]] [] 0%Z) 5 0.

Lemma fsm_push_pop_witness : ∃ m1, take_transition 1 example_fsm_a = Ok (null, m1) ∧ m_state m1 = 2 ∧
  ∃ m3, take_transition 3 m1 = Ok (null, m3) ∧ m_stack m3 = [] ∧ m_state m3 = 1.
Proof.
  destruct (fsm_push_pop example_table example_fsm_a 1 (mkRow (ToChars (Some "go")) FsmCompile.push (Some "a") 2 1))
    as (m1 & R & _ & St & _ & K); [done..|]. exists m1. split; [done|]. split; [done|].
  destruct (K m1 3 (mkRow (ToChars (Some "back")) FsmCompile.pop None 0 1)) as (m3 & R3 & S3 & St3 & _); [|done..|].
  - by vm_compute in R; injection R as <-.
  - by exists m3.
Defined.

Lemma fsm_inputs_witness : ∃ l, clearInput (Some "back") example_fsm = Ok (true, set_inputs l example_fsm) ∧ l = [].
Proof.
  destruct (fsm_inputs example_fsm (Some "back") [7%positive] [] eq_refl) as [_ (b & l & C & _ & _ & _)].
  exists l. vm_compute in C. injection C as <- <-. done.
Defined.

Lemma fsm_run_until_witness :
  (match run_until 20 7%positive (mkTs 10 0) example_fsm with
   | Ok (r, m') => ended example_table 7%positive (mkTs 10 0) r m' | Fault e => e = AssertFailed end) ∧
  (match run_until_resume 20 7%positive (mkTs 10 0) true example_fsm with
   | Ok (r, m') => ended example_table 7%positive (mkTs 10 0) r m' | Fault e => e = AssertFailed end).
Proof.
  assert (L : ∀ n, 11 ≤ n → ts_gt (clock n) (mkTs 10 0) = true).
  { intros n L. apply orb_true_iff. left. apply Z.ltb_lt. simpl. lia. }
  assert (F : 11 - ticks example_fsm < 20) by (simpl; lia).
  exact (fsm_run_until example_description example_table 7%positive (mkTs 10 0) 11 20 example_fsm true
    example_compiles example_safe example_steady L F example_fsm_ok).
Defined.

Lemma fsm_timeouts_witness : ∃ p, guard_enabled (timeout_s 10) example_fsm = Ok (p, set_ticks 6 example_fsm) ∧
  hasPassed p = false.
Proof.
  destruct (fsm_timeouts example_fsm (timeout_s 10) 10000000000) as (p & R & _ & Hp); [done|done|by vm_compute..|].
  by exists p.
Defined.
