(* ===== verification/Util.v ===== *)
(** * Utilities (libzth/util.h, src/util.cpp)

    Strings that are copied when they are written ([cow_string]), formatting into a
    string ([formatv], [vasprintf], [str] of integers), unique ids ([UniqueID]) and
    singletons, of the program or of a thread. *)

From stdpp Require Import base gmap list strings pretty.
From Stdlib Require Import ZArith Lia Ascii.
From S2P Require Import Prelude.

Local Open Scope Z_scope.

(** ** [cow_string] *)

Module CowString.

(** Characters; a string of C ends at its first 0. *)
Abbreviation chars := (list ascii).

Record cow_string := mkCow { m_cstr : ptr; m_str : chars }.

(** The object, and the arrays of the program that [char const*] point to. *)
Record State := mkState { arrays : gmap addr chars; obj : cow_string }.

Definition set_obj (c : cow_string) : M State unit := modify (λ s, mkState (arrays s) c).

(** The characters up to the 0. *)
Definition at_ptr (p : addr) : M State chars := λ s,
  match arrays s !! p with Some l => Ok (l, s) | None => Fault NullDeref end.

Definition NUL : ascii := "000".

Definition default_ctor : cow_string := mkCow nullptr [].
Definition from_cstr (p : ptr) : cow_string := mkCow p [].
Definition from_string (s : chars) : cow_string := mkCow nullptr s.

Definition assign_cow (o : cow_string) : M State unit := set_obj (mkCow (m_cstr o) (m_str o)).
Definition assign_cstr (p : ptr) : M State unit := set_obj (mkCow p []).
Definition assign_string (t : chars) : M State unit := set_obj (mkCow nullptr t).

(** [local]: the string, after it was copied. *)
Definition local : M State chars :=
  c ← gets obj;
  match m_cstr c with
  | Some p => l ← at_ptr p; set_obj (mkCow nullptr l);; mret l
  | None => mret (m_str c)
  end.
Definition str : M State chars := local.

(** The characters that [c_str()] points to. *)
Definition c_str : M State chars := c ← gets obj; match m_cstr c with Some p => at_ptr p | None => mret (m_str c) end.
Definition data : M State chars := c_str.

(** A character of a string, also its terminating 0; none beyond that. *)
Definition char_at (l : chars) (pos : nat) : option ascii := (l ++ [NUL]) !! pos.

(** [at]: [None] when it throws. *)
Definition at_ (pos : nat) : M State (option ascii) := l ← str; mret (l !! pos).
Definition get_char (pos : nat) : M State ascii :=
  l ← (c ← gets obj; match m_cstr c with Some p => at_ptr p | None => str end);
  match char_at l pos with Some a => mret a | None => fail NullDeref end.

(** [operator[]] of an object that is not const, and an assignment to what it returns. *)
Definition set_char (pos : nat) (a : ascii) : M State unit :=
  l ← local;
  if (pos <? length l)%nat then set_obj (mkCow nullptr (<[pos:=a]> l)) else fail NullDeref.

Definition empty : M State bool :=
  c ← gets obj;
  match m_cstr c with Some p => l ← at_ptr p; mret (bool_decide (head l = None)) | None => mret (bool_decide (m_str c = [])) end.
Definition size : M State nat := l ← str; mret (length l).
Definition length_ : M State nat := l ← str; mret (length l).
Definition clear : M State unit := set_obj (mkCow nullptr []).
Definition isConst : M State bool := c ← gets obj; mret (negb (ptr_eqb (m_cstr c) nullptr)).
Definition isLocal : M State bool := c ← gets obj; mret (ptr_eqb (m_cstr c) nullptr).

(** *** A string *)

(** What the object stands for. *)
Definition value (s : State) : option chars :=
  match m_cstr (obj s) with Some p => arrays s !! p | None => Some (m_str (obj s)) end.

(** [m] gives what [f] says of the string [t], after which the string is [t']; arrays are
    not written. *)
Definition acts_as {A : Type} (m : M State A) (s : State) (a : A) (t' : chars) : Prop :=
  ∃ s', m s = Ok (a, s') ∧ value s' = Some t' ∧ arrays s' = arrays s.

Lemma local_run s t : value s = Some t → local s = Ok (t, mkState (arrays s) (mkCow nullptr t)).
Proof.
  unfold value, local, gets, at_ptr. destruct s as [ar [[p|] l]]; cbn; intros E.
  - unfold mbind, M_bind. cbn. by rewrite E.
  - by injection E as ->.
Qed.

Lemma at_ptr_run s p t : arrays s !! p = Some t → at_ptr p s = Ok (t, s).
Proof. unfold at_ptr. by intros ->. Qed.

(** A [cow_string] is a string, whether its characters are its own or not. *)
Lemma cow_string_is_string s t pos a : value s = Some t →
  acts_as local s t t ∧ acts_as c_str s t t ∧ acts_as size s (length t) t ∧ acts_as length_ s (length t) t ∧
  acts_as empty s (bool_decide (t = [])) t ∧ acts_as (at_ pos) s (t !! pos) t ∧
  (∀ b, char_at t pos = Some b → acts_as (get_char pos) s b t) ∧
  ((pos < length t)%nat → acts_as (set_char pos a) s tt (<[pos:=a]> t)) ∧
  acts_as clear s tt [] ∧ acts_as (assign_string t) s tt t ∧
  (∀ p u, arrays s !! p = Some u → acts_as (assign_cstr (Some p)) s tt u).
Proof.
  intros V. pose proof (local_run s t V) as L. unfold acts_as. split_and!.
  - eexists. by rewrite L.
  - unfold c_str. erewrite bind_Ok by done. unfold value in V. destruct (m_cstr (obj s)) as [p|] eqn:E.
    + exists s. rewrite (at_ptr_run _ _ _ V). unfold value. by rewrite E.
    + exists s. injection V as V. unfold value. by rewrite E, V.
  - eexists. unfold size, str. by rewrite (bind_Ok _ _ _ _ _ L).
  - eexists. unfold length_, str. by rewrite (bind_Ok _ _ _ _ _ L).
  - exists s. unfold empty. erewrite bind_Ok by done. unfold value in V. destruct (m_cstr (obj s)) as [p|] eqn:E.
    + rewrite (bind_Ok _ _ _ _ _ (at_ptr_run _ _ _ V)). unfold value. rewrite E, V. split; [|done]. repeat f_equal. by destruct t.
    + injection V as V. unfold value. by rewrite E, V.
  - eexists. unfold at_, str. by rewrite (bind_Ok _ _ _ _ _ L).
  - intros b Hb. unfold get_char. unfold value in V. destruct (m_cstr (obj s)) as [p|] eqn:E.
    + exists s. erewrite bind_Ok; [|erewrite bind_Ok by done; rewrite E; by apply at_ptr_run]. rewrite Hb. unfold value. by rewrite E, V.
    + eexists. erewrite bind_Ok; [|erewrite bind_Ok by done; rewrite E; exact L]. by rewrite Hb.
  - intros Hp. eexists. unfold set_char. rewrite (bind_Ok _ _ _ _ _ L). by rewrite (proj2 (Nat.ltb_lt _ _) Hp).
  - by eexists.
  - by eexists.
  - intros p u Hu. eexists. split; [done|]. by split.
Qed.

(** Once it is local, the arrays that it was made from can be changed or released. *)
Lemma cow_string_local s t ar : value s = Some t →
  ∃ s', local s = Ok (t, s') ∧ isLocal s' = Ok (true, s') ∧ value (mkState ar (obj s')) = Some t.
Proof. intros V. eexists. rewrite (local_run s t V). done. Qed.
End CowString.

(** ** [formatv] *)

Module Format.
Abbreviation chars := (list ascii).

(** What [vsnprintf] returns and writes, for a text that is [None] on an encoding error. *)
Definition vsnprintf (size : Z) (text : option chars) : Z * chars :=
  match text with
  | Some t => (Z.of_nat (length t), if (size =? 0)%Z then [] else take (Z.to_nat (size - 1)) t)
  | None => (-1, [])
  end.

(** The first [n] characters of a buffer; it was cleared before. *)
Definition resize (n : Z) (buf : chars) : chars := take (Z.to_nat n) buf ++ replicate (Z.to_nat n - length buf) "000"%char.

(** [formatv] of C++17; [capacity] is that of an empty string. *)
Definition formatv (capacity : Z) (text : option chars) : chars :=
  let '(c, buf) := vsnprintf capacity text in
  let '(c, buf) := if capacity <=? u64 c then vsnprintf (u64 (u64 c + 1)) text else (c, buf) in
  resize (if 0 <? c then c else 0) buf.

(** [formatv] before C++17; [alloc] is whether the buffer can be allocated. *)
Definition maxstack : Z := 8 * 8.
Definition formatv98 (alloc : bool) (text : option chars) : chars :=
  let '(c, buf) := vsnprintf maxstack text in
  let '(c, buf) := if maxstack <=? c then if alloc then vsnprintf (c + 1) text else (0, []) else (c, buf) in
  resize (if c <? 0 then 0 else c) buf.

(** [vasprintf] for systems that do not have it; [strp] is whether there is a place for the
    pointer, [malloc] whether it can be allocated. *)
Definition vasprintf (strp malloc : bool) (text : option chars) : Z * option chars :=
  let '(len, _) := vsnprintf 0 text in
  (len, if strp && malloc then Some (snd (vsnprintf (u64 (len + 1)) text)) else None).
Definition asprintf (strp malloc : bool) (text : option chars) : Z * option chars := vasprintf strp malloc text.

Lemma resize_all t : resize (Z.of_nat (length t)) t = t.
Proof. unfold resize. rewrite Nat2Z.id, Nat.sub_diag. simpl. by rewrite app_nil_r, firstn_all. Qed.

Lemma resize_take t n : Z.of_nat (length t) ≤ n → resize (Z.of_nat (length t)) (take (Z.to_nat n) t) = t.
Proof. intros L. rewrite take_ge by lia. apply resize_all. Qed.

(** The whole text, however small the first buffer is; nothing on an error. *)
Lemma formatv_text capacity t : 0 ≤ capacity < 2 ^ 64 → Z.of_nat (length t) < 2 ^ 31 →
  formatv capacity (Some t) = t ∧ formatv capacity None = [].
Proof.
  intros Hc Ht. unfold formatv, vsnprintf. rewrite !(u64_small (Z.of_nat (length t))) by lia.
  rewrite (u64_small (Z.of_nat (length t) + 1)) by lia. split.
  - assert (∀ b, b = take (Z.to_nat (Z.of_nat (length t))) t ∨ Z.of_nat (length t) < capacity ∧ b = take (Z.to_nat (capacity - 1)) t →
      resize (if 0 <? Z.of_nat (length t) then Z.of_nat (length t) else 0) b = t) as Q.
    { intros b Hb. assert ((if 0 <? Z.of_nat (length t) then Z.of_nat (length t) else 0) = Z.of_nat (length t)) as ->.
      { destruct (0 <? Z.of_nat (length t)) eqn:E; [done|]. apply Z.ltb_ge in E. lia. }
      destruct Hb as [->|[L ->]]; apply resize_take; lia. }
    destruct (capacity <=? Z.of_nat (length t)) eqn:E.
    + apply Q. left. rewrite (proj2 (Z.eqb_neq (Z.of_nat (length t) + 1) 0)) by lia. do 2 f_equal. lia.
    + apply Z.leb_gt in E. apply Q. right. split; [done|]. by rewrite (proj2 (Z.eqb_neq capacity 0)) by lia.
  - by destruct (_ <=? _).
Qed.

Lemma formatv98_text alloc t : alloc = true ∨ Z.of_nat (length t) < maxstack → Z.of_nat (length t) < 2 ^ 31 →
  formatv98 alloc (Some t) = t.
Proof.
  intros Ha Ht. unfold formatv98, vsnprintf. destruct (maxstack <=? Z.of_nat (length t)) eqn:E.
  - apply Z.leb_le in E. destruct Ha as [->|Ha]; [|lia]. rewrite (proj2 (Z.eqb_neq (Z.of_nat (length t) + 1) 0)) by lia.
    rewrite (proj2 (Z.ltb_ge (Z.of_nat (length t)) 0)) by lia. apply resize_take. lia.
  - apply Z.leb_gt in E. change (maxstack =? 0) with false. cbn iota.
    rewrite (proj2 (Z.ltb_ge (Z.of_nat (length t)) 0)) by lia. apply resize_take. lia.
Qed.

(** The whole text in an allocated string.  When it cannot be allocated, the length is returned,
    with a null pointer; -1 only on an encoding error. *)
Lemma vasprintf_text t : Z.of_nat (length t) < 2 ^ 31 - 1 →
  vasprintf true true (Some t) = (Z.of_nat (length t), Some t) ∧
  vasprintf true false (Some t) = (Z.of_nat (length t), None) ∧
  ∀ strp malloc, fst (vasprintf strp malloc None) = -1.
Proof.
  intros Ht. split_and!; [|done|done]. unfold vasprintf, vsnprintf. cbn [andb snd]. rewrite u64_small by lia.
  rewrite (proj2 (Z.eqb_neq (Z.of_nat (length t) + 1) 0)) by lia. do 2 f_equal. apply take_ge. lia.
Qed.
End Format.

(** ** [str] of integers *)

Module Numbers.

(** Texts are lists of character codes. *)
Abbreviation text := (list Z).

Definition INT_MAX : Z := 2 ^ 31 - 1.
Definition INT_MIN : Z := - 2 ^ 31.
Definition UINT_MAX : Z := 2 ^ 32 - 1.

Definition codes (s : string) : text := (λ a, Z.of_nat (nat_of_ascii a)) <$> String.list_ascii_of_string s.

(** [%d] and [%u]; the digits of [%08x] and of [%x] of 32 bits. *)
Definition dec (n : Z) : text := codes (pretty n).
Definition hex_digit (n : Z) : Z := if n <? 10 then 48 + n else 87 + n.
Definition digits8 (n : Z) : list Z := (λ i, (n / 16 ^ i) `mod` 16) <$> [7; 6; 5; 4; 3; 2; 1; 0].
Fixpoint strip (l : list Z) : list Z := match l with 0 :: ((_ :: _) as l) => strip l | _ => l end.
Definition hex8 (n : Z) : text := hex_digit <$> digits8 n.
Definition hex (n : Z) : text := hex_digit <$> strip (digits8 n).

Section Numbers.
(** [Config::UseLimitedFormatSpecifiers], and [sizeof(long)]. *)
Context (limited : bool) (sizeof_long : Z).

Definition strull (value : Z) : text :=
  if limited then
    if INT_MAX <? value then codes "0x" ++ hex (u32 (Z.shiftr value 32)) ++ hex8 (u32 (Z.land value 0xFFFFFFFF))
    else dec value
  else dec value.

(** The small types are promoted; both specifiers print the same digits. *)
Definition str_schar (value : Z) : text := if limited then dec (s32 value) else dec value.
Definition str_uchar (value : Z) : text := if limited then dec (u32 value) else dec value.
Definition str_short (value : Z) : text := if limited then dec (s32 value) else dec value.
Definition str_ushort (value : Z) : text := if limited then dec (u32 value) else dec value.
Definition str_int (value : Z) : text := dec value.
Definition str_uint (value : Z) : text := dec value.
Definition str_long (value : Z) : text :=
  if limited then
    if (sizeof_long =? 4) || ((value <=? INT_MAX) && (INT_MIN <=? value)) then dec value else strull (u64 value)
  else dec value.
Definition str_ulong (value : Z) : text :=
  if limited then if (sizeof_long =? 4) || (value <=? UINT_MAX) then dec value else strull value else dec value.
Definition str_longlong (value : Z) : text :=
  if limited then if (INT_MAX <? value) || (value <? INT_MIN) then strull (u64 value) else dec value else dec value.
Definition str_ulonglong (value : Z) : text := strull value.

(** *** Reading them again *)

Definition unhex (c : Z) : Z := if c <? 58 then c - 48 else c - 87.
Definition value_of (l : list Z) : Z := foldl (λ n d, 16 * n + d) 0 l.

Lemma unhex_digits l : Forall (λ d, 0 ≤ d < 16) l → unhex <$> (hex_digit <$> l) = l.
Proof.
  induction 1 as [|d l Hd F IH]; [done|]. rewrite !fmap_cons. f_equal; [|exact IH]. unfold unhex, hex_digit.
  destruct (d <? 10) eqn:E; [apply Z.ltb_lt in E|apply Z.ltb_ge in E].
  - rewrite (proj2 (Z.ltb_lt (48 + d) 58)) by lia. lia.
  - rewrite (proj2 (Z.ltb_ge (87 + d) 58)) by lia. lia.
Qed.

Lemma digits8_bound n : Forall (λ d, 0 ≤ d < 16) (digits8 n).
Proof. unfold digits8. apply Forall_fmap, Forall_true. intros i. cbn. by apply Z.mod_pos_bound. Qed.

Lemma strip_bound l : Forall (λ d, 0 ≤ d < 16) l → Forall (λ d, 0 ≤ d < 16) (strip l).
Proof. induction 1 as [|[|d|d] [|y l] Hd F IH]; simpl; auto. Qed.

Lemma strip_value l : value_of (strip l) = value_of l.
Proof. induction l as [|[|d|d] l IH]; [done| |done|done]. destruct l; [done|exact IH]. Qed.

Lemma digits8_value n : 0 ≤ n < 2 ^ 32 → value_of (digits8 n) = n.
Proof.
  intros Hn. unfold digits8. cbn [fmap list_fmap]. unfold value_of. cbn [foldl].
  assert (∀ i j, 0 ≤ i → j = i + 1 → n / 16 ^ i = 16 * (n / 16 ^ j) + (n / 16 ^ i) `mod` 16) as S.
  { intros i j Hi ->. rewrite Z.pow_add_r, <-Z.div_div by lia. change (16 ^ 1) with 16. apply Z.div_mod. done. }
  pose proof (S 0 1 ltac:(lia) eq_refl). pose proof (S 1 2 ltac:(lia) eq_refl). pose proof (S 2 3 ltac:(lia) eq_refl).
  pose proof (S 3 4 ltac:(lia) eq_refl). pose proof (S 4 5 ltac:(lia) eq_refl). pose proof (S 5 6 ltac:(lia) eq_refl).
  pose proof (S 6 7 ltac:(lia) eq_refl). pose proof (S 7 8 ltac:(lia) eq_refl). clear S.
  assert (n / 16 ^ 8 = 0) by (apply Z.div_small; lia). assert (n / 16 ^ 0 = n) by apply Z.div_1_r. lia.
Qed.

Lemma value_of_app l k : value_of (l ++ k) = value_of l * 16 ^ Z.of_nat (length k) + value_of k.
Proof.
  unfold value_of. rewrite foldl_app. generalize (foldl (λ n d, 16 * n + d) 0 l) as x.
  induction k as [|d k IH] using rev_ind; intros x; [simpl; lia|].
  rewrite !foldl_snoc, length_app, (IH x). simpl (length [d]). rewrite Nat2Z.inj_add, Z.pow_add_r by lia. change (16 ^ Z.of_nat 1) with 16. lia.
Qed.

(** Numbers that fit in an [int] are in decimal, for every type and configuration. *)
Lemma str_decimal v : INT_MIN ≤ v ≤ INT_MAX →
  str_int v = dec v ∧ str_long v = dec v ∧ str_longlong v = dec v ∧
  (-128 ≤ v < 128 → str_schar v = dec v) ∧ (- 2 ^ 15 ≤ v < 2 ^ 15 → str_short v = dec v) ∧
  (0 ≤ v → str_uint v = dec v ∧ str_ulong v = dec v ∧ str_ulonglong v = dec v ∧
    (v < 256 → str_uchar v = dec v) ∧ (v < 2 ^ 16 → str_ushort v = dec v)).
Proof.
  intros B. unfold str_long, str_longlong, str_schar, str_short, str_ulong, str_ulonglong, str_uchar, str_ushort, strull.
  rewrite (proj2 (Z.leb_le v INT_MAX)), (proj2 (Z.leb_le INT_MIN v)), (proj2 (Z.ltb_ge INT_MAX v)), (proj2 (Z.ltb_ge v INT_MIN)) by lia.
  unfold INT_MIN, INT_MAX in B. rewrite andb_true_r, !orb_true_r. cbn [orb].
  split_and!; [done|by destruct limited|by destruct limited|intros _|intros _|intros P].
  - rewrite s32_small by lia. by destruct limited.
  - rewrite s32_small by lia. by destruct limited.
  - rewrite (proj2 (Z.leb_le v UINT_MAX)), orb_true_r by (unfold UINT_MAX; lia). rewrite u32_small by lia.
    split_and!; [done|intros..]; by destruct limited.
Qed.

(** With few format specifiers, large numbers are in hexadecimal; no digit is lost. *)
Lemma strull_large v : limited = true → INT_MAX < v < 2 ^ 64 →
  ∃ h, strull v = codes "0x" ++ h ∧ value_of (unhex <$> h) = v.
Proof.
  intros L [Hv B]. unfold strull. rewrite L, (proj2 (Z.ltb_lt _ _) Hv). eexists. split; [done|].
  unfold INT_MAX in Hv. unfold hex, hex8. rewrite fmap_app, !unhex_digits by eauto using strip_bound, digits8_bound.
  rewrite value_of_app, strip_value. change (length (digits8 _)) with 8%nat.
  change 0xFFFFFFFF with (Z.ones 32). rewrite Z.land_ones, Z.shiftr_div_pow2 by done.
  assert (0 ≤ v / 2 ^ 32 < 2 ^ 32) by (split; [apply Z.div_pos; lia|apply Z.div_lt_upper_bound; lia]).
  pose proof (Z.mod_pos_bound v (2 ^ 32) ltac:(done)). rewrite !u32_small, !digits8_value by lia.
  change (16 ^ Z.of_nat 8) with (2 ^ 32). pose proof (Z.div_mod v (2 ^ 32) ltac:(done)). lia.
Qed.

(** Those of a negative number are those of its two's complement. *)
Lemma str_long_large v : limited = true → sizeof_long = 8 → - 2 ^ 63 ≤ v < 2 ^ 63 → v < INT_MIN ∨ INT_MAX < v →
  ∃ h, str_long v = codes "0x" ++ h ∧ s64 (value_of (unhex <$> h)) = v.
Proof.
  intros L E B Hv. assert (INT_MAX < u64 v < 2 ^ 64) as Hu.
  { unfold u64. pose proof (Z.mod_pos_bound v (2 ^ 64) ltac:(done)). split; [|lia]. unfold INT_MIN, INT_MAX in *.
    destruct (decide (v < 0)); [|rewrite Z.mod_small; lia]. rewrite <-(Z.mod_add v 1), Z.mod_small by lia. lia. }
  destruct (strull_large (u64 v) L Hu) as (h & Eh & Vh). exists h. split.
  - unfold str_long. rewrite L, E. change (8 =? 4) with false. cbn [orb].
    destruct Hv as [Hv|Hv]; [rewrite (proj2 (Z.leb_gt INT_MIN v)) by lia; by rewrite andb_false_r|by rewrite (proj2 (Z.leb_gt v INT_MAX)) by lia].
  - rewrite Vh. unfold u64, s64. rewrite Zplus_mod_idemp_l. fold (s64 v). by apply s64_small.
Qed.
End Numbers.
End Numbers.

(** ** [UniqueID] *)

Module UniqueID.

Record UniqueID := mkUnique { m_id : Z; m_name : string; m_id_str : string }.

(** The counter of the class, and the objects. *)
Record State := mkState { m_nextId : Z; objects : gmap addr UniqueID }.

Section Unique.
(** The number of the process. *)
Context (pid : Z).

Definition object (a : addr) : M State UniqueID := λ s, match objects s !! a with Some o => Ok (o, s) | None => Fault NullDeref end.
Definition set_object (a : addr) (o : UniqueID) : M State unit := modify (λ s, mkState (m_nextId s) (<[a:=o]> (objects s))).

Definition getID : M State Z := modify (λ s, mkState (u64 (m_nextId s + 1)) (objects s));; gets m_nextId.

(** The constructors; [None] is a null pointer. *)
Definition construct (a : addr) (name : option string) : M State unit :=
  i ← getID; set_object a (mkUnique i (default "" name) "").

Definition setName (a : addr) (name : string) : M State unit := o ← object a; set_object a (mkUnique (m_id o) name "").

(** Moving [u] to [a].  The base class has a destructor, and no move assignment: its
    strings are copied. *)
Definition move_assign (a u : addr) : M State unit :=
  o ← object u; x ← object a;
  set_object a (mkUnique (m_id o) (m_name x) (m_id_str x));;
  o ← object u; set_object u (mkUnique 0 (m_name o) (m_id_str o));;
  o ← object u; x ← object a;
  set_object a (mkUnique (m_id x) (m_name o) (m_id_str o)).
Definition move_construct (a u : addr) : M State unit := set_object a (mkUnique 0 "" "");; move_assign a u.

Definition destroy (a : addr) : M State unit := modify (λ s, mkState (m_nextId s) (delete a (objects s))).

Definition id_text (name : string) (i : Z) : string :=
  (if String.eqb name "" then "Object" else name) +:+ " #" +:+ pretty pid +:+ ":" +:+ pretty i.

(** [id_str]; [ok] is whether formatting did not throw. *)
Definition id_str (ok : bool) (a : addr) : M State string :=
  o ← object a;
  if String.eqb (m_id_str o) "" then
    let t := if ok then id_text (m_name o) (m_id o) else "?" in
    set_object a (mkUnique (m_id o) (m_name o) t);; mret t
  else mret (m_id_str o).

(** *** Programs *)

Inductive action := Construct (a : addr) (name : option string) | SetName (a : addr) (name : string)
  | MoveAssign (a u : addr) | MoveConstruct (a u : addr) | Destroy (a : addr) | IdStr (a : addr).

Definition enabled (l : action) (s : State) : bool :=
  let there a := bool_decide (is_Some (objects s !! a)) in
  match l with
  | Construct a _ => negb (there a) && bool_decide (m_nextId s < 2 ^ 64 - 1)
  | MoveConstruct a u => negb (there a) && there u
  | MoveAssign a u => there a && there u
  | SetName a _ | Destroy a | IdStr a => there a
  end.

Definition step (l : action) : M State unit :=
  match l with
  | Construct a name => construct a name
  | SetName a name => setName a name
  | MoveAssign a u => move_assign a u
  | MoveConstruct a u => move_construct a u
  | Destroy a => destroy a
  | IdStr a => id_str true a;; mret tt
  end.

Fixpoint steps (l : list action) : M State unit := match l with [] => mret tt | a :: l => step a;; steps l end.
Fixpoint legal (l : list action) (s : State) : Prop :=
  match l with [] => True | a :: l => enabled a s = true ∧ ∀ s', step a s = Ok (tt, s') → legal l s' end.

(** Ids were given out, and no two objects have the same one. *)
Record distinct (s : State) : Prop := {
  di_next : 0 ≤ m_nextId s < 2 ^ 64;
  di_bound a o : objects s !! a = Some o → 0 ≤ m_id o ≤ m_nextId s;
  di_unique a b o p : objects s !! a = Some o → objects s !! b = Some p → m_id o = m_id p → m_id o ≠ 0 → a = b
}.

Lemma object_run a o s : objects s !! a = Some o → object a s = Ok (o, s).
Proof. unfold object. by intros ->. Qed.

Lemma distinct_same_id a o o' s : distinct s → objects s !! a = Some o → m_id o' = m_id o →
  distinct (mkState (m_nextId s) (<[a:=o']> (objects s))).
Proof.
  intros [N B U] E Ei. split; cbn; [done| |].
  - intros b p [[<- <-]|[_ Eb]]%lookup_insert_Some; [rewrite Ei; by apply (B a)|by apply (B b)].
  - intros b c p q Hb Hc Epq Hp. apply lookup_insert_Some in Hb as [[<- <-]|[Hb Eb]], Hc as [[<- <-]|[Hc Ec]].
    + done.
    + apply (U a c o q); congruence.
    + apply (U b a p o); congruence.
    + by apply (U b c p q).
Qed.

(** Moving gives the id of [u] to [a]. *)
Lemma move_assign_run a u x o s : distinct s → objects s !! a = Some x → objects s !! u = Some o →
  ∃ s', move_assign a u s = Ok (tt, s') ∧ distinct s'.
Proof.
  intros [N B U] Ea Eu. unfold move_assign. rewrite (bind_Ok _ _ _ _ _ (object_run u o s Eu)), (bind_Ok _ _ _ _ _ (object_run a x s Ea)).
  erewrite bind_Ok by done. destruct (decide (a = u)) as [->|Ne].
  - erewrite bind_Ok by (apply object_run; apply lookup_insert_eq). erewrite bind_Ok by done. cbn [m_nextId objects].
    erewrite bind_Ok by (apply object_run; apply lookup_insert_eq). erewrite bind_Ok by (apply object_run; apply lookup_insert_eq).
    eexists. split; [done|]. cbn [m_nextId objects]. rewrite !insert_insert_eq. split; cbn; [done| |].
    + intros b p [[<- <-]|[_ Eb]]%lookup_insert_Some; [cbn; lia|by apply (B b)].
    + intros b c p q Hb Hc Epq Hp. apply lookup_insert_Some in Hb as [[<- <-]|[Hb Eb]]; [done|].
      apply lookup_insert_Some in Hc as [[<- <-]|[Hc Ec]]; [by destruct Hp|by apply (U b c p q)].
  - erewrite bind_Ok by (apply object_run; cbn; by rewrite lookup_insert_ne). erewrite bind_Ok by done. cbn [m_nextId objects].
    erewrite bind_Ok by (apply object_run; apply lookup_insert_eq).
    erewrite bind_Ok by (apply object_run; cbn; rewrite lookup_insert_ne by done; apply lookup_insert_eq).
    eexists. split; [done|]. cbn [m_nextId objects m_id m_name m_id_str].
    assert (∀ b p, <[a:=mkUnique (m_id o) (m_name o) (m_id_str o)]> (<[u:=mkUnique 0 (m_name o) (m_id_str o)]>
        (<[a:=mkUnique (m_id o) (m_name x) (m_id_str x)]> (objects s))) !! b = Some p → m_id p ≠ 0 →
        b = a ∧ m_id p = m_id o ∨ b ≠ a ∧ b ≠ u ∧ objects s !! b = Some p) as Q.
    { intros b p [[<- <-]|[Hb Eb]]%lookup_insert_Some Hp; [by left|]. apply lookup_insert_Some in Eb as [[<- <-]|[Hb' Eb]]; [done|].
      rewrite lookup_insert_ne in Eb by done. by right. }
    split; cbn [m_nextId objects]; [done| |].
    + intros b p Eb. destruct (decide (m_id p = 0)) as [->|Hp]; [lia|]. destruct (Q b p Eb Hp) as [[_ ->]|(_ & _ & Eb')]; [by apply (B u)|by apply (B b)].
    + intros b c p q Hb Hc Epq Hp. assert (m_id q ≠ 0) as Hq by congruence.
      destruct (Q b p Hb Hp) as [[-> Eb]|(Nb & Nu & Eb)], (Q c q Hc Hq) as [[-> Ec]|(Nc & Nu' & Ec)].
      * done.
      * exfalso. apply Nu'. symmetry. apply (U u c o q); congruence.
      * exfalso. apply Nu. apply (U b u p o); congruence.
      * by apply (U b c p q).
Qed.

Lemma distinct_null_object a s name t : distinct s → objects s !! a = None →
  distinct (mkState (m_nextId s) (<[a:=mkUnique 0 name t]> (objects s))).
Proof.
  intros [N B U] E. split; cbn; [done| |].
  - intros b p [[<- <-]|[_ Eb]]%lookup_insert_Some; [cbn; lia|by apply (B b)].
  - intros b c p q Hb Hc Epq Hp. apply lookup_insert_Some in Hb as [[<- <-]|[Hb Eb]]; [done|].
    apply lookup_insert_Some in Hc as [[<- <-]|[Hc Ec]]; [by destruct Hp|by apply (U b c p q)].
Qed.

Lemma unique_step l s : distinct s → enabled l s = true → ∃ s', step l s = Ok (tt, s') ∧ distinct s'.
Proof.
  intros D. destruct l as [a name|a name|a u|a u|a|a]; simpl; rewrite ?andb_true_iff, ?negb_true_iff, ?bool_decide_eq_true, ?bool_decide_eq_false.
  - intros [Na Hn]. apply eq_None_not_Some in Na. pose proof D as [N B U]. eexists. split; [done|].
    cbn [m_nextId objects]. rewrite u64_small by lia. split; cbn; [lia| |].
    + intros b p [[<- <-]|[_ Eb]]%lookup_insert_Some; [cbn; lia|]. specialize (B b p Eb). lia.
    + intros b c p q Hb Hc Epq Hp. apply lookup_insert_Some in Hb as [[<- <-]|[Hb Eb]], Hc as [[<- <-]|[Hc Ec]].
      * done.
      * specialize (B c q Ec). cbn in Epq. lia.
      * specialize (B b p Eb). cbn in Epq. lia.
      * by apply (U b c p q).
  - intros [o E]. unfold setName. rewrite (bind_Ok _ _ _ _ _ (object_run a o s E)). eexists. split; [done|]. by apply (distinct_same_id a o).
  - intros [[x Ea] [o Eu]]. by apply (move_assign_run a u x o).
  - intros [Na [o Eu]]. apply eq_None_not_Some in Na. unfold move_construct. erewrite bind_Ok by done.
    apply (move_assign_run a u (mkUnique 0 "" "") o); [by apply distinct_null_object|apply lookup_insert_eq|].
    cbn. rewrite lookup_insert_ne; [done|congruence].
  - intros _. eexists. split; [done|]. destruct D as [N B U]. split; cbn; [done| |].
    + intros b p [_ Eb]%lookup_delete_Some. by apply (B b).
    + intros b c p q [_ Hb]%lookup_delete_Some [_ Hc]%lookup_delete_Some. by apply U.
  - intros [o E]. unfold id_str. rewrite bind_assoc, (bind_Ok _ _ _ _ _ (object_run a o s E)).
    destruct (String.eqb _ _); [|by exists s]. eexists. split; [done|]. by apply (distinct_same_id a o).
Qed.

(** In every program, objects that have an id have different ones. *)
Lemma unique_ids l s : distinct s → legal l s → ∃ s', steps l s = Ok (tt, s') ∧ distinct s'.
Proof.
  revert s. induction l as [|a l IH]; intros s D Lg; [by exists s|]. destruct Lg as [E Lg].
  destruct (unique_step a s D E) as (s1 & R & D1). destruct (IH s1 D1 (Lg s1 R)) as (s2 & R2 & D2).
  exists s2. split; [|done]. simpl. by rewrite (bind_Ok _ _ _ _ _ R).
Qed.

(** [id_str] after [setName], and the second time. *)
Lemma id_str_named a o name s : objects s !! a = Some o →
  ∃ s1 s2, setName a name s = Ok (tt, s1) ∧ id_str true a s1 = Ok (id_text name (m_id o), s2) ∧
    id_str true a s2 = Ok (id_text name (m_id o), s2).
Proof.
  intros E. unfold setName. rewrite (bind_Ok _ _ _ _ _ (object_run a o s E)). eexists _, _. split; [done|].
  assert (String.eqb (id_text name (m_id o)) "" = false) as Nt.
  { apply String.eqb_neq. unfold id_text. by destruct (String.eqb name "") eqn:En; [|destruct name]. }
  split.
  - unfold id_str. erewrite bind_Ok by (apply object_run; apply lookup_insert_eq). cbn [m_id_str m_name m_id]. done.
  - unfold id_str. erewrite bind_Ok by (apply object_run; apply lookup_insert_eq). cbn [m_id_str]. by rewrite Nt.
Qed.
End Unique.

(** A moved-from object keeps the text with the id that it does not have anymore: two objects
    show the same one. *)
Lemma moved_from_id_str :
  match (steps 7 [Construct 1 (Some "a"); IdStr 1; MoveConstruct 2 1]%positive;;
         x ← id_str 7 true 1; y ← id_str 7 true 2; mret (x, y)) (mkState 0 ∅) with
  | Ok ((x, y), _) => x = "a #7:1" ∧ y = "a #7:1"
  | Fault _ => False
  end.
Proof. vm_compute. done. Qed.
End UniqueID.

(** ** [Singleton] *)

Module Singleton.

(** [m_instance]. *)
Definition singleton_ctor (this : addr) : M ptr unit := λ m_instance, Ok (tt, match m_instance with None => Some this | Some _ => m_instance end).
Definition singleton_dtor (this : addr) : M ptr unit := λ m_instance, Ok (tt, if ptr_eqb m_instance (Some this) then nullptr else m_instance).
Definition instance : M ptr ptr := gets id.

(** Objects that are made and destroyed. *)
Inductive life := Made (x : addr) | Destroyed (x : addr).
Fixpoint lives (l : list life) : M ptr unit :=
  match l with
  | [] => mret tt
  | Made x :: l => singleton_ctor x;; lives l
  | Destroyed x :: l => singleton_dtor x;; lives l
  end.

(** The objects that exist after that. *)
Fixpoint existing (l : list life) (e : gset addr) : gset addr :=
  match l with [] => e | Made x :: l => existing l ({[x]} ∪ e) | Destroyed x :: l => existing l (e ∖ {[x]}) end.

(** The instance always exists. *)
Lemma singleton_exists l p e : (∀ x, p = Some x → x ∈ e) →
  ∃ q, lives l p = Ok (tt, q) ∧ ∀ x, q = Some x → x ∈ existing l e.
Proof.
  revert p e. induction l as [|[y|y] l IH]; intros p e Hp; simpl; [by exists p| |].
  - erewrite bind_Ok by done. apply IH. intros x. destruct p as [z|]; [|set_solver]. intros [= ->]. specialize (Hp x eq_refl). set_solver.
  - erewrite bind_Ok by done. apply IH. intros x. destruct (ptr_eqb p (Some y)) eqn:E; [done|]. apply ptr_eqb_false in E.
    intros ->. specialize (Hp x eq_refl). set_solver.
Qed.

(** The first one is the instance; when it is destroyed, the second one does not become it. *)
Lemma singleton_second :
  lives [Made 1; Made 2]%positive nullptr = Ok (tt, Some 1%positive) ∧
  lives [Made 1; Made 2; Destroyed 1]%positive nullptr = Ok (tt, nullptr) ∧
  existing [Made 1; Made 2; Destroyed 1]%positive ∅ = {[2%positive]}.
Proof. by vm_compute. Qed.
End Singleton.

(** ** [ThreadLocalSingleton] *)

Module ThreadLocal.
Import Singleton.

(** [m_instance] of each thread. *)
Abbreviation thread := positive.
Abbreviation Instances := (gmap thread addr).

Definition ZTH_TLS_GET (t : thread) : M Instances ptr := gets (λ m, m !! t).
Definition ZTH_TLS_SET (t : thread) (p : ptr) : M Instances unit := modify (partial_alter (λ _, p) t).

(** What the thread [t] does. *)
Definition tls_ctor (t : thread) (this : addr) : M Instances unit :=
  p ← ZTH_TLS_GET t; match p with None => ZTH_TLS_SET t (Some this) | Some _ => mret tt end.
Definition tls_dtor (t : thread) (this : addr) : M Instances unit :=
  p ← ZTH_TLS_GET t; when (ptr_eqb p (Some this)) (ZTH_TLS_SET t nullptr).
Definition tls_instance (t : thread) : M Instances ptr := ZTH_TLS_GET t.

Fixpoint tls_lives (l : list (thread * life)) : M Instances unit :=
  match l with
  | [] => mret tt
  | (t, Made x) :: l => tls_ctor t x;; tls_lives l
  | (t, Destroyed x) :: l => tls_dtor t x;; tls_lives l
  end.

(** The part of a thread. *)
Definition part (t : thread) (l : list (thread * life)) : list life :=
  omap (λ a, if decide (fst a = t) then Some (snd a) else None) l.

Lemma lives_cons a l p : lives (a :: l) p = (lives [a];; lives l) p.
Proof. destruct a; simpl; by rewrite bind_assoc. Qed.

Lemma tls_lives_cons a l m : tls_lives (a :: l) m = (tls_lives [a];; tls_lives l) m.
Proof. destruct a as [t []]; simpl; by rewrite bind_assoc. Qed.

Lemma tls_step t a m : ∃ m', tls_lives [(t, a)] m = Ok (tt, m') ∧
  lives [a] (m !! t) = Ok (tt, m' !! t) ∧ ∀ u, u ≠ t → m' !! u = m !! u.
Proof.
  assert (∀ p, (∀ u, u ≠ t → partial_alter (λ _, p) t m !! u = m !! u) ∧ partial_alter (λ _, p) t m !! t = p) as Q.
  { intros p. split; [intros u Hu; by rewrite lookup_partial_alter_ne|apply lookup_partial_alter_eq]. }
  destruct a as [x|x]; cbn [tls_lives lives]; unfold tls_ctor, tls_dtor, singleton_ctor, singleton_dtor.
  - destruct (m !! t) as [y|] eqn:E.
    + exists m. repeat (erewrite bind_Ok by done). rewrite bind_assoc. erewrite bind_Ok by done. rewrite E. done.
    + exists (partial_alter (λ _, Some x) t m). destruct (Q (Some x)) as [Q1 Q2]. rewrite Q2. split_and!; [|done|done].
      rewrite bind_assoc. erewrite bind_Ok by done. by rewrite E.
  - destruct (ptr_eqb (m !! t) (Some x)) eqn:E.
    + exists (partial_alter (λ _, nullptr) t m). destruct (Q nullptr) as [Q1 Q2]. rewrite Q2. split_and!; [|by unfold mbind, M_bind; rewrite E|done].
      rewrite bind_assoc. erewrite bind_Ok by done. by rewrite E.
    + exists m. split_and!; [|unfold mbind, M_bind; by rewrite E|done]. rewrite bind_assoc. erewrite bind_Ok by done. by rewrite E.
Qed.

(** Each thread has a singleton of its own, however the threads interleave. *)
Lemma tls_is_singleton l m : ∃ m', tls_lives l m = Ok (tt, m') ∧ ∀ t, lives (part t l) (m !! t) = Ok (tt, m' !! t).
Proof.
  revert m. induction l as [|[t a] l IH]; intros m; [by exists m|].
  destruct (tls_step t a m) as (m1 & R & E & F). destruct (IH m1) as (m2 & R2 & E2). exists m2. split.
  - by rewrite tls_lives_cons, (bind_Ok _ _ _ _ _ R).
  - intros u. specialize (E2 u). unfold part. cbn [omap list_omap fst snd]. destruct (decide (t = u)) as [<-|Ne].
    + by rewrite lives_cons, (bind_Ok _ _ _ _ _ E).
    + by rewrite <-F by done.
Qed.
End ThreadLocal.
