(* ===== verification/Init.v ===== *)
(** * One-time initialization (libzth/init.h, src/init.cpp)

    Static initializers put entries in a list, [zth_init] runs their functions.  A
    function can call [zth_init] again, or register entries itself. *)

From stdpp Require Import base gmap list.
From Stdlib Require Import Lia.
From S2P Require Import Prelude.

(** ** The list of entries *)

(** What a function does: the entries that it registers, and its calls of [zth_init]. *)
Inductive action := Registers (x : addr) | CallsInit.

(** [f] is whether there is a function. *)
Record zth_init_entry := mkEntry { f : bool; next : ptr }.

(** The entries, both ends of the list, and the functions that were executed. *)
Record InitState := mkInit { entries : gmap addr zth_init_entry; zth_init_head : ptr; zth_init_tail : ptr; executed : list addr }.

Section Init.
(** The functions of the entries, and which entries have one. *)
Context (body : addr → list action) (has_f : addr → bool).

Definition entry_at (x : addr) : M InitState zth_init_entry := λ s,
  match entries s !! x with Some e => Ok (e, s) | None => Fault NullDeref end.
Definition set_next (x : addr) (n : ptr) : M InitState unit := λ s,
  match entries s !! x with
  | Some e => Ok (tt, mkInit (<[x:=mkEntry (f e) n]> (entries s)) (zth_init_head s) (zth_init_tail s) (executed s))
  | None => Fault NullDeref
  end.
Definition set_tail (p : ptr) : M InitState unit := modify (λ s, mkInit (entries s) (zth_init_head s) p (executed s)).
Definition set_head (p : ptr) : M InitState unit := modify (λ s, mkInit (entries s) p (zth_init_tail s) (executed s)).

(** The constructor that [ZTH_INIT_CALL] makes, of the entry [x]. *)
Definition ZTH_INIT_CALL (x : addr) : M InitState unit :=
  modify (λ s, mkInit (<[x:=mkEntry (has_f x) nullptr]> (entries s)) (zth_init_head s) (zth_init_tail s) (executed s));;
  tail ← gets zth_init_tail;
  (match tail with Some t => set_next t (Some x) | None => mret tt end);;
  set_tail (Some x);;
  head ← gets zth_init_head;
  match head with None => set_head (Some x) | Some _ => mret tt end.

(** [zth_init] and the call of a function, given what a call of [zth_init] does. *)
Definition perform (init : M InitState unit) (a : action) : M InitState unit :=
  match a with Registers x => ZTH_INIT_CALL x | CallsInit => init end.

Fixpoint perform_all (init : M InitState unit) (l : list action) : M InitState unit :=
  match l with [] => mret tt | a :: l => perform init a;; perform_all init l end.

Definition call_f (init : M InitState unit) (x : addr) : M InitState unit :=
  modify (λ s, mkInit (entries s) (zth_init_head s) (zth_init_tail s) (executed s ++ [x]));;
  perform_all init (body x).

Fixpoint walk (init : M InitState unit) (fuel : nat) (p : ptr) : M InitState unit :=
  match p with
  | None => mret tt
  | Some x =>
      match fuel with
      | O => fail OutOfFuel
      | S fuel =>
          e ← entry_at x;
          when (f e) (call_f init x);;
          walk init fuel (next e)
      end
  end.

(** [depth] bounds the nesting of calls, [fuel] the entries of a walk. *)
Fixpoint zth_init (depth fuel : nat) : M InitState unit :=
  match depth with
  | O => fail OutOfFuel
  | S depth =>
      head ← gets zth_init_head;
      match head with
      | None => mret tt
      | Some p => set_head nullptr;; walk (zth_init depth fuel) fuel (Some p)
      end
  end.

(** What the program does outside of these functions. *)
Definition act (depth fuel : nat) (a : action) : M InitState unit :=
  match a with Registers x => ZTH_INIT_CALL x | CallsInit => zth_init depth fuel end.

Fixpoint acts (depth fuel : nat) (l : list action) : M InitState unit :=
  match l with [] => mret tt | a :: l => act depth fuel a;; acts depth fuel l end.

Definition empty : InitState := mkInit ∅ nullptr nullptr [].

(** ** Once, in order *)

(** The entries that a program registers; and those that it did when it last called
    [zth_init], of which [pending] come first. *)
Fixpoint registered (l : list action) : list addr :=
  match l with [] => [] | Registers x :: l => x :: registered l | CallsInit :: l => registered l end.
Fixpoint handled (pending : list addr) (l : list action) : list addr :=
  match l with [] => [] | Registers x :: l => handled (pending ++ [x]) l | CallsInit :: l => pending ++ handled [] l end.

Lemma handled_prefix l pending : handled pending l `prefix_of` pending ++ registered l.
Proof.
  revert pending. induction l as [|[x|] l IH]; intros pending; simpl; [apply prefix_nil| |].
  - replace (pending ++ x :: registered l) with ((pending ++ [x]) ++ registered l) by by rewrite <-(assoc_L (++)). apply IH.
  - apply prefix_app. apply (IH []).
Qed.

(** The list from [p] on. *)
Fixpoint chain (es : gmap addr zth_init_entry) (p : ptr) (l : list addr) : Prop :=
  match l with
  | [] => p = nullptr
  | x :: l => p = Some x ∧ ∃ n, es !! x = Some (mkEntry (has_f x) n) ∧ chain es n l
  end.

Lemma init_chain_frame es p l x e : x ∉ l → chain es p l → chain (<[x:=e]> es) p l.
Proof.
  revert p. induction l as [|y l IH]; intros p Hx; [done|]. apply not_elem_of_cons in Hx as [Hx Hx'].
  intros (-> & n & E & C). split; [done|]. exists n. split; [by rewrite lookup_insert_ne|]. by apply IH.
Qed.

Lemma chain_head es p l : chain es p l → p = head l.
Proof. destruct l; [done|]. by intros [-> _]. Qed.

(** An entry is put after the last one. *)
Lemma chain_snoc es p l t x :
  NoDup (l ++ [t]) → x ∉ l ++ [t] → chain es p (l ++ [t]) →
  es !! t = Some (mkEntry (has_f t) nullptr) ∧
  chain (<[t:=mkEntry (has_f t) (Some x)]> (<[x:=mkEntry (has_f x) nullptr]> es)) p ((l ++ [t]) ++ [x]).
Proof.
  revert p. induction l as [|y l IH]; intros p Nd Hx; simpl in *.
  - intros (-> & n & E & ->). split; [done|]. split; [done|]. exists (Some x). split; [by rewrite lookup_insert_eq|].
    split; [done|]. exists nullptr. split; [|done]. rewrite lookup_insert_ne by set_solver. apply lookup_insert_eq.
  - apply NoDup_cons in Nd as [Hy Nd]. apply not_elem_of_cons in Hx as [Hx Hx']. intros (-> & n & E & C).
    destruct (IH n Nd Hx' C) as [E' C']. split; [done|]. split; [done|]. exists n. split; [|done].
    rewrite !lookup_insert_ne; [done|done|set_solver].
Qed.

(** [l]: all entries in order, of which [pending] still have to be executed. *)
Record ordered (l pending : list addr) (s : InitState) : Prop := {
  or_nodup : NoDup l;
  or_suffix : ∃ finished, l = finished ++ pending;
  or_chain : chain (entries s) (head l) l;
  or_head : zth_init_head s = head pending;
  or_tail : zth_init_tail s = last l
}.

Lemma chain_suffix es p l k : chain es p (l ++ k) → ∃ q, chain es q k.
Proof. revert p. induction l as [|x l IH]; intros p C; [by exists p|]. destruct C as (_ & n & _ & C). by apply (IH n). Qed.

Lemma head_snoc (l : list addr) x : head (l ++ [x]) = match head l with Some y => Some y | None => Some x end.
Proof. by destruct l. Qed.

Lemma register_run l pending x s : x ∉ l → ordered l pending s →
  ∃ s', ZTH_INIT_CALL x s = Ok (tt, s') ∧ ordered (l ++ [x]) (pending ++ [x]) s' ∧ executed s' = executed s.
Proof.
  intros Hx [Nd [fin Ef] C Eh Et]. unfold ZTH_INIT_CALL. erewrite bind_Ok by done. erewrite bind_Ok by done. cbn [zth_init_tail].
  assert (∀ es, chain es (head l) (l ++ [x]) ∨ l = [] ∧ chain es (Some x) [x] →
    ∀ h, h = match head pending with Some y => Some y | None => Some x end →
    ordered (l ++ [x]) (pending ++ [x]) (mkInit es h (Some x) (executed s))) as Ok'.
  { intros es Ce h ->. split; cbn; [by apply NoDup_snoc|exists fin; by rewrite Ef, (assoc_L (++))| |by rewrite head_snoc|by rewrite last_snoc].
    rewrite head_snoc. destruct Ce as [Ce|[-> Ce]]; [|done]. by rewrite <-head_snoc, <-(chain_head _ _ _ Ce). }
  rewrite Et. destruct (last l) as [t|] eqn:El.
  - apply last_Some in El as [l' El]. rewrite El in *. destruct (chain_snoc _ _ _ _ x Nd Hx C) as [E1 C1].
    assert (t ≠ x) by set_solver. erewrite bind_Ok; [|unfold set_next; cbn [entries]; by rewrite lookup_insert_ne, E1 by done].
    erewrite bind_Ok by done. erewrite bind_Ok by done. cbn [zth_init_head]. rewrite Eh.
    destruct (head pending) as [y|]; eexists; (split; [done|]); (split; [|done]); apply Ok'; [by left|done|by left|done].
  - apply last_None in El as ->. rewrite bind_ret. erewrite bind_Ok by done. erewrite bind_Ok by done. cbn [zth_init_head]. rewrite Eh.
    assert (chain (<[x:=mkEntry (has_f x) nullptr]> (entries s)) (Some x) [x]) as Cx.
    { split; [done|]. exists nullptr. split; [apply lookup_insert_eq|done]. }
    destruct (head pending) as [y|]; eexists; (split; [done|]); (split; [|done]); apply Ok'; [by right|done|by right|done].
Qed.

(** The functions only call [zth_init] again. *)
Definition only_init (l : list addr) : Prop := ∀ x, x ∈ l → ∀ a, a ∈ body x → a = CallsInit.

Lemma perform_all_run init l s : (∀ a, a ∈ l → a = CallsInit) → init s = Ok (tt, s) → perform_all init l s = Ok (tt, s).
Proof.
  intros Hl Hi. induction l as [|a l IH]; [done|]. simpl. rewrite (Hl a) by auto with zth. simpl.
  rewrite (bind_Ok _ _ _ _ _ Hi). apply IH. auto with zth.
Qed.

Lemma walk_run init fuel p l s :
  (∀ s, zth_init_head s = nullptr → init s = Ok (tt, s)) → only_init l → chain (entries s) p l → (length l ≤ fuel)%nat →
  zth_init_head s = nullptr →
  walk init fuel p s = Ok (tt, mkInit (entries s) nullptr (zth_init_tail s) (executed s ++ filter (λ x, has_f x = true) l)).
Proof.
  intros Hi. revert fuel p s. induction l as [|x l IH]; intros fuel p s Ho C L Eh.
  - simpl in C. subst p. rewrite filter_nil, (right_id_L [] (++)). destruct s, fuel; simpl in *; by subst.
  - destruct C as (-> & n & E & C). destruct fuel as [|fuel]; [simpl in L; lia|]. simpl.
    erewrite bind_Ok by (unfold entry_at; by rewrite E). cbn [f next].
    assert (when (has_f x) (call_f init x) s = Ok (tt, mkInit (entries s) nullptr (zth_init_tail s)
      (executed s ++ filter (λ x, has_f x = true) [x]))) as W.
    { unfold when, call_f. destruct (has_f x) eqn:F.
      - rewrite filter_cons_True by done. erewrite bind_Ok by done. rewrite Eh. apply perform_all_run; [apply Ho; auto with zth|by apply Hi].
      - rewrite filter_cons_False by congruence. rewrite filter_nil, (right_id_L [] (++)). destruct s; simpl in *; by subst. }
    rewrite (bind_Ok _ _ _ _ _ W). rewrite IH; cbn [entries zth_init_head zth_init_tail executed]; [|intros y Hy; apply Ho; auto with zth|done|simpl in L; lia|done].
    by rewrite <-(assoc_L (++)), <-filter_app.
Qed.

Lemma zth_init_run depth fuel l pending s :
  (2 ≤ depth)%nat → only_init l → (length l ≤ fuel)%nat → ordered l pending s →
  ∃ s', zth_init depth fuel s = Ok (tt, s') ∧ ordered l [] s' ∧ executed s' = executed s ++ filter (λ x, has_f x = true) pending.
Proof.
  intros Hd Ho L [Nd [fin Ef] C Eh Et]. destruct depth as [|[|depth]]; [lia..|].
  assert (∀ s, zth_init_head s = nullptr → zth_init (S depth) fuel s = Ok (tt, s)) as Hi.
  { intros s0 E0. simpl. erewrite bind_Ok by done. by rewrite E0. }
  cbn [zth_init]. erewrite bind_Ok by done. rewrite Eh. destruct pending as [|x k].
  - exists s. split; [done|]. split; [|by rewrite filter_nil, (right_id_L [] (++))]. split; [done|by exists fin|done|done|done].
  - cbn [head]. erewrite bind_Ok by done. rewrite Ef in C. destruct (chain_suffix _ _ _ _ C) as [q Cq]. pose proof Cq as [-> _].
    change (walk _ fuel (Some x)) with (walk (zth_init (S depth) fuel) fuel (Some x)).
    rewrite (walk_run _ fuel (Some x) (x :: k)); cbn [entries zth_init_head zth_init_tail executed]; [|done| |done|rewrite Ef, length_app in L; simpl in *; lia|done].
    + eexists. split; [done|]. split; [|done]. split; cbn; [done|exists l; by rewrite (right_id_L [] (++))|by rewrite Ef|done|done].
    + intros y Hy. apply Ho. rewrite Ef. auto with zth.
Qed.

Lemma acts_run depth fuel l all pending s :
  (2 ≤ depth)%nat → (length (all ++ registered l) ≤ fuel)%nat → only_init (all ++ registered l) → NoDup (all ++ registered l) →
  ordered all pending s →
  ∃ s', acts depth fuel l s = Ok (tt, s') ∧ executed s' = executed s ++ filter (λ x, has_f x = true) (handled pending l).
Proof.
  intros Hd. revert all pending s. induction l as [|[x|] l IH]; intros all pending s L Ho Nd O; simpl in *.
  - exists s. by rewrite filter_nil, (right_id_L [] (++)).
  - destruct (register_run all pending x s) as (s1 & R & O1 & E1); [by apply NoDup_middle_inv in Nd; set_solver|done|].
    rewrite (bind_Ok _ _ _ _ _ R). rewrite cons_middle, (assoc_L (++)) in L, Ho, Nd. rewrite <-E1.
    by apply (IH (all ++ [x]) (pending ++ [x]) s1).
  - destruct (zth_init_run depth fuel all pending s) as (s1 & R & O1 & E1); [done|intros y Hy; apply Ho; auto with zth|rewrite length_app in L; lia|done|].
    rewrite (bind_Ok _ _ _ _ _ R). destruct (IH all [] s1) as (s2 & R2 & E2); [done..|]. exists s2. split; [done|].
    by rewrite E2, E1, filter_app, (assoc_L (++)).
Qed.

(** Whatever the program registers and whenever it initializes, the functions of the entries
    that were registered before the last initialization have been executed, in the
    order of registration, each once. *)
Theorem init_once_in_order depth fuel l :
  (2 ≤ depth)%nat → (length (registered l) ≤ fuel)%nat → only_init (registered l) → NoDup (registered l) →
  ∃ s, acts depth fuel l empty = Ok (tt, s) ∧ executed s = filter (λ x, has_f x = true) (handled [] l) ∧
    NoDup (executed s) ∧ handled [] l `prefix_of` registered l.
Proof.
  intros Hd L Ho Nd. destruct (acts_run depth fuel l [] [] empty) as (s & R & E); [done..| |].
  { split; [constructor|by exists []|done..]. }
  exists s. split; [exact R|]. split; [exact E|]. destruct (handled_prefix l []) as [k Ek]. split; [|by exists k].
  rewrite E. apply NoDup_filter. simpl in Ek. rewrite Ek in Nd. by apply NoDup_app in Nd as [Nd _].
Qed.
End Init.

(** ** Examples *)

(** The functions of 2 and 3 call [zth_init]; 3 has none in the second run. *)
Lemma init_once_in_order_witness :
  let body x := match x with 2 | 3 => [CallsInit] | _ => [] end%positive in
  let program := [Registers 1; Registers 2; CallsInit; Registers 3; CallsInit; CallsInit; Registers 4]%positive in
  ∃ s, acts body (λ _, true) 2 4 program empty = Ok (tt, s) ∧ executed s = [1; 2; 3]%positive.
Proof.
  intros body program. destruct (init_once_in_order body (λ _, true) 2 4 program) as (s & R & E & _).
  - lia.
  - done.
  - intros x Hx a Ha. cbn in Hx. rewrite !elem_of_cons in Hx. destruct Hx as [-> |[-> |[-> |[-> |Hx]]]]; cbn in Ha;
      rewrite ?list_elem_of_singleton in Ha; try done; by apply elem_of_nil in Ha || by apply elem_of_nil in Hx.
  - apply (bool_decide_unpack _). vm_compute. reflexivity.
  - exists s. split; [exact R|exact E].
Defined.

(** An entry that is registered by a function which is not that of the last entry is executed
    right then, as it is put at the end of the list, and again by the next call. *)
Lemma init_twice :
  let body x := match x with 1 => [Registers 3] | _ => [] end%positive in
  match acts body (λ _, true) 2 9 [Registers 1; Registers 2; CallsInit; CallsInit]%positive empty with
  | Ok (_, s) => executed s = [1; 2; 3; 3]%positive
  | Fault _ => False
  end.
Proof. vm_compute. done. Qed.
