(* ===== verification/Io.v ===== *)
(** * Input and output (libzth/io.h, src/io.cpp)

    [read] and [write] of a file descriptor that do not block the worker: the fiber polls
    first, with [zth::poll] of Poller.v, unless the descriptor does not block anyway.
    What the system and the poller answer are arguments. *)

From stdpp Require Import base list.
From Stdlib Require Import ZArith Lia.
From S2P Require Import Prelude Fiber Poller.

Local Open Scope Z_scope.

(** How far a call gets: the system call is made, of which the result is returned; -1 is
    returned, with this [errno], or that of [fcntl]; or the fiber still waits. *)
Inductive io_step := Calls | Fails (errno : option Z) | Waits.

(** [zth::poll] without time-out, given the answers of the poller: [errno], and the
    pollables that were reported. *)
Fixpoint poll (answers : list (Z * list Pollable)) : option Z :=
  match answers with
  | [] => None
  | (err, result) :: l => match poll_one (-1) err result with Some e => Some e | None => poll l end
  end.

Section Io.
Context (O_NONBLOCK : Z).

(** [flags] is what [fcntl] returns. *)
Definition transfer (flags : option Z) (answers : list (Z * list Pollable)) : io_step :=
  match flags with
  | None => Fails None
  | Some flags =>
      if negb (Z.land flags O_NONBLOCK =? 0) then Calls
      else
        match poll answers with
        | None => Waits
        | Some errno => if negb (errno =? 0) then Fails (Some errno) else Calls
        end
  end.

(** What is polled, of the descriptor [fd]. *)
Definition PollableFd (fd events : Z) : Pollable := mkPollable nullptr fd events 0.

Definition read (fd : Z) (flags : option Z) (polls : Pollable → list (Z * list Pollable)) : io_step :=
  transfer flags (polls (PollableFd fd PollIn)).
Definition write (fd : Z) (flags : option Z) (polls : Pollable → list (Z * list Pollable)) : io_step :=
  transfer flags (polls (PollableFd fd PollOut)).

Definition zth_read := read.
Definition zth_write := write.

(** The answers on which is polled again. *)
Definition retried (a : Z * list Pollable) : Prop := snd a = [] ∧ (fst a = EINTR ∨ fst a = EAGAIN).

(** The answer that a descriptor can be used: the first pollable has one of its events. *)
Definition reports (a : Z * list Pollable) : Prop :=
  ∃ p l, snd a = p :: l ∧ Z.land (revents p) (events p) ≠ 0.

Lemma poll_one_cases a :
  match poll_one (-1) (fst a) (snd a) with
  | None => retried a
  | Some 0 => reports a ∨ snd a = [] ∧ fst a = 0
  | Some _ => ¬ retried a ∧ ¬ reports a
  end.
Proof.
  destruct a as [err [|p l]]; unfold poll_one, retried, reports; cbn [fst snd].
  - destruct ((err =? EINTR) || (err =? EAGAIN)) eqn:E; cbn [andb Z.eqb].
    + apply orb_true_iff in E as [E|E]; apply Z.eqb_eq in E; naive_solver.
    + apply orb_false_iff in E as [E1 E2]. apply Z.eqb_neq in E1, E2. destruct err; [by right|..]; naive_solver.
  - destruct (Z.land (revents p) (events p) =? 0) eqn:E.
    + apply Z.eqb_eq in E. change EIO with 5. cbn. naive_solver.
    + apply Z.eqb_neq in E. left. by exists p, l.
Qed.

(** The system call is made only for a descriptor that does not block, or after the poller
    reported it. *)
Lemma transfer_calls flags answers :
  Forall (λ a, snd a = [] → fst a ≠ 0) answers → transfer flags answers = Calls →
  ∃ fl, flags = Some fl ∧
    (Z.land fl O_NONBLOCK ≠ 0 ∨ ∃ l a k, answers = l ++ a :: k ∧ Forall retried l ∧ reports a).
Proof.
  intros F. unfold transfer. destruct flags as [fl|]; [|done]. intros E. exists fl. split; [done|].
  destruct (Z.land fl O_NONBLOCK =? 0) eqn:En; cbn [negb] in E; [right|left; by apply Z.eqb_neq].
  destruct (poll answers) as [e|] eqn:Ep; [|done]. destruct (e =? 0) eqn:Ee; [|done]. apply Z.eqb_eq in Ee as ->. clear E.
  induction F as [|[err res] answers Ha F IH]; [done|]. simpl in Ep. pose proof (poll_one_cases (err, res)) as C. cbn [fst snd] in C.
  destruct (poll_one (-1) err res) as [z|].
  - simplify_eq. destruct C as [C|[C1 C2]]; [|by destruct (Ha C1)]. by exists [], (err, res), answers.
  - destruct (IH Ep) as (l & a & k & -> & Fl & Ra). exists ((err, res) :: l), a, k. split; [done|]. split; [by constructor|done].
Qed.

(** An end of file that is reported as a hang-up only is an error, where the system call
    returns 0. *)
Lemma read_hang_up fd flags :
  Z.land flags O_NONBLOCK = 0 →
  read fd (Some flags) (λ p, [(0, [set_revents (revents_of POLLHUP) p])]) = Fails (Some EIO).
Proof. intros E. unfold read, transfer. rewrite E. done. Qed.
End Io.
